(* ===== verification/_CoqProject ===== *)
-Q . S2P
Prelude.v
Py.v
Correlation.v
Journal.v
Store.v
Feed.v
Dashboard.v
TradingControl.v
CircuitBreaker.v
ExitOwner.v
Epoch.v
Proposal.v
Command.v
Nonce.v
Risk.v
Approval.v
Ledger.v
Reconciler.v
Schedule.v
Authority.v
Saga.v
Cancel.v
StrategyControl.v
StrategyStore.v
StrategyService.v
StrategyAck.v
CloseStore.v
Close.v
CloseInv.v
CloseRules.v
CloseWrites.v
CloseDispatch.v
CloseStep.v
CloseClaims.v
CloseSafety.v
Bracket.v
Protection.v
ProtectionRows.v
ProtectionRun.v
ProtectionSteps.v
ProtectionSafety.v
