(* ===== verification/Prelude.v ===== *)
(** * MMR: a verification library for the trading platform's authority core

    MMR is a trading platform in Python.  One process, the trader, owns every
    decision about money: it keeps proposals, commands, pauses, exits and the
    controller's lease in one DuckDB database, journals every change as a domain
    event in the same transaction, and is the only one that talks to the broker.
    The web command center and the AI services read snapshots and follow the
    journal.  This library models that core, from the journal up to the sagas that
    place orders, and proves what the rest of the platform relies on.

    ** The files

    - [Prelude]: Python outcomes ([res], the exceptions as [exc]), the state monad
      [M] with [try_except] and [transaction], the lens class [HasTable] through
      which each component sees its own table of the database, tactics, and the
      list lemmas behind [ORDER BY], [MAX] and [DELETE].
    - [Py]: the parts of the standard library the code leans on: instants and ISO
      text, the calendar, JSON values and their canonical text, dicts, floats.
    - [Correlation] ([trader/trading/order_correlation.py]): the reference an order
      carries at the broker.
    - [Journal] ([trader/data/domain_journal.py], [trader/domain/events.py]): the
      journal with [mutate], [mutate_batch_work], compaction and restarts.
    - [Store]: how a store's table lives inside the journal's transaction.
    - [Feed] ([trader/domain/feed_service.py], [snapshot_service.py],
      [trader/data/journal_snapshot.py]): the fenced snapshot, the long poll and
      the wire format.
    - [Dashboard] ([web/command_center/state.py], [bridge.py]): the read model.
    - [TradingControl], [CircuitBreaker], [ExitOwner], [Epoch], [Nonce], [Risk]:
      the pause gate, the automation breaker, the exit registry, the controller's
      epoch and leadership, preflight nonces, risk decisions (the modules of the
      same names under [trader/trading], [trader/automation] and [trader/ai]).
    - [Proposal] ([trader/data/proposal_repository.py],
      [trader/trading/proposal_command_service.py]): the proposal authority.
    - [Command], [Approval], [Reconciler]
      ([trader/trading/command_coordinator.py]): the command ledger and
      coordinator, the approval saga, and the outcome reconciler.
    - [Ledger], [Schedule], [Authority]: what all of them keep together.  [Ledger]
      gives the type of a ledger row and, through [Authority_property] and
      [World_invariant], what any call of the coordinator or the saga preserves;
      [Schedule] does the same for the reconciler and follows one command through
      its attempts; [Authority.steps] is the whole trader as a step relation.
    - [Saga], [Cancel], [StrategyControl] ([trader/trading/command_coordinator.py]):
      the steps every saga is made of, the cancel sagas, and the forwarding of
      strategy commands with [acknowledge_strategy_state].
    - [StrategyStore], [StrategyService], [StrategyAck]
      ([trader/strategy/strategy_revisions.py], [strategy_runtime.py]): the strategy
      service's own database, the commands it applies with the configuration file it
      swaps, its recovery at startup, and the delivery of its states to the trader.
    - [CloseStore], [Close] ([trader/trading/liquidation_service.py],
      [liquidation_worker.py], [order_correlation.py]): the close machine, its rows
      and one [Definition] per method of [LiquidationService], from [start] and
      [rescan] down to the single order call [transmit].  [CloseInv] is the
      invariant of its rows; [CloseRules] the calculus ([keeps], [commits], [post])
      its steps are proved with; [CloseWrites], [CloseDispatch], [CloseStep] and
      [CloseClaims] follow the code from the writes of a row up to the entry points
      and end in [close_step], the machine as a step relation; [CloseSafety] states
      what it promises and runs one flatten.
    - [Bracket], [Protection] ([trader/automation/protective_order_saga.py]): the
      bracket of an automated entry in decimal arithmetic, and the saga that sends it,
      follows it through the broker's events and hands it over to the close machine:
      its rows, its store and one [Definition] per method.  [ProtectionRows] is the life
      of one row ([row_step]) with its invariant; [ProtectionRun] one write of the
      table; [ProtectionSteps] the rules ([runs]) that take them through every
      operation up to [saga_step]; [ProtectionSafety] states what the saga promises and
      runs one entry against an interfering thread.

    A Python class is a Section over a database type [T] that has its tables
    ([HasTable]), a method is a [Definition] of the same name (without its leading
    underscore) in the monad [M] over the state it can reach, and every raised
    exception the callers can tell apart is a constructor of [exc].  Tables are
    finite maps by primary key, or lists where the order of rows counts.  [NonceGate]
    and [AuditSink] are the interfaces the coordinator is written against;
    [preflight_gate] and [command_audit_sink] are their production instances.

    ** What is shown

    - Journal: every reachable journal has increasing cursors, unique ids and
      gap-free revisions, and its ledger agrees with its events; a retried event is
      a no-op or a conflict; a new one commits exactly once and wakes the readers;
      compaction keeps what it promises, also when it fails.
    - Feed and Dashboard: a reader misses no event, a snapshot is fenced from the
      events after it, the wire format round-trips, and a dashboard that installs a
      snapshot and follows the feed shows exactly the ledger.
    - Gates: a paused account stays paused until it is resumed at its revision; the
      breaker trips exactly when its rules say and stays tripped; a position has at
      most one exit owner; at most one controller holds the epoch; a nonce
      authorizes one claim; a risk decision never changes.
    - Commands: of any number of concurrent submissions one dispatches; a handler
      runs once and its result is what every retry is answered with.
    - Approval: the broker is called only after every guard, with the claim
      committed, and whatever it answers the proposal, the command and the receipt
      agree.
    - Reconciler: a command of unknown outcome ends exactly when a rule of
      [Reconciler.evidence] has its evidence, never because time passed; its
      attempts follow their table and the operator is alerted once.
    - Authority: an approval command sends at most one order, however often it is
      submitted and whatever happens while the broker call runs; every ledger row
      has the outcome and the error code of its state.
    - Cancel: each branch of one cancel, with its ceremony and its submission in one
      transaction; a batch cancels every distinct order once and hides no failure.
    - Strategy control: each branch of forwarding; announcements are idempotent by
      revision.  On the other side, with every durable write a place where an I/O
      error or the death of the process may strike ([fault]): state revisions and
      outbox rows, control revisions and committed receipts, stay in lockstep; a
      receipt is final; a parameter update ends whole or undone after recovery; no
      state is lost between the two services, and a trader that answers hears of
      every one.  [StrategyAck.stale_row_overtakes] runs a defect.
    - Close machine: whatever the broker answers and wherever the process dies, a
      position has at most one reduce that may be live, no order goes out before its
      row or twice, an order that may be live always has a root that watches it or
      will inherit it, the roots that act are exactly the active owners of
      [ExitOwner], a close ends only on broker evidence read while broker changes
      are held, and an escalation is the last one.
    - Protective saga: with other threads writing between any read and any write, no
      write is lost and no fill taken back; an entry filled in full is protected,
      exited, owned by a close or flattened; a failure stays listed; a bracket, which
      always ends in its stop, goes out once and under its committed row; an event
      counts once; an unconfirmed send is written off on evidence only.
      [rejected_after_a_fill] and [cancelled_after_a_fill] run two cases the module's
      own promise does not cover.

    ** Modelling choices and bounds

    - Instants are UTC microseconds in [Z]; a naive datetime is a constructor of its
      own, so that the strict and the lenient [_as_utc] differ as in the code.
    - Floats are IEEE binary64 values of [SpecFloat]; their [repr] is an argument
      (or kept as text inside JSON).  Text is ASCII where the code changes or
      measures it.  SHA-256 is an argument; no theorem uses more than that equal
      requests have equal hashes.
    - The trader is the database's only writer: a transaction is one step, and the
      interleavings that exist (readers between two reads, callers between lookup
      and claim, ports that change the world while they run) are step relations or
      arguments.
    - Clocks, stamps and everything outside [src] (broker, quotes, strategy service,
      risk gate, evidence readers, a failing read) are arguments, usually a record
      of ports; a theorem that needs a law of a port names it as a hypothesis and
      its witness instantiates it.
    - A port of the close machine ([Close.Ports]) is a function of the number of the
      call, so it may answer differently each time, raise, or raise [ProcessDied],
      which no handler catches: every call is a place where the process may die.  A
      transaction rolls back as a whole.  All entry points run on one worker
      ([liquidation_worker.py]), hence one after the other.  Its theorems assume of
      the broker only that a snapshot lists a contract once, which the primary key
      of [broker_positions] gives, and start from an empty journal, so without rows
      of the schema before migration 36.
    - The protective saga is the one component written by several threads.  Its model
      asks [Protection.others] before each call of the database what the others did to
      it; the theorems hold for all [lawful_others], whose rows move along [row_step]
      too, and [service_is_lawful] shows that threads of the same service are.  A
      [Decimal] is finite (coefficient and exponent) and rounds as the default context
      does; a row's JSON payload is kept as its record, with the fields of [SagaState]
      in groups.
    - Fuel: [reserve_id] tries 10,000 ids as the code does; [wait_for_cursor_after]
      is given its list of wakeups; [Close.advance_conid] is given one escalation,
      and [CloseSafety.escalation_ends] shows that more changes nothing; [CloseStore.follow]
      visits no root twice, so the number of roots bounds it.  Nothing else recurses
      without structure.

    ** Not modelled

    Rendering, RPC transport and request models, logging, threads and retry loops of
    the drivers, and [LiquidationService.liquidate], the ledger transition around
    [start].  The broker ingest, the entry point of an automated intent and the dispatch
    guard's own rules only appear as ports: they are written against the live broker
    client and its cache, which are not in the repository.  The code of strategies,
    research, AI calls and data providers is numeric or I/O code.  The manifest lists
    them one by one. *)
From stdpp Require Import base tactics gmap sets list strings sorting.
From Stdlib Require Import ZArith Lia.

Open Scope Z_scope.

(** ** Python outcomes: a value or a raised exception *)

(** The exceptions of the modelled modules.  A constructor carries the fields
    a caller can branch on; human-readable messages are not kept. *)
Inductive exc : Type :=
  (* built-in exceptions *)
  | ValueError | KeyError | TypeError | AssertionError | ZeroDivisionError
  | RuntimeError (why : string)
  (* a DuckDB constraint violation on the named table *)
  | ConstraintException (table : string)
  (* a DuckDB statement on a table that does not exist *)
  | CatalogException
  (* any other exception, raised by code outside the model *)
  | OtherException (tag : string)
  (* trader/data/domain_journal.py, trader/domain/*.py *)
  | EventIdentityConflict (event_id : string)
  | SnapshotNotReady
  | CursorExpired (after_cursor oldest_retained_cursor : Z)
  (* trader/trading/trading_control.py *)
  | PauseStateUnavailable (account_id : string)
  | PauseRevisionConflict (account_id : string) (current_revision : Z)
  | TradingPausedError (account_id : string)
  (* trader/trading/circuit_breaker.py *)
  | BreakerResetRefused (why : string)
  (* trader/trading/exit_owner.py *)
  | ExitInProgress (root_id : string)
  (* trader/automation/controller_epoch.py *)
  | EpochRefused (code : string)
  (* trader/ai/rpc_clients.py, trader/ai/leadership.py *)
  | RpcRefused (code : string)
  | RpcNotSent (code : string)
  | RpcOutcomeUnknown (code : string)
  | NotLeader (code : string)
  | IndexError
  (* trader/trading/proposal_command_service.py *)
  | ProposalCreationRefused (code : string)
  | ConcurrentProposalChange
  (* trader/trading/command_coordinator.py *)
  | ApprovalClaimFailed (code : string)
  | IllegalCommandTransition (command_id from_state to_state : string)
  | BrokerRejectedError (why : string)
  | CommandValidationError (code message : string)
  | OperatorSettleRefused (code : string)
  (* trader/trading/dispatch_guard.py, trader/data/broker_state.py *)
  | DispatchGuardError (code : string) (retry : bool)
  | BrokerRiskSnapshotError (code : string)
  (* trader/trading/risk_producer.py *)
  | RiskDecisionImmutable (command_id : string)
  (* trader/messaging/typed_rpc.py: the server answered [ok=False] *)
  | TypedRpcRemoteError (code : string)
  (* trader/strategy/strategy_runtime.py *)
  | ControlRevisionConflict (strategy_name : string) (current_control_revision : Z)
  | StartupConfigRecoveryError (failures : list Z)
  (* trader/trading/liquidation_service.py *)
  | LiquidationBusy | BrokerChangesBusy | RunStateError | StaleDispatch
  | DispatchRefused (code : string)
  | LiquidationRefused (code : string)
  (* trader/automation/protective_order_saga.py *)
  | SagaRevisionConflict | BrokerTraceFound
  (* a call that timed out or whose connection broke *)
  | TimeoutError | ConnectionError
  (* the process died: no handler runs *)
  | ProcessDied.

Global Instance exc_eq_dec : EqDecision exc.
Proof. solve_decision. Defined.

Inductive res (A : Type) : Type :=
  | Ok (a : A)
  | Raise (e : exc).
Arguments Ok {A} a.
Arguments Raise {A} e.

Global Instance res_eq_dec `{EqDecision A} : EqDecision (res A).
Proof. solve_decision. Defined.

Global Instance res_fmap : FMap res := λ A B f r,
  match r with Ok a => Ok (f a) | Raise e => Raise e end.

(** A stateful Python call: the state survives a raised exception, as Python
    objects do; only a database transaction rolls its part back. *)
Definition M (S A : Type) : Type := S → res A * S.

Global Instance M_ret S : MRet (M S) := λ A a s, (Ok a, s).
Global Instance M_bind S : MBind (M S) := λ A B f m s,
  match m s with
  | (Ok a, s') => f a s'
  | (Raise e, s') => (Raise e, s')
  end.

Definition raise {S A} (e : exc) : M S A := λ s, (Raise e, s).
Definition get {S} : M S S := λ s, (Ok s, s).
Definition gets {S A} (f : S → A) : M S A := λ s, (Ok (f s), s).
Definition put {S} (s : S) : M S unit := λ _, (Ok tt, s).
Definition modify {S} (f : S → S) : M S unit := λ s, (Ok tt, f s).

(** [if not b: raise e] *)
Definition require {S} (b : bool) (e : exc) : M S unit :=
  if b then mret tt else raise e.

(** [try: m except E: h], where [h e] is [None] for an exception the clause
    does not name. *)
Definition try_except {S A} (m : M S A) (h : exc → option (M S A)) : M S A := λ s,
  match m s with
  | (Ok a, s') => (Ok a, s')
  | (Raise e, s') =>
      match h e with
      | Some k => k s'
      | None => (Raise e, s')
      end
  end.

(** [except Exception]: the death of the process is not one. *)
Definition except {S A} (m : M S A) (h : exc → M S A) : M S A :=
  try_except m (λ e, match e with ProcessDied => None | _ => Some (h e) end).

(** Run a computation on a part of the state. *)
Definition zoom {S P A} (getp : S → P) (setp : P → S → S) (m : M P A) : M S A := λ s,
  let (r, p) := m (getp s) in (r, setp p s).

(** [for x in xs: f(x)] *)
Fixpoint for_each {S A} (xs : list A) (f : A → M S unit) : M S unit :=
  match xs with
  | [] => mret tt
  | x :: xs' => f x ;; for_each xs' f
  end.

(** [[f(x) for x in xs]], left to right *)
Fixpoint map_each {S A B} (xs : list A) (f : A → M S B) : M S (list B) :=
  match xs with
  | [] => mret []
  | x :: xs' => y ← f x; ys ← map_each xs' f; mret (y :: ys)
  end.

(** [DuckDBConnection.transaction(fn)]: one BEGIN, then COMMIT, or ROLLBACK and
    re-raise. *)
Definition transaction {S A} (fn : M S A) : M S A := λ s,
  match fn s with
  | (Ok a, s') => (Ok a, s')
  | (Raise e, _) => (Raise e, s)
  end.

(** Read the outcome or the final state of a run. *)
Definition outcome {S A} (m : M S A) (s : S) : res A := (m s).1.
Definition final {S A} (m : M S A) (s : S) : S := (m s).2.

(** *** Inversion lemmas for the monad *)
Section monad.
Context {S A B : Type}.
Implicit Types (s : S).

Lemma bind_unfold (m : M S A) (k : A → M S B) s :
  (m ≫= k) s = match m s with (Ok a, s') => k a s' | (Raise e, s') => (Raise e, s') end.
Proof. done. Qed.

Lemma bind_ok (m : M S A) (k : A → M S B) s b s' :
  (m ≫= k) s = (Ok b, s') →
  ∃ a s1, m s = (Ok a, s1) ∧ k a s1 = (Ok b, s').
Proof. rewrite bind_unfold. destruct (m s) as [[a|e] s1]; naive_solver. Qed.

Lemma bind_raise (m : M S A) (k : A → M S B) s e s' :
  (m ≫= k) s = (Raise e, s') →
  m s = (Raise e, s') ∨ ∃ a s1, m s = (Ok a, s1) ∧ k a s1 = (Raise e, s').
Proof. rewrite bind_unfold. destruct (m s) as [[a|e'] s1]; naive_solver. Qed.

Lemma bind_step (m : M S A) (k : A → M S B) s a s1 :
  m s = (Ok a, s1) → (m ≫= k) s = k a s1.
Proof. intros H. by rewrite bind_unfold, H. Qed.

Lemma require_ok b e s u s' :
  require b e s = (Ok u, s') → b = true ∧ s' = s.
Proof. destruct b; unfold require; [intros [= <- <-]|intros [=]]; done. Qed.

Lemma ret_run (a : A) s : (mret a : M S A) s = (Ok a, s).
Proof. done. Qed.
Lemma bind_ret (a : A) (k : A → M S B) s : (mret a ≫= k) s = k a s.
Proof. done. Qed.
Lemma bind_gets (f : S → A) (k : A → M S B) s : (gets f ≫= k) s = k (f s) s.
Proof. done. Qed.
Lemma bind_modify (f : S → S) (k : unit → M S B) s : (modify f ≫= k) s = k tt (f s).
Proof. done. Qed.
Lemma bind_raised e (k : A → M S B) s : (raise e ≫= k) s = (Raise e, s).
Proof. done. Qed.
Lemma bind_require b e (k : unit → M S B) s :
  (require b e ≫= k) s = if b then k tt s else (Raise e, s).
Proof. by destruct b. Qed.
Lemma bind_if (b : bool) (m1 m2 : M S A) (k : A → M S B) s :
  ((if b then m1 else m2) ≫= k) s = if b then (m1 ≫= k) s else (m2 ≫= k) s.
Proof. by destruct b. Qed.
Lemma bind_assoc {C} (m : M S C) (f : C → M S A) (k : A → M S B) s :
  ((m ≫= f) ≫= k) s = (m ≫= λ c, f c ≫= k) s.
Proof. unfold mbind, M_bind. by destruct (m s) as [[c|e] s1]. Qed.

Lemma zoom_unfold {P} (getp : S → P) (setp : P → S → S) (m : M P A) s :
  zoom getp setp m s = let (r, p) := m (getp s) in (r, setp p s).
Proof. done. Qed.
End monad.

(** Run a computation one statement at a time, by rewriting. *)
Create Rewrite HintDb mmr_run.
#[export] Hint Rewrite @bind_ret @bind_gets @bind_modify @bind_raised @bind_require @bind_assoc
  : mmr_run.
Ltac run := autorewrite with mmr_run; cbn beta iota.

(** An invariant of a stateful call: it holds afterwards whatever the outcome. *)
Definition preserves {S A} (I : S → Prop) (m : M S A) : Prop :=
  ∀ s, I s → I (final m s).

Section preserves.
Context {S : Type} (I : S → Prop).

Lemma preserves_ret {A} (a : A) : preserves I (mret a).
Proof. intros s Hs. exact Hs. Qed.
Lemma preserves_raise {A} e : preserves I (@raise S A e).
Proof. intros s Hs. exact Hs. Qed.
Lemma preserves_gets {A} (f : S → A) : preserves I (gets f).
Proof. intros s Hs. exact Hs. Qed.
Lemma preserves_require b e : preserves I (require b e).
Proof. destruct b; [apply preserves_ret|apply preserves_raise]. Qed.
Lemma preserves_bind {A B} (m : M S A) (k : A → M S B) :
  preserves I m → (∀ a, preserves I (k a)) → preserves I (m ≫= k).
Proof.
  unfold preserves, final. intros Hm Hk s Hs. rewrite bind_unfold.
  specialize (Hm s Hs). destruct (m s) as [[a|e] s1]; [by apply Hk | done].
Qed.
Lemma preserves_for_each {A} (xs : list A) (f : A → M S unit) :
  (∀ x, x ∈ xs → preserves I (f x)) → preserves I (for_each xs f).
Proof.
  induction xs as [|x xs IH]; intros Hf; simpl; [apply preserves_ret|].
  apply preserves_bind; [apply Hf; set_solver|]. intros _. apply IH. set_solver.
Qed.
Lemma preserves_map_each {A B} (xs : list A) (f : A → M S B) :
  (∀ x, preserves I (f x)) → preserves I (map_each xs f).
Proof.
  intros Hf. induction xs as [|x xs IH]; simpl; [apply preserves_ret|].
  apply preserves_bind; [apply Hf|]. intros y.
  apply preserves_bind; [apply IH|]. intros ys. apply preserves_ret.
Qed.
Lemma preserves_modify (f : S → S) : (∀ s, I s → I (f s)) → preserves I (modify f).
Proof. intros Hf s Hs. by apply Hf. Qed.
Lemma preserves_transaction {A} (m : M S A) : preserves I m → preserves I (transaction m).
Proof.
  intros Hm s Hs. specialize (Hm s Hs). unfold final, transaction in *.
  by destruct (m s) as [[a|e] s'].
Qed.
Lemma preserves_get_bind {A B} (f : S → A) (k : A → M S B) :
  (∀ s, I s → I (final (k (f s)) s)) → preserves I (gets f ≫= k).
Proof. intros H s Hs. apply (H s Hs). Qed.
Lemma preserves_try {A} (m : M S A) h :
  preserves I m → (∀ e k, h e = Some k → preserves I k) →
  preserves I (try_except m h).
Proof.
  unfold preserves, final, try_except. intros Hm Hh s Hs.
  specialize (Hm s Hs). destruct (m s) as [[a|e] s1]; [done|].
  destruct (h e) eqn:E; [by eapply Hh|done].
Qed.
End preserves.

(** ** What a call answers and leaves *)

(** Run [m] from [s]; [Q] holds of what it answers and leaves. *)
Definition post {S A} (m : M S A) (s : S) (Q : res A → S → Prop) : Prop := Q (outcome m s) (final m s).

Lemma post_bind {S A B} (m : M S A) (k : A → M S B) s (Q : res B → S → Prop) :
  post m s (λ r s', match r with Ok a => post (k a) s' Q | Raise e => Q (Raise e) s' end) → post (m ≫= k) s Q.
Proof. unfold post, outcome, final. rewrite bind_unfold. by destruct (m s) as [[a|e] s']. Qed.

Lemma post_weaken {S A} (m : M S A) s (Q Q' : res A → S → Prop) :
  post m s Q → (∀ r s', Q r s' → Q' r s') → post m s Q'.
Proof. unfold post. auto. Qed.

Lemma post_except {S A} (m : M S A) h s (Q : res A → S → Prop) :
  post m s (λ r s', match r with Ok _ => Q r s' | Raise e => Q r s' ∧ post (h e) s' Q end) → post (except m h) s Q.
Proof.
  unfold post, outcome, final, except, try_except. destruct (m s) as [[a|e] s']; simpl; [done|]. intros [H1 H2].
  by destruct e.
Qed.

Lemma post_gets {S A} (f : S → A) s (Q : res A → S → Prop) : Q (Ok (f s)) s → post (gets f) s Q.
Proof. done. Qed.
Lemma post_ret {S A} (a : A) s (Q : res A → S → Prop) : Q (Ok a) s → post (mret a) s Q.
Proof. done. Qed.
Lemma post_require {S} (b : bool) e s (Q : res unit → S → Prop) :
  (if b then Q (Ok tt) s else Q (Raise e) s) → post (require b e) s Q.
Proof. by destruct b. Qed.

Lemma post_raise {S A} e s (Q : res A → S → Prop) : Q (Raise e) s → post (raise e) s Q.
Proof. done. Qed.
Lemma post_try {S A} (m : M S A) h s (Q : res A → S → Prop) :
  post m s (λ r s', match r with Ok _ => Q r s' | Raise e => match h e with Some k => post k s' Q | None => Q r s' end end) →
  post (try_except m h) s Q.
Proof. unfold post, try_except, outcome, final. destruct (m s) as [[a|e] s']; simpl; [done|]. by destruct (h e). Qed.

Lemma post_preserves {S A} (I : S → Prop) (m : M S A) s : preserves I m → I s → post m s (λ _, I).
Proof. unfold post. auto. Qed.

Lemma preserved_fold {S A} (I : S → Prop) (f : S → A → S) l s :
  (∀ s a, I s → I (f s a)) → I s → I (fold_left f l s).
Proof. intros Hf. revert s. induction l as [|a l IH]; simpl; auto. Qed.

Create HintDb mmr.
#[export] Hint Resolve preserves_ret preserves_raise preserves_gets preserves_require
  preserves_bind preserves_try preserves_transaction : mmr.

(** ** Lenses: the tables a component owns inside the database

    A component states its operations against any table record [T] that has
    its table; the whole database discharges the interface once per table. *)
Class HasTable (T tbl : Type) : Type := {
  tget : T → tbl;
  tset : tbl → T → T;
  tget_tset : ∀ x t, tget (tset x t) = x;
  tset_tget : ∀ t, tset (tget t) t = t;
  tset_tset : ∀ x y t, tset x (tset y t) = tset x t;
}.

(** Two tables of one database do not overlap. *)
Class Disjoint_tables (T a b : Type) `{HasTable T a, HasTable T b} : Prop := {
  tget_tset_other : ∀ (x : b) (t : T), tget (tbl := a) (tset x t) = tget t;
  tget_tset_other_r : ∀ (x : a) (t : T), tget (tbl := b) (tset x t) = tget t;
}.

(** A type is its own one-table database. *)
Global Instance HasTable_self T : HasTable T T.
Proof. by refine {| tget := id; tset := λ x _, x |}. Defined.

(** Two tables side by side. *)
Global Instance HasTable_fst A B : HasTable (A * B) A.
Proof. by refine {| tget := fst; tset := λ x t, (x, t.2) |}; intros; try destruct t. Defined.
Global Instance HasTable_snd A B : HasTable (A * B) B.
Proof. by refine {| tget := snd; tset := λ x t, (t.1, x) |}; intros; try destruct t. Defined.

(** Three tables and more: to the right. *)
Global Instance HasTable_right A B X : HasTable B X → HasTable (A * B) X | 10.
Proof.
  intros HB. refine {| tget t := tget t.2; tset x t := (t.1, tset x t.2) |}; intros; simpl;
    [apply tget_tset|destruct t; simpl; by rewrite tset_tget|by rewrite tset_tset].
Defined.
Global Instance Disjoint_right A B X `{HasTable B X} : Disjoint_tables (A * B) A X.
Proof. by split. Qed.

Global Instance Disjoint_nested A B X Y `{HasTable B X, HasTable B Y, !Disjoint_tables B X Y} :
  Disjoint_tables (A * B) X Y.
Proof. split; intros; simpl; [apply tget_tset_other|apply tget_tset_other_r]. Qed.

Create Rewrite HintDb mmr_tables.
#[export] Hint Rewrite @tget_tset @tset_tget @tset_tset : mmr_tables.

(** ** Automation *)

(** Take a run apart: every [bind] of a successful run becomes its two runs. *)
Ltac run_inv :=
  repeat match goal with
  | H : (_ ≫= _) _ = (Ok _, _) |- _ =>
      apply bind_ok in H; destruct H as (? & ? & ? & ?)
  | H : require _ _ _ = (Ok _, _) |- _ =>
      apply require_ok in H; destruct H as [? ?]
  | H : mret _ _ = (_, _) |- _ => injection H as ? ?
  | H : gets _ _ = (_, _) |- _ => injection H as ? ?
  | H : modify _ _ = (_, _) |- _ => injection H as ? ?
  | H : raise _ _ = (Ok _, _) |- _ => discriminate H
  | H : raise _ _ = (Raise _, _) |- _ => injection H as ? ?
  end; subst.

(** Case analysis on the next test of a definition. *)
Ltac step_case :=
  match goal with
  | |- context [if ?b then _ else _] => destruct b eqn:?
  | |- context [match ?o with Some _ => _ | None => _ end] => destruct o eqn:?
  end.
Ltac step_case_in H :=
  match type of H with
  | context [if ?b then _ else _] => destruct b eqn:?
  | context [match ?o with Some _ => _ | None => _ end] => destruct o eqn:?
  end.

(** Boolean tests of the definitions as propositions. *)
Ltac to_prop :=
  repeat match goal with
  | H : bool_decide _ = true |- _ => apply bool_decide_eq_true in H
  | H : bool_decide _ = false |- _ => apply bool_decide_eq_false in H
  | H : (_ && _)%bool = true |- _ => apply andb_true_iff in H; destruct H
  | H : (_ && _)%bool = false |- _ => apply andb_false_iff in H
  | H : (_ || _)%bool = false |- _ => apply orb_false_iff in H; destruct H
  | H : (_ || _)%bool = true |- _ => apply orb_true_iff in H
  | H : negb _ = true |- _ => apply negb_true_iff in H
  | H : negb _ = false |- _ => apply negb_false_iff in H
  | H : Z.ltb _ _ = true |- _ => apply Z.ltb_lt in H
  | H : Z.ltb _ _ = false |- _ => apply Z.ltb_ge in H
  | H : Z.leb _ _ = true |- _ => apply Z.leb_le in H
  | H : Z.leb _ _ = false |- _ => apply Z.leb_gt in H
  | H : Z.eqb _ _ = true |- _ => apply Z.eqb_eq in H
  | H : Z.eqb _ _ = false |- _ => apply Z.eqb_neq in H
  | H : String.eqb _ _ = true |- _ => apply String.eqb_eq in H
  | H : String.eqb _ _ = false |- _ => apply String.eqb_neq in H
  end.

(** ** Lists, the way SQL queries read them *)

(** [SELECT max(f) ...], NULL on no row. *)
Fixpoint max_of {A} (f : A → Z) (l : list A) : option Z :=
  match l with
  | [] => None
  | x :: l' => Some (match max_of f l' with Some m => Z.max (f x) m | None => f x end)
  end.

(** [SELECT min(f) ...], NULL on no row. *)
Fixpoint min_of {A} (f : A → Z) (l : list A) : option Z :=
  match l with
  | [] => None
  | x :: l' => Some (match min_of f l' with Some m => Z.min (f x) m | None => f x end)
  end.

Lemma max_of_None {A} (f : A → Z) l : max_of f l = None → l = [].
Proof. by destruct l. Qed.
Lemma min_of_None {A} (f : A → Z) l : min_of f l = None → l = [].
Proof. by destruct l. Qed.

Lemma max_of_ge {A} (f : A → Z) l m x : max_of f l = Some m → x ∈ l → f x ≤ m.
Proof.
  revert m. induction l as [|y l IH]; simpl; intros m Hm Hx; [set_solver|].
  apply elem_of_cons in Hx as [->|Hx]; destruct (max_of f l) eqn:E; simplify_eq; try lia.
  - specialize (IH _ eq_refl Hx). lia.
  - apply max_of_None in E as ->. set_solver.
Qed.
Lemma min_of_le {A} (f : A → Z) l m x : min_of f l = Some m → x ∈ l → m ≤ f x.
Proof.
  revert m. induction l as [|y l IH]; simpl; intros m Hm Hx; [set_solver|].
  apply elem_of_cons in Hx as [->|Hx]; destruct (min_of f l) eqn:E; simplify_eq; try lia.
  - specialize (IH _ eq_refl Hx). lia.
  - apply min_of_None in E as ->. set_solver.
Qed.
Lemma max_of_elem {A} (f : A → Z) l m : max_of f l = Some m → ∃ x, x ∈ l ∧ f x = m.
Proof.
  revert m. induction l as [|y l IH]; simpl; intros m Hm; [done|].
  destruct (max_of f l) as [m'|] eqn:E; simplify_eq; [|exists y; set_solver].
  destruct (Z.max_spec (f y) m') as [[_ ->]|[_ ->]]; [|exists y; set_solver].
  destruct (IH _ eq_refl) as (x & ? & ?). exists x. set_solver.
Qed.
Lemma min_of_elem {A} (f : A → Z) l m : min_of f l = Some m → ∃ x, x ∈ l ∧ f x = m.
Proof.
  revert m. induction l as [|y l IH]; simpl; intros m Hm; [done|].
  destruct (min_of f l) as [m'|] eqn:E; simplify_eq; [|exists y; set_solver].
  destruct (Z.min_spec (f y) m') as [[_ ->]|[_ ->]]; [exists y; set_solver|].
  destruct (IH _ eq_refl) as (x & ? & ?). exists x. set_solver.
Qed.

(** [ORDER BY f]: a stable insertion sort. *)
Fixpoint insert_by {A} (f : A → Z) (x : A) (l : list A) : list A :=
  match l with
  | [] => [x]
  | y :: l' => if f x <=? f y then x :: l else y :: insert_by f x l'
  end.
Definition order_by {A} (f : A → Z) (l : list A) : list A := foldr (insert_by f) [] l.

Lemma order_by_perm {A} (f : A → Z) l : order_by f l ≡ₚ l.
Proof.
  induction l as [|x l IH]; [done|]. simpl. rewrite <-IH at 2. generalize (order_by f l). clear IH.
  intros l'. induction l' as [|y l' IH]; [done|]. simpl. destruct (_ <=? _); [done|]. rewrite IH. apply Permutation_swap.
Qed.

(** [ORDER BY f DESC LIMIT 1] *)
Definition latest_by {A} (f : A → Z) (l : list A) : option A := last (order_by f l).

(** Strictly increasing keys, and what appending and filtering do to them. *)
Definition increasing {A} (f : A → Z) (l : list A) : Prop :=
  StronglySorted (λ x y, f x < f y) l.

Lemma increasing_snoc {A} (f : A → Z) l x :
  increasing f l → (∀ y, y ∈ l → f y < f x) → increasing f (l ++ [x]).
Proof.
  unfold increasing. induction 1 as [|y l Hs IH Hy]; simpl; intros Hx.
  - repeat constructor.
  - constructor; [apply IH; set_solver|].
    rewrite Forall_app. split; [done|]. repeat constructor. set_solver.
Qed.

Lemma increasing_filter {A} (f : A → Z) (P : A → Prop) `{∀ x, Decision (P x)} l :
  increasing f l → increasing f (filter P l).
Proof.
  unfold increasing. induction 1 as [|y l Hs IH Hy]; [constructor|].
  rewrite filter_cons. case_decide; [|done].
  constructor; [done|]. apply Forall_forall. intros z [_ Hz]%list_elem_of_filter.
  rewrite Forall_forall in Hy. by apply Hy.
Qed.

Lemma increasing_inj {A} (f : A → Z) l x y :
  increasing f l → x ∈ l → y ∈ l → f x = f y → x = y.
Proof.
  unfold increasing. induction 1 as [|z l Hs IH Hz]; [set_solver|].
  rewrite Forall_forall in Hz.
  intros [->|Hx]%elem_of_cons [->|Hy]%elem_of_cons E; try done; [| |by apply IH].
  - specialize (Hz _ Hy). lia.
  - specialize (Hz _ Hx). lia.
Qed.

Lemma increasing_app_inv {A} (f : A → Z) l1 l2 x y :
  increasing f (l1 ++ l2) → x ∈ l1 → y ∈ l2 → f x < f y.
Proof.
  unfold increasing. induction l1 as [|z l1 IH]; simpl; [set_solver|].
  inversion 1 as [|? ? Hs Hf]; subst. rewrite Forall_forall in Hf.
  intros [->|Hx]%elem_of_cons Hy; [apply Hf; set_solver | by apply IH].
Qed.

Lemma increasing_cons_inv {A} (f : A → Z) x l :
  increasing f (x :: l) → increasing f l ∧ ∀ y, y ∈ l → f x < f y.
Proof.
  unfold increasing. inversion 1 as [|? ? Hs Hf]; subst. rewrite Forall_forall in Hf. done.
Qed.

Lemma increasing_impl {A} (f g : A → Z) l :
  (∀ x y, x ∈ l → y ∈ l → f x < f y → g x < g y) → increasing f l → increasing g l.
Proof.
  intros H. unfold increasing. induction 1 as [|x l Hs IH Hx]; constructor.
  - apply IH. intros y z Hy Hz. apply H; by apply list_elem_of_further.
  - apply Forall_forall. intros y Hy. apply H; [apply list_elem_of_here|by apply list_elem_of_further|].
    by apply (proj1 (Forall_forall _ _) Hx).
Qed.

Lemma increasing_map {A B} (h : A → B) (f : B → Z) l :
  increasing (λ x, f (h x)) l → increasing f (map h l).
Proof.
  unfold increasing. induction 1 as [|x l Hs IH Hx]; simpl; constructor; [done|].
  apply Forall_forall. intros y (z & -> & Hz)%list_elem_of_fmap.
  by apply (proj1 (Forall_forall _ _) Hx).
Qed.

Lemma increasing_prefix {A} (f : A → Z) l1 l2 :
  increasing f (l1 ++ l2) → increasing f l1.
Proof.
  unfold increasing. induction l1 as [|z l1 IH]; simpl; [constructor|].
  inversion 1 as [|? ? Hs Hf]; subst. constructor; [by apply IH|].
  by apply Forall_app in Hf as [? _].
Qed.

Lemma order_by_increasing {A} (f : A → Z) l : increasing f l → order_by f l = l.
Proof.
  unfold increasing. induction 1 as [|x l Hs IH Hx]; [done|].
  simpl. rewrite IH. destruct l as [|y l]; [done|]. simpl.
  apply Forall_inv in Hx. by rewrite (proj2 (Z.leb_le _ _)) by lia.
Qed.

Lemma latest_by_snoc {A} (f : A → Z) l x :
  increasing f (l ++ [x]) → latest_by f (l ++ [x]) = Some x.
Proof. intros H. unfold latest_by. rewrite order_by_increasing by done. apply last_snoc. Qed.

Lemma latest_by_max {A} (f : A → Z) l x :
  increasing f l → latest_by f l = Some x → x ∈ l ∧ ∀ y, y ∈ l → f y ≤ f x.
Proof.
  intros H. unfold latest_by. rewrite order_by_increasing by done.
  intros (l' & ->)%last_Some. split; [set_solver|].
  intros y [Hy| ->%list_elem_of_singleton]%elem_of_app; [|lia].
  assert (f y < f x); [|lia]. eapply increasing_app_inv; [exact H|exact Hy|set_solver].
Qed.

Lemma latest_by_None {A} (f : A → Z) l : increasing f l → latest_by f l = None → l = [].
Proof. intros H. unfold latest_by. rewrite order_by_increasing by done. apply last_None. Qed.


Lemma take_elem {A} n (l : list A) x : x ∈ take n l → x ∈ l.
Proof. intros H. rewrite <-(take_drop n l). set_solver. Qed.

(** [DELETE ... WHERE f < k]: the rows that go and the rows that stay. *)
Lemma filter_ext_in {A} (P Q : A → Prop) `{∀ x, Decision (P x), ∀ x, Decision (Q x)} (l : list A) :
  (∀ x, x ∈ l → P x ↔ Q x) → filter P l = filter Q l.
Proof.
  induction l as [|x l IH]; intros Hpq; [done|]. rewrite !filter_cons, IH by (intros; apply Hpq; by right).
  rewrite (decide_ext (P x) (Q x)); [done|]. apply Hpq. left.
Qed.

Lemma filter_all {A} (P : A → Prop) `{∀ x, Decision (P x)} (l : list A) : (∀ x, x ∈ l → P x) → filter P l = l.
Proof.
  induction l as [|x l IH]; intros Hp; [done|]. rewrite filter_cons, decide_True, IH; [done| |apply Hp; by left].
  intros y Hy. apply Hp. by right.
Qed.

Lemma filter_none {A} (P : A → Prop) `{∀ x, Decision (P x)} (l : list A) : (∀ x, x ∈ l → ¬ P x) → filter P l = [].
Proof.
  induction l as [|x l IH]; intros Hp; [done|]. rewrite filter_cons, decide_False, IH; [done| |apply Hp; by left].
  intros y Hy. apply Hp. by right.
Qed.

Lemma length_filter_below {A} (f : A → Z) (k : Z) (l : list A) :
  Z.of_nat (length (filter (λ x, f x < k) l))
  = Z.of_nat (length l) - Z.of_nat (length (filter (λ x, k ≤ f x) l)).
Proof.
  induction l as [|x l IH]; [done|]. rewrite !filter_cons.
  repeat case_decide; simpl; lia.
Qed.
