(* ===== verification/Py.v ===== *)
(** * The Python standard library the modelled code leans on

    Time zones and instants ([datetime]), ISO-8601 text and the proleptic
    Gregorian calendar behind it, and [json.dumps] with sorted keys. *)
From stdpp Require Import base tactics gmap list sets strings pretty sorting.
From Stdlib Require Import ZArith Lia Ascii SpecFloat.
From S2P Require Import Prelude.
Open Scope Z_scope.

(** ** Instants *)

(** A [datetime] is naive, or it is an instant with a UTC offset.  Instants and
    offsets are microseconds, [datetime]'s own resolution. *)
Inductive datetime : Type :=
  | Naive (us : Z)
  | Aware (utc_us offset_us : Z).

Global Instance datetime_eq_dec : EqDecision datetime.
Proof. solve_decision. Defined.

Definition seconds (n : Z) : Z := n * 1000000.
Definition minutes (n : Z) : Z := seconds (n * 60).
Definition hours (n : Z) : Z := minutes (n * 60).
Definition days (n : Z) : Z := hours (n * 24).

(** [value.replace(tzinfo=utc)] for a naive value, [astimezone(utc)] otherwise *)
Definition as_utc (d : datetime) : Z :=
  match d with Naive us => us | Aware u _ => u end.

(** The strict variant: a naive value raises [ValueError]. *)
Definition as_utc_strict {S} (d : datetime) : M S Z :=
  match d with Naive _ => raise ValueError | Aware u _ => mret u end.

Definition is_aware (d : datetime) : bool :=
  match d with Naive _ => false | Aware _ _ => true end.

(** ** The proleptic Gregorian calendar *)
Record date : Type := mkDate { year : Z; month : Z; day : Z }.

Global Instance date_eq_dec : EqDecision date.
Proof. solve_decision. Defined.

(** Days since 1970-01-01 to a date and back ([date.toordinal]/[fromordinal],
    counted from the Unix epoch).  Years start in March, so the leap day is the
    last day of a year; one era is the 146097 days of 400 years. *)
Definition civil_of_doe (era doe : Z) : date :=
  let yoe := (doe - doe / 1460 + doe / 36524 - doe / 146096) / 365 in
  let doy := doe - (365 * yoe + yoe / 4 - yoe / 100) in
  let mp := (5 * doy + 2) / 153 in
  let d := doy - (153 * mp + 2) / 5 + 1 in
  let m := if mp <? 10 then mp + 3 else mp - 9 in
  let y := yoe + era * 400 in
  mkDate (if m <=? 2 then y + 1 else y) m d.

Definition date_of_days (z : Z) : date :=
  civil_of_doe ((z + 719468) / 146097) ((z + 719468) mod 146097).

Definition days_of_date (dt : date) : Z :=
  let y := if month dt <=? 2 then year dt - 1 else year dt in
  let era := y / 400 in
  let yoe := y mod 400 in
  let mp := if 2 <? month dt then month dt - 3 else month dt + 9 in
  let doy := (153 * mp + 2) / 5 + day dt - 1 in
  let doe := yoe * 365 + yoe / 4 - yoe / 100 + doy in
  era * 146097 + doe - 719468.

(** The arithmetic of one era, by [lia]. *)
Lemma era_bounds doe : 0 ≤ doe < 146097 →
  let yoe := (doe - doe / 1460 + doe / 36524 - doe / 146096) / 365 in
  let doy := doe - (365 * yoe + yoe / 4 - yoe / 100) in
  let mp := (5 * doy + 2) / 153 in
  0 ≤ yoe < 400 ∧ 0 ≤ doy ≤ 365 ∧ 0 ≤ mp ≤ 11 ∧ 1 ≤ doy - (153 * mp + 2) / 5 + 1 ≤ 31.
Proof.
  intros H; cbv zeta. set (yoe := (doe - _ + _ - _) / 365).
  assert (0 ≤ yoe < 400) as Hy by (unfold yoe; Z.div_mod_to_equations; lia).
  set (doy := doe - _).
  assert (0 ≤ doy ≤ 365) as Hd by (unfold doy, yoe in *; Z.div_mod_to_equations; lia).
  clearbody yoe doy. split; [done|]. split; [done|]. Z.div_mod_to_equations. lia.
Qed.

Lemma days_of_date_of_days z : days_of_date (date_of_days z) = z.
Proof.
  unfold date_of_days, civil_of_doe, days_of_date. cbv zeta. cbn [year month day].
  pose proof (Z.mod_pos_bound (z + 719468) 146097 ltac:(lia)) as Hb.
  pose proof (Z.div_mod (z + 719468) 146097 ltac:(lia)) as Hz.
  set (era := (z + 719468) / 146097) in *. set (doe := (z + 719468) mod 146097) in *.
  destruct (era_bounds doe Hb) as (Hy & Hd & Hm & Hday). cbv zeta in *.
  set (yoe := (doe - _ + _ - _) / 365) in *. set (doy := doe - (365 * yoe + _ - _)) in *.
  set (mp := (5 * doy + 2) / 153) in *.
  assert ((yoe + era * 400) / 400 = era ∧ (yoe + era * 400) mod 400 = yoe) as [Hq Hr].
  { rewrite Z.div_add, Z.mod_add, Z.div_small, Z.mod_small by lia. lia. }
  destruct (Z.ltb_spec mp 10).
  - rewrite (proj2 (Z.leb_gt (mp + 3) 2)), (proj2 (Z.ltb_lt 2 (mp + 3))) by lia.
    rewrite Hq, Hr. replace (mp + 3 - 3) with mp by lia. unfold doy in *. lia.
  - rewrite (proj2 (Z.leb_le (mp - 9) 2)), (proj2 (Z.ltb_ge 2 (mp - 9))) by lia.
    replace (yoe + era * 400 + 1 - 1) with (yoe + era * 400) by lia.
    rewrite Hq, Hr. replace (mp - 9 + 9) with mp by lia. unfold doy in *. lia.
Qed.

Lemma date_of_days_bounds z :
  1 ≤ month (date_of_days z) ≤ 12 ∧ 1 ≤ day (date_of_days z) ≤ 31.
Proof.
  unfold date_of_days, civil_of_doe. cbv zeta. cbn [year month day].
  pose proof (Z.mod_pos_bound (z + 719468) 146097 ltac:(lia)) as Hb.
  destruct (era_bounds _ Hb) as (Hy & Hd & Hm & Hday). cbv zeta in *.
  split; [|done]. case_match; lia.
Qed.

Global Instance date_of_days_inj : Inj (=) (=) date_of_days.
Proof. intros a b H. apply (f_equal days_of_date) in H. by rewrite !days_of_date_of_days in H. Qed.

(** The calendar date of an instant in UTC. *)
Definition day_number (us : Z) : Z := us / days 1.
Definition utc_date (us : Z) : date := date_of_days (day_number us).

(** ** Text *)

(** [f"{n:0{width}d}"] for [0 <= n < 10 ** width] *)
Definition digit_char (d : Z) : ascii := ascii_of_N (48 + Z.to_N d).
Definition char_digit (c : ascii) : option Z :=
  let n := Z.of_N (N_of_ascii c) in
  if (48 <=? n) && (n <=? 57) then Some (n - 48) else None.
Fixpoint zpad (width : nat) (n : Z) : string :=
  match width with
  | O => ""
  | S w => (zpad w (n / 10) +:+ String (digit_char (n mod 10)) "")%string
  end.
Fixpoint parse_digits (width : nat) (s : string) : option (Z * string) :=
  match width with
  | O => Some (0, s)
  | S w =>
      '(n, s') ← parse_digits w s;
      match s' with
      | String c r => d ← char_digit c; Some (n * 10 + d, r)
      | EmptyString => None
      end
  end.

Lemma char_digit_digit d : 0 ≤ d < 10 → char_digit (digit_char d) = Some d.
Proof.
  intros H. assert (d ∈ [0;1;2;3;4;5;6;7;8;9]) as Hin by (repeat rewrite elem_of_cons; lia).
  repeat (apply elem_of_cons in Hin as [->|Hin]; [reflexivity|]). set_solver.
Qed.

Lemma string_app_assoc (a b c : string) : ((a +:+ b) +:+ c = a +:+ (b +:+ c))%string.
Proof. induction a as [|x a IH]; [done|]. change (String x ((a +:+ b) +:+ c) = String x (a +:+ (b +:+ c)))%string. by rewrite IH. Qed.

Lemma parse_zpad w n s : 0 ≤ n < 10 ^ Z.of_nat w → parse_digits w (zpad w n +:+ s) = Some (n, s).
Proof.
  revert n s. induction w as [|w IH]; intros n s H.
  - simpl in *. do 2 f_equal. lia.
  - rewrite Nat2Z.inj_succ, Z.pow_succ_r in H by lia. cbn [zpad parse_digits].
    rewrite string_app_assoc, IH by (Z.div_mod_to_equations; nia). simpl.
    rewrite char_digit_digit by (apply Z.mod_pos_bound; lia). simpl. do 2 f_equal.
    pose proof (Z.div_mod n 10). lia.
Qed.

Definition date_iso (d : date) : string :=
  (zpad 4 (year d) +:+ "-" +:+ zpad 2 (month d) +:+ "-" +:+ zpad 2 (day d))%string.

(** [datetime.isoformat()] of a UTC instant *)
Definition isoformat (us : Z) : string :=
  let t := us mod days 1 in
  let frac := t mod seconds 1 in
  (date_iso (utc_date us) +:+ "T" +:+ zpad 2 (t / hours 1) +:+ ":"
   +:+ zpad 2 (t / minutes 1 mod 60) +:+ ":" +:+ zpad 2 (t / seconds 1 mod 60)
   +:+ (if (frac =? 0)%Z then "" else ("." +:+ zpad 6 frac)%string) +:+ "+00:00")%string.

(** [datetime.isoformat()] of any datetime: the wall clock and its offset. *)
Definition wall_iso (us : Z) : string :=
  let t := us mod days 1 in
  let frac := t mod seconds 1 in
  (date_iso (utc_date us) +:+ "T" +:+ zpad 2 (t / hours 1) +:+ ":"
   +:+ zpad 2 (t / minutes 1 mod 60) +:+ ":" +:+ zpad 2 (t / seconds 1 mod 60)
   +:+ (if (frac =? 0)%Z then "" else ("." +:+ zpad 6 frac)%string))%string.
Definition zone_text (off : Z) : string :=
  let t := Z.abs off in
  let frac := t mod seconds 1 in
  ((if (off <? 0)%Z then "-" else "+") +:+ zpad 2 (t / hours 1) +:+ ":" +:+ zpad 2 (t / minutes 1 mod 60)
   +:+ (if (t mod minutes 1 =? 0)%Z then ""
        else (":" +:+ zpad 2 (t / seconds 1 mod 60)
              +:+ (if (frac =? 0)%Z then "" else ("." +:+ zpad 6 frac)%string)))%string)%string.
Definition iso_datetime (d : datetime) : string :=
  match d with
  | Naive us => wall_iso us
  | Aware us off => (wall_iso (us + off) +:+ zone_text off)%string
  end.

Example iso_datetime_offset :
  iso_datetime (Aware (seconds 5) (minutes (-270))) = "1969-12-31T19:30:05-04:30"%string.
Proof. reflexivity. Qed.

(** The character [c], or no parse *)
Definition expect (c : ascii) (s : string) : option string :=
  match s with
  | String c' r => if Ascii.eqb c c' then Some r else None
  | EmptyString => None
  end.

(** [datetime.fromisoformat] on the extended form: date, [T], time, an optional
    six-digit fraction, and nothing, [Z] or a signed offset. *)
Definition parse_local (s : string) : option (Z * string) :=
  '(y, s) ← parse_digits 4 s; s ← expect "-" s;
  '(mo, s) ← parse_digits 2 s; s ← expect "-" s;
  '(d, s) ← parse_digits 2 s; s ← expect "T" s;
  '(h, s) ← parse_digits 2 s; s ← expect ":" s;
  '(mi, s) ← parse_digits 2 s; s ← expect ":" s;
  '(sec, s) ← parse_digits 2 s;
  '(frac, s) ← match expect "." s with
    | Some s' => parse_digits 6 s'
    | None => Some (0, s)
    end;
  if (1 <=? y) && bool_decide (date_of_days (days_of_date (mkDate y mo d)) = mkDate y mo d)
     && (h <? 24) && (mi <? 60) && (sec <? 60)
  then Some (days (days_of_date (mkDate y mo d)) + hours h + minutes mi + seconds sec + frac, s)
  else None.

Definition parse_offset (s : string) : option Z :=
  '(h, s) ← parse_digits 2 s; s ← expect ":" s;
  '(mi, s) ← parse_digits 2 s;
  if String.eqb s "" then Some (hours h + minutes mi) else None.

Definition parse_datetime (s : string) : option datetime :=
  '(us, rest) ← parse_local s;
  if String.eqb rest "" then Some (Naive us)
  else if String.eqb rest "Z" then Some (Aware us 0)
  else match expect "+" rest, expect "-" rest with
  | Some r, _ => off ← parse_offset r; Some (Aware (us - off) off)
  | None, Some r => off ← parse_offset r; Some (Aware (us + off) (- off))
  | None, None => None
  end.

(** On the texts [isoformat] writes for UTC instants *)
Definition fromisoformat (s : string) : option Z :=
  '(us, rest) ← parse_local s;
  if String.eqb rest "+00:00" then Some us else None.

Arguments isoformat : simpl never.
Arguments fromisoformat : simpl never.
Arguments parse_datetime : simpl never.

Lemma parse_local_isoformat us :
  1 ≤ year (utc_date us) < 10000 → parse_local (isoformat us) = Some (us, "+00:00"%string).
Proof.
  intros Hy. unfold parse_local, isoformat, date_iso. cbv zeta.
  pose proof (date_of_days_bounds (day_number us)) as [Hm Hd].
  pose proof (Z.mod_pos_bound us (days 1) ltac:(done)) as Ht.
  pose proof (Z.div_mod us (days 1) ltac:(done)) as Hus.
  fold (utc_date us) in Hm, Hd. set (t := us mod days 1) in *.
  assert (days (day_number us) = days 1 * (us / days 1)) as Hdays
    by (unfold day_number; change (days 1) with 86400000000;
        unfold days, hours, minutes, seconds; lia).
  assert (mkDate (year (utc_date us)) (month (utc_date us)) (day (utc_date us)) = utc_date us)
    as Heta by by destruct (utc_date us).
  assert (0 ≤ t / hours 1 < 24 ∧ 0 ≤ t / minutes 1 mod 60 < 60
          ∧ 0 ≤ t / seconds 1 mod 60 < 60) as (Hh & Hmi & Hsec).
  { change (days 1) with 86400000000 in Ht. change (hours 1) with 3600000000.
    change (minutes 1) with 60000000. change (seconds 1) with 1000000.
    Z.div_mod_to_equations. lia. }
  assert (0 ≤ year (utc_date us) < 10 ^ Z.of_nat 4) as Hy4 by (change (10 ^ Z.of_nat 4) with 10000; lia).
  assert (10 ^ Z.of_nat 2 = 100) as H100 by done.
  rewrite !string_app_assoc.
  assert (∀ c s, expect c (String c "" +:+ s) = Some s) as Hexp
    by (intros c s; change (String c "" +:+ s)%string with (String c s); unfold expect;
        by rewrite Ascii.eqb_refl).
  rewrite (parse_zpad 4) by exact Hy4. cbn [mbind option_bind].
  rewrite Hexp. cbn [mbind option_bind].
  do 4 (rewrite (parse_zpad 2) by (rewrite H100; lia); cbn [mbind option_bind];
        rewrite Hexp; cbn [mbind option_bind]).
  rewrite (parse_zpad 2) by (rewrite H100; lia). cbn [mbind option_bind].
  rewrite Heta.
  assert ((1 <=? year (utc_date us)) && bool_decide (date_of_days (days_of_date (utc_date us)) = utc_date us)
     && (t / hours 1 <? 24) && (t / minutes 1 mod 60 <? 60) && (t / seconds 1 mod 60 <? 60) = true) as Hvalid.
  { assert (date_of_days (days_of_date (utc_date us)) = utc_date us) as Hdt
      by (unfold utc_date; by rewrite days_of_date_of_days).
    rewrite (bool_decide_eq_true_2 _ Hdt), !andb_true_iff, Z.leb_le, !Z.ltb_lt. lia. }
  rewrite Hvalid. unfold utc_date. rewrite days_of_date_of_days, Hdays.
  assert (days 1 * (us / days 1) + hours (t / hours 1) + minutes (t / minutes 1 mod 60)
          + seconds (t / seconds 1 mod 60) + t mod seconds 1 = us) as Hsum.
  { rewrite Hus at 2. change (days 1) with 86400000000 in *.
    change (hours 1) with 3600000000. change (minutes 1) with 60000000.
    change (seconds 1) with 1000000. unfold hours, minutes, seconds.
    generalize (us / 86400000000). clearbody t. clear -Ht. intros q.
    Z.div_mod_to_equations. lia. }
  destruct (Z.eqb_spec (t mod seconds 1) 0) as [Hf|Hf].
  - change ("" +:+ "+00:00")%string with "+00:00"%string.
    change (expect "." "+00:00") with (@None string). cbn [mbind option_bind].
    do 2 f_equal. lia.
  - rewrite string_app_assoc, Hexp.
    rewrite (parse_zpad 6) by (unfold seconds; apply Z.mod_pos_bound; lia).
    cbn [mbind option_bind]. do 2 f_equal. lia.
Qed.

Lemma fromisoformat_isoformat us :
  1 ≤ year (utc_date us) < 10000 → fromisoformat (isoformat us) = Some us.
Proof. intros Hy. unfold fromisoformat. by rewrite parse_local_isoformat by done. Qed.

Lemma parse_datetime_isoformat us :
  1 ≤ year (utc_date us) < 10000 → parse_datetime (isoformat us) = Some (Aware us 0).
Proof.
  intros Hy. unfold parse_datetime. rewrite parse_local_isoformat by done.
  cbn [mbind option_bind]. simpl. unfold hours, minutes, seconds. do 2 f_equal. lia.
Qed.

(** ** JSON values and [json.dumps(..., sort_keys=True)] *)

(** A float leaf is kept as its [repr] text; an object is a [dict] in insertion
    order. *)
Inductive json : Type :=
  | JNull
  | JBool (b : bool)
  | JInt (z : Z)
  | JFloat (repr : string)
  | JStr (s : string)
  | JArr (l : list json)
  | JObj (kvs : list (string * json)).

(** [dict[str, JSONValue]] *)
Notation dict := (list (string * json)).

Definition jopt {A} (f : A → json) (o : option A) : json :=
  match o with Some a => f a | None => JNull end.

(** [dict.get(key)] *)
Fixpoint assoc {A} (k : string) (l : list (string * A)) : option A :=
  match l with
  | [] => None
  | (k', v) :: l' => if String.eqb k k' then Some v else assoc k l'
  end.

(** [d[key] = value]: an existing key keeps its place. *)
Fixpoint assoc_set {A} (k : string) (v : A) (l : list (string * A)) : list (string * A) :=
  match l with
  | [] => [(k, v)]
  | (k', v') :: l' => if String.eqb k k' then (k, v) :: l' else (k', v') :: assoc_set k v l'
  end.

(** [d.pop(key, None)] *)
Definition assoc_del {A} (k : string) (l : list (string * A)) : list (string * A) :=
  filter (λ kv, kv.1 ≠ k) l.

(** [list(dict.fromkeys(l))]: the first occurrence of each key stays. *)
Fixpoint fromkeys (seen l : list string) : list string :=
  match l with
  | [] => []
  | x :: l' => if bool_decide (x ∈ seen) then fromkeys seen l' else x :: fromkeys (x :: seen) l'
  end.

(** [{**a, **b}] *)
Definition assoc_merge {A} (a b : list (string * A)) : list (string * A) :=
  fold_left (λ acc kv, assoc_set kv.1 kv.2 acc) b a.

Lemma assoc_set_eq {A} k (v : A) l : assoc k (assoc_set k v l) = Some v.
Proof.
  induction l as [|[k' v'] l IH]; simpl; [by rewrite String.eqb_refl|].
  destruct (String.eqb k k') eqn:E; simpl; [by rewrite String.eqb_refl | by rewrite E].
Qed.

Lemma assoc_set_ne {A} k k2 (v : A) l : k ≠ k2 → assoc k2 (assoc_set k v l) = assoc k2 l.
Proof.
  intros Hne. assert (String.eqb k2 k = false) as Hk by (apply String.eqb_neq; congruence).
  induction l as [|[k' v'] l IH]; simpl; [by rewrite Hk|].
  destruct (String.eqb k k') eqn:E; simpl.
  - apply String.eqb_eq in E as <-. by rewrite Hk.
  - by rewrite IH.
Qed.

Definition hex_digit (n : N) : ascii :=
  ascii_of_N (if (n <? 10)%N then 48 + n else 87 + n)%N.

(** The double quote *)
Definition quote : string := String (ascii_of_N 34) EmptyString.

(** [ensure_ascii]: everything outside printable ASCII is escaped. *)
Definition escape_char (c : ascii) : string :=
  let n := N_of_ascii c in
  if (n =? 34)%N then ("\" +:+ quote)%string
  else if (n =? 92)%N then "\\"
  else if (n =? 10)%N then "\n"
  else if (n =? 13)%N then "\r"
  else if (n =? 9)%N then "\t"
  else if (n =? 12)%N then "\f"
  else if (n =? 8)%N then "\b"
  else if ((n <? 32) || (126 <? n))%N
  then ("\u00" +:+ String (hex_digit (n / 16)) (String (hex_digit (n mod 16)) ""))%string
  else String c "".
Fixpoint escape (s : string) : string :=
  match s with
  | EmptyString => ""
  | String c s' => (escape_char c +:+ escape s')%string
  end.

Definition quoted (s : string) : string := (quote +:+ escape s +:+ quote)%string.

Fixpoint join (sep : string) (l : list string) : string :=
  match l with
  | [] => ""
  | [x] => x
  | x :: l' => (x +:+ sep +:+ join sep l')%string
  end.

(** [sorted(items)] by key: an insertion sort on code points. *)
Fixpoint insert_key {A} (kv : string * A) (l : list (string * A)) : list (string * A) :=
  match l with
  | [] => [kv]
  | kv' :: l' => if String.leb kv.1 kv'.1 then kv :: kv' :: l' else kv' :: insert_key kv l'
  end.
Definition sort_keys {A} (l : list (string * A)) : list (string * A) :=
  foldr insert_key [] l.

Lemma sort_keys_perm {A} (l : list (string * A)) : sort_keys l ≡ₚ l.
Proof.
  induction l as [|kv l IH]; [done|]. simpl. rewrite <-IH at 2. generalize (sort_keys l). clear IH.
  intros l'. induction l' as [|kv' l' IH]; [done|]. simpl. case_match; [done|].
  rewrite IH. by constructor.
Qed.

Fixpoint dumps (j : json) : string :=
  match j with
  | JNull => "null"
  | JBool true => "true"
  | JBool false => "false"
  | JInt z => pretty z
  | JFloat r => r
  | JStr s => quoted s
  | JArr l => ("[" +:+ join ", " (map dumps l) +:+ "]")%string
  | JObj kvs =>
      ("{" +:+ join ", "
         (map (λ kv, (quoted kv.1 +:+ ": " +:+ kv.2)%string)
            (sort_keys (map (λ kv, (kv.1, dumps kv.2)) kvs))) +:+ "}")%string
  end.

(** The order in which a dict was built does not show in its canonical text. *)
Example dumps_sorted :
  dumps (JObj [("b", JInt 2); ("a", JArr [JNull; JBool true])])
  = dumps (JObj [("a", JArr [JNull; JBool true]); ("b", JInt 2)]).
Proof. reflexivity. Qed.

(** [bool(value)] *)
Definition truthy (j : json) : bool :=
  match j with
  | JNull => false
  | JBool b => b
  | JInt z => negb (z =? 0)
  | JFloat r => negb (String.eqb r "0.0" || String.eqb r "-0.0")
  | JStr s => negb (String.eqb s "")
  | JArr l => match l with [] => false | _ => true end
  | JObj d => match d with [] => false | _ => true end
  end.

(** [str.upper()] on ASCII *)
Definition upper_char (c : ascii) : ascii :=
  let n := N_of_ascii c in
  if ((97 <=? n) && (n <=? 122))%N then ascii_of_N (n - 32) else c.
Fixpoint upper (s : string) : string :=
  match s with
  | EmptyString => ""
  | String c s' => String (upper_char c) (upper s')
  end.

(** [str.lower()] on ASCII *)
Definition lower_char (c : ascii) : ascii :=
  let n := N_of_ascii c in
  if ((65 <=? n) && (n <=? 90))%N then ascii_of_N (n + 32) else c.
Fixpoint map_string (f : ascii → ascii) (s : string) : string :=
  match s with
  | EmptyString => ""
  | String c s' => String (f c) (map_string f s')
  end.
Definition lower (s : string) : string := map_string lower_char s.

(** [s.replace(a, b)] for single characters *)
Definition replace_char (a b : ascii) (s : string) : string :=
  map_string (λ c, if Ascii.eqb c a then b else c) s.

(** [s.strip()] on ASCII whitespace *)
Definition is_space (c : ascii) : bool :=
  let n := N_of_ascii c in ((9 <=? n) && (n <=? 13) || (28 <=? n) && (n <=? 32))%N.
Fixpoint lstrip (s : string) : string :=
  match s with
  | String c s' => if is_space c then lstrip s' else s
  | EmptyString => ""
  end.
Fixpoint rstrip (s : string) : string :=
  match s with
  | String c s' =>
      match rstrip s' with
      | EmptyString => if is_space c then "" else String c ""
      | r => String c r
      end
  | EmptyString => ""
  end.
Definition strip (s : string) : string := rstrip (lstrip s).

(** [int(text)] on ASCII text: blanks around, a sign, digits with single
    underscores between them. *)
Fixpoint int_digits (acc : Z) (after_digit : bool) (s : string) : option Z :=
  match s with
  | EmptyString => if after_digit then Some acc else None
  | String c s' =>
      match char_digit c with
      | Some d => int_digits (acc * 10 + d) true s'
      | None => if Ascii.eqb c "_" && after_digit then int_digits acc false s' else None
      end
  end.
Definition int_of_string (s : string) : option Z :=
  match strip s with
  | String "-" s' => Z.opp <$> int_digits 0 false s'
  | String "+" s' => int_digits 0 false s'
  | s' => int_digits 0 false s'
  end.

Example int_of_string_text : int_of_string " -1_204"%string = Some (-1204) ∧ int_of_string "1__2"%string = None.
Proof. split; reflexivity. Qed.

(** [str(timedelta)] below one day, in whole seconds *)
Definition timedelta_text (us : Z) : string :=
  let t := us / seconds 1 in
  (pretty (t / 3600) +:+ ":" +:+ zpad 2 (t / 60 mod 60) +:+ ":" +:+ zpad 2 (t mod 60))%string.

Example timedelta_five_minutes : timedelta_text (minutes 5) = "0:05:00"%string.
Proof. reflexivity. Qed.
Example strip_both : strip "  daily loss "%string = "daily loss"%string.
Proof. reflexivity. Qed.

(** [s.startswith(prefix)] *)
Definition starts_with (prefix s : string) : bool := String.prefix prefix s.

(** [json.loads(json.dumps(value, sort_keys=True))] *)
Fixpoint json_sorted (j : json) : json :=
  match j with
  | JArr l => JArr (map json_sorted l)
  | JObj kvs => JObj (sort_keys (map (λ kv, (kv.1, json_sorted kv.2)) kvs))
  | _ => j
  end.
Definition dict_sorted (d : dict) : dict :=
  match json_sorted (JObj d) with JObj d' => d' | _ => [] end.

(** ** Floats: IEEE 754 doubles, round to nearest even *)
Notation float := spec_float.
Definition float_of_Z (z : Z) : float := binary_normalize 53 1024 z 0 false.
Definition fmul : float → float → float := SFmul 53 1024.
Definition fdiv : float → float → float := SFdiv 53 1024.
(** Comparisons with a NaN are false. *)
Definition flt : float → float → bool := SFltb.
Definition fle : float → float → bool := SFleb.
Definition feq : float → float → bool := SFeqb.
Definition fneg : float → float := SFopp.
Definition fzero : float := S754_zero false.
Definition fadd : float → float → float := SFadd 53 1024.
Definition fsub : float → float → float := SFsub 53 1024.
Definition fabs : float → float := SFabs.
(** [timedelta.total_seconds()] *)
Definition total_seconds (us : Z) : float := fdiv (float_of_Z us) (float_of_Z 1000000).

Example float_division : fdiv (float_of_Z 1) (float_of_Z 4) = S754_finite false 4503599627370496 (-54).
Proof. reflexivity. Qed.

(** ** Identifiers built from numbers *)
Fixpoint no_char (c : ascii) (s : string) : bool :=
  match s with
  | EmptyString => true
  | String c' s' => negb (Ascii.eqb c' c) && no_char c s'
  end.

Lemma no_char_app c a b : no_char c (a +:+ b) = no_char c a && no_char c b.
Proof.
  induction a as [|x a IH]; [done|]. change (String x a +:+ b)%string with (String x (a +:+ b)).
  simpl. by rewrite IH, andb_assoc.
Qed.

Lemma pretty_N_char_no_colon n : Ascii.eqb (pretty_N_char n) ":" = false.
Proof. unfold pretty_N_char. repeat (case_match; try done). Qed.

Lemma pretty_N_no_colon (x : N) : no_char ":" (pretty x) = true.
Proof.
  unfold pretty, pretty_N. case_decide; [done|].
  assert (∀ s, no_char ":" s = true → no_char ":" (pretty_N_go x s) = true) as H'; [|by apply H'].
  clear. induction (N.lt_wf_0 x) as [x _ IH]. intros s Hs.
  destruct (decide (0 < x)%N) as [Hx|Hx].
  - rewrite pretty_N_go_step by done. apply IH; [by apply N.div_lt|].
    simpl. by rewrite pretty_N_char_no_colon.
  - assert (x = 0%N) as -> by lia. by rewrite pretty_N_go_0.
Qed.

Lemma pretty_Z_no_colon (x : Z) : no_char ":" (pretty x) = true.
Proof. destruct x; [done| |]; unfold pretty, pretty_Z; [apply pretty_N_no_colon|]. simpl. apply pretty_N_no_colon. Qed.

Lemma app_colon_inj a a' b b' :
  no_char ":" a = true → no_char ":" a' = true →
  (a +:+ ":" +:+ b = a' +:+ ":" +:+ b')%string → a = a' ∧ b = b'.
Proof.
  revert a'. induction a as [|x a IH]; intros [|x' a'] Ha Ha' E; simpl in *; simplify_eq; try done.
  - apply andb_true_iff in Ha as [Ha Ha2]. destruct (IH a' Ha2) as [-> ->]; [by to_prop|done|done].
Qed.

(** ** Queries on a table *)
(** [SELECT ... WHERE p ORDER BY the key] *)
Definition select {A} (p : A → bool) (t : gmap string A) : list A :=
  filter (λ x, p x = true) (map snd (sort_keys (map_to_list t))).

Lemma elem_of_select {A} (p : A → bool) t x : x ∈ select p t ↔ p x = true ∧ ∃ k, t !! k = Some x.
Proof.
  unfold select. rewrite list_elem_of_filter, list_elem_of_fmap. split.
  - intros [Ho ([k y] & -> & Hx)]. rewrite sort_keys_perm in Hx. apply elem_of_map_to_list in Hx. split; [done|]. by exists k.
  - intros [Ho (k & Hk)]. split; [done|]. exists (k, x). split; [done|]. rewrite sort_keys_perm. by apply elem_of_map_to_list.
Qed.
Lemma NoDup_select {A} (p : A → bool) t (f : A → string) :
  (∀ k x, t !! k = Some x → f x = k) → NoDup (map f (select p t)).
Proof.
  intros Hf. unfold select. assert (NoDup (map f (map snd (sort_keys (map_to_list t))))) as H.
  { rewrite <-list_fmap_compose. erewrite (list_fmap_ext _ fst); [rewrite sort_keys_perm; apply NoDup_fst_map_to_list|].
    intros i [k x] Hx. apply list_elem_of_lookup_2 in Hx. rewrite sort_keys_perm in Hx. by apply Hf, elem_of_map_to_list. }
  eapply sublist_NoDup; [exact H|]. apply fmap_sublist, sublist_filter.
Qed.
