(* ===== verification/Correlation.v ===== *)
(** * Order references ([trader/trading/order_correlation.py])

    The reference an order carries at the broker: the group it belongs to, behind a
    prefix of the platform. *)
From stdpp Require Import base tactics strings.
From S2P Require Import Prelude.

Definition ORDER_REF_PREFIX : string := "mmr:".
Definition encode_order_ref (group : string) : string := (ORDER_REF_PREFIX +:+ group)%string.

(** Two groups never share a reference. *)
Global Instance encode_order_ref_inj : Inj (=) (=) encode_order_ref.
Proof. intros a b E. by repeat apply (inj (String.append _)) in E. Qed.
