(* ===== verification/Journal.v ===== *)
(** * The domain-event journal ([trader/data/domain_journal.py])

    [DomainJournal] is the producer of every authoritative change: one DuckDB
    transaction writes the entity's own table, bumps the entity's revision in
    the ledger and inserts a cursor-ordered journal row.  This file holds the
    tables, one definition per method, the step relation of a running journal
    and its invariant: cursors increase, revisions of an entity have no gap,
    an event id names one event, and compaction removes only what it says. *)
From stdpp Require Import base tactics gmap list strings.
From Stdlib Require Import ZArith Lia.
From S2P Require Import Prelude Py.
Open Scope Z_scope.

(** ** Contracts ([trader/domain/events.py]) *)

Inductive Operation : Type := op_upsert | op_delete.

Global Instance Operation_eq_dec : EqDecision Operation.
Proof. solve_decision. Defined.

Record DomainMutation : Type := mkMutation {
  m_event_type : string;
  m_entity_type : string;
  m_entity_id : string;
  m_operation : Operation;
  m_account_id : option string;
  m_source : string;
  m_source_timestamp : datetime;
  m_correlation_id : option string;
  m_payload : option dict;
}.

Record DomainEvent : Type := mkEvent {
  e_event_id : string;
  e_source_cursor : Z;
  e_entity_revision : Z;
  e_event_type : string;
  e_entity_type : string;
  e_entity_id : string;
  e_operation : Operation;
  e_account_id : option string;
  e_source : string;
  e_source_timestamp : Z;
  e_correlation_id : option string;
  e_payload : option dict;
}.

(** [DomainMutation.__post_init__]: the construction of a mutation raises
    [ValueError] unless this test passes. *)
Definition mutation_valid (m : DomainMutation) : bool :=
  is_aware (m_source_timestamp m)
  && negb (bool_decide (m_operation m = op_upsert) && bool_decide (m_payload m = None))
  && negb (bool_decide (m_operation m = op_delete) && bool_decide (m_payload m ≠ None)).

Definition new_mutation {S} (m : DomainMutation) : M S DomainMutation :=
  match m_source_timestamp m with
  | Naive _ => raise ValueError
  | Aware _ _ =>
      match m_operation m, m_payload m with
      | op_upsert, None => raise ValueError
      | op_delete, Some _ => raise ValueError
      | _, _ => mret m
      end
  end.

(** ** Tables *)

(** One row of [domain_event_journal]; instants are stored in UTC. *)
Record journal_row : Type := mkRow {
  source_cursor : Z;
  event_id : string;
  entity_revision : Z;
  event_type : string;
  entity_type : string;
  entity_id : string;
  operation : Operation;
  account_id : option string;
  source : string;
  source_timestamp : Z;
  received_timestamp : Z;
  correlation_id : option string;
  payload : option dict;
}.

(** One row of [domain_materialized_entities], under its primary key
    [(entity_type, entity_id)]. *)
Record materialized_row : Type := mkMaterialized {
  mat_account_id : option string;
  mat_revision : Z;
  mat_deleted : bool;
  mat_payload : option dict;
  mat_updated_at : Z;
}.

Record CheckpointRecord : Type := mkCheckpoint {
  checkpoint_id : Z;
  created_at : Z;
  newest_cursor : Z;
  oldest_retained_cursor : Z;
  broker_generation : Z;
}.

Record CompactionResult : Type := mkCompaction {
  cr_oldest_retained_cursor : Z;
  cr_newest_cursor : Z;
  cr_deleted_count : Z;
  cr_completed_at : Z;
}.

(** The journal's own tables and the next values of its two sequences. *)
Record core : Type := mkCore {
  journal : list journal_row;
  cursor_seq : Z;
  materialized : gmap (string * string) materialized_row;
  checkpoints : list CheckpointRecord;
  checkpoint_seq : Z;
}.

(** What a producer's callback can touch: its own tables and sequences. *)
Record pconn (T : Type) : Type := mkPconn {
  seqs : gmap string Z;
  tables : T;
}.
Arguments mkPconn {T} _ _.
Arguments seqs {T} _.
Arguments tables {T} _.

(** The dedicated database file. *)
Record db (T : Type) : Type := mkDb { db_core : core; db_producer : pconn T }.
Arguments mkDb {T} _ _.
Arguments db_core {T} _.
Arguments db_producer {T} _.

(** An open write transaction and the events it has appended. *)
Record tx (T : Type) : Type := mkTx { tx_db : db T; tx_events : list DomainEvent }.
Arguments mkTx {T} _ _.
Arguments tx_db {T} _.
Arguments tx_events {T} _.

(** The [DomainJournal] object: its database and the in-memory commit counter. *)
Record DomainJournal (T : Type) : Type := mkJournal {
  jdb : db T;
  latest_committed_cursor : Z;
}.
Arguments mkJournal {T} _ _.
Arguments jdb {T} _.
Arguments latest_committed_cursor {T} _.

(** What one append reads from outside: [uuid4()] and [_utcnow()]. *)
Record stamp : Type := mkStamp { st_uuid : string; st_now : Z }.

Definition RETENTION_FLOOR : Z := days 30.

Definition STRATEGY_RUNTIME_METADATA_FIELDS : list string :=
  ["class_name"; "bar_size"; "conids"; "universe"; "params"; "module";
   "display_name"; "historical_days_prior"].

(** ** Helpers on the caller's connection *)

Definition canonical_payload (p : option dict) : option string := (λ d, dumps (JObj d)) <$> p.

Definition row_to_event (r : journal_row) : DomainEvent :=
  mkEvent (event_id r) (source_cursor r) (entity_revision r) (event_type r)
    (entity_type r) (entity_id r) (operation r) (account_id r) (source r)
    (source_timestamp r) (correlation_id r) (payload r).

(** [_matches]: canonical-field equality of a recorded event and a retry. *)
Definition matches (existing : journal_row) (m : DomainMutation) : bool :=
  bool_decide (event_type existing = m_event_type m)
  && bool_decide (entity_type existing = m_entity_type m)
  && bool_decide (entity_id existing = m_entity_id m)
  && bool_decide (operation existing = m_operation m)
  && bool_decide (account_id existing = m_account_id m)
  && bool_decide (source existing = m_source m)
  && (source_timestamp existing =? as_utc (m_source_timestamp m))
  && bool_decide (correlation_id existing = m_correlation_id m)
  && bool_decide (canonical_payload (payload existing) = canonical_payload (m_payload m)).

Definition select_journal_row (eid : string) (c : core) : option journal_row :=
  head (filter (λ r, event_id r = eid) (journal c)).

Definition read_current_revision (etype eid : string) (c : core) : Z :=
  match materialized c !! (etype, eid) with
  | Some row => mat_revision row
  | None => 0
  end.

(** [value is None or value in ("", [], {})] *)
Definition is_missing_strategy_metadata (v : json) : bool :=
  match v with
  | JNull => true
  | JStr s => String.eqb s ""
  | JArr [] => true
  | JObj [] => true
  | _ => false
  end.

Definition carry_field (previous incoming merged : dict) (field : string) : dict :=
  let missing :=
    match assoc field incoming with
    | None => true
    | Some v => is_missing_strategy_metadata v
    end in
  if missing then
    match assoc field previous with
    | Some v => assoc_set field v merged
    | None => merged
    end
  else merged.

(** Payloads are typed [dict | None], so the [isinstance] tests of the source
    decide [None] only. *)
Definition materialized_payload (m : DomainMutation) (c : core) : option dict :=
  let incoming := m_payload m in
  if negb (String.eqb (m_entity_type m) "strategy") || bool_decide (m_operation m = op_delete)
  then incoming
  else match incoming with
  | Some inc =>
      match materialized c !! (m_entity_type m, m_entity_id m) with
      | Some row =>
          if mat_deleted row then incoming
          else match mat_payload row with
          | Some previous =>
              Some (fold_left (carry_field previous inc)
                      STRATEGY_RUNTIME_METADATA_FIELDS (assoc_merge previous inc))
          | None => incoming
          end
      | None => incoming
      end
  | None => incoming
  end.

Definition set_materialized (f : gmap (string * string) materialized_row) (c : core) : core :=
  mkCore (journal c) (cursor_seq c) f (checkpoints c) (checkpoint_seq c).

Definition upsert_materialized (m : DomainMutation) (revision updated_at : Z) : M core unit :=
  modify (λ c,
    set_materialized
      (<[ (m_entity_type m, m_entity_id m) :=
            mkMaterialized (m_account_id m) revision
              (bool_decide (m_operation m = op_delete))
              (materialized_payload m c) updated_at ]> (materialized c)) c).

(** [INSERT ... RETURNING]: the cursor comes from the sequence, which moves even
    when a UNIQUE constraint refuses the row. *)
Definition insert_journal_row (eid : string) (m : DomainMutation) (revision received_ts : Z)
    : M core DomainEvent := λ c,
  let row := mkRow (cursor_seq c) eid revision (m_event_type m) (m_entity_type m)
    (m_entity_id m) (m_operation m) (m_account_id m) (m_source m)
    (as_utc (m_source_timestamp m)) received_ts (m_correlation_id m) (m_payload m) in
  let burnt := mkCore (journal c) (cursor_seq c + 1) (materialized c)
                 (checkpoints c) (checkpoint_seq c) in
  if existsb (λ r, (source_cursor r =? cursor_seq c) || String.eqb (event_id r) eid
        || (String.eqb (entity_type r) (m_entity_type m)
            && String.eqb (entity_id r) (m_entity_id m)
            && (entity_revision r =? revision))) (journal c)
  then (Raise (ConstraintException "domain_event_journal"), burnt)
  else (Ok (row_to_event row),
        mkCore (journal c ++ [row]) (cursor_seq c + 1) (materialized c)
          (checkpoints c) (checkpoint_seq c)).

(** ** Write transactions *)
Section journal.
Context {T : Type}.

Definition in_core {A} (m : M core A) : M (tx T) A :=
  zoom (λ t, db_core (tx_db t))
       (λ c t, mkTx (mkDb c (db_producer (tx_db t))) (tx_events t)) m.

(** Statements a batch issues on its own tables through the connection. *)
Definition in_producer {A} (m : M (pconn T) A) : M (tx T) A :=
  zoom (λ t, db_producer (tx_db t))
       (λ p t, mkTx (mkDb (db_core (tx_db t)) p) (tx_events t)) m.

Definition WriteMaterialized : Type := Z → M (pconn T) unit.

(** The [append] closure of [mutate_batch_work]. *)
Definition append (st : stamp) (m : DomainMutation) (write : WriteMaterialized)
    (eid_arg : option string) : M (tx T) DomainEvent :=
  let eid := default (st_uuid st) eid_arg in
  existing ← gets (λ t, select_journal_row eid (db_core (tx_db t)));
  event ← match existing with
    | Some row =>
        if negb (matches row m) then raise (EventIdentityConflict eid)
        else mret (row_to_event row)
    | None =>
        current_revision ← in_core (gets (read_current_revision (m_entity_type m) (m_entity_id m)));
        let next_revision := current_revision + 1 in
        in_producer (write next_revision) ;;
        let received_ts := st_now st in
        in_core (upsert_materialized m next_revision received_ts) ;;
        in_core (insert_journal_row eid m next_revision received_ts)
    end;
  modify (λ t, mkTx (tx_db t) (tx_events t ++ [event])) ;;
  mret event.

(** [ROLLBACK] restores every table; the values a sequence handed out stay
    burnt. *)
Definition rollback (before after : db T) : db T :=
  mkDb (mkCore (journal (db_core before)) (cursor_seq (db_core after))
          (materialized (db_core before)) (checkpoints (db_core before))
          (checkpoint_seq (db_core after)))
       (mkPconn (seqs (db_producer after)) (tables (db_producer before))).

Definition signal_commit (cursor : Z) : M (DomainJournal T) unit :=
  modify (λ j, if latest_committed_cursor j <? cursor
               then mkJournal (jdb j) cursor else j).

Definition mutate_batch_work {A} (work : M (tx T) A) : M (DomainJournal T) A := λ j,
  match work (mkTx (jdb j) []) with
  | (Raise e, t) =>
      (Raise e, mkJournal (rollback (jdb j) (tx_db t)) (latest_committed_cursor j))
  | (Ok a, t) =>
      let committed := mkJournal (tx_db t) (latest_committed_cursor j) in
      match max_of e_source_cursor (tx_events t) with
      | Some c => (signal_commit c ;; mret a) committed
      | None => (Ok a, committed)
      end
  end.

(** [BEGIN; work; COMMIT], or [ROLLBACK] and re-raise, by a caller that owns its
    transaction on the journal's connection: nobody signals the commit. *)
Definition plain_transaction {A} (work : M (tx T) A) : M (DomainJournal T) A := λ j,
  match work (mkTx (jdb j) []) with
  | (Raise e, t) =>
      (Raise e, mkJournal (rollback (jdb j) (tx_db t)) (latest_committed_cursor j))
  | (Ok a, t) => (Ok a, mkJournal (tx_db t) (latest_committed_cursor j))
  end.

Definition mutate_batch
    (mutations : list (stamp * (DomainMutation * WriteMaterialized * option string)))
    : M (DomainJournal T) (list DomainEvent) :=
  if bool_decide (length mutations = 0)%nat then mret []
  else mutate_batch_work
    (map_each mutations (λ '(st, (m, write, eid)), append st m write eid)).

Definition mutate (st : stamp) (m : DomainMutation) (write : WriteMaterialized)
    (eid : option string) : M (DomainJournal T) DomainEvent :=
  events ← mutate_batch [(st, (m, write, eid))];
  match events with
  | e :: _ => mret e
  | [] => raise (RuntimeError "tuple index out of range")
  end.

(** [_sync_latest_committed_cursor], run by [migrate()] at every start. *)
Definition sync_latest_committed_cursor : M (DomainJournal T) unit := modify (λ j,
  let newest := default 0 (max_of source_cursor (journal (db_core (jdb j)))) in
  if latest_committed_cursor j <? newest then mkJournal (jdb j) newest else j).

(** A fresh [DomainJournal] over a database file, after [migrate()]. *)
Definition restart (d : db T) : DomainJournal T :=
  final sync_latest_committed_cursor (mkJournal d 0).
End journal.
Arguments WriteMaterialized T : clear implicits.

(** ** Reads *)

Definition read_latest_broker_generation (c : core) : Z :=
  match latest_by checkpoint_id (checkpoints c) with
  | Some cp => broker_generation cp
  | None => 0
  end.

Definition latest_checkpoint (c : core) : option CheckpointRecord :=
  latest_by checkpoint_id (checkpoints c).

Definition read_after (after_cursor limit : Z) (c : core) : list DomainEvent :=
  map row_to_event
    (take (Z.to_nat limit)
       (order_by source_cursor (filter (λ r, after_cursor < source_cursor r) (journal c)))).

Definition get_entity (etype eid : string) (c : core) : option materialized_row :=
  match materialized c !! (etype, eid) with
  | None => None
  | Some row => if mat_deleted row then None else Some row
  end.

(** The wait loop, over what each wakeup of the condition observes under its
    lock: the commit counter and the monotonic clock.  [None]: still asleep
    after the last of them. *)
Fixpoint wait_for_cursor_after (after_cursor deadline : Z) (wakeups : list (Z * Z)) : option Z :=
  match wakeups with
  | [] => None
  | (latest, monotonic) :: later =>
      if latest <=? after_cursor
      then if deadline - monotonic <=? 0 then Some latest
           else wait_for_cursor_after after_cursor deadline later
      else Some latest
  end.

(** ** Retention *)

(** [compact(now, active_cursors)] with the [_utcnow()] it stamps; the cursors
    are accepted and not read. *)
Definition compact_core (now : Z) (active_cursors : gmap string Z) (completed_at : Z) (c : core)
    : CompactionResult * core :=
  let newest := default 0 (max_of source_cursor (journal c)) in
  let cutoff := now - RETENTION_FLOOR in
  let floor :=
    match min_of source_cursor (filter (λ r, cutoff ≤ received_timestamp r) (journal c)) with
    | Some m => m
    | None => newest
    end in
  let deleted := filter (λ r, source_cursor r < floor) (journal c) in
  let cp := mkCheckpoint (checkpoint_seq c) completed_at newest floor
              (read_latest_broker_generation c) in
  (mkCompaction floor newest (Z.of_nat (length deleted)) completed_at,
   mkCore (filter (λ r, floor ≤ source_cursor r) (journal c)) (cursor_seq c)
     (materialized c) (checkpoints c ++ [cp]) (checkpoint_seq c + 1)).

(** Where a database failure can strike [compact]: inside its transaction (the
    checkpoint sequence may have moved), or at the [CHECKPOINT] that follows the
    commit. *)
Inductive compact_fault : Type :=
  | fail_in_transaction (e : exc) (burnt : bool)
  | fail_at_checkpoint (e : exc).

Definition compact {T} (now : datetime) (active_cursors : gmap string Z) (completed_at : Z)
    (fault : option compact_fault) : M (DomainJournal T) CompactionResult := λ j,
  match now with
  | Naive _ => (Raise ValueError, j)
  | Aware n _ =>
      let before := jdb j in
      let (r, c) := compact_core n active_cursors completed_at (db_core before) in
      let after := mkDb c (db_producer before) in
      match fault with
      | None => (Ok r, mkJournal after (latest_committed_cursor j))
      | Some (fail_in_transaction e burnt) =>
          (Raise e, mkJournal (if burnt then rollback before after else before)
                      (latest_committed_cursor j))
      | Some (fail_at_checkpoint e) => (Raise e, mkJournal after (latest_committed_cursor j))
      end
  end.

(** ** The invariant of the tables *)

Definition key (r : journal_row) : string * string := (entity_type r, entity_id r).

(** The ledger row an event's own append wrote.  Receipt-only strategy updates
    are merged with the previous metadata, so their payload may carry more. *)
Definition agrees (r : journal_row) (m : materialized_row) : Prop :=
  mat_account_id m = account_id r ∧
  mat_deleted m = bool_decide (operation r = op_delete) ∧
  mat_updated_at m = received_timestamp r ∧
  (entity_type r ≠ "strategy" → mat_payload m = payload r).

Record wf (c : core) : Prop := {
  wf_sorted : increasing source_cursor (journal c);
  wf_seq : 1 ≤ cursor_seq c;
  wf_bounds r : r ∈ journal c → 1 ≤ source_cursor r < cursor_seq c;
  wf_ids : NoDup (event_id <$> journal c);
  wf_ledger r : r ∈ journal c →
    ∃ m, materialized c !! key r = Some m ∧ entity_revision r ≤ mat_revision m;
  wf_positive k m : materialized c !! k = Some m → 1 ≤ mat_revision m;
  wf_order r1 r2 : r1 ∈ journal c → r2 ∈ journal c → key r1 = key r2 →
    source_cursor r1 < source_cursor r2 → entity_revision r1 < entity_revision r2;
  wf_gapfree r m n : r ∈ journal c → materialized c !! key r = Some m →
    entity_revision r ≤ n ≤ mat_revision m →
    ∃ r', r' ∈ journal c ∧ key r' = key r ∧ entity_revision r' = n
          ∧ source_cursor r ≤ source_cursor r';
  wf_agrees r m : r ∈ journal c → materialized c !! key r = Some m →
    entity_revision r = mat_revision m → agrees r m;
  wf_cp_sorted : increasing checkpoint_id (checkpoints c);
  wf_cp_ids cp : cp ∈ checkpoints c → checkpoint_id cp < checkpoint_seq c;
  wf_cp_cursors cp : cp ∈ checkpoints c →
    0 ≤ oldest_retained_cursor cp ≤ newest_cursor cp ∧ newest_cursor cp < cursor_seq c;
  wf_cp_floor cp r : cp ∈ checkpoints c → r ∈ journal c →
    oldest_retained_cursor cp ≤ source_cursor r;
  wf_cp_empty cp : cp ∈ checkpoints c → journal c = [] → newest_cursor cp = 0;
}.

Definition empty_core : core := mkCore [] 1 ∅ [] 1.

Lemma wf_empty : wf empty_core.
Proof.
  split; simpl; try (intros; set_solver); try lia; try (by constructor).
Qed.

(** One event per entity revision: the table's UNIQUE constraint. *)
Lemma wf_unique_revision c r1 r2 :
  wf c → r1 ∈ journal c → r2 ∈ journal c → key r1 = key r2 →
  entity_revision r1 = entity_revision r2 → r1 = r2.
Proof.
  intros W H1 H2 Hk Hr.
  destruct (Z.lt_trichotomy (source_cursor r1) (source_cursor r2)) as [Hlt|[Heq|Hgt]].
  - pose proof (wf_order _ W r1 r2 H1 H2 Hk Hlt). lia.
  - by eapply increasing_inj; [apply (wf_sorted _ W)|..].
  - pose proof (wf_order _ W r2 r1 H2 H1 (eq_sym Hk) Hgt). lia.
Qed.

Lemma wf_unique_event_id c r1 r2 :
  wf c → r1 ∈ journal c → r2 ∈ journal c → event_id r1 = event_id r2 → r1 = r2.
Proof.
  intros W. pose proof (wf_ids _ W) as Hids. revert Hids.
  generalize (journal c). intros l Hids. induction l as [|r l IH]; [set_solver|].
  rewrite fmap_cons in Hids. apply NoDup_cons in Hids as [Hn Hids].
  intros [->|H1]%elem_of_cons [->|H2]%elem_of_cons E; try done.
  - destruct Hn. rewrite E. by apply list_elem_of_fmap_2.
  - destruct Hn. rewrite <-E. by apply list_elem_of_fmap_2.
  - by apply IH.
Qed.

(** *** Looking up an event id *)

Lemma select_None eid c :
  select_journal_row eid c = None → ∀ r, r ∈ journal c → event_id r ≠ eid.
Proof.
  unfold select_journal_row. intros H r Hr E.
  assert (r ∈ filter (λ r, event_id r = eid) (journal c)) as Hin
    by (by apply list_elem_of_filter).
  destruct (filter _ _); [set_solver|done].
Qed.

Lemma select_Some eid c r :
  select_journal_row eid c = Some r → r ∈ journal c ∧ event_id r = eid.
Proof.
  unfold select_journal_row. intros H.
  assert (r ∈ filter (λ r, event_id r = eid) (journal c)) as Hin
    by (destruct (filter _ _); [done|]; simplify_eq/=; set_solver).
  apply list_elem_of_filter in Hin. naive_solver.
Qed.

Lemma select_recorded c r :
  wf c → r ∈ journal c → select_journal_row (event_id r) c = Some r.
Proof.
  intros W Hr. destruct (select_journal_row (event_id r) c) as [r'|] eqn:E.
  - apply select_Some in E as [Hr' Hid]. f_equal. by eapply wf_unique_event_id.
  - by eapply select_None in E.
Qed.

(** *** The pure effect of one append *)

Definition appended_row (c : core) (eid : string) (m : DomainMutation) (now : Z) : journal_row :=
  mkRow (cursor_seq c) eid (read_current_revision (m_entity_type m) (m_entity_id m) c + 1)
    (m_event_type m) (m_entity_type m) (m_entity_id m) (m_operation m) (m_account_id m)
    (m_source m) (as_utc (m_source_timestamp m)) now (m_correlation_id m) (m_payload m).

Definition append_core (c : core) (eid : string) (m : DomainMutation) (now : Z) : core :=
  mkCore (journal c ++ [appended_row c eid m now]) (cursor_seq c + 1)
    (<[ (m_entity_type m, m_entity_id m) :=
          mkMaterialized (m_account_id m)
            (read_current_revision (m_entity_type m) (m_entity_id m) c + 1)
            (bool_decide (m_operation m = op_delete)) (materialized_payload m c) now ]>
       (materialized c))
    (checkpoints c) (checkpoint_seq c).

Lemma current_revision_ge c r :
  wf c → r ∈ journal c →
  entity_revision r ≤ read_current_revision (entity_type r) (entity_id r) c.
Proof.
  intros W Hr. destruct (wf_ledger _ W r Hr) as (m & Hm & Hle).
  unfold read_current_revision. unfold key in Hm. by rewrite Hm.
Qed.

Lemma current_revision_nonneg c etype eid : wf c → 0 ≤ read_current_revision etype eid c.
Proof.
  intros W. unfold read_current_revision. destruct (_ !! _) as [m|] eqn:E; [|lia].
  pose proof (wf_positive _ W _ _ E). lia.
Qed.

Lemma insert_accepts c eid m now :
  wf c → select_journal_row eid c = None →
  insert_journal_row eid m (read_current_revision (m_entity_type m) (m_entity_id m) c + 1) now
    (set_materialized (materialized (append_core c eid m now)) c)
  = (Ok (row_to_event (appended_row c eid m now)), append_core c eid m now).
Proof.
  intros W Hfresh. unfold insert_journal_row. simpl.
  destruct (existsb _ _) eqn:E; [|done]. exfalso.
  apply existsb_exists in E as (r & Hr & E).
  assert (r ∈ journal c) as Hr' by (by apply list_elem_of_In).
  apply orb_true_iff in E as [[E|E]%orb_true_iff|E].
  - apply Z.eqb_eq in E. pose proof (wf_bounds _ W r Hr'). lia.
  - apply String.eqb_eq in E. by destruct (select_None _ _ Hfresh r Hr').
  - to_prop. pose proof (current_revision_ge c r W Hr') as Hle. congruence || (
    replace (entity_type r) with (m_entity_type m) in Hle by done;
    replace (entity_id r) with (m_entity_id m) in Hle by done; lia).
Qed.

(** *** Appending keeps the invariant *)
Section append_wf.
Context (c : core) (eid : string) (m : DomainMutation) (now : Z).
Hypothesis W : wf c.
Hypothesis fresh : select_journal_row eid c = None.
Local Notation r0 := (appended_row c eid m now).
Local Notation k0 := (m_entity_type m, m_entity_id m).

Lemma append_elem r : r ∈ journal (append_core c eid m now) → r ∈ journal c ∨ r = r0.
Proof. simpl. intros [H|H%list_elem_of_singleton]%elem_of_app; auto. Qed.

Lemma append_lookup_ne k : k ≠ k0 →
  materialized (append_core c eid m now) !! k = materialized c !! k.
Proof. intros H. simpl. by apply lookup_insert_ne. Qed.

Lemma append_lookup_eq : ∃ row,
  materialized (append_core c eid m now) !! k0 = Some row ∧
  mat_revision row = entity_revision r0 ∧ agrees r0 row.
Proof.
  eexists. split; [simpl; apply lookup_insert_eq|]. split; [done|].
  repeat split; simpl. intros Hn. unfold materialized_payload.
  by rewrite (proj2 (String.eqb_neq _ _) Hn).
Qed.

Lemma append_old_revision r : r ∈ journal c → key r = k0 → entity_revision r < entity_revision r0.
Proof.
  intros Hr Hk. pose proof (current_revision_ge c r W Hr). unfold key in Hk.
  injection Hk as Ht Hi. simpl. rewrite <-Ht, <-Hi. lia.
Qed.

Lemma append_old_gapfree r : r ∈ journal c → key r = k0 → ∀ n,
  entity_revision r ≤ n ≤ entity_revision r0 →
  ∃ r', r' ∈ journal (append_core c eid m now) ∧ key r' = k0 ∧ entity_revision r' = n
        ∧ source_cursor r ≤ source_cursor r'.
Proof.
  intros Hr Hk n Hn. destruct (decide (n = entity_revision r0)) as [->|].
  - exists r0. pose proof (wf_bounds _ W r Hr). repeat split; simpl; [set_solver|lia].
  - destruct (wf_ledger _ W r Hr) as (row & Hrow & Hle).
    destruct (wf_gapfree _ W r row n Hr Hrow) as (r' & ? & ? & ? & ?).
    { assert (entity_revision r0 = mat_revision row + 1) as Hr0; [|lia].
      rewrite Hk in Hrow. simpl. unfold read_current_revision. by rewrite Hrow. }
    exists r'. rewrite <-Hk. split; [simpl; set_solver|done].
Qed.

Lemma wf_append_order r1 r2 :
  r1 ∈ journal (append_core c eid m now) → r2 ∈ journal (append_core c eid m now) →
  key r1 = key r2 → source_cursor r1 < source_cursor r2 →
  entity_revision r1 < entity_revision r2.
Proof.
  intros [H1|H1]%append_elem [H2|H2]%append_elem Hk Hc.
  - by eapply wf_order.
  - subst r2. by apply append_old_revision.
  - subst r1. pose proof (wf_bounds _ W r2 H2). simpl in Hc. lia.
  - subst. lia.
Qed.

Lemma wf_append_gapfree r row n :
  r ∈ journal (append_core c eid m now) →
  materialized (append_core c eid m now) !! key r = Some row →
  entity_revision r ≤ n ≤ mat_revision row →
  ∃ r', r' ∈ journal (append_core c eid m now) ∧ key r' = key r ∧ entity_revision r' = n
        ∧ source_cursor r ≤ source_cursor r'.
Proof.
  intros Hr Hrow Hn. destruct append_lookup_eq as (row0 & Hrow0 & Hrev & _).
  destruct (decide (key r = k0)) as [Hk|Hk].
  - rewrite Hk, Hrow0 in Hrow. simplify_eq. rewrite Hrev in Hn. rewrite Hk.
    apply append_elem in Hr as [Hr| ->]; [by apply append_old_gapfree|].
    exists r0. repeat split; [simpl; set_solver| lia | lia].
  - rewrite append_lookup_ne in Hrow by done.
    apply append_elem in Hr as [Hr| ->]; [|by destruct Hk].
    destruct (wf_gapfree _ W r row n Hr Hrow Hn) as (r' & ? & ? & ? & ?).
    exists r'. split; [simpl; set_solver|done].
Qed.

Lemma wf_append_agrees r row :
  r ∈ journal (append_core c eid m now) →
  materialized (append_core c eid m now) !! key r = Some row →
  entity_revision r = mat_revision row → agrees r row.
Proof.
  intros Hr Hrow Hrev. destruct append_lookup_eq as (row0 & Hrow0 & Hrev0 & Hag).
  apply append_elem in Hr as [Hr| ->].
  - destruct (decide (key r = k0)) as [Hk|Hk].
    + rewrite Hk, Hrow0 in Hrow. simplify_eq.
      pose proof (append_old_revision r Hr Hk). lia.
    + rewrite append_lookup_ne in Hrow by done. by eapply wf_agrees.
  - change (key r0) with k0 in Hrow. rewrite Hrow0 in Hrow. by simplify_eq.
Qed.

Lemma wf_append : wf (append_core c eid m now).
Proof.
  pose proof (wf_seq _ W). destruct append_lookup_eq as (row0 & Hrow0 & Hrev0 & _).
  split; try apply wf_append_order; try apply wf_append_gapfree; try apply wf_append_agrees.
  - apply increasing_snoc; [apply (wf_sorted _ W)|]. intros r Hr.
    pose proof (wf_bounds _ W r Hr). simpl. lia.
  - simpl. lia.
  - intros r [Hr| ->]%append_elem; simpl; [|lia]. pose proof (wf_bounds _ W r Hr). lia.
  - simpl. rewrite fmap_app. apply NoDup_app. split_and!; [apply (wf_ids _ W)| |apply NoDup_singleton].
    intros x (r & -> & Hr)%list_elem_of_fmap Hx%list_elem_of_singleton.
    by destruct (select_None _ _ fresh r Hr).
  - intros r Hr. destruct (decide (key r = k0)) as [Hk|Hk].
    + exists row0. rewrite Hk. split; [done|]. rewrite Hrev0.
      apply append_elem in Hr as [Hr| ->]; [|lia]. pose proof (append_old_revision r Hr Hk). lia.
    + apply append_elem in Hr as [Hr| ->]; [|by destruct Hk].
      rewrite append_lookup_ne by done. by apply (wf_ledger _ W).
  - intros k row. destruct (decide (k = k0)) as [->|Hk].
    + rewrite Hrow0. intros [= <-]. rewrite Hrev0. simpl.
      pose proof (current_revision_nonneg c (m_entity_type m) (m_entity_id m) W). lia.
    + rewrite append_lookup_ne by done. apply (wf_positive _ W).
  - apply (wf_cp_sorted _ W).
  - apply (wf_cp_ids _ W).
  - intros cp Hcp. simpl. pose proof (wf_cp_cursors _ W cp Hcp). lia.
  - intros cp r Hcp [Hr| ->]%append_elem; [by apply (wf_cp_floor _ W)|].
    pose proof (wf_cp_cursors _ W cp Hcp). simpl. lia.
  - simpl. intros cp _ H0. by destruct (app_cons_not_nil (journal c) [] r0).
Qed.
End append_wf.

(** *** Sequences may move, compaction removes a prefix *)

Lemma wf_advance c cs ks :
  wf c → cursor_seq c ≤ cs → checkpoint_seq c ≤ ks →
  wf (mkCore (journal c) cs (materialized c) (checkpoints c) ks).
Proof.
  intros [] Hc Hk. split; simpl; try done; [lia|..].
  - intros r Hr. specialize (wf_bounds0 r Hr). lia.
  - intros cp Hcp. specialize (wf_cp_ids0 cp Hcp). lia.
  - intros cp Hcp. specialize (wf_cp_cursors0 cp Hcp). lia.
Qed.

(** The retention point of [compact]. *)
Definition retention_floor (now : Z) (c : core) : Z :=
  match min_of source_cursor (filter (λ r, now - RETENTION_FLOOR ≤ received_timestamp r) (journal c)) with
  | Some m => m
  | None => default 0 (max_of source_cursor (journal c))
  end.

Definition newest (c : core) : Z := default 0 (max_of source_cursor (journal c)).

Lemma newest_ge c r : r ∈ journal c → source_cursor r ≤ newest c.
Proof.
  unfold newest. intros Hr. destruct (max_of _ _) eqn:E; [by eapply max_of_ge|].
  apply max_of_None in E. rewrite E in Hr. set_solver.
Qed.

Lemma newest_elem c : journal c ≠ [] → ∃ r, r ∈ journal c ∧ source_cursor r = newest c.
Proof.
  unfold newest. intros Hne. destruct (max_of _ _) eqn:E; [by eapply max_of_elem|].
  by apply max_of_None in E.
Qed.

Lemma newest_nonneg c : wf c → 0 ≤ newest c.
Proof.
  intros W. destruct (decide (journal c = [])) as [H|H].
  - unfold newest. by rewrite H.
  - destruct (newest_elem c H) as (r & Hr & <-). pose proof (wf_bounds _ W r Hr). lia.
Qed.

Lemma newest_lt_seq c : wf c → newest c < cursor_seq c.
Proof.
  intros W. destruct (decide (journal c = [])) as [H|H].
  - unfold newest. rewrite H. simpl. pose proof (wf_seq _ W). lia.
  - destruct (newest_elem c H) as (r & Hr & <-). pose proof (wf_bounds _ W r Hr). lia.
Qed.

Lemma retention_floor_elem now c :
  journal c ≠ [] → ∃ r, r ∈ journal c ∧ source_cursor r = retention_floor now c.
Proof.
  intros Hne. unfold retention_floor. destruct (min_of _ _) as [m|] eqn:E.
  - apply min_of_elem in E as (r & [_ Hr]%list_elem_of_filter & Hm). by exists r.
  - by apply newest_elem.
Qed.

Lemma retention_floor_bounds now c : wf c → 0 ≤ retention_floor now c ≤ newest c.
Proof.
  intros W. destruct (decide (journal c = [])) as [H|H].
  - unfold retention_floor, newest. rewrite H. simpl. lia.
  - destruct (retention_floor_elem now c H) as (r & Hr & <-).
    pose proof (newest_ge c r Hr). pose proof (wf_bounds _ W r Hr). lia.
Qed.

(** A row inside the retention window is at or above the retention point. *)
Lemma retention_floor_keeps now c r :
  r ∈ journal c → now - RETENTION_FLOOR ≤ received_timestamp r →
  retention_floor now c ≤ source_cursor r.
Proof.
  intros Hr Ht. unfold retention_floor.
  assert (r ∈ filter (λ r, now - RETENTION_FLOOR ≤ received_timestamp r) (journal c)) as Hin
    by (by apply list_elem_of_filter).
  destruct (min_of _ _) as [m|] eqn:E; [by eapply min_of_le|].
  apply min_of_None in E. rewrite E in Hin. set_solver.
Qed.

Definition compacted (now : Z) (at' : Z) (c : core) : core :=
  (compact_core now ∅ at' c).2.

Lemma compact_core_ignores_cursors now ac at' c :
  compact_core now ac at' c = compact_core now ∅ at' c.
Proof. done. Qed.

Lemma compacted_elem now at' c r :
  r ∈ journal (compacted now at' c) ↔ r ∈ journal c ∧ retention_floor now c ≤ source_cursor r.
Proof. unfold compacted. simpl. rewrite list_elem_of_filter. unfold retention_floor. tauto. Qed.

Lemma compacted_newest now at' c : newest (compacted now at' c) = newest c.
Proof.
  destruct (decide (journal c = [])) as [H|H].
  - unfold newest, compacted. simpl. by rewrite H.
  - destruct (newest_elem c H) as (r & Hr & Hn).
    assert (r ∈ journal (compacted now at' c)) as Hr'.
    { apply compacted_elem. split; [done|]. rewrite Hn.
      destruct (retention_floor_elem now c H) as (r' & Hr' & <-). by apply newest_ge. }
    assert (journal (compacted now at' c) ≠ []) as Hne by (intros E; rewrite E in Hr'; set_solver).
    destruct (newest_elem _ Hne) as (r2 & [Hr2 _]%compacted_elem & Hn2).
    pose proof (newest_ge _ _ Hr'). pose proof (newest_ge _ _ Hr2). lia.
Qed.

Lemma wf_compacted now at' c : wf c → wf (compacted now at' c).
Proof.
  intros W. pose proof (retention_floor_bounds now c W) as [Hf1 Hf2].
  pose proof (newest_lt_seq c W). pose proof (newest_nonneg c W).
  split.
  - by apply increasing_filter, (wf_sorted _ W).
  - apply (wf_seq _ W).
  - intros r [Hr _]%compacted_elem. by apply (wf_bounds _ W).
  - eapply sublist_NoDup; [apply (wf_ids _ W)|]. apply fmap_sublist, sublist_filter.
  - intros r [Hr _]%compacted_elem. by apply (wf_ledger _ W).
  - apply (wf_positive _ W).
  - intros r1 r2 [H1 _]%compacted_elem [H2 _]%compacted_elem. by apply (wf_order _ W).
  - intros r m n [Hr Hfl]%compacted_elem Hm Hn.
    destruct (wf_gapfree _ W r m n Hr Hm Hn) as (r' & ? & ? & ? & ?).
    exists r'. split; [|done]. apply compacted_elem. split; [done|lia].
  - intros r m [Hr _]%compacted_elem. by apply (wf_agrees _ W).
  - apply increasing_snoc; [apply (wf_cp_sorted _ W)|]. apply (wf_cp_ids _ W).
  - intros cp [Hcp| ->%list_elem_of_singleton]%elem_of_app; simpl; [|lia].
    pose proof (wf_cp_ids _ W cp Hcp). lia.
  - intros cp [Hcp| ->%list_elem_of_singleton]%elem_of_app; simpl.
    + by apply (wf_cp_cursors _ W).
    + fold (retention_floor now c) (newest c). lia.
  - intros cp r [Hcp| ->%list_elem_of_singleton]%elem_of_app [Hr Hfl]%compacted_elem; [|done].
    by apply (wf_cp_floor _ W).
  - intros cp Hcp Hnil.
    assert (journal c = []) as Hc0.
    { destruct (decide (journal c = [])) as [?|Hne]; [done|].
      destruct (retention_floor_elem now c Hne) as (r & Hr & Hfl).
      assert (r ∈ journal (compacted now at' c)) as Hin by (apply compacted_elem; split; [done|lia]).
      change (journal (compacted now at' c) = []) in Hnil. rewrite Hnil in Hin. set_solver. }
    apply elem_of_app in Hcp as [Hcp| ->%list_elem_of_singleton];
      [by apply (wf_cp_empty _ W)|]. simpl. by rewrite Hc0.
Qed.

Arguments insert_journal_row : simpl never.
Arguments read_current_revision : simpl never.
Arguments materialized_payload : simpl never.

(** ** What a batch can do to the open transaction *)
Section steps.
Context {T : Type}.
Implicit Types (t : tx T) (j : DomainJournal T).

Definition tx_core t : core := db_core (tx_db t).

Inductive tx_step : tx T → tx T → Prop :=
  | tx_producer p t :
      tx_step t (mkTx (mkDb (tx_core t) p) (tx_events t))
  | tx_appended eid m now t :
      select_journal_row eid (tx_core t) = None →
      tx_step t (mkTx (mkDb (append_core (tx_core t) eid m now) (db_producer (tx_db t)))
                   (tx_events t ++ [row_to_event (appended_row (tx_core t) eid m now)]))
  (* the same insert by a producer that manages the event itself *)
  | tx_written eid m now t :
      select_journal_row eid (tx_core t) = None →
      tx_step t (mkTx (mkDb (append_core (tx_core t) eid m now) (db_producer (tx_db t)))
                   (tx_events t))
  | tx_replayed r t :
      r ∈ journal (tx_core t) →
      tx_step t (mkTx (tx_db t) (tx_events t ++ [row_to_event r])).

(** What an abandoned transaction still changed: sequence values are burnt. *)
Definition burnt t t' : Prop :=
  cursor_seq (tx_core t) ≤ cursor_seq (tx_core t') ∧
  checkpoint_seq (tx_core t') = checkpoint_seq (tx_core t).

(** A batch that touches the journal through its own operations only.  When it
    raises, DuckDB has aborted the transaction and its caller rolls back. *)
Definition lawful {A} (w : M (tx T) A) : Prop :=
  ∀ t, wf (tx_core t) →
  match w t with
  | (Ok _, t') => rtc tx_step t t'
  | (Raise _, t') => burnt t t'
  end.

Lemma tx_step_wf t t' : tx_step t t' → wf (tx_core t) → wf (tx_core t').
Proof. destruct 1; simpl; [done|by intros; apply wf_append|by intros; apply wf_append|done]. Qed.

Lemma tx_steps_wf t t' : rtc tx_step t t' → wf (tx_core t) → wf (tx_core t').
Proof. induction 1; eauto using tx_step_wf. Qed.

(** Every outcome of [append], on every branch. *)
Lemma append_spec st m write eid_arg t :
  wf (tx_core t) →
  let eid := default (st_uuid st) eid_arg in
  let now := st_now st in
  let c := tx_core t in
  append st m write eid_arg t =
    match select_journal_row eid c with
    | Some row =>
        if matches row m
        then (Ok (row_to_event row), mkTx (tx_db t) (tx_events t ++ [row_to_event row]))
        else (Raise (EventIdentityConflict eid), t)
    | None =>
        match write (read_current_revision (m_entity_type m) (m_entity_id m) c + 1)
                (db_producer (tx_db t)) with
        | (Raise e, p) => (Raise e, mkTx (mkDb c p) (tx_events t))
        | (Ok _, p) =>
            let event := row_to_event (appended_row c eid m now) in
            (Ok event, mkTx (mkDb (append_core c eid m now) p) (tx_events t ++ [event]))
        end
    end.
Proof.
  intros W eid now c. unfold append. fold eid.
  unfold gets, mbind, M_bind, in_core, in_producer, zoom, modify, mret, M_ret. cbn.
  subst now c. unfold tx_core in *. destruct (select_journal_row eid _) as [row|] eqn:Hsel.
  - by destruct (matches row m).
  - destruct (write _ _) as [[[]|e] p]; [|done].
    pose proof (insert_accepts _ eid m (st_now st) W Hsel) as Hins.
    unfold set_materialized in Hins |- *. cbn in Hins |- *. by rewrite Hins.
Qed.

#[global] Instance burnt_preorder : PreOrder burnt.
Proof.
  split; [by intros t; split|]. intros t1 t2 t3 [H1 H2] [H3 H4]. split; [lia|congruence].
Qed.

Lemma tx_steps_burnt t t' : rtc tx_step t t' → burnt t t'.
Proof.
  induction 1 as [t|t t1 t2 Hs _ IH]; [done|]. etransitivity; [|exact IH].
  destruct Hs; try done; split; unfold tx_core; simpl; (done || lia).
Qed.

(** A call that leaves the transaction usable whatever its outcome. *)
Lemma lawful_steady {A} (w : M (tx T) A) :
  (∀ t, wf (tx_core t) → rtc tx_step t (final w t)) → lawful w.
Proof.
  intros H t W. specialize (H t W). unfold final in H.
  destruct (w t) as [[a|e] t']; [done|]. by apply tx_steps_burnt.
Qed.

Lemma lawful_ret {A} (a : A) : lawful (mret a).
Proof. apply lawful_steady. intros t _. apply rtc_refl. Qed.
Lemma lawful_raise {A} e : lawful (@raise _ A e).
Proof. apply lawful_steady. intros t _. apply rtc_refl. Qed.
Lemma lawful_gets {A} (f : tx T → A) : lawful (gets f).
Proof. apply lawful_steady. intros t _. apply rtc_refl. Qed.
Lemma lawful_require b e : lawful (require b e).
Proof. destruct b; [apply lawful_ret|apply lawful_raise]. Qed.
Lemma lawful_bind {A B} (w : M (tx T) A) (k : A → M (tx T) B) :
  lawful w → (∀ a, lawful (k a)) → lawful (w ≫= k).
Proof.
  intros Hw Hk t W. rewrite bind_unfold. specialize (Hw t W).
  destruct (w t) as [[a|e] t1]; [|done].
  specialize (Hk a t1 (tx_steps_wf _ _ Hw W)).
  destruct (k a t1) as [[b|e] t2]; [by etransitivity|].
  etransitivity; [by apply tx_steps_burnt|done].
Qed.
Lemma lawful_in_producer {A} (w : M (pconn T) A) : lawful (in_producer w).
Proof.
  apply lawful_steady. intros t _. unfold final, in_producer, zoom. destruct (w _) as [r p]. simpl.
  apply rtc_once, tx_producer.
Qed.
Lemma lawful_append st m write eid : lawful (append st m write eid).
Proof.
  apply lawful_steady. intros t W. unfold final. rewrite append_spec by done.
  destruct (select_journal_row _ _) as [row|] eqn:Hsel.
  - destruct (matches row m); simpl; [|apply rtc_refl].
    apply rtc_once, tx_replayed. by apply select_Some in Hsel as [? _].
  - destruct (write _ _) as [[[]|e] p]; simpl; [|apply rtc_once, tx_producer].
    eapply rtc_l; [by apply (tx_producer p)|]. apply rtc_once.
    by apply (tx_appended _ m (st_now st) (mkTx (mkDb (tx_core t) p) (tx_events t))).
Qed.
Lemma lawful_as_utc d : lawful (as_utc_strict d).
Proof. destruct d; [apply lawful_raise|apply lawful_ret]. Qed.
Lemma lawful_new_mutation m : lawful (new_mutation m).
Proof.
  unfold new_mutation. destruct (m_source_timestamp m); [apply lawful_raise|].
  destruct (m_operation m), (m_payload m); apply lawful_ret || apply lawful_raise.
Qed.
Lemma lawful_map_each {A B} (xs : list A) (f : A → M (tx T) B) :
  (∀ x, lawful (f x)) → lawful (map_each xs f).
Proof.
  intros Hf. induction xs as [|x xs IH]; simpl; [apply lawful_ret|].
  apply lawful_bind; [apply Hf|]. intros y.
  apply lawful_bind; [apply IH|]. intros ys. apply lawful_ret.
Qed.
Lemma lawful_for_each {A} (xs : list A) (f : A → M (tx T) unit) :
  (∀ x, lawful (f x)) → lawful (for_each xs f).
Proof.
  intros Hf. induction xs as [|x xs IH]; simpl; [apply lawful_ret|].
  apply lawful_bind; [apply Hf|]. intros _. apply IH.
Qed.
End steps.
#[export] Hint Resolve lawful_ret lawful_raise lawful_gets lawful_require lawful_bind
  lawful_in_producer lawful_as_utc lawful_new_mutation lawful_append lawful_map_each lawful_for_each : mmr.

Lemma newest_append c eid m now : wf c → newest (append_core c eid m now) = cursor_seq c.
Proof.
  intros W. set (r0 := appended_row c eid m now).
  assert (r0 ∈ journal (append_core c eid m now)) as Hin by (simpl; set_solver).
  pose proof (newest_ge _ _ Hin) as Hge. simpl in Hge.
  destruct (newest_elem (append_core c eid m now)) as (r & Hr & Hn).
  { intros E. rewrite E in Hin. set_solver. }
  apply append_elem in Hr as [Hr| ->]; [|by rewrite <-Hn].
  pose proof (wf_bounds _ W r Hr). lia.
Qed.

Section running.
Context {T : Type}.
Implicit Types (t : tx T) (j : DomainJournal T) (d : db T).

Definition jcore j : core := db_core (jdb j).

(** The counter long-poll readers wait on is never ahead of the durable
    journal. *)
Record jwf j : Prop := {
  jwf_core : wf (jcore j);
  jwf_latest : latest_committed_cursor j ≤ newest (jcore j);
}.

Inductive journal_step : DomainJournal T → DomainJournal T → Prop :=
  | step_work {A} (w : M (tx T) A) j :
      lawful w → journal_step j (final (mutate_batch_work w) j)
  | step_compact now ac completed_at fault j :
      journal_step j (final (compact now ac completed_at fault) j)
  (* a transaction run on the journal's connection outside [mutate_batch_work],
     whose commit nobody signals *)
  | step_unsignalled t j :
      rtc tx_step (mkTx (jdb j) []) t →
      journal_step j (mkJournal (tx_db t) (latest_committed_cursor j))
  | step_restart j : journal_step j (restart (jdb j)).

(** What holds of a transaction opened on [d], while it runs. *)
Record tx_ok d t : Prop := {
  ok_wf : wf (tx_core t);
  ok_seq : cursor_seq (db_core d) ≤ cursor_seq (tx_core t);
  ok_cp : checkpoint_seq (tx_core t) = checkpoint_seq (db_core d);
  ok_cps : checkpoints (tx_core t) = checkpoints (db_core d);
  ok_rows r : r ∈ journal (db_core d) → r ∈ journal (tx_core t);
  ok_events e : e ∈ tx_events t → e_source_cursor e ≤ newest (tx_core t);
}.

Lemma tx_ok_begin d : wf (db_core d) → tx_ok d (mkTx d []).
Proof. intros W. split; simpl; try done; set_solver. Qed.

Lemma tx_ok_insert d t eid m now evs :
  select_journal_row eid (tx_core t) = None → tx_ok d t →
  (∀ e, e ∈ evs → e ∈ tx_events t ∨ e_source_cursor e = cursor_seq (tx_core t)) →
  tx_ok d (mkTx (mkDb (append_core (tx_core t) eid m now) (db_producer (tx_db t))) evs).
Proof.
  intros Hf [W Hseq Hcp Hcps Hrows Hev] Hevs.
  assert (newest (append_core (tx_core t) eid m now) = cursor_seq (tx_core t)) as Hn
    by by apply newest_append.
  split; simpl in *; try done; unfold tx_core at 1; simpl.
  - by apply wf_append.
  - unfold tx_core in *. lia.
  - intros r Hr. specialize (Hrows r Hr). set_solver.
  - intros e He. change (e_source_cursor e ≤ newest (append_core (tx_core t) eid m now)).
    rewrite Hn. destruct (Hevs e He) as [He'| ->]; [|apply Z.le_refl].
    specialize (Hev e He'). pose proof (newest_lt_seq _ W). lia.
Qed.

Lemma tx_ok_step d t t' : tx_step t t' → tx_ok d t → tx_ok d t'.
Proof.
  destruct 1 as [p t|eid m now t Hf|eid m now t Hf|r t Hr]; intros Hok.
  - destruct Hok. by split.
  - apply tx_ok_insert; [done|done|]. intros e [He| ->%list_elem_of_singleton]%elem_of_app; auto.
  - apply tx_ok_insert; auto.
  - destruct Hok as [W ? ? ? ? Hev]. split; simpl; try done.
    intros e [He| ->%list_elem_of_singleton]%elem_of_app; [by apply Hev|].
    by apply (newest_ge (tx_core t) r).
Qed.

Lemma tx_ok_steps d t t' : rtc tx_step t t' → tx_ok d t → tx_ok d t'.
Proof. induction 1; eauto using tx_ok_step. Qed.

Lemma tx_ok_run {A} (w : M (tx T) A) d a t :
  lawful w → wf (db_core d) → w (mkTx d []) = (Ok a, t) → tx_ok d t.
Proof.
  intros Hw W Hrun. specialize (Hw (mkTx d []) W). rewrite Hrun in Hw.
  eapply tx_ok_steps; [exact Hw|by apply tx_ok_begin].
Qed.

Lemma rollback_wf {A} (w : M (tx T) A) d e t :
  lawful w → wf (db_core d) → w (mkTx d []) = (Raise e, t) →
  wf (db_core (rollback d (tx_db t))) ∧
  cursor_seq (db_core d) ≤ cursor_seq (db_core (rollback d (tx_db t))).
Proof.
  intros Hw W Hrun. specialize (Hw (mkTx d []) W). rewrite Hrun in Hw. destruct Hw as [Hc Hk].
  split; [|exact Hc]. apply (wf_advance _ _ _ W); [exact Hc|]. unfold tx_core in Hk. simpl in *. lia.
Qed.

Lemma tx_ok_newest d t : wf (db_core d) → tx_ok d t → newest (db_core d) ≤ newest (tx_core t).
Proof.
  intros W Hok. destruct (decide (journal (db_core d) = [])) as [H|H].
  - unfold newest at 1. rewrite H. simpl. apply newest_nonneg, Hok.
  - destruct (newest_elem _ H) as (r & Hr & <-). by apply newest_ge, (ok_rows _ _ Hok).
Qed.

(** The counter after a commit has signalled the events of its batch. *)
Definition signalled (latest : Z) (evs : list DomainEvent) : Z :=
  match max_of e_source_cursor evs with Some c => Z.max latest c | None => latest end.

Lemma signalled_le latest d t :
  wf (db_core d) → tx_ok d t → latest ≤ newest (db_core d) →
  signalled latest (tx_events t) ≤ newest (tx_core t).
Proof.
  intros W Hok Hl. pose proof (tx_ok_newest d t W Hok). unfold signalled.
  destruct (max_of _ _) as [c|] eqn:E; [|lia].
  apply max_of_elem in E as (e & He & <-). pose proof (ok_events _ _ Hok e He). lia.
Qed.

(** [mutate_batch_work], outcome by outcome: a commit signals its newest event,
    a rollback leaves every table and the counter alone. *)
Lemma mutate_batch_work_spec {A} (w : M (tx T) A) j :
  let t := final w (mkTx (jdb j) []) in
  mutate_batch_work w j =
    match outcome w (mkTx (jdb j) []) with
    | Ok a => (Ok a, mkJournal (tx_db t) (signalled (latest_committed_cursor j) (tx_events t)))
    | Raise e => (Raise e, mkJournal (rollback (jdb j) (tx_db t)) (latest_committed_cursor j))
    end.
Proof.
  unfold outcome, final, mutate_batch_work, signalled.
  destruct (w _) as [[a|e] t']; simpl; [|done].
  destruct (max_of e_source_cursor (tx_events t')) as [c|]; [|done].
  unfold signal_commit, modify, mbind, M_bind, mret, M_ret. simpl.
  destruct (Z.ltb_spec (latest_committed_cursor j) c);
    [by rewrite Z.max_r by lia|by rewrite Z.max_l by lia].
Qed.

Lemma jwf_restart d : wf (db_core d) → jwf (restart d).
Proof.
  intros W. pose proof (newest_nonneg _ W). unfold restart, sync_latest_committed_cursor, final.
  simpl. fold (newest (db_core d)). by case_match eqn:E; to_prop; split.
Qed.

Lemma jwf_work {A} (w : M (tx T) A) j : lawful w → jwf j → jwf (final (mutate_batch_work w) j).
Proof.
  intros Hw [W HL]. unfold final. rewrite mutate_batch_work_spec. unfold outcome, final.
  destruct (w (mkTx (jdb j) [])) as [[a|e] t] eqn:Hrun; simpl.
  - pose proof (tx_ok_run w (jdb j) a t Hw W Hrun) as Hok.
    split; [apply Hok|]. by apply (signalled_le _ (jdb j)).
  - split; [by eapply rollback_wf|done].
Qed.

Lemma jwf_unsignalled t j :
  rtc tx_step (mkTx (jdb j) []) t → jwf j → jwf (mkJournal (tx_db t) (latest_committed_cursor j)).
Proof.
  intros Hs [W HL]. pose proof (tx_ok_steps _ _ _ Hs (tx_ok_begin _ W)) as Hok.
  split; [apply Hok|]. simpl. pose proof (tx_ok_newest _ _ W Hok). unfold jcore in *. simpl. unfold tx_core in *. lia.
Qed.

Lemma compact_final n off ac at' fault j :
  jcore (final (compact (Aware n off) ac at' fault) j) =
    match fault with
    | Some (fail_in_transaction _ burnt) =>
        if burnt
        then mkCore (journal (jcore j)) (cursor_seq (jcore j)) (materialized (jcore j))
               (checkpoints (jcore j)) (checkpoint_seq (jcore j) + 1)
        else jcore j
    | _ => compacted n at' (jcore j)
    end.
Proof. by destruct fault as [[e []|e]|]. Qed.

Lemma jwf_compact now ac at' fault j : jwf j → jwf (final (compact now ac at' fault) j).
Proof.
  intros [W HL]. destruct now as [us|n off]; [by split|].
  assert (latest_committed_cursor (final (compact (Aware n off) ac at' fault) j)
          = latest_committed_cursor j) as Hlat by (by destruct fault as [[? []|]|]).
  split; rewrite ?Hlat, compact_final.
  - destruct fault as [[e []|e]|]; try done; try by apply wf_compacted.
    apply (wf_advance _ _ _ W); lia.
  - destruct fault as [[e []|e]|]; try done; by rewrite compacted_newest.
Qed.

Lemma jwf_step j j' : journal_step j j' → jwf j → jwf j'.
Proof.
  destruct 1; intros Hj; [by apply jwf_work|by apply jwf_compact|by apply jwf_unsignalled|].
  apply jwf_restart, Hj.
Qed.

Lemma jwf_steps j j' : rtc journal_step j j' → jwf j → jwf j'.
Proof. induction 1; eauto using jwf_step. Qed.

Definition empty_journal (p : pconn T) : DomainJournal T := mkJournal (mkDb empty_core p) 0.

Lemma jwf_empty p : jwf (empty_journal p).
Proof. split; [apply wf_empty|done]. Qed.
End running.

(** *** Only newer events with newer revisions arrive *)
Record grows (c c' : core) : Prop := {
  grows_seq : cursor_seq c ≤ cursor_seq c';
  grows_ledger etype eid :
    read_current_revision etype eid c ≤ read_current_revision etype eid c';
  grows_rows r : r ∈ journal c' → r ∈ journal c ∨
    cursor_seq c ≤ source_cursor r ∧
    read_current_revision (entity_type r) (entity_id r) c < entity_revision r;
}.

Global Instance grows_preorder : PreOrder grows.
Proof.
  split.
  - intros c. split; [done|done|by left].
  - intros c1 c2 c3 [Hs Hl Hr] [Hs' Hl' Hr']. split; [lia| |].
    + intros etype eid. specialize (Hl etype eid). specialize (Hl' etype eid). lia.
    + intros r H3. destruct (Hr' r H3) as [H2|[? ?]]; [by apply Hr|].
      right. specialize (Hl (entity_type r) (entity_id r)). lia.
Qed.

Lemma grows_append c eid m now : wf c → grows c (append_core c eid m now).
Proof.
  intros W. split.
  - simpl. lia.
  - intros etype eid'. unfold read_current_revision at 2.
    destruct (decide ((etype, eid') = (m_entity_type m, m_entity_id m))) as [E|E].
    + destruct (append_lookup_eq c eid m now) as (row & Hrow & Hrev & _).
      injection E as -> ->. rewrite Hrow, Hrev. simpl. lia.
    + rewrite append_lookup_ne by done. done.
  - intros r [Hr| ->]%append_elem; [by left|]. right. simpl. lia.
Qed.

Lemma grows_same c c' :
  cursor_seq c ≤ cursor_seq c' → materialized c = materialized c' →
  (∀ r, r ∈ journal c' → r ∈ journal c) → grows c c'.
Proof.
  intros Hs Hm Hr. split; [done| |].
  - intros etype eid. unfold read_current_revision. by rewrite Hm.
  - intros r H. left. by apply Hr.
Qed.

Lemma tx_steps_grow {T} (t t' : tx T) :
  rtc tx_step t t' → wf (tx_core t) → grows (tx_core t) (tx_core t').
Proof.
  induction 1 as [|t t1 t2 Hs _ IH]; intros W; [done|].
  transitivity (tx_core t1); [|by eapply IH, tx_step_wf].
  destruct Hs; [done|by apply grows_append|by apply grows_append|done].
Qed.

Lemma journal_step_grows {T} (j j' : DomainJournal T) :
  journal_step j j' → jwf j → grows (jcore j) (jcore j').
Proof.
  destruct 1 as [A w j Hw|now ac at' fault j|t j Hs|j]; intros Hj.
  - pose proof (Hw (mkTx (jdb j) []) (jwf_core _ Hj)) as Hrun.
    unfold final. rewrite mutate_batch_work_spec. unfold outcome, final.
    destruct (w (mkTx (jdb j) [])) as [[a|e] t]; simpl.
    + apply (tx_steps_grow (mkTx (jdb j) [])); [done|apply Hj].
    + apply grows_same; [apply Hrun|done|done].
  - destruct now as [us|n off]; [done|]. rewrite compact_final.
    assert (grows (jcore j) (compacted n at' (jcore j))) as Hc.
    { apply grows_same; [apply Z.le_refl|done|]. by intros r [? _]%compacted_elem. }
    destruct fault as [[e []|e]|]; try done. by apply grows_same; [apply Z.le_refl|..].
  - apply (tx_steps_grow _ _ Hs). apply Hj.
  - unfold restart, sync_latest_committed_cursor, final. simpl. by case_match.
Qed.

Lemma journal_steps_grow {T} (j j' : DomainJournal T) :
  rtc journal_step j j' → jwf j → grows (jcore j) (jcore j').
Proof.
  induction 1 as [|j j1 j2 Hs _ IH]; intros Hj; [done|].
  transitivity (jcore j1); [by apply journal_step_grows|]. by eapply IH, jwf_step.
Qed.

Lemma tx_steps_rows {T} (t t' : tx T) r :
  rtc tx_step t t' → r ∈ journal (tx_core t) → r ∈ journal (tx_core t').
Proof.
  induction 1 as [|t t1 t2 Hs _ IH]; [done|]. intros Hr. apply IH.
  destruct Hs; [done|simpl; set_solver|simpl; set_solver|done].
Qed.

(** A ledger row that changed was changed by an event. *)
Lemma tx_steps_ledger {T} (t t' : tx T) k :
  rtc tx_step t t' → wf (tx_core t) →
  materialized (tx_core t') !! k = materialized (tx_core t) !! k ∨
  ∃ r, r ∈ journal (tx_core t') ∧ key r = k ∧ cursor_seq (tx_core t) ≤ source_cursor r.
Proof.
  induction 1 as [|t t1 t2 Hs Hs' IH]; intros W; [by left|].
  destruct (IH (tx_step_wf _ _ Hs W)) as [IHe|(r & Hr & Hk & Hc)].
  - rewrite IHe. clear IH IHe.
    destruct Hs as [p t|eid m now t Hf|eid m now t Hf|r t Hr]; [by left| | |by left];
      (destruct (decide (k = (m_entity_type m, m_entity_id m))) as [->|Hne];
        [right; exists (appended_row (tx_core t) eid m now); split; [|done];
         eapply tx_steps_rows; [exact Hs'|]; simpl; set_solver
        |left; by apply append_lookup_ne]).
  - right. exists r. split_and!; [done|done|].
    pose proof (tx_steps_grow t t1 ltac:(by apply rtc_once) W) as [Hle _ _]. lia.
Qed.

Lemma journal_step_ledger {T} (j j' : DomainJournal T) k :
  journal_step j j' → jwf j →
  materialized (jcore j') !! k = materialized (jcore j) !! k ∨
  ∃ r, r ∈ journal (jcore j') ∧ key r = k ∧ cursor_seq (jcore j) ≤ source_cursor r.
Proof.
  destruct 1 as [A w j Hw|now ac at' fault j|t j Hs|j]; intros Hj.
  - pose proof (Hw (mkTx (jdb j) []) (jwf_core _ Hj)) as Hrun.
    unfold final. rewrite mutate_batch_work_spec. unfold outcome, final.
    destruct (w (mkTx (jdb j) [])) as [[a|e] t]; simpl; [|by left].
    apply (tx_steps_ledger (mkTx (jdb j) [])); [done|apply Hj].
  - left. destruct now as [us|n off]; [done|]. rewrite compact_final.
    by destruct fault as [[e []|e]|].
  - apply (tx_steps_ledger _ _ _ Hs). apply Hj.
  - left. unfold restart, sync_latest_committed_cursor, final. simpl. by case_match.
Qed.

Lemma journal_steps_ledger {T} (j j' : DomainJournal T) k :
  rtc journal_step j j' → jwf j →
  materialized (jcore j') !! k = materialized (jcore j) !! k ∨
  ∃ jm r, rtc journal_step jm j' ∧ jwf jm ∧ r ∈ journal (jcore jm) ∧ key r = k
          ∧ cursor_seq (jcore j) ≤ source_cursor r.
Proof.
  induction 1 as [|j j1 j2 Hs Hs' IH]; intros Hj; [by left|].
  pose proof (jwf_step _ _ Hs Hj) as Hj1.
  pose proof (grows_seq _ _ (journal_step_grows _ _ Hs Hj)) as Hle.
  destruct (IH Hj1) as [IHe|(jm & r & ? & ? & ? & ? & ?)].
  - rewrite IHe. destruct (journal_step_ledger _ _ k Hs Hj) as [He|(r & ? & ? & ?)]; [by left|].
    right. by exists j1, r.
  - right. exists jm, r. split_and!; try done. lia.
Qed.

(** ** Theorems *)

Lemma rollback_id {T} (d : db T) : rollback d d = d.
Proof. by destruct d as [[] []]. Qed.

(** Records rebuilt field by field. *)
Lemma journal_eta {T} (j : DomainJournal T) :
  mkJournal (mkDb (db_core (jdb j)) (db_producer (jdb j))) (latest_committed_cursor j) = j.
Proof. by destruct j as [[? ?] ?]. Qed.
Lemma pconn_eta {T} (p : pconn T) : mkPconn (seqs p) (tables p) = p.
Proof. by destruct p. Qed.
Lemma rollback_eta {T} (j : DomainJournal T) :
  mkJournal (rollback (jdb j) (mkDb (db_core (jdb j)) (db_producer (jdb j))))
    (latest_committed_cursor j) = j.
Proof. by destruct j as [[[] []] ?]. Qed.

(** The event a fresh append records. *)
Definition recorded_event (c : core) (eid : string) (m : DomainMutation) (now : Z) : DomainEvent :=
  row_to_event (appended_row c eid m now).

Lemma mutate_unfold {T} st m write eid (j : DomainJournal T) :
  mutate st m write eid j =
    match append st m write eid (mkTx (jdb j) []) with
    | (Raise e, t) =>
        (Raise e, mkJournal (rollback (jdb j) (tx_db t)) (latest_committed_cursor j))
    | (Ok e, t) => (outcome (mret e) tt, final (mutate_batch_work (append st m write eid)) j)
    end.
Proof.
  unfold mutate, mutate_batch, mutate_batch_work, signal_commit, outcome, final, modify. simpl.
  unfold mbind, M_bind, mret, M_ret. simpl.
  destruct (append st m write eid (mkTx (jdb j) [])) as [[e|e] t]; [|done]. simpl.
  by destruct (max_of _ _).
Qed.

Lemma final_mutate {T} st m write eid (j : DomainJournal T) :
  final (mutate st m write eid) j = final (mutate_batch_work (append st m write eid)) j.
Proof.
  unfold final. rewrite mutate_unfold.
  destruct (append st m write eid (mkTx (jdb j) [])) as [[e|e] t] eqn:E; [done|].
  unfold mutate_batch_work. by rewrite E.
Qed.

Lemma step_mutate {T} st m write eid (j : DomainJournal T) :
  journal_step j (final (mutate st m write eid) j).
Proof. rewrite final_mutate. apply step_work, lawful_append. Qed.

Lemma jwf_plain {T A} (w : M (tx T) A) (j : DomainJournal T) :
  lawful w → jwf j → jwf (final (plain_transaction w) j).
Proof.
  intros Hw Hj. pose proof (Hw (mkTx (jdb j) []) (jwf_core _ Hj)) as Hs. unfold final, plain_transaction.
  destruct (w _) as [[a|e] t] eqn:Hrun; simpl; [by apply jwf_unsignalled|].
  split; [|apply Hj]. eapply rollback_wf; [done|apply Hj|done].
Qed.

(** Every outcome of [mutate] on a well-formed journal: a new event, a replay,
    an identity conflict, or the callback's own exception.  The table's UNIQUE
    constraints never fire. *)
Lemma mutate_spec {T} st m write eid_arg (j : DomainJournal T) :
  jwf j →
  let eid := default (st_uuid st) eid_arg in
  let c := jcore j in
  mutate st m write eid_arg j =
    match select_journal_row eid c with
    | Some r =>
        if matches r m
        then (Ok (row_to_event r),
              mkJournal (jdb j) (Z.max (latest_committed_cursor j) (source_cursor r)))
        else (Raise (EventIdentityConflict eid), j)
    | None =>
        match write (read_current_revision (m_entity_type m) (m_entity_id m) c + 1)
                (db_producer (jdb j)) with
        | (Raise e, p) =>
            (Raise e, mkJournal (mkDb c (mkPconn (seqs p) (tables (db_producer (jdb j)))))
                        (latest_committed_cursor j))
        | (Ok _, p) =>
            (Ok (recorded_event c eid m (st_now st)),
             mkJournal (mkDb (append_core c eid m (st_now st)) p) (cursor_seq c))
        end
    end.
Proof.
  intros Hj eid c. rewrite mutate_unfold.
  assert (wf (tx_core (mkTx (jdb j) []))) as W by apply Hj.
  pose proof (mutate_batch_work_spec (append st m write eid_arg) j) as Hrun.
  unfold outcome in *. unfold final at 1. rewrite Hrun. clear Hrun.
  unfold final. rewrite !append_spec by done. unfold tx_core. simpl. fold (jcore j) c eid.
  destruct (select_journal_row eid c) as [r|] eqn:Hs.
  - destruct j as [d l]. destruct (matches r m); simpl; [done|by rewrite rollback_id].
  - destruct (write _ _) as [[[]|e] p]; simpl; [|unfold rollback, c, jcore; simpl; by destruct (db_core (jdb j))].
    unfold signalled. simpl. rewrite Z.max_r; [done|].
    pose proof (jwf_latest _ Hj). pose proof (newest_lt_seq _ (jwf_core _ Hj)). unfold c. lia.
Qed.

(** C1. A journal built by any sequence of batches (committed or rolled back),
    compactions (failed ones included) and process restarts keeps its tables'
    invariant: cursors strictly increase, event ids and entity revisions are
    unique, an entity's revisions run without a gap up to its ledger row, the
    ledger row is the one its last event wrote, no row is below a checkpoint's
    retention point, and the counter readers wait on is never ahead of the rows. *)
Theorem reachable_journal_wf {T} (p : pconn T) (j : DomainJournal T) :
  rtc journal_step (empty_journal p) j → jwf j.
Proof. intros H. eapply jwf_steps; [exact H|apply jwf_empty]. Qed.

(** Retrying an event id is exact: the same canonical fields give the
    recorded event back and leave the database as it is, any different field
    raises [EventIdentityConflict] and changes nothing at all; the callback runs
    in neither case. *)
Theorem mutate_replay {T} (j : DomainJournal T) r st m write :
  jwf j → r ∈ journal (jcore j) →
  mutate st m write (Some (event_id r)) j =
    if matches r m
    then (Ok (row_to_event r),
          mkJournal (jdb j) (Z.max (latest_committed_cursor j) (source_cursor r)))
    else (Raise (EventIdentityConflict (event_id r)), j).
Proof.
  intros Hj Hr. rewrite mutate_spec by done. simpl.
  by rewrite (select_recorded _ r (jwf_core _ Hj) Hr).
Qed.

(** A batch on an id the journal has not seen: the callback gets exactly the
    next revision; if it raises, tables, journal, ledger and the readers'
    counter are as before; if not, one event is committed with a cursor above
    every earlier one, and readers are told that cursor. *)
Theorem mutate_fresh {T} (j : DomainJournal T) st m write eid_arg :
  jwf j →
  let eid := default (st_uuid st) eid_arg in
  (∀ r, r ∈ journal (jcore j) → event_id r ≠ eid) →
  let rev := read_current_revision (m_entity_type m) (m_entity_id m) (jcore j) + 1 in
  match write rev (db_producer (jdb j)), mutate st m write eid_arg j with
  | (Raise e, _), (r, j') =>
      r = Raise e ∧ jcore j' = jcore j ∧
      tables (db_producer (jdb j')) = tables (db_producer (jdb j)) ∧
      latest_committed_cursor j' = latest_committed_cursor j
  | (Ok _, p), (r, j') =>
      ∃ e, r = Ok e ∧ e_event_id e = eid ∧ e_entity_revision e = rev ∧
        (∀ r, r ∈ journal (jcore j) → source_cursor r < e_source_cursor e) ∧
        latest_committed_cursor j' = e_source_cursor e ∧ db_producer (jdb j') = p ∧
        map row_to_event (journal (jcore j')) = map row_to_event (journal (jcore j)) ++ [e]
  end.
Proof.
  intros Hj eid Hfresh rev. rewrite mutate_spec by done. fold eid.
  destruct (select_journal_row eid (jcore j)) as [r|] eqn:Hs.
  { apply select_Some in Hs as [Hr He]. by destruct (Hfresh r Hr). }
  fold rev. destruct (write rev _) as [[[]|e] p]; [|done].
  eexists. repeat split; simpl.
  - intros r Hr. by apply (wf_bounds _ (jwf_core _ Hj)).
  - by rewrite map_app.
Qed.

(** C2. A completed [compact]: rows leave from the bottom only, none received
    within the 30 days does, the newest row stays and so does every reader who
    has seen it, the result and the new checkpoint report exactly what
    happened, the broker generation is carried, and which cursors are active
    makes no difference. *)
Theorem compact_correct {T} (j : DomainJournal T) n off ac ac' completed_at :
  jwf j →
  ∃ res j',
    compact (Aware n off) ac completed_at None j = (Ok res, j') ∧
    compact (Aware n off) ac' completed_at None j = (Ok res, j') ∧
    (∀ r, r ∈ journal (jcore j') ↔
          r ∈ journal (jcore j) ∧ cr_oldest_retained_cursor res ≤ source_cursor r) ∧
    (∀ r, r ∈ journal (jcore j) → n - days 30 ≤ received_timestamp r → r ∈ journal (jcore j')) ∧
    cr_newest_cursor res = newest (jcore j) ∧ newest (jcore j') = newest (jcore j) ∧
    cr_oldest_retained_cursor res ≤ cr_newest_cursor res ∧
    cr_deleted_count res
      = Z.of_nat (length (journal (jcore j))) - Z.of_nat (length (journal (jcore j'))) ∧
    (∃ cp, latest_checkpoint (jcore j') = Some cp ∧
           oldest_retained_cursor cp = cr_oldest_retained_cursor res ∧
           broker_generation cp = read_latest_broker_generation (jcore j)) ∧
    materialized (jcore j') = materialized (jcore j) ∧
    tables (db_producer (jdb j')) = tables (db_producer (jdb j)).
Proof.
  intros Hj. pose proof (jwf_core _ Hj) as W.
  eexists _, _. split; [reflexivity|]. split; [reflexivity|].
  assert (∀ r, r ∈ journal (compacted n completed_at (jcore j)) ↔
    r ∈ journal (jcore j) ∧ retention_floor n (jcore j) ≤ source_cursor r) as Hrows
    by apply compacted_elem.
  split; [exact Hrows|]. split_and!; try done.
  - intros r Hr Ht. apply Hrows. split; [done|]. by apply retention_floor_keeps.
  - apply (compacted_newest n completed_at).
  - by apply (retention_floor_bounds n).
  - apply length_filter_below.
  - eexists. split;
      [apply latest_by_snoc, (wf_cp_sorted _ (wf_compacted n completed_at _ W))|by split].
Qed.

(** C3. [compact] is all or nothing up to its commit only: a failure inside the
    transaction leaves every row and checkpoint, while a failing [CHECKPOINT]
    raises although the rows are already gone for good. *)
Theorem compact_failure {T} (j : DomainJournal T) n off ac completed_at fault :
  let (r, j') := compact (Aware n off) ac completed_at (Some fault) j in
  match fault with
  | fail_in_transaction e _ =>
      r = Raise e ∧ journal (jcore j') = journal (jcore j) ∧
      checkpoints (jcore j') = checkpoints (jcore j) ∧
      materialized (jcore j') = materialized (jcore j)
  | fail_at_checkpoint e =>
      r = Raise e ∧ jdb j' = jdb (final (compact (Aware n off) ac completed_at None) j)
  end.
Proof. by destruct fault as [e []|e]. Qed.

(** *** Receipt-only strategy updates *)

Lemma assoc_merge_spec {A} (a b : list (string * A)) k :
  NoDup (b.*1) →
  assoc k (assoc_merge a b) = match assoc k b with Some v => Some v | None => assoc k a end.
Proof.
  unfold assoc_merge. revert a. induction b as [|[k' v] b IH]; intros a Hnd; [done|].
  rewrite fmap_cons in Hnd. apply NoDup_cons in Hnd as [Hn Hnd]. simpl. rewrite IH by done.
  destruct (String.eqb k k') eqn:E.
  - apply String.eqb_eq in E as <-. rewrite assoc_set_eq.
    assert (assoc k b = None) as ->; [|done]. clear -Hn. induction b as [|[k2 v2] b IH]; [done|].
    simpl in *. rewrite (proj2 (String.eqb_neq k k2)) by set_solver. apply IH. set_solver.
  - apply String.eqb_neq in E. by rewrite assoc_set_ne by done.
Qed.

Definition carried (previous incoming : dict) (field : string) : bool :=
  match assoc field incoming with
  | None => true
  | Some v => is_missing_strategy_metadata v
  end && bool_decide (is_Some (assoc field previous)).

Lemma carry_field_spec previous incoming merged field k :
  assoc k (carry_field previous incoming merged field) =
    if bool_decide (k = field) && carried previous incoming field
    then assoc k previous else assoc k merged.
Proof.
  unfold carry_field, carried.
  assert (∀ b : bool,
    assoc k (if b then match assoc field previous with
                       | Some v => assoc_set field v merged | None => merged end else merged)
    = if bool_decide (k = field) && (b && bool_decide (is_Some (assoc field previous)))
      then assoc k previous else assoc k merged) as H; [|apply H].
  intros []; simpl; [|by rewrite andb_false_r].
  destruct (assoc field previous) as [v|] eqn:Hp; simpl; [|by rewrite andb_false_r].
  rewrite andb_true_r. case_bool_decide as Hk.
  - subst. by rewrite assoc_set_eq.
  - by rewrite assoc_set_ne.
Qed.

Lemma carry_fields_spec previous incoming fields merged k :
  assoc k (fold_left (carry_field previous incoming) fields merged) =
    if bool_decide (k ∈ fields) && carried previous incoming k
    then assoc k previous else assoc k merged.
Proof.
  revert merged. induction fields as [|f fields IH]; intros merged; [done|].
  simpl. rewrite IH, carry_field_spec.
  destruct (decide (k = f)) as [->|Hne].
  - rewrite (bool_decide_eq_true_2 (f = f)), (bool_decide_eq_true_2 (f ∈ f :: fields)) by set_solver.
    simpl. destruct (carried previous incoming f), (bool_decide (f ∈ fields)); done.
  - rewrite (bool_decide_eq_false_2 (k = f)) by done. simpl.
    by rewrite (bool_decide_ext (k ∈ f :: fields) (k ∈ fields)) by set_solver.
Qed.

(** What a strategy update leaves in the ledger, key by key: incoming values
    win, except that a runtime-metadata field the update omits or sends empty
    keeps the value the live ledger row had; other keys of the old row stay. *)
Theorem strategy_update_merges (c : core) m prev inc row k :
  m_entity_type m = "strategy" → m_operation m = op_upsert →
  m_payload m = Some inc → NoDup (inc.*1) →
  materialized c !! (m_entity_type m, m_entity_id m) = Some row →
  mat_deleted row = false → mat_payload row = Some prev →
  ∀ eid now, ∃ merged row',
    materialized (append_core c eid m now) !! (m_entity_type m, m_entity_id m) = Some row' ∧
    mat_payload row' = Some merged ∧
    assoc k merged =
      if bool_decide (k ∈ STRATEGY_RUNTIME_METADATA_FIELDS) && carried prev inc k
      then assoc k prev
      else match assoc k inc with Some v => Some v | None => assoc k prev end.
Proof.
  intros Ht Hop Hp Hnd Hrow Hdel Hprev eid now.
  exists (fold_left (carry_field prev inc) STRATEGY_RUNTIME_METADATA_FIELDS (assoc_merge prev inc)).
  eexists.
  split; [simpl; apply lookup_insert_eq|]. split.
  - simpl. unfold materialized_payload. rewrite Ht, Hop, Hp. rewrite Ht in Hrow.
    simpl. by rewrite Hrow, Hdel, Hprev.
  - by rewrite carry_fields_spec, assoc_merge_spec.
Qed.

(** *** The wait loop *)

(** A long-poll reader returns from the first wakeup that shows a newer
    cursor or a spent budget, never from a spurious one, and it does return as
    soon as one such wakeup comes. *)
Theorem wait_returns after deadline wakeups :
  let done '(latest, now) := (after <? latest) || (deadline - now <=? 0) in
  match wait_for_cursor_after after deadline wakeups with
  | Some v => ∃ asleep now rest,
      wakeups = asleep ++ (v, now) :: rest ∧
      (∀ w, w ∈ asleep → done w = false) ∧ done (v, now) = true
  | None => ∀ w, w ∈ wakeups → done w = false
  end.
Proof.
  intros done. induction wakeups as [|[latest now] wakeups IH]; simpl; [set_solver|].
  destruct (Z.leb_spec latest after); [destruct (Z.leb_spec (deadline - now) 0)|].
  - exists [], now, wakeups. split; [done|]. split; [set_solver|].
    unfold done. apply orb_true_iff. right. lia.
  - assert (done (latest, now) = false) as Hd by (unfold done; apply orb_false_iff; lia).
    destruct (wait_for_cursor_after _ _ _) as [v|].
    + destruct IH as (asleep & now' & rest & -> & ? & ?).
      exists ((latest, now) :: asleep), now', rest. split; [done|]. set_solver.
    + set_solver.
  - exists [], now, wakeups. split; [done|]. split; [set_solver|].
    unfold done. apply orb_true_iff. left. lia.
Qed.

(** ** Concrete runs *)
Definition ex_write : WriteMaterialized unit := λ _, mret tt.
Definition ex_stamp : stamp := mkStamp "u-1" (days 100).
Definition ex_mutation (payload : dict) : DomainMutation :=
  mkMutation "strategy.updated" "strategy" "orb" op_upsert None "runtime"
    (Aware (days 99) 0) None (Some payload).
Definition ex_start : DomainJournal unit := empty_journal (mkPconn ∅ tt).
Definition ex_first := mutate ex_stamp
  (ex_mutation [("class_name", JStr "Orb"); ("state", JStr "running")]) ex_write (Some "e-1").
Definition ex_j : DomainJournal unit := final ex_first ex_start.
Definition ex_row : journal_row :=
  appended_row empty_core "e-1"
    (ex_mutation [("class_name", JStr "Orb"); ("state", JStr "running")]) (days 100).

Lemma ex_j_reachable : rtc journal_step ex_start ex_j.
Proof.
  apply rtc_once, step_mutate.
Qed.

Lemma ex_j_jwf : jwf ex_j.
Proof. eapply jwf_steps; [apply ex_j_reachable|apply jwf_empty]. Qed.

Lemma reachable_journal_wf_witness : jwf ex_j ∧ latest_committed_cursor ex_j = 1.
Proof.
  split; [|reflexivity].
  apply (reachable_journal_wf (mkPconn ∅ tt)). apply ex_j_reachable.
Defined.

Lemma mutate_replay_witness :
  mutate (mkStamp "u-2" (days 200))
    (ex_mutation [("state", JStr "running"); ("class_name", JStr "Orb")])
    (λ _, raise KeyError) (Some "e-1") ex_j = (Ok (row_to_event ex_row), ex_j).
Proof.
  apply (mutate_replay ex_j ex_row); [apply ex_j_jwf|]. apply list_elem_of_singleton.
  reflexivity.
Defined.

Lemma mutate_fresh_witness :
  e_source_cursor <$> (match outcome (mutate ex_stamp (ex_mutation []) ex_write None) ex_j with
                       | Ok e => Some e | Raise _ => None end) = Some 2 ∧
  latest_committed_cursor (final (mutate ex_stamp (ex_mutation []) ex_write None) ex_j) = 2.
Proof.
  split; [reflexivity|].
  assert (∀ r, r ∈ journal (jcore ex_j) → event_id r ≠ "u-1"%string) as Hf.
  { intros r ->%list_elem_of_singleton. discriminate. }
  destruct (mutate_fresh ex_j ex_stamp (ex_mutation []) ex_write None ex_j_jwf Hf)
    as (e & [= <-] & _ & _ & _ & Hl & _).
  exact Hl.
Defined.

Lemma compact_correct_witness : ∃ res j',
  compact (Aware (days 200) 0) ∅ (days 200) None ex_j = (Ok res, j') ∧
  cr_oldest_retained_cursor res = 1 ∧ cr_deleted_count res = 0.
Proof.
  destruct (compact_correct ex_j (days 200) 0 ∅ ∅ (days 200) ex_j_jwf)
    as (res & j' & H & _).
  exists res, j'. split; [exact H|]. vm_compute in H. injection H as <- <-. done.
Defined.

Lemma strategy_update_merges_witness : ∃ merged row',
  materialized (append_core (jcore ex_j) "e-2"
    (ex_mutation [("state", JStr "paused"); ("class_name", JStr "")]) (days 101))
    !! ("strategy", "orb")%string = Some row' ∧
  mat_payload row' = Some merged ∧ assoc "class_name" merged = Some (JStr "Orb").
Proof.
  destruct (strategy_update_merges (jcore ex_j)
    (ex_mutation [("state", JStr "paused"); ("class_name", JStr "")])
    [("class_name", JStr "Orb"); ("state", JStr "running")]
    [("state", JStr "paused"); ("class_name", JStr "")]
    (mkMaterialized None 1 false
       (Some [("class_name", JStr "Orb"); ("state", JStr "running")]) (days 100))
    "class_name") with (eid := "e-2"%string) (now := days 101)
    as (merged & row' & Hrow & Hp & Hm); try reflexivity.
  - repeat constructor; set_solver.
  - exists merged, row'. done.
Defined.
