(* ===== verification/Store.v ===== *)
(** * A store's own table inside the journal's database

    The stores that journal their changes ([CircuitBreakerStore],
    [ExitOwnerStore], [ControllerEpochStore], ...) share one shape: reads and
    writes of one table through the connection, and [append] in the same
    transaction.  This file gives those statements, the equations that run a
    transaction statement by statement, and the outcome of the transaction. *)
From stdpp Require Import base tactics gmap list strings.
From Stdlib Require Import ZArith Lia.
From S2P Require Import Prelude Py Journal.
Open Scope Z_scope.

Section store.
Context {T tbl : Type} `{HasTable T tbl}.

Definition table_of (d : db T) : tbl := tget (tables (db_producer d)).

Definition with_table (f : tbl → tbl) (d : db T) : db T :=
  mkDb (db_core d)
    (mkPconn (seqs (db_producer d)) (tset (f (table_of d)) (tables (db_producer d)))).

(** [SELECT], [INSERT] and [UPDATE] on the store's table. *)
Definition read_table : M (tx T) tbl := gets (λ t, table_of (tx_db t)).
Definition write_table (f : tbl → tbl) : M (tx T) unit :=
  modify (λ t, mkTx (with_table f (tx_db t)) (tx_events t)).

(** A [SELECT] on a fresh cursor of the journal's connection *)
Definition read_store : M (DomainJournal T) tbl := gets (λ j, table_of (jdb j)).

Lemma table_of_with f d : table_of (with_table f d) = f (table_of d).
Proof. unfold table_of, with_table. simpl. apply tget_tset. Qed.
Lemma with_table_twice f g d : with_table f (with_table g d) = with_table (λ t, f (g t)) d.
Proof.
  unfold with_table at 1. rewrite table_of_with. unfold with_table. simpl. by rewrite tset_tset.
Qed.
Lemma with_table_ext f g d : f (table_of d) = g (table_of d) → with_table f d = with_table g d.
Proof. unfold with_table. by intros ->. Qed.
Lemma with_table_id f d : f (table_of d) = table_of d → with_table f d = d.
Proof.
  unfold with_table, table_of. intros ->. rewrite tset_tget.
  by destruct d as [? []].
Qed.
Lemma core_with_table f d : db_core (with_table f d) = db_core d.
Proof. done. Qed.
Lemma rollback_with_table f d : rollback d (with_table f d) = d.
Proof. by destruct d as [[] []]. Qed.

Context {A : Type}.
Lemma bind_read_table (k : tbl → M (tx T) A) t :
  (read_table ≫= k) t = k (table_of (tx_db t)) t.
Proof. done. Qed.
Lemma bind_write_table f (k : unit → M (tx T) A) t :
  (write_table f ≫= k) t = k tt (mkTx (with_table f (tx_db t)) (tx_events t)).
Proof. done. Qed.
Lemma bind_read_store (k : tbl → M (DomainJournal T) A) j :
  (read_store ≫= k) j = k (table_of (jdb j)) j.
Proof. done. Qed.

Lemma lawful_read_table : lawful read_table.
Proof. apply lawful_gets. Qed.
Lemma lawful_write_table f : lawful (write_table f).
Proof. apply lawful_steady. intros t _. apply rtc_once, tx_producer. Qed.
End store.

Section append.
Context {T A : Type}.

Lemma bind_new_mutation {S} m (k : DomainMutation → M S A) s :
  mutation_valid m = true → (new_mutation m ≫= k) s = k m s.
Proof.
  unfold mutation_valid, new_mutation. destruct (m_source_timestamp m); [done|].
  rewrite !bind_unfold. by destruct (m_operation m), (m_payload m).
Qed.

Lemma bind_in_producer {B} (m : M (pconn T) B) (k : B → M (tx T) A) t :
  (in_producer m ≫= k) t =
    match m (db_producer (tx_db t)) with
    | (Ok b, p) => k b (mkTx (mkDb (db_core (tx_db t)) p) (tx_events t))
    | (Raise e, p) => (Raise e, mkTx (mkDb (db_core (tx_db t)) p) (tx_events t))
    end.
Proof. rewrite bind_unfold. unfold in_producer, zoom. by destruct (m _) as [[b|e] p]. Qed.

(** The database after a new event of the mutation is recorded. *)
Definition with_event (eid : string) (m : DomainMutation) (now : Z) (d : db T) : db T :=
  mkDb (append_core (db_core d) eid m now) (db_producer d).

(** An append whose callback writes nothing. *)
Lemma bind_append st m eid (k : DomainEvent → M (tx T) A) t :
  wf (tx_core t) →
  (append st m (λ _, mret tt) (Some eid) ≫= k) t =
    match select_journal_row eid (tx_core t) with
    | Some row =>
        if matches row m
        then k (row_to_event row) (mkTx (tx_db t) (tx_events t ++ [row_to_event row]))
        else (Raise (EventIdentityConflict eid), t)
    | None =>
        k (recorded_event (tx_core t) eid m (st_now st))
          (mkTx (with_event eid m (st_now st) (tx_db t))
             (tx_events t ++ [recorded_event (tx_core t) eid m (st_now st)]))
    end.
Proof.
  intros W. rewrite bind_unfold, append_spec by done. simpl.
  destruct (select_journal_row eid (tx_core t)); [|done]. by destruct (matches _ m).
Qed.

(** The outcome of the transaction, from the outcome of its work. *)
Lemma mutate_batch_work_run (w : M (tx T) A) j r t :
  w (mkTx (jdb j) []) = (r, t) →
  mutate_batch_work w j =
    match r with
    | Ok a => (Ok a, mkJournal (tx_db t) (signalled (latest_committed_cursor j) (tx_events t)))
    | Raise e => (Raise e, mkJournal (rollback (jdb j) (tx_db t)) (latest_committed_cursor j))
    end.
Proof. intros E. rewrite mutate_batch_work_spec. unfold outcome, final. by rewrite E. Qed.

Lemma plain_transaction_run (w : M (tx T) A) j r t :
  w (mkTx (jdb j) []) = (r, t) →
  plain_transaction w j =
    match r with
    | Ok a => (Ok a, mkJournal (tx_db t) (latest_committed_cursor j))
    | Raise e => (Raise e, mkJournal (rollback (jdb j) (tx_db t)) (latest_committed_cursor j))
    end.
Proof. intros E. unfold plain_transaction. rewrite E. by destruct r. Qed.

(** The signal of one new event. *)
Lemma signalled_fresh (j : DomainJournal T) eid m now :
  jwf j →
  signalled (latest_committed_cursor j) [recorded_event (jcore j) eid m now] = cursor_seq (jcore j).
Proof.
  intros Hj. unfold signalled, recorded_event. simpl. rewrite Z.max_r; [done|].
  pose proof (jwf_latest _ Hj). pose proof (newest_lt_seq _ (jwf_core _ Hj)). lia.
Qed.
End append.

(** *** Writes that hand a value back to the code around [mutate] *)
Section written.
Context {T : Type}.
Implicit Types (j : DomainJournal T).

(** *** [DomainJournal.mutate] with a callback that keeps what it wrote: the
    callback does not run when the event id is a replay. *)
Definition mutate_written {B} (st : stamp) (m : DomainMutation) (write : Z → M (pconn T) B) (eid : string)
    : M (DomainJournal T) (list B) := λ j,
  match mutate st m (λ rev, write rev ;; mret tt) (Some eid) j with
  | (Raise e, j') => (Raise e, j')
  | (Ok _, j') =>
      (Ok match select_journal_row eid (db_core (jdb j)) with
          | Some _ => []
          | None =>
              match write (read_current_revision (m_entity_type m) (m_entity_id m) (db_core (jdb j)) + 1)
                      (db_producer (jdb j)) with
              | (Ok b, _) => [b]
              | (Raise _, _) => []
              end
          end, j')
  end.

(** [written[0]] *)
Definition first_written {S B} (l : list B) : M S B :=
  match l with b :: _ => mret b | [] => raise IndexError end.

Lemma mutate_written_spec {B} st m (write : Z → M (pconn T) B) eid j :
  jwf j →
  mutate_written st m write eid j =
    match select_journal_row eid (jcore j) with
    | Some r =>
        if matches r m
        then (Ok [], mkJournal (jdb j) (Z.max (latest_committed_cursor j) (source_cursor r)))
        else (Raise (EventIdentityConflict eid), j)
    | None =>
        match write (read_current_revision (m_entity_type m) (m_entity_id m) (jcore j) + 1)
                (db_producer (jdb j)) with
        | (Raise e, p) =>
            (Raise e, mkJournal (mkDb (jcore j) (mkPconn (seqs p) (tables (db_producer (jdb j)))))
                        (latest_committed_cursor j))
        | (Ok b, p) =>
            (Ok [b], mkJournal (mkDb (append_core (jcore j) eid m (st_now st)) p) (cursor_seq (jcore j)))
        end
    end.
Proof.
  intros Hj. unfold mutate_written. rewrite mutate_spec by done. simpl.
  fold (jcore j). destruct (select_journal_row eid (jcore j)) as [r|]; [by destruct (matches r m)|].
  rewrite bind_unfold. by destruct (write _ _) as [[b|e] p].
Qed.

End written.
(** ** Invariants of the database, statement by statement

    A property [Pc] of the journal's rows and one [Pt] of the tables are kept by
    every transaction whose statements keep them: an appended event never takes a
    row away, and a rollback restores both. *)
Section keeps.
Context {T : Type} (Pc : core → Prop) (Pt : T → Prop).
Hypothesis Pc_rows : ∀ c c', Pc c → (∃ l, journal c' = journal c ++ l) → Pc c'.

Definition kept_db (d : db T) : Prop := Pc (db_core d) ∧ Pt (tables (db_producer d)).
Definition kept (j : DomainJournal T) : Prop := kept_db (jdb j).
Definition kept_tx (t : tx T) : Prop := kept_db (tx_db t).
Definition kept_conn (p : pconn T) : Prop := Pt (tables p).

Lemma keeps_in_producer {A} (m : M (pconn T) A) : preserves kept_conn m → preserves kept_tx (in_producer m).
Proof.
  intros Hm t [Hc Ht]. specialize (Hm _ Ht). unfold final, in_producer, zoom in *.
  destruct (m _) as [r p]. by split.
Qed.

Lemma keeps_in_core {A} (m : M core A) :
  (∀ c, ∃ l, journal (final m c) = journal c ++ l) → preserves kept_tx (in_core m).
Proof.
  intros Hm t [Hc Ht]. specialize (Hm (db_core (tx_db t))). unfold final, in_core, zoom in *.
  destruct (m _) as [r c]. split; [by eapply Pc_rows|done].
Qed.

Lemma keeps_append st m (write : Z → M (pconn T) unit) eid :
  (∀ rev, preserves kept_conn (write rev)) → preserves kept_tx (append st m write eid).
Proof.
  intros Hw. unfold append. apply preserves_bind; [apply preserves_gets|]. intros existing.
  apply preserves_bind.
  - destruct existing as [row|]; [destruct (negb _); [apply preserves_raise|apply preserves_ret]|].
    apply preserves_bind; [apply keeps_in_core; intros c; exists []; by rewrite app_nil_r|]. intros rev.
    apply preserves_bind; [apply keeps_in_producer, Hw|]. intros _.
    apply preserves_bind; [apply keeps_in_core; intros c; exists []; by rewrite app_nil_r|]. intros _.
    apply keeps_in_core. intros c. unfold final, insert_journal_row.
    destruct (existsb _ _); [exists []; by rewrite app_nil_r|by eexists].
  - intros ev. apply preserves_bind; [by apply preserves_modify|]. intros _. apply preserves_ret.
Qed.

Lemma keeps_batch {A} (w : M (tx T) A) : preserves kept_tx w → preserves kept (mutate_batch_work w).
Proof.
  intros Hw j Hj. specialize (Hw (mkTx (jdb j) []) Hj). unfold final in *. rewrite mutate_batch_work_spec.
  unfold outcome, final. destruct (w _) as [[a|e] t]; simpl in *; [done|].
  destruct Hj as [Hc Ht]. split; [|done].
  eapply Pc_rows; [exact Hc|]. exists []. by rewrite app_nil_r.
Qed.

Lemma keeps_plain {A} (w : M (tx T) A) : preserves kept_tx w → preserves kept (plain_transaction w).
Proof.
  intros Hw j Hj. specialize (Hw (mkTx (jdb j) []) Hj). unfold final, plain_transaction in *.
  destruct (w _) as [[a|e] t]; simpl in *; [done|].
  destruct Hj as [Hc Ht]. split; [|done].
  eapply Pc_rows; [exact Hc|]. exists []. by rewrite app_nil_r.
Qed.

Lemma keeps_mutate st m (write : Z → M (pconn T) unit) eid :
  (∀ rev, preserves kept_conn (write rev)) → preserves kept (mutate st m write eid).
Proof. intros Hw j Hj. rewrite final_mutate. by apply keeps_batch; [apply keeps_append|]. Qed.

Lemma keeps_mutate_written {B} st m (write : Z → M (pconn T) B) eid :
  (∀ rev, preserves kept_conn (write rev)) → preserves kept (mutate_written st m write eid).
Proof.
  intros Hw j Hj. unfold final, mutate_written.
  pose proof (keeps_mutate st m (λ rev, write rev ;; mret tt) (Some eid)) as Hm.
  unfold preserves, final in Hm. specialize (Hm (λ rev, preserves_bind _ _ _ (Hw rev) (λ _, preserves_ret _ tt)) j Hj).
  by destruct (mutate _ _ _ _ j) as [[ev|e] j'].
Qed.
End keeps.

(** A call on one part of a state, and the rest of it. *)
Lemma preserves_zoom {S P A} (I : P → Prop) (J : S → Prop) (getp : S → P) (setp : P → S → S) (m : M P A) :
  (∀ s, J s → I (getp s)) → (∀ s p, J s → I p → J (setp p s)) → preserves I m → preserves J (zoom getp setp m).
Proof.
  intros Hget Hset Hm s Hs. specialize (Hm _ (Hget s Hs)). unfold final, zoom in *.
  destruct (m _) as [r p]. by apply Hset.
Qed.
#[export] Hint Rewrite @bind_read_table @bind_write_table @bind_read_store : mmr_run.
#[export] Hint Rewrite @table_of_with @with_table_twice @core_with_table @rollback_with_table
  : mmr_tables.
#[export] Hint Resolve lawful_read_table lawful_write_table : mmr.
