(* ===== verification/Feed.v ===== *)
(** * Fenced snapshots and the long-poll feed

    [trader/domain/snapshot_service.py], [trader/data/materialized_state.py] and
    [trader/domain/feed_service.py].  A consumer installs one snapshot and then
    tails events from its cursor.  The theorems are what makes that sound: a
    snapshot is one committed state with its own cursor, whatever a writer does
    meanwhile, and a read of the feed hands out every committed event of its
    window or raises [CursorExpired], even when a compaction lands between its
    lock-free reads. *)
From stdpp Require Import base tactics gmap list strings.
From Stdlib Require Import ZArith Lia.
From S2P Require Import Prelude Py Journal.
Open Scope Z_scope.

(** ** Contracts *)

Record SnapshotWithCursor : Type := mkSnapshot {
  s_source_cursor : Z;
  s_broker_generation : Z;
  s_entities : gmap string (list dict);
}.

Record ReadDomainEventsResult : Type := mkFeedResult {
  events : list DomainEvent;
  result_newest_cursor : Z;
}.

(** The adapter protocol; its reads are pure functions of the transaction's
    pinned database. *)
Record MaterializedAdapter (T : Type) : Type := mkAdapter {
  adapter_entity_type : string;
  select_active : db T → list dict;
  checkpoint : db T → list dict;
}.
Arguments mkAdapter {T} _ _ _.
Arguments adapter_entity_type {T} _.
Arguments select_active {T} _ _.
Arguments checkpoint {T} _ _.

(** ** [GenericEntityAdapter] *)

Definition generic_row (eid : string) (row : materialized_row) : dict :=
  assoc_set "account_id" (jopt JStr (mat_account_id row))
    (assoc_set "entity_revision" (JInt (mat_revision row))
      (assoc_set "entity_id" (JStr eid) (default [] (mat_payload row)))).

Definition generic_select_active {T} (etype : string) (d : db T) : list dict :=
  map (λ kr, generic_row kr.1.2 kr.2)
    (filter (λ kr, kr.1.1 = etype ∧ mat_deleted kr.2 = false)
       (map_to_list (materialized (db_core d)))).

Definition GenericEntityAdapter {T} (etype : string) : MaterializedAdapter T :=
  mkAdapter etype (generic_select_active etype) (generic_select_active etype).

(** ** [DomainSnapshotService] *)
Section snapshot.
Context {T : Type}.

Record DomainSnapshotService : Type := mkSnapshotService {
  adapters : list (MaterializedAdapter T);
  broker_generation_reader : option (db T → option Z);
}.

Definition register_adapter (a : MaterializedAdapter T) (s : DomainSnapshotService)
    : DomainSnapshotService :=
  mkSnapshotService (adapters s ++ [a]) (broker_generation_reader s).

Definition register_broker_generation_reader (reader : db T → option Z)
    (s : DomainSnapshotService) : DomainSnapshotService :=
  mkSnapshotService (adapters s) (Some reader).

Definition read_broker_generation (s : DomainSnapshotService) (d : db T) : res Z :=
  match broker_generation_reader s with
  | Some reader =>
      match reader d with
      | None => Raise SnapshotNotReady
      | Some generation => Ok generation
      end
  | None => Ok (read_latest_broker_generation (db_core d))
  end.

(** A later adapter of the same entity type shadows an earlier one. *)
Definition select_entities (s : DomainSnapshotService) (d : db T) : gmap string (list dict) :=
  fold_left (λ acc a, <[adapter_entity_type a := select_active a d]> acc) (adapters s) ∅.

(** The first read pins the database version every later read sees; a writer
    called back in between commits, and is not seen. *)
Definition snapshot_with_cursor (s : DomainSnapshotService)
    (on_read_started : option (M (DomainJournal T) unit))
    : M (DomainJournal T) SnapshotWithCursor := λ j,
  let pinned := jdb j in
  match read_broker_generation s pinned with
  | Raise e => (Raise e, j)
  | Ok generation =>
      let (r, j') := match on_read_started with Some f => f j | None => (Ok tt, j) end in
      match r with
      | Raise e => (Raise e, j')
      | Ok _ =>
          let entities := select_entities s pinned in
          let cursor := default 0 (max_of source_cursor (journal (db_core pinned))) in
          (Ok (mkSnapshot cursor generation entities), j')
      end
  end.
End snapshot.
Arguments DomainSnapshotService T : clear implicits.

(** ** [DomainFeedService] *)
Definition MIN_LIMIT : Z := 1.
Definition MAX_LIMIT : Z := 1000.
Definition MIN_WAIT_MS : Z := 0.
Definition MAX_WAIT_MS : Z := 10000.

Definition clamp (value lo hi : Z) : Z := Z.max lo (Z.min hi value).

Definition raise_if_expired (after_cursor : Z) (c : core) : res unit :=
  match latest_by checkpoint_id (checkpoints c) with
  | None => Ok tt
  | Some cp =>
      if after_cursor <? oldest_retained_cursor cp
      then Raise (CursorExpired after_cursor (oldest_retained_cursor cp))
      else Ok tt
  end.

(** One call of [read_domain_events] takes no lock, so each of its reads sees the
    journal as it is at that moment: at the first check, at every wakeup of the
    wait (with the monotonic clock, in microseconds), at the query, and at the
    second check. *)
Record feed_run (T : Type) : Type := mkFeedRun {
  at_check : DomainJournal T;
  monotonic_at_check : Z;
  at_wakeups : list (DomainJournal T * Z);
  at_read : DomainJournal T;
  at_recheck : DomainJournal T;
}.
Arguments mkFeedRun {T} _ _ _ _ _.
Arguments at_check {T} _.
Arguments monotonic_at_check {T} _.
Arguments at_wakeups {T} _.
Arguments at_read {T} _.
Arguments at_recheck {T} _.

(** [None]: the call is still asleep after the last wakeup listed. *)
Definition read_domain_events {T} (after_cursor limit wait_ms : Z) (run : feed_run T)
    : option (res ReadDomainEventsResult) :=
  let limit := clamp limit MIN_LIMIT MAX_LIMIT in
  let wait_ms := clamp wait_ms MIN_WAIT_MS MAX_WAIT_MS in
  match raise_if_expired after_cursor (jcore (at_check run)) with
  | Raise e => Some (Raise e)
  | Ok _ =>
      let deadline := monotonic_at_check run + wait_ms * 1000 in
      cursor_at_wake ← wait_for_cursor_after after_cursor deadline
        (map (λ w, (latest_committed_cursor w.1, w.2)) (at_wakeups run));
      let evs := read_after after_cursor limit (jcore (at_read run)) in
      match raise_if_expired after_cursor (jcore (at_recheck run)) with
      | Raise e => Some (Raise e)
      | Ok _ =>
          let newest :=
            match last evs with
            | Some e => e_source_cursor e
            | None => Z.max after_cursor cursor_at_wake
            end in
          Some (Ok (mkFeedResult evs newest))
      end
  end.

(** ** The wire form of events *)

(** [domain_event_to_wire]: the dict the typed RPC sends. *)
Definition operation_text (o : Operation) : string :=
  match o with op_upsert => "upsert" | op_delete => "delete" end.

Definition domain_event_to_wire (e : DomainEvent) : dict :=
  [("event_id", JStr (e_event_id e));
   ("source_cursor", JInt (e_source_cursor e));
   ("entity_revision", JInt (e_entity_revision e));
   ("event_type", JStr (e_event_type e));
   ("entity_type", JStr (e_entity_type e));
   ("entity_id", JStr (e_entity_id e));
   ("operation", JStr (operation_text (e_operation e)));
   ("account_id", jopt JStr (e_account_id e));
   ("source", JStr (e_source e));
   ("source_timestamp", JStr (isoformat (e_source_timestamp e)));
   ("correlation_id", jopt JStr (e_correlation_id e));
   ("payload", jopt JObj (e_payload e))].

(** [domain_event_from_wire].  [None] also stands for a field of another JSON
    type than the contract's, which Python would carry along untyped. *)
Definition jstr (j : json) : option string := match j with JStr s => Some s | _ => None end.
Definition jint (j : json) : option Z := match j with JInt z => Some z | _ => None end.
Definition jopt_of {A} (f : json → option A) (j : json) : option (option A) :=
  match j with JNull => Some None | _ => Some <$> f j end.
Definition jdict (j : json) : option dict := match j with JObj d => Some d | _ => None end.
Definition operation_of_text (s : string) : option Operation :=
  if String.eqb s "upsert" then Some op_upsert
  else if String.eqb s "delete" then Some op_delete else None.

Definition domain_event_from_wire (wire : dict) : option DomainEvent :=
  event_id ← assoc "event_id" wire ≫= jstr;
  source_cursor ← assoc "source_cursor" wire ≫= jint;
  entity_revision ← assoc "entity_revision" wire ≫= jint;
  event_type ← assoc "event_type" wire ≫= jstr;
  entity_type ← assoc "entity_type" wire ≫= jstr;
  entity_id ← assoc "entity_id" wire ≫= jstr;
  operation ← (assoc "operation" wire ≫= jstr) ≫= operation_of_text;
  account_id ← assoc "account_id" wire ≫= jopt_of jstr;
  source ← assoc "source" wire ≫= jstr;
  source_timestamp ← (assoc "source_timestamp" wire ≫= jstr) ≫= fromisoformat;
  correlation_id ← assoc "correlation_id" wire ≫= jopt_of jstr;
  payload ← assoc "payload" wire ≫= jopt_of jdict;
  Some (mkEvent event_id source_cursor entity_revision event_type entity_type entity_id
          operation account_id source source_timestamp correlation_id payload).

(** ** What stays in the journal *)

(** The retention point a reader is held to. *)
Definition retained_from (c : core) : Z :=
  match latest_checkpoint c with Some cp => oldest_retained_cursor cp | None => 0 end.

Lemma raise_if_expired_ok after c :
  raise_if_expired after c = Ok tt ↔
  ∀ cp, latest_checkpoint c = Some cp → oldest_retained_cursor cp ≤ after.
Proof.
  unfold raise_if_expired, latest_checkpoint.
  destruct (latest_by _ _) as [cp|]; [|by split].
  destruct (Z.ltb_spec after (oldest_retained_cursor cp)); split; try done.
  - intros H'. specialize (H' cp eq_refl). lia.
  - by intros _ ? [= <-].
Qed.

Lemma retained_from_compacted n at' c :
  wf c → retained_from (compacted n at' c) = retention_floor n c.
Proof.
  intros W. unfold retained_from, latest_checkpoint, compacted. cbn [compact_core snd].
  simpl. rewrite latest_by_snoc; [done|].
  apply (wf_cp_sorted _ (wf_compacted n at' _ W)).
Qed.

Lemma retained_from_floor c :
  wf c → retained_from c = 0 ∨
    ∃ cp, cp ∈ checkpoints c ∧ oldest_retained_cursor cp = retained_from c.
Proof.
  intros W. unfold retained_from, latest_checkpoint.
  destruct (latest_by _ _) as [cp|] eqn:E; [|by left].
  apply latest_by_max in E as [Hcp _]; [|apply (wf_cp_sorted _ W)]. right. by exists cp.
Qed.

(** The retention point of a new compaction is at or above the last one's. *)
Lemma retained_from_le_floor n c : wf c → retained_from c ≤ retention_floor n c.
Proof.
  intros W. pose proof (retention_floor_bounds n c W) as [Hf _].
  destruct (retained_from_floor c W) as [->|(cp & Hcp & <-)]; [done|].
  destruct (decide (journal c = [])) as [H|H].
  - pose proof (wf_cp_empty _ W cp Hcp H). pose proof (wf_cp_cursors _ W cp Hcp). lia.
  - destruct (retention_floor_elem n c H) as (r & Hr & <-). by apply (wf_cp_floor _ W).
Qed.

Section retention.
Context {T : Type}.
Implicit Types (j : DomainJournal T).

Lemma same_checkpoints_retained c c' :
  checkpoints c = checkpoints c' → retained_from c = retained_from c'.
Proof. unfold retained_from, latest_checkpoint. by intros ->. Qed.

Lemma retained_step j j' :
  journal_step j j' → jwf j →
  retained_from (jcore j) ≤ retained_from (jcore j') ∧
  ∀ r, r ∈ journal (jcore j) →
    r ∈ journal (jcore j') ∨ source_cursor r < retained_from (jcore j').
Proof.
  assert (∀ t, tx_ok (jdb j) t → retained_from (jcore j) ≤ retained_from (tx_core t) ∧
    ∀ r, r ∈ journal (jcore j) → r ∈ journal (tx_core t) ∨ source_cursor r < retained_from (tx_core t))
    as Htx.
  { intros t Hok.
    rewrite (same_checkpoints_retained (jcore j) _) by (symmetry; apply (ok_cps _ _ Hok)).
    split; [done|]. left. by apply (ok_rows _ _ Hok). }
  destruct 1 as [A w j Hw|now ac at' fault j|t j Hs|j]; intros Hj.
  - unfold final. rewrite mutate_batch_work_spec. unfold outcome, final.
    destruct (w (mkTx (jdb j) [])) as [[a|e] t] eqn:Hrun; simpl.
    + apply Htx. eapply tx_ok_run; [exact Hw|apply Hj|exact Hrun].
    + by split; [|left].
  - destruct now as [us|n off]; [by split; [|left]|]. rewrite compact_final.
    assert (retained_from (jcore j) ≤ retained_from (compacted n at' (jcore j)) ∧
      ∀ r, r ∈ journal (jcore j) → r ∈ journal (compacted n at' (jcore j))
           ∨ source_cursor r < retained_from (compacted n at' (jcore j))) as Hc.
    { rewrite retained_from_compacted by apply Hj.
      split; [by apply retained_from_le_floor, Hj|]. intros r Hr.
      destruct (Z.le_gt_cases (retention_floor n (jcore j)) (source_cursor r)); [|by right].
      left. by apply compacted_elem. }
    destruct fault as [[e []|e]|]; try done; by split; [|left].
  - apply Htx. eapply tx_ok_steps; [exact Hs|]. by apply tx_ok_begin, Hj.
  - unfold restart, sync_latest_committed_cursor, final. simpl.
    case_match; by split; [|left].
Qed.

Lemma retained_steps j j' :
  rtc journal_step j j' → jwf j →
  retained_from (jcore j) ≤ retained_from (jcore j') ∧
  ∀ r, r ∈ journal (jcore j) → retained_from (jcore j') ≤ source_cursor r →
    r ∈ journal (jcore j').
Proof.
  induction 1 as [j|j j1 j2 Hs Hs' IH]; intros Hj; [by split|].
  destruct (retained_step _ _ Hs Hj) as [Hle Hkeep].
  destruct (IH (jwf_step _ _ Hs Hj)) as [Hle' Hkeep'].
  split; [lia|]. intros r Hr Hret. apply Hkeep'; [|done].
  destruct (Hkeep r Hr); [done|lia].
Qed.
End retention.

(** *** The query *)

Lemma read_after_prefix c after limit :
  wf c →
  ∃ rows rest, filter (λ r, after < source_cursor r) (journal c) = rows ++ rest ∧
    read_after after limit c = map row_to_event rows ∧
    length rows = (Z.to_nat limit `min` length (rows ++ rest))%nat.
Proof.
  intros W. unfold read_after. set (l := filter _ _).
  assert (increasing source_cursor l) as Hl by apply increasing_filter, (wf_sorted _ W).
  exists (take (Z.to_nat limit) l), (drop (Z.to_nat limit) l).
  rewrite take_drop, (order_by_increasing _ _ Hl). split; [done|]. split; [done|].
  by rewrite length_take.
Qed.

Lemma increasing_prefix_above {A} (f : A → Z) l rows rest x y :
  increasing f l → l = rows ++ rest → last rows = Some y → x ∈ l → f x ≤ f y → x ∈ rows.
Proof.
  intros Hl -> (rows' & ->)%last_Some [Hx|Hx]%elem_of_app Hle; [done|].
  pose proof (increasing_app_inv f (rows' ++ [y]) rest y x Hl) as Hlt.
  specialize (Hlt ltac:(set_solver) Hx). lia.
Qed.

(** *** Every committed event of the window is handed out *)

(** The states one call of the feed reads, in the order it reads them. *)
Record run_ok {T} (run : feed_run T) : Prop := {
  run_wf : jwf (at_check run);
  run_wakeups j now : (j, now) ∈ at_wakeups run →
    rtc journal_step (at_check run) j ∧ rtc journal_step j (at_read run);
  run_read : rtc journal_step (at_check run) (at_read run);
  run_recheck : rtc journal_step (at_read run) (at_recheck run);
}.

Lemma wait_observed after deadline wakeups v :
  wait_for_cursor_after after deadline wakeups = Some v → ∃ now, (v, now) ∈ wakeups.
Proof.
  induction wakeups as [|[latest now] ws IH]; simpl; [done|].
  repeat case_match; intros; simplify_eq; try (by exists now; set_solver).
  destruct IH as [n ?]; [done|]. exists n. set_solver.
Qed.

Lemma read_all_retained {T} (run : feed_run T) after j r :
  run_ok run → jwf j → rtc journal_step j (at_read run) →
  raise_if_expired after (jcore (at_recheck run)) = Ok tt →
  r ∈ journal (jcore j) → after < source_cursor r → r ∈ journal (jcore (at_read run)).
Proof.
  intros Hrun Hj Hsteps Hexp Hr Hafter.
  pose proof (jwf_steps _ _ Hsteps Hj) as Hjr.
  destruct (retained_steps _ _ Hsteps Hj) as [_ Hkeep]. apply Hkeep; [done|].
  destruct (retained_steps _ _ (run_recheck _ Hrun) Hjr) as [Hle _].
  unfold retained_from at 2 in Hle.
  rewrite raise_if_expired_ok in Hexp. destruct (latest_checkpoint _) as [cp|].
  - specialize (Hexp cp eq_refl). lia.
  - pose proof (wf_bounds _ (jwf_core _ Hj) r Hr). lia.
Qed.

(** The parts of a successful call. *)
Lemma read_domain_events_inv {T} (run : feed_run T) after limit wait_ms result :
  read_domain_events after limit wait_ms run = Some (Ok result) →
  let limit' := clamp limit MIN_LIMIT MAX_LIMIT in
  let evs := read_after after limit' (jcore (at_read run)) in
  raise_if_expired after (jcore (at_recheck run)) = Ok tt ∧
  ∃ j now, (j, now) ∈ at_wakeups run ∧
    result = mkFeedResult evs
      (match last evs with
       | Some e => e_source_cursor e
       | None => Z.max after (latest_committed_cursor j)
       end).
Proof.
  intros Hread limit' evs. unfold read_domain_events in Hread.
  destruct (raise_if_expired after (jcore (at_check run))) as [[]|e]; [|done].
  destruct (wait_for_cursor_after _ _ _) as [wake|] eqn:Hwake; [|done]. simpl in Hread.
  destruct (raise_if_expired after (jcore (at_recheck run))) as [[]|e]; [|done].
  injection Hread as <-. split; [done|].
  apply wait_observed in Hwake as (now & Hin).
  apply list_elem_of_fmap in Hin as ([j now'] & [= -> ->] & Hin). by exists j, now'.
Qed.

Lemma row_to_event_increasing rows :
  increasing source_cursor rows → increasing e_source_cursor (map row_to_event rows).
Proof. intros H. by apply increasing_map. Qed.

(** A wakeup that saw a new cursor saw a journal with a row at least as new. *)
Lemma wakeup_row {T} (run : feed_run T) j now :
  run_ok run → (j, now) ∈ at_wakeups run → 0 < latest_committed_cursor j →
  jwf j ∧ rtc journal_step j (at_read run) ∧
  ∃ r, r ∈ journal (jcore j) ∧ latest_committed_cursor j ≤ source_cursor r.
Proof.
  intros Hrun Hin Hpos. destruct (run_wakeups _ Hrun j now Hin) as [Hcj Hjr].
  pose proof (jwf_steps _ _ Hcj (run_wf _ Hrun)) as Hj. split; [done|]. split; [done|].
  pose proof (jwf_latest _ Hj). destruct (newest_elem (jcore j)) as (r & Hr & Hn).
  { intros Hn. unfold newest in *. rewrite Hn in *. simpl in *. lia. }
  exists r. split; [done|lia].
Qed.

(** C4. No gap and no overlap: whatever commits and compactions run between the
    reads of one call, a result lists, in strictly increasing cursor order, only
    events after the caller's cursor, and every event that was ever committed
    before the query with a cursor between the caller's and the returned one is
    in it; an empty result returns the caller's own cursor, and then no event
    after it had been committed at all. *)
Theorem feed_has_no_gap {T} (run : feed_run T) after limit wait_ms result :
  run_ok run → 0 ≤ after →
  read_domain_events after limit wait_ms run = Some (Ok result) →
  increasing e_source_cursor (events result) ∧
  (∀ e, e ∈ events result → after < e_source_cursor e ≤ result_newest_cursor result) ∧
  (length (events result) ≤ 1000)%nat ∧
  (∀ j r, jwf j → rtc journal_step j (at_read run) → r ∈ journal (jcore j) →
     after < source_cursor r →
     (source_cursor r ≤ result_newest_cursor result → row_to_event r ∈ events result) ∧
     (events result ≠ [])) ∧
  (events result = [] → result_newest_cursor result = after).
Proof.
  intros Hrun Hafter Hread.
  apply read_domain_events_inv in Hread as (Hexp & j0 & now0 & Hwake & ->). simpl.
  pose proof (jwf_steps _ _ (run_read _ Hrun) (run_wf _ Hrun)) as Hjr.
  set (limit' := clamp limit MIN_LIMIT MAX_LIMIT).
  assert (1 ≤ limit' ≤ 1000) as Hlim by (unfold limit', clamp, MIN_LIMIT, MAX_LIMIT; lia).
  destruct (read_after_prefix (jcore (at_read run)) after limit' (jwf_core _ Hjr))
    as (rows & rest & Hf & -> & Hlen).
  assert (increasing source_cursor (rows ++ rest)) as Hinc
    by (rewrite <-Hf; apply increasing_filter, (wf_sorted _ (jwf_core _ Hjr))).
  pose proof (increasing_prefix _ _ _ Hinc) as Hrows.
  assert (∀ r, r ∈ rows → after < source_cursor r) as Habove.
  { intros r Hr. assert (r ∈ rows ++ rest) as Hin by set_solver.
    rewrite <-Hf in Hin. by apply list_elem_of_filter in Hin as [? _]. }
  assert (∀ j r, jwf j → rtc journal_step j (at_read run) → r ∈ journal (jcore j) →
    after < source_cursor r → r ∈ rows ++ rest) as Hall.
  { intros j r Hj Hs Hr Ha. rewrite <-Hf. apply list_elem_of_filter. split; [done|].
    by eapply read_all_retained. }
  assert (rows = [] → rest = []) as Hnil.
  { intros ->. destruct rest; [done|]. simpl in Hlen. lia. }
  rewrite fmap_last. split; [by apply row_to_event_increasing|].
  destruct (last rows) as [y|] eqn:Hl; simpl.
  - assert (∀ r, r ∈ rows → source_cursor r ≤ source_cursor y) as Hmax.
    { apply (latest_by_max _ rows); [done|]. unfold latest_by. by rewrite order_by_increasing. }
    split_and!.
    + intros e (r & -> & Hr)%list_elem_of_fmap. split; [by apply Habove|by apply Hmax].
    + rewrite length_map, Hlen. lia.
    + intros j r Hj Hs Hr Ha. split; [|by destruct rows].
      intros Hle. apply list_elem_of_fmap_2.
      by eapply increasing_prefix_above, Hle; [exact Hinc|..|eapply Hall].
    + by destruct rows.
  - apply last_None in Hl as ->. rewrite (Hnil eq_refl) in *.
    split_and!; try (simpl; lia); [set_solver| |].
    + intros j r Hj Hs Hr Ha. pose proof (Hall j r Hj Hs Hr Ha). set_solver.
    + intros _. destruct (Z.le_gt_cases (latest_committed_cursor j0) after) as [Hle|Hgt]; [lia|].
      destruct (wakeup_row run j0 now0 Hrun Hwake ltac:(lia)) as (Hj & Hs & r & Hr & Hc).
      pose proof (Hall j0 r Hj Hs Hr ltac:(lia)). set_solver.
Qed.

(** *** The snapshot is fenced *)

Lemma generic_select_active_spec {T} etype (d : db T) row :
  row ∈ generic_select_active etype d ↔
  ∃ eid m, materialized (db_core d) !! (etype, eid) = Some m ∧ mat_deleted m = false ∧
           row = generic_row eid m.
Proof.
  unfold generic_select_active. split.
  - intros ([[et eid] m] & -> & [[E Hd] Hm]%list_elem_of_filter)%list_elem_of_fmap.
    simpl in *. subst et. apply elem_of_map_to_list in Hm. by exists eid, m.
  - intros (eid & m & Hm & Hd & ->). apply list_elem_of_fmap.
    exists ((etype, eid), m). split; [done|]. apply list_elem_of_filter.
    split; [done|]. by apply elem_of_map_to_list.
Qed.

(** C5. A snapshot shows one committed state, the one its first read pinned,
    even when a writer commits while it is being read; and its cursor is the
    exact fence of that state: in every later journal, an entity's event is at
    or before the cursor if and only if its revision is already the snapshot's
    or older.  With the broker gate active, no snapshot comes before a complete
    generation. *)
Theorem snapshot_is_fenced {T} (svc : DomainSnapshotService T) writer (j : DomainJournal T) :
  jwf j →
  match snapshot_with_cursor svc writer j with
  | (Ok s, _) =>
      snapshot_with_cursor svc None j = (Ok s, j) ∧
      s_entities s = select_entities svc (jdb j) ∧
      (∀ reader, broker_generation_reader svc = Some reader →
        reader (jdb j) = Some (s_broker_generation s)) ∧
      (∀ later r, rtc journal_step j later → r ∈ journal (jcore later) →
        (source_cursor r ≤ s_source_cursor s ↔
         entity_revision r ≤ read_current_revision (entity_type r) (entity_id r) (jcore j)))
  | (Raise e, _) =>
      (e = SnapshotNotReady ∧ ∃ reader, broker_generation_reader svc = Some reader
                                       ∧ reader (jdb j) = None)
      ∨ ∃ f, writer = Some f ∧ outcome f j = Raise e
  end.
Proof.
  intros Hj. unfold snapshot_with_cursor, read_broker_generation, outcome.
  assert (∀ later r, rtc journal_step j later → r ∈ journal (jcore later) →
    (source_cursor r ≤ newest (jcore j) ↔
     entity_revision r ≤ read_current_revision (entity_type r) (entity_id r) (jcore j))) as Hfence.
  { intros later r Hs Hr. pose proof (newest_lt_seq _ (jwf_core _ Hj)).
    destruct (grows_rows _ _ (journal_steps_grow _ _ Hs Hj) r Hr) as [Hold|[Hc Hrev]].
    - pose proof (newest_ge _ _ Hold).
      pose proof (current_revision_ge _ _ (jwf_core _ Hj) Hold). done.
    - split; lia. }
  destruct (broker_generation_reader svc) as [reader|] eqn:Hreader.
  - destruct (reader (jdb j)) as [g|] eqn:Hg; [|by left; split; [|exists reader]].
    destruct writer as [f|]; [destruct (f j) as [[u|e] j'] eqn:Hf|].
    + split_and!; try done. by intros ? [= <-].
    + right. exists f. by rewrite Hf.
    + split_and!; try done. by intros ? [= <-].
  - destruct writer as [f|]; [destruct (f j) as [[u|e] j'] eqn:Hf|].
    + by split_and!.
    + right. exists f. by rewrite Hf.
    + by split_and!.
Qed.

(** *** The wire *)

(** C6. The bridge reads back exactly the event the server wrote, for every
    timestamp of a four-digit year. *)
Theorem wire_roundtrip e :
  1 ≤ year (utc_date (e_source_timestamp e)) < 10000 →
  domain_event_from_wire (domain_event_to_wire e) = Some e.
Proof.
  intros Hy.
  assert (∀ o, operation_of_text (operation_text o) = Some o) as Hop by by intros [].
  assert (∀ o, jopt_of jstr (jopt JStr o) = Some o) as Hs by by intros [].
  assert (∀ o, jopt_of jdict (jopt JObj o) = Some o) as Hd by by intros [].
  unfold domain_event_from_wire.
  repeat match goal with |- context [assoc ?k (domain_event_to_wire e)] =>
    let v := eval lazy [assoc domain_event_to_wire String.eqb Ascii.eqb Bool.eqb] in
               (assoc k (domain_event_to_wire e)) in
    change (assoc k (domain_event_to_wire e)) with v end.
  cbn [mbind option_bind jstr jint].
  rewrite Hop, !Hs, Hd, (fromisoformat_isoformat _ Hy). by destruct e.
Qed.

(** ** Concrete runs *)
Definition ex_run : feed_run unit :=
  mkFeedRun ex_start 0 [(ex_start, 5000); (ex_j, 7000)] ex_j ex_j.

Lemma feed_has_no_gap_witness : ∃ result,
  read_domain_events 0 500 10000 ex_run = Some (Ok result) ∧
  row_to_event ex_row ∈ events result.
Proof.
  eexists. split; [reflexivity|].
  assert (run_ok ex_run) as Hrun.
  { split; [apply jwf_empty| |apply ex_j_reachable|apply rtc_refl].
    intros j now [[= -> _]|[[= -> _]|H]%elem_of_cons]%elem_of_cons; [| |set_solver].
    - split; [apply rtc_refl|apply ex_j_reachable].
    - split; [apply ex_j_reachable|apply rtc_refl]. }
  destruct (feed_has_no_gap ex_run 0 500 10000 _ Hrun (Z.le_refl 0) eq_refl)
    as (_ & _ & _ & H & _).
  apply (H ex_j ex_row); [apply ex_j_jwf|apply rtc_refl| |done|done].
  apply list_elem_of_singleton. reflexivity.
Defined.

Definition ex_service : DomainSnapshotService unit :=
  register_broker_generation_reader (λ _, Some 7)
    (register_adapter (GenericEntityAdapter "strategy") (mkSnapshotService [] None)).

Lemma snapshot_is_fenced_witness : ∃ s,
  snapshot_with_cursor ex_service None ex_j = (Ok s, ex_j) ∧
  s_broker_generation s = 7 ∧ (source_cursor ex_row ≤ s_source_cursor s ↔ 1 ≤ 1).
Proof.
  exists (mkSnapshot 1 7 (select_entities ex_service (jdb ex_j))).
  assert (snapshot_with_cursor ex_service None ex_j
    = (Ok (mkSnapshot 1 7 (select_entities ex_service (jdb ex_j))), ex_j)) as E by reflexivity.
  pose proof (snapshot_is_fenced ex_service None ex_j ex_j_jwf) as H. rewrite E in H.
  destruct H as (_ & _ & _ & H). split; [exact E|]. split; [reflexivity|].
  apply (H ex_j ex_row); [apply rtc_refl|]. apply list_elem_of_singleton. reflexivity.
Defined.

Lemma wire_roundtrip_witness :
  domain_event_from_wire (domain_event_to_wire (row_to_event ex_row)) = Some (row_to_event ex_row).
Proof. apply wire_roundtrip. vm_compute. split; [discriminate|reflexivity]. Defined.
