(* ===== verification/Dashboard.v ===== *)
(** * The command center's read model ([web/command_center/state.py],
    [web/command_center/bridge.py])

    The dashboard installs a fenced snapshot and applies the feed's events to
    it.  The theorems: what it shows for a directly stored entity type is the
    journal's own ledger, whatever batches it read; a reconnecting browser gets
    every envelope it has not seen or is told to resnapshot; the revision guard
    never lets an entity go back, and it forgets what the bounded stores evict. *)
From stdpp Require Import base tactics gmap list strings.
From Stdlib Require Import ZArith Lia.
From S2P Require Import Prelude Py Journal Feed.
Open Scope Z_scope.

(** ** Constants; the clocks count microseconds *)
Definition REPLAY_RING_MAX_EVENTS : Z := 10000.
Definition REPLAY_RING_MAX_AGE_SECONDS : Z := seconds 300.
Definition TERMINAL_CAP : Z := 500.
Definition TERMINAL_TTL_SECONDS : Z := seconds (24 * 3600).
Definition CLEANUP_INTERVAL_SECONDS : Z := seconds 60.
Definition ACTIVE_PROPOSAL_STATUSES : list string := ["PENDING"; "APPROVED"].
Definition TERMINAL_ORDER_STATUSES : list string :=
  ["FILLED"; "CANCELLED"; "CANCELLED_AFTER_PARTIAL"; "REJECTED"; "INACTIVE"].

(** ** [_BoundedStore]: an [OrderedDict] with the default cap and TTL *)
Definition BoundedStore : Type := list (string * (Z * dict)).

Definition store_remove (entity_id : string) (rows : BoundedStore) : BoundedStore :=
  filter (λ r, r.1 ≠ entity_id) rows.

Fixpoint store_evict (rows : BoundedStore) (evicted : option string)
    : BoundedStore * option string :=
  match rows with
  | [] => ([], evicted)
  | r :: rest =>
      if TERMINAL_CAP <? Z.of_nat (length rows) then store_evict rest (Some r.1)
      else (rows, evicted)
  end.

Definition store_put (entity_id : string) (row : dict) (now : Z) (rows : BoundedStore)
    : BoundedStore * option string :=
  store_evict (store_remove entity_id rows ++ [(entity_id, (now, row))]) None.

Definition store_expired (now : Z) (rows : BoundedStore) : list string :=
  map fst (filter (λ r, TERMINAL_TTL_SECONDS < now - r.2.1) rows).

(** [cleanup]: the rows left and the ids evicted *)
Definition store_cleanup (now : Z) (rows : BoundedStore) : BoundedStore * list string :=
  (filter (λ r, ¬ TERMINAL_TTL_SECONDS < now - r.2.1) rows, store_expired now rows).

Definition store_values (rows : BoundedStore) : list dict := map (λ r, r.2.2) rows.
Definition store_contains (entity_id : string) (rows : BoundedStore) : bool :=
  bool_decide (entity_id ∈ rows.*1).

(** ** [DashboardState] *)

(** The attributes that are plain dicts and those that are bounded stores. *)
Inductive plain : Type :=
  | accounts | positions | proposals_active | orders_active | strategies
  | trading_control | allocation_authorities.
Inductive bounded : Type :=
  | risk | reconciliation | commands | proposals_terminal | orders_terminal | fills.
Global Instance plain_eq_dec : EqDecision plain.
Proof. solve_decision. Defined.
Global Instance bounded_eq_dec : EqDecision bounded.
Proof. solve_decision. Defined.

Record envelope : Type := mkEnvelope {
  env_stream_id : string;
  env_sequence : Z;
  env_event : DomainEvent;
  env_received : Z;
}.

Record DashboardState : Type := mkState {
  stream_id : string;
  sequence : Z;
  has_baseline : bool;
  last_event_at : option Z;
  last_transport_lag : option Z;
  quotes : gmap string dict;
  quote_rows : BoundedStore;
  retention_evicted : bool;
  revisions : gmap (string * string) Z;
  ring : list (Z * Z * envelope);
  last_cleanup : Z;
  dicts : plain → gmap string dict;
  stores : bounded → BoundedStore;
}.

Definition upd {K V} `{EqDecision K} (k : K) (v : V) (f : K → V) : K → V :=
  λ k', if decide (k' = k) then v else f k'.

Definition set_dict (a : plain) (f : gmap string dict → gmap string dict) (s : DashboardState) :=
  mkState (stream_id s) (sequence s) (has_baseline s) (last_event_at s) (last_transport_lag s)
    (quotes s) (quote_rows s) (retention_evicted s) (revisions s) (ring s) (last_cleanup s)
    (upd a (f (dicts s a)) (dicts s)) (stores s).
Definition set_store (a : bounded) (rows : BoundedStore) (s : DashboardState) :=
  mkState (stream_id s) (sequence s) (has_baseline s) (last_event_at s) (last_transport_lag s)
    (quotes s) (quote_rows s) (retention_evicted s) (revisions s) (ring s) (last_cleanup s)
    (dicts s) (upd a rows (stores s)).
Definition set_revisions (f : gmap (string * string) Z → gmap (string * string) Z)
    (s : DashboardState) :=
  mkState (stream_id s) (sequence s) (has_baseline s) (last_event_at s) (last_transport_lag s)
    (quotes s) (quote_rows s) (retention_evicted s) (f (revisions s)) (ring s) (last_cleanup s)
    (dicts s) (stores s).
Definition set_evicted (b : bool) (s : DashboardState) :=
  mkState (stream_id s) (sequence s) (has_baseline s) (last_event_at s) (last_transport_lag s)
    (quotes s) (quote_rows s) b (revisions s) (ring s) (last_cleanup s) (dicts s) (stores s).
Definition set_quotes (q : gmap string dict) (rows : BoundedStore) (s : DashboardState) :=
  mkState (stream_id s) (sequence s) (has_baseline s) (last_event_at s) (last_transport_lag s)
    q rows (retention_evicted s) (revisions s) (ring s) (last_cleanup s) (dicts s) (stores s).
Definition set_ring (r : list (Z * Z * envelope)) (s : DashboardState) :=
  mkState (stream_id s) (sequence s) (has_baseline s) (last_event_at s) (last_transport_lag s)
    (quotes s) (quote_rows s) (retention_evicted s) (revisions s) r (last_cleanup s)
    (dicts s) (stores s).
Definition set_last_cleanup (t : Z) (s : DashboardState) :=
  mkState (stream_id s) (sequence s) (has_baseline s) (last_event_at s) (last_transport_lag s)
    (quotes s) (quote_rows s) (retention_evicted s) (revisions s) (ring s) t (dicts s) (stores s).

(** *** Placement *)

(** [_is_entity_tracked] *)
Definition is_entity_tracked (entity_type entity_id : string) (s : DashboardState) : bool :=
  let in_dict a := bool_decide (is_Some (dicts s a !! entity_id)) in
  let in_store a := store_contains entity_id (stores s a) in
  if String.eqb entity_type "proposal" then in_dict proposals_active || in_store proposals_terminal
  else if String.eqb entity_type "order" then in_dict orders_active || in_store orders_terminal
  else if String.eqb entity_type "fill" then in_store fills
  else if String.eqb entity_type "account" then in_dict accounts
  else if String.eqb entity_type "position" then in_dict positions
  else if String.eqb entity_type "strategy" then in_dict strategies
  else if String.eqb entity_type "risk" then in_store risk
  else if String.eqb entity_type "reconciliation" then in_store reconciliation
  else if String.eqb entity_type "trading_control" then in_dict trading_control
  else if String.eqb entity_type "command" then in_store commands
  else if String.eqb entity_type "allocation_authority" then in_dict allocation_authorities
  else false.

Definition forget_revision_if_untracked (entity_type entity_id : string) (s : DashboardState)
    : DashboardState :=
  if is_entity_tracked entity_type entity_id s then s
  else set_revisions (delete (entity_type, entity_id)) s.

(** [evicted = store.put(...)] and what every caller does with an eviction *)
Definition put_bounded (entity_type : string) (a : bounded) (entity_id : string) (row : dict)
    (now : Z) (s : DashboardState) : DashboardState :=
  let (rows, evicted) := store_put entity_id row now (stores s a) in
  let s := set_store a rows s in
  match evicted with
  | None => s
  | Some gone => forget_revision_if_untracked entity_type gone (set_evicted true s)
  end.

(** [str(row.get("status", "")).upper() in statuses]: only the text of a string
    can be one of them. *)
Definition status_in (row : dict) (statuses : list string) : bool :=
  match assoc "status" row with
  | Some (JStr st) => bool_decide (upper st ∈ statuses)
  | _ => false
  end.

Definition merge_strategy_row (entity_id : string) (row : dict) (s : DashboardState) : dict :=
  match dicts s strategies !! entity_id with
  | None => row
  | Some previous =>
      fold_left (carry_field previous row) STRATEGY_RUNTIME_METADATA_FIELDS
        (assoc_merge previous row)
  end.

(** [row.get("account_mode") or row.get("mode")], copied under both names *)
Definition account_row (row : dict) : dict :=
  let mode :=
    match assoc "account_mode" row with
    | Some v => if truthy v then Some v else assoc "mode" row
    | None => assoc "mode" row
    end in
  match mode with
  | None | Some JNull => row
  | Some v => assoc_set "mode" v (assoc_set "account_mode" v row)
  end.

Definition place (entity_type entity_id : string) (row : dict) (now : Z) (s : DashboardState)
    : DashboardState :=
  if String.eqb entity_type "proposal" then
    if status_in row ACTIVE_PROPOSAL_STATUSES
    then let s := set_dict proposals_active <[entity_id := row]> s in
         set_store proposals_terminal (store_remove entity_id (stores s proposals_terminal)) s
    else put_bounded "proposal" proposals_terminal entity_id row now
           (set_dict proposals_active (delete entity_id) s)
  else if String.eqb entity_type "order" then
    if status_in row TERMINAL_ORDER_STATUSES
    then put_bounded "order" orders_terminal entity_id row now
           (set_dict orders_active (delete entity_id) s)
    else let s := set_dict orders_active <[entity_id := row]> s in
         set_store orders_terminal (store_remove entity_id (stores s orders_terminal)) s
  else if String.eqb entity_type "fill" then put_bounded "fill" fills entity_id row now s
  else if String.eqb entity_type "account" then
    set_dict accounts <[entity_id := account_row row]> s
  else if String.eqb entity_type "position" then set_dict positions <[entity_id := row]> s
  else if String.eqb entity_type "strategy" then
    set_dict strategies <[entity_id := merge_strategy_row entity_id row s]> s
  else if String.eqb entity_type "risk" then put_bounded "risk" risk entity_id row now s
  else if String.eqb entity_type "reconciliation" then
    put_bounded "reconciliation" reconciliation entity_id row now s
  else if String.eqb entity_type "trading_control" then
    set_dict trading_control <[entity_id := row]> s
  else if String.eqb entity_type "command" then put_bounded "command" commands entity_id row now s
  else if String.eqb entity_type "allocation_authority" then
    set_dict allocation_authorities <[entity_id := row]> s
  else s.

(** [_remove]: the tombstone of an entity. *)
Definition remove (entity_type entity_id : string) (s : DashboardState) : DashboardState :=
  let drop_dict a := set_dict a (delete entity_id) in
  let drop_store a s := set_store a (store_remove entity_id (stores s a)) s in
  let s :=
    if String.eqb entity_type "account" then drop_dict accounts s
    else if String.eqb entity_type "position" then drop_dict positions s
    else if String.eqb entity_type "proposal" then drop_dict proposals_active s
    else if String.eqb entity_type "order" then drop_dict orders_active s
    else if String.eqb entity_type "strategy" then drop_dict strategies s
    else if String.eqb entity_type "risk" then drop_store risk s
    else if String.eqb entity_type "reconciliation" then drop_store reconciliation s
    else if String.eqb entity_type "trading_control" then drop_dict trading_control s
    else if String.eqb entity_type "command" then drop_store commands s
    else if String.eqb entity_type "allocation_authority" then drop_dict allocation_authorities s
    else s in
  let s :=
    if String.eqb entity_type "proposal" then drop_store proposals_terminal s
    else if String.eqb entity_type "order" then drop_store orders_terminal s
    else if String.eqb entity_type "fill" then drop_store fills s
    else s in
  forget_revision_if_untracked entity_type entity_id s.

(** *** The replay ring *)
Fixpoint prune_count (r : list (Z * Z * envelope)) : list (Z * Z * envelope) :=
  match r with
  | [] => []
  | _ :: rest => if REPLAY_RING_MAX_EVENTS <? Z.of_nat (length r) then prune_count rest else r
  end.
Fixpoint prune_age (now : Z) (r : list (Z * Z * envelope)) : list (Z * Z * envelope) :=
  match r with
  | [] => []
  | (_, at', _) :: rest => if REPLAY_RING_MAX_AGE_SECONDS <? now - at' then prune_age now rest else r
  end.
Definition prune_ring (now : Z) (s : DashboardState) : DashboardState :=
  set_ring (prune_age now (prune_count (ring s))) s.

Definition cleanup_store (now : Z) (s : DashboardState) (st : string * bounded) : DashboardState :=
  let (entity_type, a) := st in
  let (rows, gone) := store_cleanup now (stores s a) in
  fold_left (λ s id, forget_revision_if_untracked entity_type id (set_evicted true s)) gone
    (set_store a rows s).

Definition CLEANUP_STORES : list (string * bounded) :=
  [("proposal", proposals_terminal); ("order", orders_terminal); ("fill", fills);
   ("risk", risk); ("reconciliation", reconciliation); ("command", commands)].

Definition maybe_cleanup (now : Z) (s : DashboardState) : DashboardState :=
  if now - last_cleanup s <? CLEANUP_INTERVAL_SECONDS then s
  else
    let s := set_last_cleanup now s in
    let (rows, gone) := store_cleanup now (quote_rows s) in
    let s := fold_left (λ s id, set_evicted true (set_quotes (delete id (quotes s)) rows s)) gone
               (set_quotes (quotes s) rows s) in
    let s := fold_left (cleanup_store now) CLEANUP_STORES s in
    prune_ring now s.

(** *** Applying one event; [now] is the monotonic clock, [clock] the wall clock *)
Definition make_envelope (e : DomainEvent) (clock : Z) (s : DashboardState)
    : envelope * DashboardState :=
  let n := sequence s + 1 in
  (mkEnvelope (stream_id s) n e clock,
   mkState (stream_id s) n (has_baseline s) (last_event_at s)
     (Some (Z.max 0 (clock - e_source_timestamp e)))
     (quotes s) (quote_rows s) (retention_evicted s) (revisions s) (ring s) (last_cleanup s)
     (dicts s) (stores s)).

Definition set_last_event_at (t : Z) (s : DashboardState) : DashboardState :=
  mkState (stream_id s) (sequence s) (has_baseline s) (Some t) (last_transport_lag s)
    (quotes s) (quote_rows s) (retention_evicted s) (revisions s) (ring s) (last_cleanup s)
    (dicts s) (stores s).

Definition event_row (e : DomainEvent) : dict :=
  assoc_set "entity_revision" (JInt (e_entity_revision e))
    (assoc_set "entity_id" (JStr (e_entity_id e)) (default [] (e_payload e))).

(** The entity part of [apply]: guard, tombstone or placement. *)
Definition reduce (e : DomainEvent) (now : Z) (s : DashboardState) : DashboardState :=
  let s := set_revisions <[(e_entity_type e, e_entity_id e) := e_entity_revision e]> s in
  match e_operation e with
  | op_delete => remove (e_entity_type e) (e_entity_id e) s
  | op_upsert => place (e_entity_type e) (e_entity_id e) (event_row e) now s
  end.

Definition apply (e : DomainEvent) (now clock : Z) (s : DashboardState)
    : option envelope * DashboardState :=
  let key := (e_entity_type e, e_entity_id e) in
  if e_entity_revision e <=? default 0 (revisions s !! key) then (None, s)
  else
    let s := reduce e now s in
    let (env, s) := make_envelope e clock s in
    let s := set_ring (ring s ++ [(env_sequence env, now, env)]) s in
    let s := prune_ring now s in
    let s := set_last_event_at (e_source_timestamp e) s in
    (Some env, maybe_cleanup now s).

Definition put_quote (now : Z) (s : DashboardState) (kq : string * dict) : DashboardState :=
  let (rows, evicted) := store_put kq.1 kq.2 now (quote_rows s) in
  let q := <[kq.1 := kq.2]> (quotes s) in
  match evicted with
  | None => set_quotes q rows s
  | Some gone => set_evicted true (set_quotes (delete gone q) rows s)
  end.

Definition apply_quotes (batch : list (string * dict)) (now : Z) (s : DashboardState)
    : DashboardState :=
  maybe_cleanup now (fold_left (put_quote now) batch s).

Definition consume_retention_eviction (s : DashboardState) : bool * DashboardState :=
  (retention_evicted s, set_evicted false s).

(** *** Installing a baseline *)

(** The contract types [entity_id] as text (or an integer) and
    [entity_revision] as an integer. *)
Definition row_key (row : dict) : option (string * Z) :=
  match assoc "entity_id" row, assoc "entity_revision" row with
  | Some (JStr id), Some (JInt rev) => Some (id, rev)
  | Some (JInt id), Some (JInt rev) => Some (pretty.pretty id, rev)
  | _, _ => None
  end.

Definition row_complete (row : dict) : bool :=
  bool_decide (is_Some (assoc "entity_id" row)) && bool_decide (is_Some (assoc "entity_revision" row)).

Definition install_row (now : Z) (entity_type : string) (row : dict) : M DashboardState unit :=
  match row_key row with
  | Some (id, rev) =>
      modify (λ s, set_revisions <[(entity_type, id) := rev]> (place entity_type id row now s))
  | None => raise TypeError
  end.

(** The state between [_reset_collections] and the first row. *)
Definition reset (stream : string) (s : DashboardState) : DashboardState :=
  mkState stream 0 (has_baseline s) (last_event_at s) (last_transport_lag s) ∅ [] false ∅ []
    (last_cleanup s) (λ _, ∅) (λ _, []).

Definition set_has_baseline (s : DashboardState) : DashboardState :=
  mkState (stream_id s) (sequence s) true (last_event_at s) (last_transport_lag s)
    (quotes s) (quote_rows s) (retention_evicted s) (revisions s) (ring s) (last_cleanup s)
    (dicts s) (stores s).

(** [entities] in the order of the snapshot's dict. *)
Definition install_rows (now : Z) (entities : list (string * list dict)) : M DashboardState unit :=
  for_each entities (λ er, for_each er.2 (install_row now er.1)).

Definition install_baseline (entities : list (string * list dict)) (stream : string) (now : Z)
    : M DashboardState unit :=
  require (forallb (λ er, forallb row_complete er.2) entities) ValueError ;;
  modify (reset stream) ;;
  install_rows now entities ;;
  modify set_has_baseline.

(** *** What a reconnecting browser is sent: [None] means resnapshot *)
Definition replay_after (stream : string) (seq : Z) (s : DashboardState)
    : option (list envelope) :=
  if negb (String.eqb stream (stream_id s)) then None
  else if (seq <? 0) || (sequence s <? seq) then None
  else if seq =? sequence s then Some []
  else match ring s with
  | [] => None
  | (first, _, _) :: _ =>
      if seq + 1 <? first then None
      else Some (map snd (filter (λ x, seq < x.1.1) (ring s)))
  end.

(** ** The bridge's reducer callback and tail step ([bridge.py]) *)

(** [_make_apply_callback]: every event of the batch, in order; each one reads
    the clocks. *)
Definition apply_batch (evs : list (DomainEvent * (Z * Z))) (s : DashboardState)
    : list envelope * DashboardState :=
  fold_left (λ acc et,
    let (env, s) := apply et.1 et.2.1 et.2.2 acc.2 in
    (acc.1 ++ option_list env, s)) evs ([], s).

Record bridge : Type := mkBridge { cursor : option Z; read_model : DashboardState }.

(** [_resync_baseline] once the snapshot has arrived; [_tail] once a non-empty
    feed result has been applied. *)
Definition resync_baseline (snap : SnapshotWithCursor) (entities : list (string * list dict))
    (quote_seed : list (string * dict)) (stream : string) (now : Z) : M bridge unit := λ b,
  match install_baseline entities stream now (read_model b) with
  | (Raise e, s) => (Raise e, mkBridge (cursor b) s)
  | (Ok _, s) =>
      let s := (consume_retention_eviction (apply_quotes quote_seed now s)).2 in
      (Ok tt, mkBridge (Some (s_source_cursor snap)) s)
  end.

Definition tail_step (result : list (DomainEvent * (Z * Z))) : M bridge (list envelope) := λ b,
  match last result with
  | None => (Ok [], b)
  | Some (e, _) =>
      let (envs, s) := apply_batch result (read_model b) in
      (Ok envs, mkBridge (Some (e_source_cursor e)) s)
  end.

(** ** Entity types the dashboard stores as they come *)
Definition direct_type (etype : string) : option plain :=
  if String.eqb etype "position" then Some positions
  else if String.eqb etype "trading_control" then Some trading_control
  else if String.eqb etype "allocation_authority" then Some allocation_authorities
  else None.

Section direct.
Context (etype : string) (a : plain) (direct : direct_type etype = Some a).
Implicit Types (s : DashboardState).

(** What the read model holds of one entity: its row and its revision guard. *)
Definition view (eid : string) s : option dict * option Z :=
  (dicts s a !! eid, revisions s !! (etype, eid)).

Lemma direct_cases :
  (etype = "position" ∧ a = positions) ∨ (etype = "trading_control" ∧ a = trading_control)
  ∨ (etype = "allocation_authority" ∧ a = allocation_authorities).
Proof.
  unfold direct_type in direct. repeat case_match; to_prop; naive_solver.
Qed.

Lemma view_set_dict_ne eid a' f s : a' ≠ a → view eid (set_dict a' f s) = view eid s.
Proof. intros H. unfold view, upd, set_dict. simpl. unfold upd. by rewrite decide_False. Qed.
Lemma view_set_store eid a' rows s : view eid (set_store a' rows s) = view eid s.
Proof. done. Qed.
Lemma view_set_evicted eid b s : view eid (set_evicted b s) = view eid s.
Proof. done. Qed.

Lemma view_forget eid etype' eid' s :
  (etype', eid') ≠ (etype, eid) →
  view eid (forget_revision_if_untracked etype' eid' s) = view eid s.
Proof.
  intros H. unfold forget_revision_if_untracked. case_match; [done|].
  unfold view. simpl. by rewrite lookup_delete_ne.
Qed.

Lemma view_put_bounded eid etype' b id row now s :
  etype' ≠ etype → view eid (put_bounded etype' b id row now s) = view eid s.
Proof.
  intros H. unfold put_bounded. destruct (store_put _ _ _ _) as [rows [gone|]]; [|done].
  rewrite view_forget by congruence. done.
Qed.

(** Attributes and types that are not the direct one. *)
Ltac indirect :=
  solve [intros ?; destruct direct_cases as [[? ?]|[[? ?]|[? ?]]]; congruence].

Lemma view_set_direct eid a' id row s :
  (a' = a → id ≠ eid) → view eid (set_dict a' <[id := row]> s) = view eid s.
Proof.
  intros H. unfold view, set_dict. simpl. unfold upd.
  destruct (decide (a = a')) as [->|]; [|done]. rewrite lookup_insert_ne; auto.
Qed.

(** An event or row of another entity leaves the view alone. *)
Lemma view_place_ne eid etype' id row now s :
  (etype', id) ≠ (etype, eid) → view eid (place etype' id row now s) = view eid s.
Proof.
  intros Hne. unfold place.
  repeat match goal with |- context [if String.eqb etype' ?t then _ else _] =>
    destruct (String.eqb_spec etype' t) as [Ht|_];
      [repeat step_case;
       rewrite ?view_set_store, ?view_put_bounded by (rewrite ?Ht in *; indirect);
       rewrite ?view_set_dict_ne by indirect;
       try (apply view_set_direct; intros ?;
            destruct direct_cases as [[? ?]|[[? ?]|[? ?]]]; congruence);
       reflexivity|]
  end.
  reflexivity.
Qed.

Lemma view_place_eq eid row now s :
  view eid (place etype eid row now s) = (Some row, revisions s !! (etype, eid)).
Proof.
  destruct direct_cases as [[E Ea]|[[E Ea]|[E Ea]]]; unfold view; rewrite E, Ea; simpl;
    unfold upd; rewrite decide_True by done; by rewrite lookup_insert_eq.
Qed.
Lemma view_remove_ne eid etype' id s :
  (etype', id) ≠ (etype, eid) → view eid (remove etype' id s) = view eid s.
Proof.
  intros Hne. unfold remove. cbv zeta. rewrite view_forget by done.
  assert (∀ a' s', (a' = a → id ≠ eid) → view eid (set_dict a' (delete id) s') = view eid s') as Hdel.
  { intros a' s' H. unfold view, set_dict. simpl. unfold upd.
    destruct (decide (a = a')) as [->|]; [|done]. rewrite lookup_delete_ne; auto. }
  repeat match goal with |- context [if String.eqb etype' ?t then _ else _] =>
    destruct (String.eqb_spec etype' t) as [?|_] end;
  rewrite ?view_set_store, ?Hdel; try done;
  intros ?; destruct direct_cases as [[? ?]|[[? ?]|[? ?]]]; congruence.
Qed.

Lemma view_remove_eq eid s : view eid (remove etype eid s) = (None, None).
Proof.
  unfold remove. set (s1 := if String.eqb etype "proposal" then _ else _).
  assert (dicts s1 a !! eid = None) as Hnone.
  { subst s1. destruct direct_cases as [[E Ea]|[[E Ea]|[E Ea]]]; rewrite E, Ea; simpl;
      unfold upd; rewrite decide_True by done; by apply lookup_delete_eq. }
  assert (is_entity_tracked etype eid s1 = false) as Hun.
  { revert Hnone. generalize s1. intros s2 H2.
    destruct direct_cases as [[E Ea]|[[E Ea]|[E Ea]]]; rewrite E; rewrite Ea in H2; simpl;
      apply bool_decide_eq_false; rewrite H2; by intros [? ?]. }
  unfold forget_revision_if_untracked. rewrite Hun. unfold view. simpl.
  by rewrite Hnone, lookup_delete_eq.
Qed.

Lemma view_cleanup_store eid now s st :
  st ∈ CLEANUP_STORES → view eid (cleanup_store now s st) = view eid s.
Proof.
  intros Hst. destruct st as [et b]. unfold cleanup_store, store_cleanup.
  assert (et ≠ etype) as Hne.
  { intros ->. unfold CLEANUP_STORES in Hst.
    destruct direct_cases as [[E Ea]|[[E Ea]|[E Ea]]]; rewrite E in Hst;
      repeat (apply elem_of_cons in Hst as [Hst|Hst]; [congruence|]); set_solver. }
  transitivity (view eid (set_store b
    (filter (λ r, ¬ TERMINAL_TTL_SECONDS < now - r.2.1) (stores s b)) s)); [|done].
  generalize (set_store b (filter (λ r, ¬ TERMINAL_TTL_SECONDS < now - r.2.1) (stores s b)) s).
  generalize (store_expired now (stores s b)). intros gone. induction gone as [|id gone IH];
    intros s'; [done|]. simpl. rewrite IH, view_forget by congruence. done.
Qed.

Lemma view_maybe_cleanup eid now s : view eid (maybe_cleanup now s) = view eid s.
Proof.
  unfold maybe_cleanup. destruct (_ <? _); [done|].
  unfold store_cleanup. set (rows := filter _ _).
  assert (∀ gone s1, view eid (fold_left
    (λ s0 id, set_evicted true (set_quotes (delete id (quotes s0)) rows s0)) gone s1)
    = view eid s1) as Hq by (intros gone; induction gone as [|g gone IH]; intros s1; simpl;
                              [done|by rewrite IH]).
  assert (∀ l s1, (∀ st, st ∈ l → st ∈ CLEANUP_STORES) →
    view eid (fold_left (cleanup_store now) l s1) = view eid s1) as Hs.
  { intros l. induction l as [|st l IH]; intros s1 Hl; simpl; [done|].
    rewrite IH by set_solver. apply view_cleanup_store, Hl. set_solver. }
  unfold prune_ring. set (s3 := fold_left (cleanup_store now) CLEANUP_STORES _).
  change (view eid s3 = view eid s). unfold s3. rewrite Hs by done. by rewrite Hq.
Qed.

(** One event, seen through the view of one entity. *)
Lemma view_apply eid e now clock s :
  view eid (apply e now clock s).2 =
    if bool_decide ((e_entity_type e, e_entity_id e) = (etype, eid))
       && negb (e_entity_revision e <=? default 0 (revisions s !! (etype, eid)))
    then match e_operation e with
         | op_delete => (None, None)
         | op_upsert => (Some (event_row e), Some (e_entity_revision e))
         end
    else view eid s.
Proof.
  unfold apply. case_bool_decide as Hk.
  - rewrite Hk. simpl. destruct (_ <=? _); [done|]. simpl. rewrite view_maybe_cleanup.
    change (view eid (reduce e now s) = match e_operation e with
      | op_delete => (None, None)
      | op_upsert => (Some (event_row e), Some (e_entity_revision e)) end).
    unfold reduce. injection Hk as Ht Hi. rewrite Ht, Hi.
    destruct (e_operation e); [|apply view_remove_eq].
    rewrite view_place_eq. simpl. by rewrite lookup_insert_eq.
  - simpl. destruct (_ <=? _); [done|]. simpl. rewrite view_maybe_cleanup.
    change (view eid (reduce e now s) = view eid s). unfold reduce.
    destruct (e_operation e); rewrite ?view_place_ne, ?view_remove_ne by done;
      unfold view; simpl; by rewrite lookup_insert_ne.
Qed.
(** A run of events: the last one of the entity decides its view. *)
Lemma apply_batch_state evs s :
  (apply_batch evs s).2 = fold_left (λ s et, (apply et.1 et.2.1 et.2.2 s).2) evs s.
Proof.
  unfold apply_batch. generalize (@nil envelope). revert s.
  induction evs as [|[e [now clock]] evs IH]; intros s envs; [done|]. simpl.
  destruct (apply e now clock s) as [env s'] eqn:E. simpl. by rewrite IH.
Qed.

Definition of_entity (eid : string) (e : DomainEvent) : Prop :=
  (e_entity_type e, e_entity_id e) = (etype, eid).
Global Instance of_entity_dec eid e : Decision (of_entity eid e).
Proof. unfold of_entity. apply _. Defined.

Lemma view_events eid (evs : list (DomainEvent * (Z * Z))) s :
  let mine := filter (of_entity eid) evs.*1 in
  increasing e_entity_revision mine →
  (∀ e, e ∈ mine → 0 < e_entity_revision e ∧
                   default 0 (revisions s !! (etype, eid)) < e_entity_revision e) →
  view eid (fold_left (λ s et, (apply et.1 et.2.1 et.2.2 s).2) evs s) =
    match last mine with
    | None => view eid s
    | Some e => match e_operation e with
                | op_delete => (None, None)
                | op_upsert => (Some (event_row e), Some (e_entity_revision e))
                end
    end.
Proof.
  revert s. induction evs as [|[e [now clock]] evs IH]; intros s mine Hinc Hnew; [done|].
  subst mine. rewrite fmap_cons, filter_cons in *. cbn [fst] in *. cbn [fold_left fst snd].
  pose proof (view_apply eid e now clock s) as Hv.
  destruct (decide (of_entity eid e)) as [Hk|Hk].
  - rewrite (bool_decide_eq_true_2 _ Hk) in Hv. cbn [andb] in Hv.
    destruct (Hnew e ltac:(set_solver)) as [Hpos Hgt].
    rewrite (proj2 (Z.leb_gt _ _) Hgt) in Hv. cbn [negb] in Hv.
    apply increasing_cons_inv in Hinc as [Hinc He].
    rewrite IH; [|done|].
    + destruct (last (filter (of_entity eid) evs.*1)) as [e'|] eqn:Hl.
      * by rewrite last_cons, Hl.
      * rewrite last_cons, Hl. done.
    + intros e' He'. split; [by apply Hnew; set_solver|].
      apply (f_equal snd) in Hv. unfold view in Hv. simpl in Hv. rewrite Hv.
      specialize (He e' He'). destruct (e_operation e); simpl; lia.
  - rewrite (bool_decide_eq_false_2 _ Hk) in Hv. cbn [andb] in Hv. rewrite IH; [by rewrite Hv|done|].
    intros e' He'. apply (f_equal snd) in Hv. unfold view in Hv. simpl in Hv. rewrite Hv. by apply Hnew.
Qed.

(** Installing rows: a row of the entity sets its view. *)
Lemma install_rows_view eid row0 rev0 now rows et s s' u :
  for_each rows (install_row now et) s = (Ok u, s') →
  (et = etype → ∀ row rev, row ∈ rows → row_key row = Some (eid, rev) → row = row0 ∧ rev = rev0) →
  ((∃ row rev, et = etype ∧ row ∈ rows ∧ row_key row = Some (eid, rev)) ∧
    view eid s' = (Some row0, Some rev0))
  ∨ ((et = etype → ∀ row rev, row ∈ rows → row_key row ≠ Some (eid, rev)) ∧
    view eid s' = view eid s).
Proof.
  revert s. induction rows as [|row rows IH]; intros s Hrun Hdet; simpl in Hrun.
  { run_inv. right. split; [set_solver|done]. }
  apply bind_ok in Hrun as ([] & s1 & Hrow & Hrest).
  apply IH in Hrest; [|intros; apply Hdet; set_solver]. clear IH.
  unfold install_row in Hrow. destruct (row_key row) as [[id rev]|] eqn:Hkey; [|done].
  injection Hrow as <-.
  destruct Hrest as [[(r & rv & ? & ? & ?) Hv]|[Hno Hv]].
  { left. split; [|done]. exists r, rv. set_solver. }
  rewrite Hv. destruct (decide ((et, id) = (etype, eid))) as [E|E].
  - left. injection E as -> ->. destruct (Hdet eq_refl row rev ltac:(set_solver) Hkey) as [-> ->].
    split; [exists row0, rev0; set_solver|].
    pose proof (view_place_eq eid row0 now s) as Hp. unfold view in *. simpl.
    rewrite lookup_insert_eq. by injection Hp as -> _.
  - right. split.
    + intros -> r rv [->|Hr]%elem_of_cons; [|by apply Hno]. rewrite Hkey. congruence.
    + pose proof (view_place_ne eid et id row now s E) as Hp. unfold view in *. simpl.
      rewrite lookup_insert_ne by done. done.
Qed.

Lemma install_entities_view eid row0 rev0 now entities s s' u :
  install_rows now entities s = (Ok u, s') →
  (∀ rows row rev, (etype, rows) ∈ entities → row ∈ rows →
    row_key row = Some (eid, rev) → row = row0 ∧ rev = rev0) →
  ((∃ rows row rev, (etype, rows) ∈ entities ∧ row ∈ rows ∧ row_key row = Some (eid, rev)) ∧
    view eid s' = (Some row0, Some rev0))
  ∨ ((∀ rows row rev, (etype, rows) ∈ entities → row ∈ rows → row_key row ≠ Some (eid, rev)) ∧
    view eid s' = view eid s).
Proof.
  unfold install_rows. revert s.
  induction entities as [|[et rows] entities IH]; intros s Hrun Hdet; simpl in Hrun.
  { run_inv. right. split; [set_solver|done]. }
  apply bind_ok in Hrun as ([] & s1 & Hrow & Hrest).
  apply IH in Hrest; [|intros; eapply Hdet; set_solver]. clear IH.
  eapply (install_rows_view eid row0 rev0) in Hrow;
    [|intros -> row rev ? ?; by apply (Hdet rows row rev); [set_solver|..]].
  destruct Hrest as [[(rs & r & rv & ? & ? & ?) Hv]|[Hno Hv]].
  { left. split; [|done]. exists rs, r, rv. set_solver. }
  rewrite Hv. destruct Hrow as [[(r & rv & -> & ? & ?) Hv1]|[Hno1 Hv1]].
  - left. split; [|done]. exists rows, r, rv. set_solver.
  - right. split; [|done]. intros rs r rv [[= <- <-]|Hin]%elem_of_cons; [by apply Hno1|by eapply Hno].
Qed.
End direct.

Lemma install_baseline_inv entities stream now s u s' :
  install_baseline entities stream now s = (Ok u, s') →
  ∃ s2, install_rows now entities (reset stream s) = (Ok tt, s2) ∧ s' = set_has_baseline s2.
Proof.
  unfold install_baseline. intros (u1 & s1 & [_ ->]%require_ok & Hrun)%bind_ok.
  apply bind_ok in Hrun as (u2 & s2 & H2 & Hrun). injection H2 as _ <-.
  apply bind_ok in Hrun as ([] & s3 & H3 & Hrun). injection Hrun as _ <-. by exists s3.
Qed.

Section converge.
Context {T : Type} (svc : DomainSnapshotService T) (j0 j1 : DomainJournal T).
Context (etype : string) (a : plain).
Hypothesis direct : direct_type etype = Some a.
Hypothesis wf0 : jwf j0.
Hypothesis later : rtc journal_step j0 j1.

(** The snapshot's rows of the type are the generic adapter's. *)
Lemma generic_row_key eid m : row_key (generic_row eid m) = Some (eid, mat_revision m).
Proof.
  unfold row_key, generic_row.
  rewrite (assoc_set_ne "account_id" "entity_id"), (assoc_set_ne "account_id" "entity_revision"),
    assoc_set_eq, (assoc_set_ne "entity_revision" "entity_id"), assoc_set_eq by done.
  done.
Qed.

Lemma view_apply_quotes eid batch now s :
  view etype a eid (apply_quotes batch now s) = view etype a eid s.
Proof.
  unfold apply_quotes. rewrite (view_maybe_cleanup etype a direct).
  revert s. induction batch as [|kq batch IH]; intros s; simpl; [done|]. rewrite IH.
  unfold put_quote. by destruct (store_put _ _ _ _) as [rows [gone|]].
Qed.

Definition baseline_view (eid : string) : option dict * option Z :=
  match get_entity etype eid (jcore j0) with
  | Some m => (Some (generic_row eid m), Some (mat_revision m))
  | None => (None, None)
  end.

Lemma resync_view snap entities seed stream now b0 b1 eid :
  (∀ rows, (etype, rows) ∈ entities ↔ rows = generic_select_active etype (jdb j0)) →
  resync_baseline snap entities seed stream now b0 = (Ok tt, b1) →
  view etype a eid (read_model b1) = baseline_view eid.
Proof.
  intros Hent Hrun. unfold resync_baseline in Hrun.
  destruct (install_baseline entities stream now (read_model b0)) as [[[]|e] s] eqn:Hinst; [|done].
  injection Hrun as <-. simpl.
  change (view etype a eid (apply_quotes seed now s) = baseline_view eid).
  rewrite view_apply_quotes.
  apply install_baseline_inv in Hinst as (s2 & Hrows & ->).
  change (view etype a eid (set_has_baseline s2)) with (view etype a eid s2).
  unfold baseline_view, get_entity.
  set (c0 := jcore j0). set (lookup := materialized c0 !! (etype, eid)).
  eapply (install_entities_view etype a direct eid
    (match lookup with Some m => generic_row eid m | None => [] end)
    (match lookup with Some m => mat_revision m | None => 0 end)) in Hrows.
  - destruct Hrows as [[(rows & row & rev & ->%Hent & Hrow & Hkey) ->]|[Hno ->]].
    + apply generic_select_active_spec in Hrow as (eid' & m & Hm & Hd & ->).
      rewrite generic_row_key in Hkey. injection Hkey as -> _.
      unfold lookup. change (db_core (jdb j0)) with c0 in Hm. by rewrite Hm, Hd.
    + unfold lookup. destruct (materialized c0 !! (etype, eid)) as [m|] eqn:Hm; [|done].
      destruct (mat_deleted m) eqn:Hd; [done|]. exfalso.
      apply (Hno _ (generic_row eid m) (mat_revision m) (proj2 (Hent _) eq_refl));
        [|apply generic_row_key].
      apply generic_select_active_spec. by exists eid, m.
  - intros rows row rev ->%Hent Hrow Hkey.
    apply generic_select_active_spec in Hrow as (eid' & m & Hm & Hd & ->).
    rewrite generic_row_key in Hkey. injection Hkey as -> <-.
    unfold lookup. change (db_core (jdb j0)) with c0 in Hm. by rewrite Hm.
Qed.
(** The rows of one entity that the snapshot does not include. *)
Definition unseen (eid : string) : list journal_row :=
  filter (λ r, key r = (etype, eid))
    (filter (λ r, newest (jcore j0) < source_cursor r) (journal (jcore j1))).

Lemma unseen_elem eid r :
  r ∈ unseen eid ↔ key r = (etype, eid) ∧ newest (jcore j0) < source_cursor r
                   ∧ r ∈ journal (jcore j1).
Proof. unfold unseen. rewrite !list_elem_of_filter. tauto. Qed.

Lemma unseen_sorted eid : increasing source_cursor (unseen eid).
Proof. apply increasing_filter, increasing_filter, (wf_sorted _ (jwf_core _ (jwf_steps _ _ later wf0))). Qed.

Lemma unseen_revisions eid : increasing entity_revision (unseen eid).
Proof.
  eapply increasing_impl, unseen_sorted.
  intros x y (Hx & _ & ?)%unseen_elem (Hy & _ & ?)%unseen_elem.
  apply (wf_order _ (jwf_core _ (jwf_steps _ _ later wf0))); congruence.
Qed.

Lemma unseen_newer eid r :
  r ∈ unseen eid → read_current_revision etype eid (jcore j0) < entity_revision r.
Proof.
  intros (Hk & Hc & Hr)%unseen_elem. injection Hk as <- <-.
  destruct (grows_rows _ _ (journal_steps_grow _ _ later wf0) r Hr) as [Hold|[_ ?]]; [|done].
  pose proof (newest_ge _ _ Hold). lia.
Qed.

Lemma filter_events eid rows :
  filter (of_entity etype eid) (map row_to_event rows)
  = map row_to_event (filter (λ r, key r = (etype, eid)) rows).
Proof.
  induction rows as [|r rows IH]; [done|]. simpl. rewrite !filter_cons, IH.
  unfold of_entity, key. simpl. by repeat case_decide.
Qed.

(** The ledger at [j1] is the last unseen row's, or [j0]'s if there is none. *)
Lemma ledger_after eid :
  raise_if_expired (newest (jcore j0)) (jcore j1) = Ok tt →
  match last (unseen eid) with
  | None => materialized (jcore j1) !! (etype, eid) = materialized (jcore j0) !! (etype, eid)
  | Some r => ∃ m, materialized (jcore j1) !! (etype, eid) = Some m ∧ agrees r m
                   ∧ mat_revision m = entity_revision r
  end.
Proof.
  intros Hexp. pose proof (jwf_steps _ _ later wf0) as Hj1.
  destruct (last (unseen eid)) as [r|] eqn:Hl.
  - assert (latest_by source_cursor (unseen eid) = Some r) as Hlast
      by (unfold latest_by; by rewrite order_by_increasing by apply unseen_sorted).
    apply latest_by_max in Hlast as [Hr Hmax]; [|apply unseen_sorted].
    apply unseen_elem in Hr as (Hk & Hc & Hr).
    destruct (wf_ledger _ (jwf_core _ Hj1) r Hr) as (m & Hm & Hle).
    destruct (wf_gapfree _ (jwf_core _ Hj1) r m (mat_revision m) Hr Hm)
      as (r' & Hr' & Hk' & Hrev & Hcur); [lia|].
    assert (r' ∈ unseen eid) as Hu by (apply unseen_elem; split_and!; [congruence|lia|done]).
    pose proof (Hmax r' Hu).
    assert (r' = r) as -> by (eapply increasing_inj; [apply (wf_sorted _ (jwf_core _ Hj1))|..]; [done|done|lia]).
    exists m. rewrite <-Hk. split; [done|]. split; [|done]. by apply (wf_agrees _ (jwf_core _ Hj1)).
  - apply last_None in Hl.
    destruct (journal_steps_ledger _ _ (etype, eid) later wf0)
      as [?|(jm & r & Hs & Hjm & Hr & Hk & Hc)]; [done|].
    pose proof (newest_lt_seq _ (jwf_core _ wf0)).
    assert (r ∈ unseen eid) as Hu; [|rewrite Hl in Hu; set_solver].
    apply unseen_elem. split_and!; [done|lia|].
    destruct (retained_steps _ _ Hs Hjm) as [_ Hkeep]. apply Hkeep; [done|].
    rewrite raise_if_expired_ok in Hexp. unfold retained_from.
    destruct (latest_checkpoint _) as [cp|]; [specialize (Hexp cp eq_refl); lia|].
    pose proof (wf_bounds _ (jwf_core _ Hjm) r Hr). lia.
Qed.

Lemma event_row_shows r m k :
  agrees r m → mat_revision m = entity_revision r → entity_type r ≠ "strategy" →
  k ≠ "account_id"%string →
  assoc k (event_row (row_to_event r)) = assoc k (generic_row (entity_id r) m).
Proof.
  intros (_ & _ & _ & Hp) Hrev Ht Hk. unfold event_row, generic_row.
  rewrite (assoc_set_ne "account_id" k) by done. simpl. by rewrite (Hp Ht), Hrev.
Qed.

(** The read model after the baseline and the whole tail, entity by entity. *)
Lemma tail_shows_ledger s (evs : list (DomainEvent * (Z * Z))) eid :
  (∀ eid, view etype a eid s = baseline_view eid) →
  raise_if_expired (newest (jcore j0)) (jcore j1) = Ok tt →
  evs.*1 = map row_to_event
             (filter (λ r, newest (jcore j0) < source_cursor r) (journal (jcore j1))) →
  let s' := fold_left (λ s et, (apply et.1 et.2.1 et.2.2 s).2) evs s in
  match get_entity etype eid (jcore j1) with
  | Some m => ∃ row, dicts s' a !! eid = Some row ∧
                     ∀ k, k ≠ "account_id"%string → assoc k row = assoc k (generic_row eid m)
  | None => dicts s' a !! eid = None
  end.
Proof.
  intros Hbase Hexp Hevs s'. pose proof (ledger_after eid Hexp) as Hled.
  assert (view etype a eid s' = match last (map row_to_event (unseen eid)) with
    | None => view etype a eid s
    | Some e => match e_operation e with
                | op_delete => (None, None)
                | op_upsert => (Some (event_row e), Some (e_entity_revision e)) end end) as Hv.
  { unfold s'. rewrite (view_events etype a direct); rewrite Hevs, filter_events; fold (unseen eid).
    - done.
    - apply increasing_map, unseen_revisions.
    - intros e (r & -> & Hr)%list_elem_of_fmap. simpl. pose proof (unseen_newer eid r Hr).
      pose proof (current_revision_nonneg _ etype eid (jwf_core _ wf0)).
      split; [lia|]. specialize (Hbase eid). apply (f_equal snd) in Hbase.
      unfold view in Hbase. simpl in Hbase. rewrite Hbase. unfold baseline_view, get_entity.
      unfold read_current_revision in *.
      destruct (materialized (jcore j0) !! (etype, eid)) as [m|];
        [destruct (mat_deleted m)|]; simpl; lia. }
  rewrite fmap_last in Hv. unfold get_entity.
  destruct (last (unseen eid)) as [r|] eqn:Hl; simpl in Hv.
  - destruct Hled as (m & -> & Hag & Hrev). pose proof Hag as (_ & Hdel & _ & _).
    assert (r ∈ unseen eid) as (Hk & _ & _)%unseen_elem
      by (apply last_Some in Hl as [l ->]; set_solver).
    rewrite Hdel. apply (f_equal fst) in Hv.
    destruct (operation r); simpl in Hv |- *; rewrite Hv; [|done].
    eexists. split; [done|]. intros k Hne. injection Hk as <- <-.
    apply event_row_shows; [done|done| |done].
    intros E. rewrite E in direct. discriminate.
  - rewrite Hled. rewrite Hbase in Hv. apply (f_equal fst) in Hv.
    unfold baseline_view, get_entity in Hv. simpl in Hv. rewrite Hv.
    destruct (materialized (jcore j0) !! (etype, eid)) as [m|];
      [destruct (mat_deleted m)|]; simpl; [done| |done]. by eexists.
Qed.
End converge.

Lemma tail_steps_state batches b :
  read_model (fold_left (λ b batch, final (tail_step batch) b) batches b)
  = fold_left (λ s et, (apply et.1 et.2.1 et.2.2 s).2) (concat batches) (read_model b).
Proof.
  revert b. induction batches as [|batch batches IH]; intros b; simpl; [done|].
  rewrite IH, fold_left_app. f_equal. unfold tail_step, final.
  destruct (last batch) as [[e t]|] eqn:Hl.
  - rewrite <-apply_batch_state. by destruct (apply_batch batch (read_model b)).
  - by apply last_None in Hl as ->.
Qed.

(** ** The invariant of the running read model *)

(** The ring holds consecutive sequence numbers that end at the current one,
    all of the current stream. *)
Record ring_ok (s : DashboardState) : Prop := {
  ring_short : Z.of_nat (length (ring s)) ≤ sequence s;
  ring_seq i x : ring s !! i = Some x →
    x.1.1 = sequence s - Z.of_nat (length (ring s)) + 1 + Z.of_nat i ∧
    env_sequence x.2 = x.1.1 ∧ env_stream_id x.2 = stream_id s;
}.

Record dash_ok (s : DashboardState) : Prop := {
  ok_ring : ring_ok s;
  ok_ring_bound : Z.of_nat (length (ring s)) ≤ REPLAY_RING_MAX_EVENTS;
  ok_stores b : Z.of_nat (length (stores s b)) ≤ TERMINAL_CAP;
  ok_quotes : Z.of_nat (length (quote_rows s)) ≤ TERMINAL_CAP;
}.

Lemma prune_count_drop r : ∃ k, prune_count r = drop k r.
Proof.
  induction r as [|x r IH]; simpl; [by exists 0%nat|]. case_match; [|by exists 0%nat].
  destruct IH as [k ->]. by exists (S k).
Qed.
Lemma prune_count_bound r : Z.of_nat (length (prune_count r)) ≤ REPLAY_RING_MAX_EVENTS.
Proof.
  induction r as [|x r IH]; [done|]. cbn [prune_count]. case_match; [done|]. to_prop. lia.
Qed.
Lemma prune_age_drop now r : ∃ k, prune_age now r = drop k r.
Proof.
  induction r as [|[[n t] e] r IH]; simpl; [by exists 0%nat|]. case_match; [|by exists 0%nat].
  destruct IH as [k ->]. by exists (S k).
Qed.

Lemma store_evict_spec rows ev :
  Z.of_nat (length (store_evict rows ev).1) ≤ TERMINAL_CAP
  ∧ ∃ k, (store_evict rows ev).1 = drop k rows.
Proof.
  revert ev. induction rows as [|r rows IH]; intros ev; [split; [done|by exists 0%nat]|].
  cbn [store_evict]. case_match; [|split; [to_prop; simpl in *; lia|by exists 0%nat]].
  destruct (IH (Some r.1)) as [Hb [k Hk]]. split; [done|]. by exists (S k).
Qed.

Lemma store_put_bound id row now rows :
  Z.of_nat (length (store_put id row now rows).1) ≤ TERMINAL_CAP.
Proof. apply store_evict_spec. Qed.

(** What the entity operations leave alone. *)
Definition same_stream (s s' : DashboardState) : Prop :=
  stream_id s' = stream_id s ∧ sequence s' = sequence s ∧ ring s' = ring s
  ∧ last_cleanup s' = last_cleanup s ∧ quote_rows s' = quote_rows s
  ∧ (∀ b, Z.of_nat (length (stores s' b)) ≤ TERMINAL_CAP
          ∨ (length (stores s' b) ≤ length (stores s b))%nat).

Global Instance same_stream_preorder : PreOrder same_stream.
Proof.
  split; [by intros s; split_and!; try done; intros b; right|].
  intros s1 s2 s3 (?&?&?&?&?&H) (?&?&?&?&?&H'). split_and!; try congruence.
  intros b. destruct (H b), (H' b); [by left|left; lia|by left|right; lia].
Qed.

Lemma same_forget et id s : same_stream s (forget_revision_if_untracked et id s).
Proof. unfold forget_revision_if_untracked. case_match; split_and!; try done; by right. Qed.

Lemma same_set_store a rows s :
  Z.of_nat (length rows) ≤ TERMINAL_CAP ∨ (length rows ≤ length (stores s a))%nat →
  same_stream s (set_store a rows s).
Proof.
  intros H. split_and!; try done. intros b. simpl. unfold upd.
  destruct (decide (b = a)) as [->|]; [done|by right].
Qed.
Lemma same_set_dict a f s : same_stream s (set_dict a f s).
Proof. split_and!; try done; by right. Qed.

Lemma store_remove_length id rows : (length (store_remove id rows) ≤ length rows)%nat.
Proof. apply length_filter. Qed.

Lemma same_put_bounded et a id row now s : same_stream s (put_bounded et a id row now s).
Proof.
  unfold put_bounded. pose proof (store_put_bound id row now (stores s a)) as Hb.
  destruct (store_put _ _ _ _) as [rows [gone|]]; [|by apply same_set_store; left].
  etransitivity; [|apply same_forget].
  etransitivity; [apply (same_set_store a rows); by left|]. split_and!; try done; by right.
Qed.

Lemma same_place et id row now s : same_stream s (place et id row now s).
Proof.
  unfold place. repeat case_match;
    try done; try apply same_put_bounded; try apply same_set_dict;
    try (etransitivity; [apply same_set_dict|]; apply same_put_bounded);
    etransitivity; try apply same_set_dict; apply same_set_store; right;
    apply store_remove_length.
Qed.

Lemma same_remove et id s : same_stream s (remove et id s).
Proof.
  unfold remove. cbv zeta. etransitivity; [|apply same_forget].
  assert (∀ a s, same_stream s (set_store a (store_remove id (stores s a)) s)) as Hst
    by (intros; apply same_set_store; right; apply store_remove_length).
  repeat match goal with |- context [if String.eqb et ?t then _ else _] =>
    destruct (String.eqb et t) end;
  repeat first [done | apply same_set_dict | apply Hst | etransitivity; [|apply Hst]].
Qed.

Lemma same_reduce e now s : same_stream s (reduce e now s).
Proof.
  unfold reduce. etransitivity; [|destruct (e_operation e); [apply same_place|apply same_remove]].
  split_and!; try done; by right.
Qed.

Lemma dash_ok_same s s' : same_stream s s' → dash_ok s → dash_ok s'.
Proof.
  intros (Hs & Hn & Hr & _ & Hq & Hst) [[Hshort Hring] Hb Hstores Hquotes]. split.
  - split; rewrite ?Hr, ?Hn, ?Hs; done.
  - by rewrite Hr.
  - intros b. specialize (Hstores b). destruct (Hst b); lia.
  - by rewrite Hq.
Qed.

Lemma ring_ok_drop k s : ring_ok s → ring_ok (set_ring (drop k (ring s)) s).
Proof.
  intros [Hshort Hring]. split; simpl; rewrite length_drop; [lia|].
  intros i x. rewrite lookup_drop. intros Hx. destruct (Hring _ _ Hx) as (H1 & H2 & H3).
  split; [|done]. apply lookup_lt_Some in Hx. rewrite H1. lia.
Qed.

Lemma dash_ok_prune now s :
  ring_ok s → (∀ b, Z.of_nat (length (stores s b)) ≤ TERMINAL_CAP) →
  Z.of_nat (length (quote_rows s)) ≤ TERMINAL_CAP → dash_ok (prune_ring now s).
Proof.
  intros Hr Hs Hq. unfold prune_ring.
  pose proof (prune_count_bound (ring s)) as Hb.
  destruct (prune_count_drop (ring s)) as [k Hk].
  destruct (prune_age_drop now (prune_count (ring s))) as [k' Hk'].
  split; simpl; [|rewrite Hk', length_drop; lia|done|done].
  rewrite Hk', Hk. rewrite drop_drop. by apply ring_ok_drop.
Qed.

Lemma store_cleanup_length now rows : (length (store_cleanup now rows).1 ≤ length rows)%nat.
Proof. apply length_filter. Qed.

Lemma same_cleanup_store now s st : same_stream s (cleanup_store now s st).
Proof.
  destruct st as [et b]. unfold cleanup_store.
  pose proof (store_cleanup_length now (stores s b)) as Hl.
  destruct (store_cleanup now (stores s b)) as [rows gone]. simpl in Hl.
  etransitivity; [apply (same_set_store b rows); by right|].
  generalize (set_store b rows s). induction gone as [|g gone IH]; intros s'; simpl; [done|].
  etransitivity; [|apply IH]. etransitivity; [|apply same_forget].
  split_and!; try done; by right.
Qed.

Lemma dash_ok_maybe_cleanup now s : dash_ok s → dash_ok (maybe_cleanup now s).
Proof.
  intros Hok. unfold maybe_cleanup. case_match; [done|].
  pose proof (store_cleanup_length now (quote_rows s)) as Hl.
  change (quote_rows (set_last_cleanup now s)) with (quote_rows s).
  destruct (store_cleanup now (quote_rows s)) as [rows gone]. simpl in Hl.
  assert (∀ s1, quote_rows s1 = rows → dash_ok s1 → dash_ok (fold_left
    (λ s0 id, set_evicted true (set_quotes (delete id (quotes s0)) rows s0)) gone s1)) as Hq.
  { induction gone as [|g gone IH]; intros s1 Hr H1; simpl; [done|].
    apply IH; [done|]. destruct H1 as [[]]. split; [by split|done..|]. simpl. by rewrite <-Hr. }
  assert (∀ l s1, dash_ok s1 → dash_ok (fold_left (cleanup_store now) l s1)) as Hs.
  { intros l. induction l as [|st l IH]; intros s1 H1; simpl; [done|].
    apply IH. eapply dash_ok_same, H1. apply same_cleanup_store. }
  assert (dash_ok (set_quotes (quotes s) rows (set_last_cleanup now s))) as H0.
  { destruct Hok as [[] Hb Hst Hqu]. split; [by split|done..|]. simpl in *. lia. }
  specialize (Hq (set_quotes (quotes s) rows (set_last_cleanup now s)) eq_refl H0).
  specialize (Hs CLEANUP_STORES _ Hq). destruct Hs as [? _ ? ?].
  by apply dash_ok_prune.
Qed.

Lemma dash_ok_apply e now clock s : dash_ok s → dash_ok (apply e now clock s).2.
Proof.
  intros Hok. unfold apply. case_match; [done|].
  pose proof (dash_ok_same _ _ (same_reduce e now s) Hok) as [[Hshort Hring] Hb Hst Hq].
  set (s1 := reduce e now s) in *. simpl. apply dash_ok_maybe_cleanup.
  set (x := (sequence s1 + 1, now, mkEnvelope (stream_id s1) (sequence s1 + 1) e clock)).
  set (s2 := set_ring (ring s1 ++ [x]) (make_envelope e clock s1).2).
  assert (ring_ok s2) as Hr2.
  { split; simpl; rewrite length_app; simpl; [lia|].
    intros i y. destruct (decide (i < length (ring s1))%nat) as [Hi|Hi].
    - rewrite lookup_app_l by done. intros Hy. destruct (Hring i y Hy) as (-> & -> & ->).
      split; [lia|]. split; [lia|done].
    - rewrite lookup_app_r by lia. destruct (i - length (ring s1))%nat eqn:Ei; [|done].
      intros [= <-]. simpl. split; [lia|done]. }
  destruct (dash_ok_prune now s2 Hr2 Hst Hq) as [[]].
  split; [by split|done..].
Qed.

Lemma dash_ok_apply_quotes batch now s : dash_ok s → dash_ok (apply_quotes batch now s).
Proof.
  intros Hok. unfold apply_quotes. apply dash_ok_maybe_cleanup. revert s Hok.
  induction batch as [|kq batch IH]; intros s Hok; simpl; [done|]. apply IH.
  unfold put_quote. pose proof (store_put_bound kq.1 kq.2 now (quote_rows s)) as Hb.
  destruct Hok as [[] ? ? ?].
  destruct (store_put _ _ _ _) as [rows [gone|]]; split; try (split; done); done.
Qed.

Lemma dash_ok_consume s : dash_ok s → dash_ok (consume_retention_eviction s).2.
Proof. intros [[] ? ? ?]. split; [by split|done..]. Qed.

Lemma dash_ok_install entities stream now s :
  dash_ok s → dash_ok (final (install_baseline entities stream now) s).
Proof.
  intros Hok. apply (preserves_bind dash_ok); [apply preserves_require| |done]. intros _.
  apply preserves_bind; [|intros _; apply preserves_bind].
  - intros s1 _. by split.
  - apply preserves_for_each. intros er _. apply preserves_for_each. intros row _ s1 Hs1.
    unfold install_row, final. destruct (row_key row) as [[id rev]|]; [|done]. simpl.
    eapply dash_ok_same, Hs1. etransitivity; [apply same_place|].
    split_and!; try done; by right.
  - intros _ s1 [[] ? ? ?]. split; [by split|done..].
Qed.

(** One callback on the dashboard's loop. *)
Inductive dash_step : DashboardState → DashboardState → Prop :=
  | dash_apply e now clock s : dash_step s (apply e now clock s).2
  | dash_quotes batch now s : dash_step s (apply_quotes batch now s)
  | dash_consume s : dash_step s (consume_retention_eviction s).2
  | dash_cleanup now s : dash_step s (maybe_cleanup now s)
  | dash_install entities stream now s :
      dash_step s (final (install_baseline entities stream now) s).

Definition new_state (stream : string) (now : Z) : DashboardState :=
  mkState stream 0 false None None ∅ [] false ∅ [] now (λ _, ∅) (λ _, []).

Lemma dash_ok_new stream now : dash_ok (new_state stream now).
Proof.
  by split.
Qed.

Lemma dash_ok_step s s' : dash_step s s' → dash_ok s → dash_ok s'.
Proof.
  destruct 1; eauto using dash_ok_apply, dash_ok_apply_quotes, dash_ok_consume,
    dash_ok_maybe_cleanup, dash_ok_install.
Qed.

Lemma dash_ok_steps s s' : rtc dash_step s s' → dash_ok s → dash_ok s'.
Proof. induction 1; eauto using dash_ok_step. Qed.

(** The sequence numbers a consecutive run keeps above [q]. *)
Lemma filter_above (l : list (Z * Z * envelope)) base q :
  (∀ i x, l !! i = Some x → x.1.1 = base + 1 + Z.of_nat i) →
  q ≤ base + Z.of_nat (length l) →
  map (λ x, x.1.1) (filter (λ x, q < x.1.1) l)
  = seqZ (Z.max q base + 1) (base + Z.of_nat (length l) - Z.max q base).
Proof.
  revert base. induction l as [|x l IH]; intros base Hl Hq; simpl in *.
  { rewrite seqZ_nil; [done|lia]. }
  pose proof (Hl 0%nat x eq_refl) as Hx.
  assert (∀ i y, l !! i = Some y → y.1.1 = base + 1 + 1 + Z.of_nat i) as Hl'.
  { intros i y Hy. rewrite (Hl (S i) y Hy). lia. }
  rewrite filter_cons. case_decide.
  - simpl. rewrite (IH (base + 1)) by (done || lia).
    rewrite (seqZ_cons (Z.max q base + 1)) by lia. f_equal; [lia|]. f_equal; lia.
  - rewrite (IH (base + 1)) by (done || lia). f_equal; lia.
Qed.

(** *** Revision guards of entity types the dashboard does not know *)
Definition known_types : list string :=
  ["proposal"; "order"; "fill"; "account"; "position"; "strategy"; "risk"; "reconciliation";
   "trading_control"; "command"; "allocation_authority"].

Lemma unknown_eqb et t : et ∉ known_types → t ∈ known_types → String.eqb et t = false.
Proof. intros H Ht. apply String.eqb_neq. by intros ->. Qed.

Ltac unknown H := rewrite ?(unknown_eqb _ _ H) by (unfold known_types; set_solver).

Lemma unknown_place et id row now s : et ∉ known_types → place et id row now s = s.
Proof. intros H. unfold place. by unknown H. Qed.
Lemma unknown_tracked et id s : et ∉ known_types → is_entity_tracked et id s = false.
Proof. intros H. unfold is_entity_tracked. by unknown H. Qed.

Lemma unknown_forget et id et' id' s :
  et ∉ known_types → et' ∈ known_types →
  revisions (forget_revision_if_untracked et' id' s) !! (et, id) = revisions s !! (et, id).
Proof.
  intros H H'. unfold forget_revision_if_untracked. case_match; [done|]. simpl.
  apply lookup_delete_ne. intros [= -> _]. done.
Qed.

Lemma unknown_cleanup et id now s :
  et ∉ known_types → revisions (maybe_cleanup now s) !! (et, id) = revisions s !! (et, id).
Proof.
  intros H. unfold maybe_cleanup. case_match; [done|].
  destruct (store_cleanup now _) as [rows gone].
  assert (∀ s1, revisions (fold_left (λ s0 id0,
    set_evicted true (set_quotes (delete id0 (quotes s0)) rows s0)) gone s1) = revisions s1) as Hq
    by (induction gone as [|g gone IH]; intros s1; simpl; [done|by rewrite IH]).
  assert (∀ l s1, (∀ st, st ∈ l → st.1 ∈ known_types) →
    revisions (fold_left (cleanup_store now) l s1) !! (et, id) = revisions s1 !! (et, id)) as Hs.
  { intros l. induction l as [|[et' b] l IH]; intros s1 Hl; simpl; [done|].
    rewrite IH by set_solver. unfold cleanup_store, store_cleanup.
    assert (et' ∈ known_types) as Ht by (apply (Hl (et', b)); set_solver).
    set (s2 := set_store b _ s1). transitivity (revisions s2 !! (et, id)); [|done].
    generalize (store_expired now (stores s1 b)). intros gone'. generalize s2.
    induction gone' as [|g gone' IH']; intros s3; simpl; [done|].
    by rewrite IH', unknown_forget. }
  unfold prune_ring. set (s3 := fold_left (cleanup_store now) CLEANUP_STORES _).
  change (revisions s3 !! (et, id) = revisions s !! (et, id)). unfold s3.
  rewrite Hs; [by rewrite Hq|].
  assert (Forall (λ st, st.1 ∈ known_types) CLEANUP_STORES) as Hf
    by (apply (bool_decide_unpack _); reflexivity).
  intros st. by apply (proj1 (Forall_forall _ _) Hf).
Qed.

(** ** Theorems *)


(** A reconnecting browser either resnapshots or gets exactly the
    envelopes it has not seen: consecutive sequence numbers from its own plus
    one up to the current one, all of its stream. It is told to resnapshot only
    for another stream, a sequence this stream never reached, or one the ring
    has pruned. *)
Theorem replay_is_exact stream0 now0 s stream seq :
  rtc dash_step (new_state stream0 now0) s →
  match replay_after stream seq s with
  | Some envs =>
      stream = stream_id s ∧ map env_sequence envs = seqZ (seq + 1) (sequence s - seq) ∧
      (∀ env, env ∈ envs → env_stream_id env = stream)
  | None =>
      stream ≠ stream_id s ∨ seq < 0 ∨ sequence s < seq ∨
      seq < sequence s - Z.of_nat (length (ring s))
  end.
Proof.
  intros Hs. pose proof (dash_ok_steps _ _ Hs (dash_ok_new _ _)) as [[Hshort Hring] _ _ _].
  unfold replay_after. destruct (String.eqb_spec stream (stream_id s)) as [->|]; simpl; [|by left].
  destruct ((seq <? 0) || (sequence s <? seq)) eqn:Hrange; to_prop; [destruct Hrange; to_prop; lia|].
  destruct (Z.eqb_spec seq (sequence s)) as [->|Hne].
  { split_and!; [done| |set_solver]. rewrite seqZ_nil; [done|lia]. }
  assert (∀ x rest, ring s = x :: rest →
    x.1.1 = sequence s - Z.of_nat (length (ring s)) + 1) as Hhead.
  { intros x rest E. destruct (Hring 0%nat x) as (-> & _); [by rewrite E|lia]. }
  destruct (ring s) as [|[[first at'] env] rest] eqn:Er; [simpl; right; right; right; lia|].
  specialize (Hhead _ _ eq_refl). rewrite <-Er in *. cbn [fst] in Hhead.
  destruct (Z.ltb_spec (seq + 1) first); [right; right; right; lia|].
  split; [done|]. split.
  - transitivity (map (λ x : Z * Z * envelope, x.1.1) (filter (λ x, seq < x.1.1) (ring s))).
    + rewrite map_map. apply map_ext_in. intros x Hx%list_elem_of_In.
      apply list_elem_of_filter in Hx as [_ Hx].
      apply list_elem_of_lookup in Hx as [i Hi]. by destruct (Hring i x Hi) as (_ & -> & _).
    + rewrite (filter_above _ (sequence s - Z.of_nat (length (ring s))));
        [f_equal; lia|intros i x Hx; destruct (Hring i x Hx) as (-> & _); lia|lia].
  - intros env' (x & -> & [_ Hx]%list_elem_of_filter)%list_elem_of_fmap.
    apply list_elem_of_lookup in Hx as [i Hi]. by destruct (Hring i x Hi) as (_ & _ & ->).
Qed.

(** The read model's memory is bounded whatever arrives: the replay ring by
    10 000 envelopes, every terminal store and the quote rows by 500. *)
Theorem dashboard_is_bounded stream now s :
  rtc dash_step (new_state stream now) s →
  Z.of_nat (length (ring s)) ≤ 10000 ∧
  (∀ b, Z.of_nat (length (stores s b)) ≤ 500) ∧ Z.of_nat (length (quote_rows s)) ≤ 500.
Proof. intros H. by destruct (dash_ok_steps _ _ H (dash_ok_new _ _)). Qed.

(** An event of an entity type the dashboard does not show changes no
    collection, and its revision guard stays although the entity is tracked
    nowhere: only a new baseline clears it. *)
Theorem unknown_type_keeps_guard e now clock s :
  e_entity_type e ∉ known_types →
  default 0 (revisions s !! (e_entity_type e, e_entity_id e)) < e_entity_revision e →
  e_operation e = op_upsert →
  let s' := (apply e now clock s).2 in
  revisions s' !! (e_entity_type e, e_entity_id e) = Some (e_entity_revision e) ∧
  is_entity_tracked (e_entity_type e) (e_entity_id e) s' = false.
Proof.
  intros Hun Hrev Hop s'. split; [|by apply unknown_tracked]. unfold s', apply.
  rewrite (proj2 (Z.leb_gt _ _) Hrev). simpl. rewrite unknown_cleanup by done. simpl.
  unfold reduce. rewrite Hop, unknown_place by done. simpl. apply lookup_insert_eq.
Qed.

(** ** Concrete runs *)
Definition ex_control : DomainMutation :=
  mkMutation "trading_control.updated" "trading_control" "DU1" op_upsert (Some "DU1") "cli"
    (Aware (days 99) 0) None (Some [("paused", JBool true)]).
Definition ex_c0 : DomainJournal unit :=
  final (mutate ex_stamp ex_control ex_write None) ex_start.
Definition ex_c1 : DomainJournal unit :=
  final (mutate (mkStamp "u-2" (days 101)) ex_control ex_write None) ex_c0.
Definition ex_svc : DomainSnapshotService unit :=
  mkSnapshotService [GenericEntityAdapter "trading_control"] None.
Definition ex_snap : SnapshotWithCursor :=
  mkSnapshot 1 0 (select_entities ex_svc (jdb ex_c0)).
Definition ex_entities : list (string * list dict) :=
  [("trading_control"%string, generic_select_active "trading_control" (jdb ex_c0))].
Definition ex_bridge : bridge := mkBridge None (new_state "s" 0).
Definition ex_tail : list (DomainEvent * (Z * Z)) :=
  map (λ r, (row_to_event r, (1, 1)))
    (filter (λ r, 1 < source_cursor r) (journal (jcore ex_c1))).

Lemma ex_c0_jwf : jwf ex_c0.
Proof. eapply jwf_step; [apply step_mutate|apply jwf_empty]. Qed.

Lemma ex_c_later : rtc journal_step ex_c0 ex_c1.
Proof.
  apply rtc_once, step_mutate.
Qed.


Lemma replay_is_exact_witness :
  replay_after "s" 0 (apply (row_to_event ex_row) 1 1 (new_state "s" 0)).2
  = Some [mkEnvelope "s" 1 (row_to_event ex_row) 1] ∧ seqZ 1 1 = [1].
Proof.
  pose proof (replay_is_exact "s" 0 (apply (row_to_event ex_row) 1 1 (new_state "s" 0)).2 "s" 0
    (rtc_once _ _ (dash_apply _ _ _ _))) as H.
  split; [reflexivity|].
  change (replay_after "s" 0 (apply (row_to_event ex_row) 1 1 (new_state "s" 0)).2)
    with (Some [mkEnvelope "s" 1 (row_to_event ex_row) 1]) in H.
  destruct H as (_ & H & _). exact (eq_sym H).
Defined.

Lemma dashboard_is_bounded_witness :
  Z.of_nat (length (ring (apply (row_to_event ex_row) 1 1 (new_state "s" 0)).2)) ≤ 10000.
Proof.
  apply (dashboard_is_bounded "s" 0). apply rtc_once, dash_apply.
Defined.

Definition ex_unknown : DomainEvent :=
  mkEvent "e-9" 9 1 "trade_attribution.updated" "trade_attribution" "ta-9" op_upsert None
    "automation" 0 None (Some []).

Lemma unknown_type_keeps_guard_witness :
  revisions (apply ex_unknown 1 1 (new_state "s" 0)).2 !! ("trade_attribution", "ta-9")%string
  = Some 1.
Proof.
  apply (unknown_type_keeps_guard ex_unknown 1 1 (new_state "s" 0)); [|reflexivity..].
  unfold known_types. set_solver.
Defined.
