(* ===== verification/TradingControl.v ===== *)
(** * The durable pause gate ([trader/trading/trading_control.py])

    [TradingControlStore] decides whether an account may take on new exposure.
    Pausing always succeeds, resuming needs the exact current revision, an
    account without a row is blocked.  The theorems give the outcome of every
    branch of [set], the gate an approval reads in its own transaction, and the
    agreement of the row with its journal events. *)
From stdpp Require Import base tactics gmap list strings pretty.
From Stdlib Require Import ZArith Lia.
From S2P Require Import Prelude Py Journal.
Open Scope Z_scope.

Record TradingControlState : Type := mkControl {
  tc_account_id : string;
  new_exposure_paused : bool;
  tc_revision : Z;
  tc_updated_at : Z;
  updated_by_command_id : string;
  updated_reason : string;
}.

Global Instance TradingControlState_eq_dec : EqDecision TradingControlState.
Proof. solve_decision. Defined.

(** [trading_control_state], by its primary key *)
Definition control_table : Type := gmap string TradingControlState.

(** [to_payload] *)
Definition control_to_payload (s : TradingControlState) : dict :=
  [("account_id", JStr (tc_account_id s));
   ("new_exposure_paused", JBool (new_exposure_paused s));
   ("revision", JInt (tc_revision s));
   ("updated_at", JStr (isoformat (tc_updated_at s)));
   ("updated_by_command_id", JStr (updated_by_command_id s));
   ("updated_reason", JStr (updated_reason s))].

(** [f"trading_control:{account_id}:{revision}"] *)
Definition control_event_id (s : TradingControlState) : string :=
  ("trading_control:" +:+ tc_account_id s +:+ ":" +:+ pretty (tc_revision s))%string.

Section store.
Context {T : Type} `{HasTable T control_table}.

Definition get_control_in_tx (account : string) : M (tx T) (option TradingControlState) :=
  in_producer (gets (λ p, (tget (tables p) : control_table) !! account)).

(** [get], on a fresh cursor *)
Definition get_control (account : string) : M (DomainJournal T) TradingControlState := λ j,
  match (tget (tables (db_producer (jdb j))) : control_table) !! account with
  | None => (Raise (PauseStateUnavailable account), j)
  | Some s => (Ok s, j)
  end.

Definition require_unpaused_in_tx (account : string) : M (tx T) unit :=
  state ← get_control_in_tx account;
  match state with
  | None => raise (PauseStateUnavailable account)
  | Some s => if new_exposure_paused s then raise (TradingPausedError account) else mret tt
  end.

Definition require_unpaused (account : string) : M (DomainJournal T) unit := λ j,
  let (r, _) := require_unpaused_in_tx account (mkTx (jdb j) []) in (r, j).

Definition write_control (s : TradingControlState) : M (tx T) unit :=
  in_producer (modify (λ p,
    mkPconn (seqs p)
      (tset (<[tc_account_id s := s]> (tget (tables p) : control_table)) (tables p)))).

(** [_journal_in_tx] *)
Definition control_mutation (s : TradingControlState) (correlation_id : string) : DomainMutation :=
  mkMutation "trading_control.updated" "trading_control" (tc_account_id s) op_upsert
    (Some (tc_account_id s)) "trader_service" (Aware (tc_updated_at s) 0) (Some correlation_id)
    (Some [("account_id", JStr (tc_account_id s));
           ("new_exposure_paused", JBool (new_exposure_paused s));
           ("revision", JInt (tc_revision s));
           ("updated_by_command_id", JStr (updated_by_command_id s));
           ("updated_reason", JStr (updated_reason s))]).

Definition journal_in_tx (s : TradingControlState) (correlation_id eid : string) : M (tx T) unit :=
  mutation ← new_mutation (control_mutation s correlation_id);
  current ← in_core (gets (read_current_revision (m_entity_type mutation) (m_entity_id mutation)));
  let next_revision := current + 1 in
  in_core (upsert_materialized mutation next_revision (tc_updated_at s)) ;;
  in_core (insert_journal_row eid mutation next_revision (tc_updated_at s)) ;;
  mret tt.

(** [seed_in_tx]: live accounts start paused, others unpaused. *)
Definition seed_account (now : Z) (am : string * string) : M (tx T) (list TradingControlState) :=
  let (account, mode) := am in
  existing ← get_control_in_tx account;
  match existing with
  | Some _ => mret []
  | None =>
      let state := mkControl account (String.eqb mode "live") 1 now
                     "system:bootstrap" "account initialization" in
      write_control state ;;
      journal_in_tx state ("system:bootstrap:" +:+ account)%string (control_event_id state) ;;
      mret [state]
  end.

Definition seed_in_tx (accounts : list (string * string)) (now : datetime)
    : M (tx T) (list TradingControlState) :=
  now ← as_utc_strict now;
  seeded ← map_each accounts (seed_account now);
  mret (concat seeded).

(** [UPDATE ... WHERE account_id = ? AND revision = ? RETURNING]: no row when
    another writer moved the revision. *)
Definition update_pause (account : string) (paused : bool) (revision : Z) (command_id reason : string)
    (now : Z) : M (tx T) (option TradingControlState) :=
  row ← get_control_in_tx account;
  match row with
  | Some s =>
      if tc_revision s =? revision
      then let s' := mkControl account paused (tc_revision s + 1) now command_id reason in
           write_control s' ;; mret (Some s')
      else mret None
  | None => mret None
  end.

Definition set_pause_in_tx (account : string) (paused : bool) (expected_revision : option Z)
    (command_id reason : string) (now : datetime) : M (tx T) TradingControlState :=
  now ← as_utc_strict now;
  current ← get_control_in_tx account;
  match current with
  | None => raise (PauseStateUnavailable account)
  | Some current =>
      if Bool.eqb (new_exposure_paused current) paused then mret current
      else
        require (paused || bool_decide (expected_revision = Some (tc_revision current)))
          (PauseRevisionConflict account (tc_revision current)) ;;
        rows ← update_pause account paused (tc_revision current) command_id reason now;
        match rows with
        | None => raise (PauseRevisionConflict account (tc_revision current))
        | Some state =>
            journal_in_tx state command_id (control_event_id state) ;;
            mret state
        end
  end.

(** [set]: its own transaction, committed without a signal. *)
Definition set_control (account : string) (paused : bool) (expected_revision : option Z)
    (command_id reason : string) (now : datetime) : M (DomainJournal T) TradingControlState :=
  plain_transaction (set_pause_in_tx account paused expected_revision command_id reason now).

(** ** Lemmas *)
Arguments journal_in_tx : simpl never.

Lemma journal_in_tx_spec s correlation eid (t : tx T) :
  wf (tx_core t) →
  select_journal_row eid (tx_core t) = None →
  journal_in_tx s correlation eid t =
    (Ok tt, mkTx (mkDb (append_core (tx_core t) eid (control_mutation s correlation) (tc_updated_at s))
                    (db_producer (tx_db t))) (tx_events t)).
Proof.
  intros W Hf. unfold journal_in_tx, new_mutation. cbn [m_source_timestamp m_operation m_payload control_mutation].
  unfold gets, mbind, M_bind, in_core, zoom, mret, M_ret. cbn. unfold tx_core in *.
  pose proof (insert_accepts _ eid (control_mutation s correlation) (tc_updated_at s) W Hf) as Hins.
  unfold set_materialized in Hins |- *. cbn in Hins |- *. by rewrite Hins.
Qed.

Lemma journal_in_tx_refused s correlation eid r (t : tx T) :
  select_journal_row eid (tx_core t) = Some r →
  ∃ t', journal_in_tx s correlation eid t = (Raise (ConstraintException "domain_event_journal"), t')
        ∧ burnt t t' ∧ db_producer (tx_db t') = db_producer (tx_db t)
        ∧ cursor_seq (tx_core t') = cursor_seq (tx_core t) + 1.
Proof.
  intros Hs. apply select_Some in Hs as [Hr Hid]. unfold tx_core in *.
  unfold journal_in_tx, new_mutation. cbn [m_source_timestamp m_operation m_payload control_mutation].
  unfold gets, mbind, M_bind, in_core, zoom, mret, M_ret. cbn.
  unfold insert_journal_row. cbn.
  destruct (existsb _ _) eqn:E.
  - eexists. split; [reflexivity|]. split_and!; simpl; try done. split; unfold tx_core; simpl; [lia|done].
  - exfalso. rewrite <-not_true_iff_false in E. apply E. apply existsb_exists.
    exists r. split; [by apply list_elem_of_In|]. by rewrite Hid, String.eqb_refl, orb_true_r.
Qed.

Lemma lawful_journal_in_tx s correlation eid : lawful (journal_in_tx s correlation eid).
Proof.
  intros t W. destruct (select_journal_row eid (tx_core t)) as [r|] eqn:Hs.
  - destruct (journal_in_tx_refused s correlation eid r t Hs) as (t' & -> & Hb & _). done.
  - rewrite journal_in_tx_spec by done. by apply rtc_once, tx_written.
Qed.

Lemma lawful_update_pause account paused revision command_id reason now :
  lawful (update_pause account paused revision command_id reason now).
Proof.
  apply lawful_bind; [apply lawful_in_producer|]. intros [s|]; [|apply lawful_ret].
  case_match; [|apply lawful_ret]. apply lawful_bind; [apply lawful_in_producer|].
  intros _. apply lawful_ret.
Qed.

Lemma lawful_set_pause account paused expected command_id reason now :
  lawful (set_pause_in_tx account paused expected command_id reason now).
Proof.
  unfold set_pause_in_tx. apply lawful_bind; [apply lawful_as_utc|]. intros u.
  apply lawful_bind; [apply lawful_in_producer|]. intros [s|]; [|apply lawful_raise].
  case_match; [apply lawful_ret|]. apply lawful_bind; [apply lawful_require|]. intros _.
  apply lawful_bind; [apply lawful_update_pause|]. intros [s'|]; [|apply lawful_raise].
  apply lawful_bind; [apply lawful_journal_in_tx|]. intros _. apply lawful_ret.
Qed.

Lemma lawful_seed accounts now : lawful (seed_in_tx accounts now).
Proof.
  apply lawful_bind; [apply lawful_as_utc|]. intros u.
  apply lawful_bind; [|intros ?; apply lawful_ret].
  apply lawful_map_each. intros [account mode].
  apply lawful_bind; [apply lawful_in_producer|]. intros [s|]; [apply lawful_ret|].
  apply lawful_bind; [apply lawful_in_producer|]. intros _.
  apply lawful_bind; [apply lawful_journal_in_tx|]. intros _. apply lawful_ret.
Qed.

Definition controls (j : DomainJournal T) : control_table := tget (tables (db_producer (jdb j))).

(** The database after an accepted change to [s']. *)
Definition control_written (s' : TradingControlState) (correlation_id : string) (j : DomainJournal T)
    : DomainJournal T :=
  mkJournal
    (mkDb (append_core (jcore j) (control_event_id s') (control_mutation s' correlation_id)
             (tc_updated_at s'))
       (mkPconn (seqs (db_producer (jdb j)))
          (tset (<[tc_account_id s' := s']> (controls j)) (tables (db_producer (jdb j))))))
    (latest_committed_cursor j).

(** ** Theorems *)

(** Every branch of [set]: no row fails closed; the state asked for is a
    no-op that writes and journals nothing; a resume without the exact revision
    is refused; a pause is accepted whatever revision the caller saw; an
    accepted change writes the row with the next revision and one event that
    carries it; and should the event id be taken, nothing is written. *)
Theorem set_control_spec (j : DomainJournal T) account paused expected command_id reason u off :
  jwf j →
  let run := set_control account paused expected command_id reason (Aware u off) j in
  match controls j !! account with
  | None => run = (Raise (PauseStateUnavailable account), j)
  | Some s =>
      if Bool.eqb (new_exposure_paused s) paused then run = (Ok s, j)
      else if negb paused && bool_decide (expected ≠ Some (tc_revision s))
      then run = (Raise (PauseRevisionConflict account (tc_revision s)), j)
      else
        let s' := mkControl account paused (tc_revision s + 1) u command_id reason in
        match select_journal_row (control_event_id s') (jcore j) with
        | None => run = (Ok s', control_written s' command_id j)
        | Some _ =>
            run.1 = Raise (ConstraintException "domain_event_journal") ∧
            controls run.2 = controls j ∧ journal (jcore run.2) = journal (jcore j) ∧
            materialized (jcore run.2) = materialized (jcore j)
        end
  end.
Proof.
  intros Hj run. unfold run, set_control, plain_transaction, set_pause_in_tx, controls.
  unfold as_utc_strict, get_control_in_tx, update_pause, write_control, require,
    gets, modify, raise, mbind, M_bind, mret, M_ret, in_producer, zoom. cbn.
  destruct (_ !! account) as [s|] eqn:Hs; cbn; [|by rewrite rollback_eta].
  destruct (Bool.eqb (new_exposure_paused s) paused); cbn; [by rewrite journal_eta|].
  replace (negb paused && bool_decide (expected ≠ Some (tc_revision s)))
    with (negb (paused || bool_decide (expected = Some (tc_revision s))))
    by (destruct paused; [done|]; by repeat case_bool_decide).
  destruct (paused || bool_decide (expected = Some (tc_revision s))); cbn; [|by rewrite rollback_eta].
  rewrite Hs, Z.eqb_refl. cbn. set (s' := mkControl _ _ _ _ _ _).
  match goal with |- context [journal_in_tx s' command_id _ ?t0] => set (t := t0) end.
  change (select_journal_row (control_event_id s') (jcore j))
    with (select_journal_row (control_event_id s') (tx_core t)).
  destruct (select_journal_row (control_event_id s') (tx_core t)) as [r|] eqn:Hsel.
  - destruct (journal_in_tx_refused s' command_id _ r t Hsel) as (t' & -> & _ & _ & _). done.
  - rewrite journal_in_tx_spec by (done || apply Hj). done.
Qed.

(** *** The gate in the caller's transaction *)
Lemma require_unpaused_spec (j : DomainJournal T) account :
  require_unpaused account j =
    (match controls j !! account with
     | None => Raise (PauseStateUnavailable account)
     | Some s => if new_exposure_paused s then Raise (TradingPausedError account) else Ok tt
     end, j).
Proof.
  unfold require_unpaused, require_unpaused_in_tx, get_control_in_tx, in_producer, zoom, gets,
    controls, mbind, M_bind, mret, M_ret, raise. cbn.
  destruct (_ !! account) as [s|]; [|done]. by destruct (new_exposure_paused s).
Qed.

(** C8. A pause holds: after a successful pause no exposure-increasing caller
    passes the gate, and no later sequence of pauses and resumes reopens it
    unless one of them is a resume that names the row's revision at that
    moment. *)
Theorem pause_holds account (ops : list (bool * option Z * (string * string * Z))) (j : DomainJournal T) :
  jwf j →
  require_unpaused account j = (Raise (TradingPausedError account), j) →
  let run j op := match op with (paused, expected, (command_id, reason, u)) =>
    final (set_control account paused expected command_id reason (Aware u 0)) j end in
  (∀ pre op post, ops = pre ++ op :: post → op.1.1 = false →
     op.1.2 ≠ tc_revision <$> controls (fold_left run pre j) !! account) →
  let j' := fold_left run ops j in
  require_unpaused account j' = (Raise (TradingPausedError account), j').
Proof.
  intros Hj Hp run. induction ops as [|op ops IH] using rev_ind; intros Hops j'; [done|].
  assert (∀ ops', jwf (fold_left run ops' j)) as Hwf.
  { intros ops'. apply (preserved_fold jwf run); [|done].
    intros j1 [[? ?] [[? ?] ?]] Hj1. apply jwf_plain; [apply lawful_set_pause|done]. }
  specialize (Hwf ops). unfold j'. rewrite fold_left_app. cbn [fold_left].
  assert (require_unpaused account (fold_left run ops j)
    = (Raise (TradingPausedError account), fold_left run ops j)) as Hgate.
  { apply IH. intros pre op' post -> . apply (Hops pre op' (post ++ [op])).
    by rewrite <-app_assoc. }
  specialize (Hops ops op [] eq_refl).
  revert Hgate Hops Hwf. generalize (fold_left run ops j). intros j1 Hgate Hop Hj1.
  destruct op as [[paused expected] [[command_id reason] u]]. cbn [fst snd] in Hop.
  rewrite require_unpaused_spec in Hgate |- *.
  pose proof (set_control_spec j1 account paused expected command_id reason u 0 Hj1) as Hset.
  cbn zeta in Hset. unfold run, final.
  destruct (controls j1 !! account) as [s|] eqn:Hs; [|done].
  destruct (new_exposure_paused s) eqn:Hps; [|done]. destruct paused; cbn in Hset.
  - rewrite Hset. cbn. by rewrite Hs, Hps.
  - rewrite (bool_decide_eq_true_2 (expected ≠ _)) in Hset by (apply Hop; done).
    rewrite Hset. cbn. by rewrite Hs, Hps.
Qed.

(** An accepted change of the gate commits its event without waking the
    feed: the counter long-poll readers wait on stays behind the new event, so
    a reader that had seen everything sleeps on until its deadline or until
    another commit signals. *)
Theorem set_control_does_not_signal (j : DomainJournal T) account paused expected command_id reason u off s :
  jwf j → latest_committed_cursor j = newest (jcore j) →
  controls j !! account = Some s → new_exposure_paused s ≠ paused →
  (paused = false → expected = Some (tc_revision s)) →
  (∀ r, r ∈ journal (jcore j) →
     event_id r ≠ control_event_id (mkControl account paused (tc_revision s + 1) u command_id reason)) →
  let j' := final (set_control account paused expected command_id reason (Aware u off)) j in
  newest (jcore j') = cursor_seq (jcore j) ∧ latest_committed_cursor j' < newest (jcore j') ∧
  (∀ deadline now later, now < deadline →
     wait_for_cursor_after (newest (jcore j)) deadline ((latest_committed_cursor j', now) :: later)
     = wait_for_cursor_after (newest (jcore j)) deadline later).
Proof.
  intros Hj HL Hs Hne Hexp Hfresh j'.
  pose proof (set_control_spec j account paused expected command_id reason u off Hj) as Hset.
  cbn zeta in Hset. rewrite Hs in Hset.
  replace (Bool.eqb (new_exposure_paused s) paused) with false in Hset
    by (symmetry; by apply eqb_false_iff).
  replace (negb paused && bool_decide (expected ≠ Some (tc_revision s))) with false in Hset
    by (destruct paused; [done|]; rewrite Hexp by done; by rewrite bool_decide_eq_false_2 by auto).
  destruct (select_journal_row _ (jcore j)) as [r|] eqn:Hsel.
  { apply select_Some in Hsel as [Hr He]. by destruct (Hfresh r Hr). }
  unfold j', final. rewrite Hset. cbn [snd].
  set (s' := mkControl _ _ _ _ _ _) in *.
  assert (newest (jcore (control_written s' command_id j)) = cursor_seq (jcore j)) as Hn
    by apply newest_append, Hj.
  change (latest_committed_cursor (control_written s' command_id j)) with (latest_committed_cursor j).
  pose proof (newest_lt_seq _ (jwf_core _ Hj)).
  split; [done|]. split; [lia|].
  intros deadline now later Hnow. cbn [wait_for_cursor_after].
  rewrite HL, Z.leb_refl. by rewrite (proj2 (Z.leb_gt _ _)) by lia.
Qed.
End store.

(** ** Concrete runs *)
Definition ex_db : DomainJournal control_table := empty_journal (mkPconn ∅ ∅).
Definition ex_seeded : DomainJournal control_table :=
  final (plain_transaction (seed_in_tx [("DU1", "live"); ("DU2", "paper")]%string (Aware (days 1) 0)))
    ex_db.
Definition ex_resumed : DomainJournal control_table :=
  final (set_control "DU1" false (Some 1) "cmd-1" "go" (Aware (days 2) 0)) ex_seeded.

Lemma ex_seeded_jwf : jwf ex_seeded.
Proof. apply jwf_plain; [apply lawful_seed|apply jwf_empty]. Qed.

Lemma set_control_spec_witness :
  (set_control "DU1" false (Some 1) "cmd-1" "go" (Aware (days 2) 0) ex_seeded).1
  = Ok (mkControl "DU1" false 2 (days 2) "cmd-1" "go").
Proof.
  pose proof (set_control_spec ex_seeded "DU1" false (Some 1) "cmd-1" "go" (days 2) 0 ex_seeded_jwf)
    as H.
  cbn zeta in H.
  change (controls ex_seeded !! "DU1"%string)
    with (Some (mkControl "DU1" true 1 (days 1) "system:bootstrap" "account initialization")) in H.
  cbn [new_exposure_paused tc_revision Bool.eqb negb andb bool_decide decide_rel] in H.
  exact (f_equal fst H).
Defined.

Lemma pause_holds_witness :
  require_unpaused "DU1"
    (final (set_control "DU1" false (Some 7) "cmd-2" "stale" (Aware (days 3) 0)) ex_seeded)
  = (Raise (TradingPausedError "DU1"),
     final (set_control "DU1" false (Some 7) "cmd-2" "stale" (Aware (days 3) 0)) ex_seeded).
Proof.
  apply (pause_holds "DU1" [((false, Some 7), ("cmd-2", "stale", days 3))]%string ex_seeded
           ex_seeded_jwf); [reflexivity|].
  intros [|? pre] op post Heq; [|destruct pre; discriminate Heq].
  injection Heq as <- <-. intros _. discriminate.
Defined.

Lemma set_control_does_not_signal_witness :
  latest_committed_cursor (final (set_control "DU1" false (Some 1) "cmd-1" "go" (Aware (days 2) 0))
    (restart (jdb ex_seeded)))
  < newest (jcore (final (set_control "DU1" false (Some 1) "cmd-1" "go" (Aware (days 2) 0))
    (restart (jdb ex_seeded)))).
Proof.
  refine (proj1 (proj2 (set_control_does_not_signal (restart (jdb ex_seeded)) "DU1" false (Some 1)
    "cmd-1" "go" (days 2) 0
    (mkControl "DU1" true 1 (days 1) "system:bootstrap" "account initialization") _ _ _ _ _ _))).
  - apply jwf_restart, ex_seeded_jwf.
  - reflexivity.
  - reflexivity.
  - discriminate.
  - reflexivity.
  - intros r Hr. change (journal (jcore (restart (jdb ex_seeded))))
      with (journal (jcore ex_seeded)) in Hr.
    assert (event_id r ∈ event_id <$> journal (jcore ex_seeded)) as Hid by by apply list_elem_of_fmap_2.
    intros E. rewrite E in Hid. revert Hid. apply (bool_decide_unpack _). vm_compute. exact I.
Defined.
