(* ===== verification/CircuitBreaker.v ===== *)
(** * The automation circuit breaker ([trader/trading/circuit_breaker.py],
    [trader/data/circuit_breaker_store.py])

    Incidents are recorded once each, in the transaction that decides whether
    they trip the breaker.  The theorems: the exact trip conditions (immediate
    kinds, rolling thresholds, a disconnect past its grace), a trip that only a
    reset with all its preconditions undoes, and one journal event per recorded
    incident. *)
From stdpp Require Import base tactics gmap list strings pretty.
From Stdlib Require Import ZArith Lia Ascii.
From S2P Require Import Prelude Py Journal Store.
Open Scope Z_scope.

(** ** Tables *)
Inductive breaker_mode : Type := CLEAR | TRIPPED.
Global Instance breaker_mode_eq_dec : EqDecision breaker_mode.
Proof. solve_decision. Defined.

Record BreakerState : Type := mkBreaker {
  b_account_id : string;
  b_state : breaker_mode;
  reason_code : option string;
  reason : option string;
  b_revision : Z;
  tripped_at : option Z;
  reset_at : option Z;
  reset_command_id : option string;
}.

Record incident : Type := mkIncident {
  i_account_id : string;
  signal_kind : string;
  i_detail : string;
  i_occurred_at : Z;
  i_recorded_at : Z;
}.

Record breaker_tables : Type := mkBreakerTables {
  breakers : gmap string BreakerState;
  incidents : gmap string incident;
}.

Definition mode_text (m : breaker_mode) : string :=
  match m with CLEAR => "CLEAR" | TRIPPED => "TRIPPED" end.

Definition breaker_to_payload (s : BreakerState) : dict :=
  [("account_id", JStr (b_account_id s));
   ("state", JStr (mode_text (b_state s)));
   ("reason_code", jopt JStr (reason_code s));
   ("reason", jopt JStr (reason s));
   ("revision", JInt (b_revision s));
   ("tripped_at", jopt (λ t, JStr (isoformat t)) (tripped_at s));
   ("reset_at", jopt (λ t, JStr (isoformat t)) (reset_at s));
   ("reset_command_id", jopt JStr (reset_command_id s))].

(** ** Signals and policy *)
Record BreakerSignal : Type := mkSignal {
  kind : string;
  occurred_at : Z;
  detail : string;
  signal_key : string;
}.

Definition IMMEDIATE : list string :=
  ["DAILY_LOSS_BREACH"; "PROTECTIVE_ORDER_FAILURE"; "RECONCILIATION_DIVERGENCE";
   "LIQUIDATION_FAILED"; "ACCOUNT_MISMATCH"; "INSTRUMENT_HALT"; "DRAWDOWN_BREACH";
   "MISSED_FLAT_DEADLINE"; "DUPLICATE_SUBMISSION"; "UNEXPLAINED_POSITION"].

Definition ROLLING : list (string * (Z * Z)) :=
  [("QUOTE_FAILURE", (3, minutes 5)); ("AMBIGUOUS_OUTCOME", (3, minutes 5));
   ("RUNTIME_EXCEPTION", (5, minutes 10))].

Definition KNOWN : list string :=
  IMMEDIATE ++ ROLLING.*1 ++ ["BROKER_DISCONNECTED"; "BROKER_RECONNECTED"].

Section breaker.
Context {T : Type} `{HasTable T breaker_tables}.
(** [hashlib.sha256(...).hexdigest()] *)
Context (sha256 : string → string).
(** The store's account. *)
Context (account : string).

Definition iso_or_key (occurred : Z) (k : string) : string :=
  if String.eqb k "" then isoformat occurred else k.

Definition incident_id (kind : string) (occurred : Z) (k : string) : string :=
  sha256 (account +:+ "|" +:+ kind +:+ "|" +:+ iso_or_key occurred k)%string.

(** *** Reads *)
Definition breaker_of (t : breaker_tables) : option BreakerState := breakers t !! account.

Definition get_breaker : M (DomainJournal T) BreakerState :=
  t ← read_store;
  match breaker_of t with
  | None => raise (RuntimeError "automation breaker not seeded")
  | Some s => mret s
  end.

Definition committed_outcome (command_id : string) : M (DomainJournal T) (option dict) :=
  state ← get_breaker;
  mret (if bool_decide (reset_command_id state = Some command_id)
        then Some (breaker_to_payload state) else None).

Definition my_incidents (t : breaker_tables) : list incident :=
  filter (λ i, i_account_id i = account) (map snd (map_to_list (incidents t))).

Definition count_since (k : string) (since : Z) (t : breaker_tables) : Z :=
  Z.of_nat (length (filter (λ i, signal_kind i = k ∧ since ≤ i_occurred_at i) (my_incidents t))).

Definition disconnect_started (t : breaker_tables) : option Z :=
  let reconnected :=
    max_of i_occurred_at (filter (λ i, signal_kind i = "BROKER_RECONNECTED"%string) (my_incidents t)) in
  min_of i_occurred_at
    (filter (λ i, signal_kind i = "BROKER_DISCONNECTED"%string ∧
                  Is_true (match reconnected with None => true | Some r => r <? i_occurred_at i end))
       (my_incidents t)).

(** *** Writes *)
Definition set_breaker (s : BreakerState) (t : breaker_tables) : breaker_tables :=
  mkBreakerTables (<[account := s]> (breakers t)) (incidents t).
Definition add_incident (iid : string) (i : incident) (t : breaker_tables) : breaker_tables :=
  mkBreakerTables (breakers t) (<[iid := i]> (incidents t)).

(** [seed]: its own plain transaction. *)
Definition seed_breaker : M (DomainJournal T) BreakerState :=
  plain_transaction (write_table (λ t,
    match breaker_of t with
    | Some _ => t
    | None => set_breaker (mkBreaker account CLEAR None None 1 None None None) t
    end)) ;;
  get_breaker.

Definition trip (code message : string) (recorded_at : Z) (s : BreakerState) : BreakerState :=
  mkBreaker (b_account_id s) TRIPPED (Some code) (Some message) (b_revision s + 1)
    (Some recorded_at) None None.

Definition incident_mutation (iid kind : string) (result : BreakerState) (recorded_at : Z)
    : DomainMutation :=
  mkMutation "automation.incident" "automation_breaker" account op_upsert (Some account)
    "trader_service" (Aware recorded_at 0) (Some iid)
    (Some (assoc_merge [("incident_id", JStr iid); ("signal_kind", JStr kind)]
             (breaker_to_payload result))).

Definition the_breaker : M (tx T) BreakerState :=
  t ← read_table;
  match breaker_of t with
  | Some s => mret s
  | None => raise TypeError
  end.

(** The [work] of [apply_signal]. *)
Definition apply_signal_work (st : stamp) (sig : BreakerSignal) (recorded_at : Z)
    (trip_reason : breaker_tables → option (string * string)) : M (tx T) BreakerState :=
  let iid := incident_id (kind sig) (occurred_at sig) (signal_key sig) in
  t ← read_table;
  match incidents t !! iid with
  | Some _ => the_breaker
  | None =>
      write_table (add_incident iid
        (mkIncident account (kind sig) (detail sig) (occurred_at sig) recorded_at)) ;;
      t ← read_table;
      match breaker_of t with
      | None => raise (RuntimeError "automation breaker is not seeded")
      | Some current =>
          let reason := trip_reason t in
          match b_state current, reason with
          | CLEAR, Some (code, message) => write_table (set_breaker (trip code message recorded_at current))
          | _, _ => mret tt
          end ;;
          result ← the_breaker;
          mutation ← new_mutation (incident_mutation iid (kind sig) result recorded_at);
          append st mutation (λ _, mret tt) (Some iid) ;;
          mret result
      end
  end.

Definition apply_signal (st : stamp) (sig : BreakerSignal) (recorded_at : Z)
    (trip_reason : breaker_tables → option (string * string)) : M (DomainJournal T) BreakerState :=
  mutate_batch_work (apply_signal_work st sig recorded_at trip_reason).

(** *** [CircuitBreaker] *)
Context (disconnect_grace : Z).

Definition trip_reason (sig : BreakerSignal) (now : Z) (t : breaker_tables)
    : option (string * string) :=
  if bool_decide (kind sig ∈ IMMEDIATE)
  then Some (kind sig, if String.eqb (detail sig) "" then lower (replace_char "_"%char " "%char (kind sig))
                       else detail sig)
  else
    let rolled :=
      match assoc (kind sig) ROLLING with
      | Some (threshold, window) =>
          if threshold <=? count_since (kind sig) (now - window) t
          then Some (kind sig, (pretty threshold +:+ " " +:+ lower (kind sig)
                                +:+ " signals within " +:+ timedelta_text window)%string)
          else None
      | None => None
      end in
    match rolled with
    | Some r => Some r
    | None =>
        if String.eqb (kind sig) "BROKER_DISCONNECTED" then
          match disconnect_started t with
          | Some started =>
              if disconnect_grace <=? now - started
              then Some ("BROKER_DISCONNECTED"%string, "broker disconnect exceeded grace period"%string)
              else None
          | None => None
          end
        else None
    end.

(** [record]; the boolean tells whether [on_trip] is called with the state. *)
Definition record (st : stamp) (sig : BreakerSignal) (now : Z)
    : M (DomainJournal T) (BreakerState * bool) :=
  require (bool_decide (kind sig ∈ KNOWN)) ValueError ;;
  previous ← get_breaker;
  new_state ← apply_signal st sig now (trip_reason sig now);
  mret (new_state, bool_decide (b_state previous = CLEAR) && bool_decide (b_state new_state = TRIPPED)).

Definition reset_work (st : stamp) (command_id reason : string) (now : Z) : M (tx T) BreakerState :=
  state ← the_breaker;
  match b_state state with
  | CLEAR => mret state
  | TRIPPED =>
      write_table (set_breaker
        (mkBreaker (b_account_id state) CLEAR None (Some reason) (b_revision state + 1)
           (tripped_at state) (Some now) (Some command_id))) ;;
      updated ← the_breaker;
      mutation ← new_mutation
        (mkMutation "automation.reset" "automation_breaker" account op_upsert (Some account)
           "trader_service" (Aware now 0) (Some command_id) (Some (breaker_to_payload updated)));
      append st mutation (λ _, mret tt) (Some ("breaker-reset:" +:+ command_id)%string) ;;
      mret updated
  end.

Definition reset_store (st : stamp) (command_id reason : string) (now : Z)
    : M (DomainJournal T) BreakerState :=
  mutate_batch_work (reset_work st command_id reason now).

(** The caller's views: readiness, and whether another command is unresolved. *)
Definition reset (st : stamp) (reset_ready : bool) (reconciliation_complete : string → bool)
    (session_key : Z → string) (command_id reason operator_authority : string) (now : Z)
    : M (DomainJournal T) BreakerState :=
  require (negb (String.eqb command_id "") && negb (String.eqb (strip reason) "")
           && negb (String.eqb (strip operator_authority) ""))
    (BreakerResetRefused "command, reason, and operator authority are required") ;;
  current ← get_breaker;
  match b_state current with
  | CLEAR => mret current
  | TRIPPED =>
      let same_session :=
        match tripped_at current with
        | Some t => String.eqb (session_key t) (session_key now)
        | None => false
        end in
      require (negb (bool_decide (reason_code current = Some "DAILY_LOSS_BREACH"%string) && same_session))
        (BreakerResetRefused "daily-loss breaker may reset only in the next session") ;;
      require reset_ready (BreakerResetRefused "semantic readiness preconditions are not satisfied") ;;
      require (reconciliation_complete command_id) (BreakerResetRefused "reconciliation is incomplete") ;;
      reset_store st command_id (strip reason) now
  end.

(** ** Lemmas *)

Lemma bind_get_breaker {A} (k : BreakerState → M (DomainJournal T) A) j :
  (get_breaker ≫= k) j =
    match breaker_of (table_of (jdb j)) with
    | None => (Raise (RuntimeError "automation breaker not seeded"), j)
    | Some s => k s j
    end.
Proof. unfold get_breaker. run. by destruct (breaker_of _). Qed.

Lemma the_breaker_run (t : tx T) :
  the_breaker t = (match breaker_of (table_of (tx_db t)) with
                   | None => Raise TypeError | Some s => Ok s end, t).
Proof. unfold the_breaker. run. by destruct (breaker_of _). Qed.

Lemma bind_the_breaker {A} (k : BreakerState → M (tx T) A) t :
  (the_breaker ≫= k) t =
    match breaker_of (table_of (tx_db t)) with
    | None => (Raise TypeError, t)
    | Some s => k s t
    end.
Proof. unfold the_breaker. run. by destruct (breaker_of _). Qed.

(** The tables a new signal leaves, before the state is decided. *)
Definition after_signal (sig : BreakerSignal) (now : Z) (t : breaker_tables) : breaker_tables :=
  add_incident (incident_id (kind sig) (occurred_at sig) (signal_key sig))
    (mkIncident account (kind sig) (detail sig) (occurred_at sig) now) t.

Definition signalled_state (sig : BreakerSignal) (now : Z) (t : breaker_tables) (s : BreakerState)
    : BreakerState :=
  match b_state s, trip_reason sig now (after_signal sig now t) with
  | CLEAR, Some (code, message) => trip code message now s
  | _, _ => s
  end.

Lemma apply_signal_work_run st sig now (d : db T) s :
  wf (db_core d) → breaker_of (table_of d) = Some s →
  let t := table_of d in
  let iid := incident_id (kind sig) (occurred_at sig) (signal_key sig) in
  let s' := signalled_state sig now t s in
  let m := incident_mutation iid (kind sig) s' now in
  let d' := with_table (λ t, set_breaker s' (after_signal sig now t)) d in
  apply_signal_work st sig now (trip_reason sig now) (mkTx d []) =
    match incidents t !! iid, select_journal_row iid (db_core d) with
    | Some _, _ => (Ok s, mkTx d [])
    | None, None =>
        (Ok s', mkTx (with_event iid m (st_now st) d') [recorded_event (db_core d) iid m (st_now st)])
    | None, Some r =>
        if matches r m then (Ok s', mkTx d' [row_to_event r])
        else (Raise (EventIdentityConflict iid), mkTx d' [])
    end.
Proof.
  intros W Hs t iid s' m d'. unfold apply_signal_work. run. cbn [tx_db tx_events].
  fold t iid in Hs |- *.
  destruct (incidents t !! iid) eqn:Hi; [by rewrite the_breaker_run; simpl; fold t; rewrite Hs|].
  run. cbn [tx_db tx_events]. rewrite !table_of_with. fold t.
  change (add_incident iid _ t) with (after_signal sig now t).
  change (breaker_of (after_signal sig now t)) with (breaker_of t). rewrite Hs.
  rewrite (bind_step _ _ _ tt (mkTx d' [])).
  - run. rewrite bind_the_breaker. cbn [tx_db]. unfold d' at 1. rewrite table_of_with.
    unfold breaker_of at 1. simpl. rewrite lookup_insert_eq.
    fold m. rewrite bind_new_mutation, bind_append by done. unfold tx_core, mret, M_ret. simpl.
    destruct (select_journal_row iid (db_core d)); [by destruct (matches _ m)|done].
  - assert (b_state s = TRIPPED ∨ trip_reason sig now (after_signal sig now t) = None → s' = s) as Hs'
      by (unfold s', signalled_state; intros [-> | ->]; [done|by destruct (b_state s)]).
    assert (with_table (after_signal sig now) d = with_table (λ t, set_breaker s (after_signal sig now t)) d) as Hd.
    { apply with_table_ext. unfold after_signal, add_incident, set_breaker. simpl. f_equal.
      symmetry. by apply insert_id. }
    destruct (b_state s) eqn:Hst.
    + destruct (trip_reason _ _ _) as [[code message]|] eqn:Ht.
      * unfold write_table, modify. simpl. do 2 f_equal. rewrite with_table_twice. unfold d', s', signalled_state.
        by rewrite Hst, Ht.
      * unfold mret, M_ret. unfold d'. rewrite Hs', <-Hd by auto. done.
    + unfold mret, M_ret. unfold d'. rewrite Hs', <-Hd by auto. done.
Qed.

Lemma apply_signal_spec st sig now (j : DomainJournal T) s :
  jwf j → breaker_of (table_of (jdb j)) = Some s →
  let t := table_of (jdb j) in
  let iid := incident_id (kind sig) (occurred_at sig) (signal_key sig) in
  let s' := signalled_state sig now t s in
  let m := incident_mutation iid (kind sig) s' now in
  let d := with_table (λ t, set_breaker s' (after_signal sig now t)) (jdb j) in
  apply_signal st sig now (trip_reason sig now) j =
    match incidents t !! iid, select_journal_row iid (jcore j) with
    | Some _, _ => (Ok s, j)
    | None, None => (Ok s', mkJournal (with_event iid m (st_now st) d) (cursor_seq (jcore j)))
    | None, Some r =>
        if matches r m
        then (Ok s', mkJournal d (Z.max (latest_committed_cursor j) (source_cursor r)))
        else (Raise (EventIdentityConflict iid), j)
    end.
Proof.
  intros Hj Hs t iid s' m d. unfold apply_signal. rewrite mutate_batch_work_spec. cbv zeta.
  unfold outcome, final. rewrite (apply_signal_work_run st sig now (jdb j) s (jwf_core _ Hj) Hs).
  cbv zeta. fold t iid s' m d (jcore j).
  destruct (incidents t !! iid); [by destruct j|].
  destruct (select_journal_row iid (jcore j)) as [r|] eqn:Hr; simpl.
  - destruct (matches r m); simpl; [done|]. unfold d. rewrite rollback_with_table. by destruct j.
  - by rewrite signalled_fresh.
Qed.

(** *** What the two reads of the policy mean *)
Definition new_incident (sig : BreakerSignal) (now : Z) : incident :=
  mkIncident account (kind sig) (detail sig) (occurred_at sig) now.

Lemma my_incidents_add iid i (t : breaker_tables) :
  incidents t !! iid = None → i_account_id i = account →
  my_incidents (add_incident iid i t) ≡ₚ i :: my_incidents t.
Proof.
  intros Hf Ha. unfold my_incidents, add_incident. simpl.
  rewrite map_to_list_insert by done. simpl. by rewrite filter_cons_True.
Qed.

Lemma count_since_add k since iid i (t : breaker_tables) :
  incidents t !! iid = None → i_account_id i = account → signal_kind i = k →
  count_since k since (add_incident iid i t)
  = count_since k since t + (if since <=? i_occurred_at i then 1 else 0).
Proof.
  intros Hf Ha Hk. unfold count_since. rewrite (my_incidents_add iid i t Hf Ha).
  rewrite filter_cons. destruct (Z.leb_spec since (i_occurred_at i)).
  - rewrite decide_True by done. simpl. lia.
  - rewrite decide_False by lia. lia.
Qed.

(** A disconnect that no recorded reconnect has ended by its own time. *)
Definition open_disconnect (l : list incident) (i : incident) : Prop :=
  i ∈ l ∧ signal_kind i = "BROKER_DISCONNECTED"%string ∧
  ∀ r, r ∈ l → signal_kind r = "BROKER_RECONNECTED"%string → i_occurred_at r < i_occurred_at i.

Lemma after_reconnects l i :
  Is_true (match max_of i_occurred_at
             (filter (λ i, signal_kind i = "BROKER_RECONNECTED"%string) l) with
           | None => true | Some r => r <? i_occurred_at i end) ↔
  ∀ r, r ∈ l → signal_kind r = "BROKER_RECONNECTED"%string → i_occurred_at r < i_occurred_at i.
Proof.
  destruct (max_of _ _) as [m|] eqn:E.
  - destruct (max_of_elem _ _ _ E) as (x & [Hxk Hx]%list_elem_of_filter & Hm).
    split.
    + intros Hlt%Is_true_true%Z.ltb_lt r Hr Hk.
      enough (i_occurred_at r ≤ m) by lia. eapply max_of_ge; [exact E|]. by apply list_elem_of_filter.
    + intros Hall. apply Is_true_true, Z.ltb_lt. rewrite <-Hm. by apply Hall.
  - apply max_of_None in E. split; [|done]. intros _ r Hr Hk.
    assert (r ∈ filter (λ i, signal_kind i = "BROKER_RECONNECTED"%string) l) as Hin
      by by apply list_elem_of_filter.
    rewrite E in Hin. set_solver.
Qed.

Lemma disconnect_overdue (t : breaker_tables) now :
  (∃ started, disconnect_started t = Some started ∧ disconnect_grace ≤ now - started) ↔
  ∃ i, open_disconnect (my_incidents t) i ∧ disconnect_grace ≤ now - i_occurred_at i.
Proof.
  unfold disconnect_started. cbv zeta. split.
  - intros (started & Hs & Hg).
    destruct (min_of_elem _ _ _ Hs) as (i & [[Hk Hr] Hi]%list_elem_of_filter & <-).
    exists i. split; [|done]. split_and!; [done|done|]. by apply after_reconnects.
  - intros (i & (Hi & Hk & Hr) & Hg).
    apply after_reconnects in Hr.
    match goal with |- ∃ s, min_of ?f ?l = _ ∧ _ => assert (i ∈ l) as Hin by by apply list_elem_of_filter end.
    destruct (min_of _ _) as [m|] eqn:E.
    + exists m. split; [done|]. pose proof (min_of_le _ _ _ _ E Hin). lia.
    + apply min_of_None in E. rewrite E in Hin. set_solver.
Qed.

(** When a signal's own incident is recorded, the policy's answer. *)
Definition trips (sig : BreakerSignal) (now : Z) (t : breaker_tables) : Prop :=
  kind sig ∈ IMMEDIATE ∨
  (∃ threshold window, assoc (kind sig) ROLLING = Some (threshold, window) ∧
     threshold ≤ count_since (kind sig) (now - window) t
                 + (if now - window <=? occurred_at sig then 1 else 0)) ∨
  (kind sig = "BROKER_DISCONNECTED"%string ∧
   ∃ i, open_disconnect (new_incident sig now :: my_incidents t) i ∧
        disconnect_grace ≤ now - i_occurred_at i).

Lemma trip_reason_spec sig now (t : breaker_tables) :
  incidents t !! incident_id (kind sig) (occurred_at sig) (signal_key sig) = None →
  is_Some (trip_reason sig now (after_signal sig now t)) ↔ trips sig now t.
Proof.
  intros Hf. unfold trip_reason, trips, after_signal.
  set (t' := add_incident _ _ t).
  case_bool_decide as Him; [split; [by left|done]|].
  assert (my_incidents t' ≡ₚ new_incident sig now :: my_incidents t) as Hperm
    by by apply my_incidents_add.
  assert ((∃ i, open_disconnect (my_incidents t') i ∧ disconnect_grace ≤ now - i_occurred_at i) ↔
    ∃ i, open_disconnect (new_incident sig now :: my_incidents t) i ∧
         disconnect_grace ≤ now - i_occurred_at i) as Hopen.
  { unfold open_disconnect. by setoid_rewrite Hperm. }
  rewrite <-Hopen, <-disconnect_overdue.
  assert (∀ since, count_since (kind sig) since t' = count_since (kind sig) since t
    + (if since <=? occurred_at sig then 1 else 0)) as Hcount by (intros; by apply count_since_add).
  destruct (assoc (kind sig) ROLLING) as [[threshold window]|] eqn:Hroll.
  - assert (String.eqb (kind sig) "BROKER_DISCONNECTED" = false) as Hd.
    { apply String.eqb_neq. intros E. rewrite E in Hroll. discriminate. }
    rewrite Hcount. destruct (Z.leb_spec threshold
      (count_since (kind sig) (now - window) t + (if now - window <=? occurred_at sig then 1 else 0))).
    + split; [|done]. intros _. right. left. eauto.
    + rewrite Hd. split; [by intros []|].
      apply String.eqb_neq in Hd. intros [?|[(? & ? & [= <- <-] & ?)|[? _]]]; [done|lia|done].
  - destruct (String.eqb_spec (kind sig) "BROKER_DISCONNECTED") as [Hd|Hd].
    + destruct (disconnect_started t') as [started|].
      * destruct (Z.leb_spec disconnect_grace (now - started)).
        -- split; [|done]. intros _. right. right. eauto.
        -- split; [by intros []|]. intros [?|[(? & ? & [=] & ?)|[_ (? & [= <-] & ?)]]]; [done|lia].
      * split; [by intros []|]. intros [?|[(? & ? & [=] & ?)|[_ (? & [=] & ?)]]]. done.
    + split; [by intros []|]. intros [?|[(? & ? & [=] & ?)|[? _]]]; done.
Qed.

Lemma record_run st sig now (j : DomainJournal T) s :
  kind sig ∈ KNOWN → breaker_of (table_of (jdb j)) = Some s →
  record st sig now j =
    match apply_signal st sig now (trip_reason sig now) j with
    | (Ok s', j') => (Ok (s', bool_decide (b_state s = CLEAR) && bool_decide (b_state s' = TRIPPED)), j')
    | (Raise e, j') => (Raise e, j')
    end.
Proof.
  intros Hk Hs. unfold record. rewrite bool_decide_eq_true_2 by done. run.
  rewrite bind_get_breaker, Hs. rewrite bind_unfold.
  by destruct (apply_signal _ _ _ _ j) as [[?|?] ?].
Qed.

Lemma trip_reason_code sig now (t : breaker_tables) code message :
  trip_reason sig now t = Some (code, message) → code = kind sig.
Proof.
  unfold trip_reason. case_bool_decide; [congruence|]. cbv zeta.
  assert ((if String.eqb (kind sig) "BROKER_DISCONNECTED" then
     match disconnect_started t with
     | Some started =>
         if disconnect_grace <=? now - started
         then Some ("BROKER_DISCONNECTED"%string, "broker disconnect exceeded grace period"%string)
         else None
     | None => None
     end else None) = Some (code, message) → code = kind sig) as Hdisc.
  { destruct (String.eqb_spec (kind sig) "BROKER_DISCONNECTED") as [->|]; [|done].
    destruct (disconnect_started t); [|done]. case_match; congruence. }
  destruct (assoc (kind sig) ROLLING) as [[n w]|]; [|done].
  destruct (n <=? count_since (kind sig) (now - w) t); [congruence|done].
Qed.

Lemma lawful_the_breaker : lawful the_breaker.
Proof.
  apply lawful_bind; [apply lawful_read_table|]. intros t.
  destruct (breaker_of t); [apply lawful_ret|apply lawful_raise].
Qed.

Lemma lawful_apply_signal st sig now tr : lawful (apply_signal_work st sig now tr).
Proof.
  apply lawful_bind; [apply lawful_read_table|]. intros t.
  destruct (incidents t !! _); [apply lawful_the_breaker|].
  apply lawful_bind; [apply lawful_write_table|]. intros _.
  apply lawful_bind; [apply lawful_read_table|]. intros t'.
  destruct (breaker_of t') as [s|]; [|apply lawful_raise].
  apply lawful_bind; [destruct (b_state s), (tr t') as [[? ?]|]; auto with mmr|]. intros _.
  apply lawful_bind; [apply lawful_the_breaker|]. auto with mmr.
Qed.

Lemma lawful_reset_work st command_id reason now : lawful (reset_work st command_id reason now).
Proof.
  apply lawful_bind; [apply lawful_the_breaker|]. intros s.
  destruct (b_state s); [apply lawful_ret|].
  apply lawful_bind; [apply lawful_write_table|]. intros _.
  apply lawful_bind; [apply lawful_the_breaker|]. auto with mmr.
Qed.

Definition reset_state (command_id reason : string) (now : Z) (s : BreakerState) : BreakerState :=
  mkBreaker (b_account_id s) CLEAR None (Some reason) (b_revision s + 1)
    (tripped_at s) (Some now) (Some command_id).

Definition reset_mutation (command_id : string) (s : BreakerState) (now : Z) : DomainMutation :=
  mkMutation "automation.reset" "automation_breaker" account op_upsert (Some account)
    "trader_service" (Aware now 0) (Some command_id) (Some (breaker_to_payload s)).

Lemma reset_work_run st command_id reason now (d : db T) s :
  wf (db_core d) → breaker_of (table_of d) = Some s → b_state s = TRIPPED →
  let s' := reset_state command_id reason now s in
  let eid := ("breaker-reset:" +:+ command_id)%string in
  let m := reset_mutation command_id s' now in
  let d' := with_table (set_breaker s') d in
  reset_work st command_id reason now (mkTx d []) =
    match select_journal_row eid (db_core d) with
    | None => (Ok s', mkTx (with_event eid m (st_now st) d') [recorded_event (db_core d) eid m (st_now st)])
    | Some r =>
        if matches r m then (Ok s', mkTx d' [row_to_event r])
        else (Raise (EventIdentityConflict eid), mkTx d' [])
    end.
Proof.
  intros W Hs Ht s' eid m d'. unfold reset_work. rewrite bind_the_breaker. cbn [tx_db]. rewrite Hs, Ht.
  run. rewrite bind_the_breaker. cbn [tx_db tx_events]. fold (reset_state command_id reason now s) s' d'.
  unfold d' at 1. rewrite table_of_with. unfold breaker_of. simpl. rewrite lookup_insert_eq.
  fold eid (reset_mutation command_id s' now) m.
  rewrite bind_new_mutation, bind_append by done. unfold tx_core, mret, M_ret. simpl.
  destruct (select_journal_row eid (db_core d)); [by destruct (matches _ m)|done].
Qed.

(** ** Theorems *)

(** Every branch of [record] on a running journal.  An unknown kind and an
    unseeded breaker refuse; an incident already recorded changes nothing; a new
    one is stored with the state it decides and one journal event, all in one
    commit that readers are told of, or - should the event id be taken by a
    different event - nothing at all is stored.  [on_trip] is called only when
    this very call trips the breaker. *)
Theorem record_spec st sig now (j : DomainJournal T) :
  jwf j →
  let t := table_of (jdb j) in
  let iid := incident_id (kind sig) (occurred_at sig) (signal_key sig) in
  record st sig now j =
    if negb (bool_decide (kind sig ∈ KNOWN)) then (Raise ValueError, j)
    else match breaker_of t with
    | None => (Raise (RuntimeError "automation breaker not seeded"), j)
    | Some s =>
        let s' := signalled_state sig now t s in
        let fired := bool_decide (b_state s = CLEAR) && bool_decide (b_state s' = TRIPPED) in
        let m := incident_mutation iid (kind sig) s' now in
        let d := with_table (λ t, set_breaker s' (after_signal sig now t)) (jdb j) in
        match incidents t !! iid, select_journal_row iid (jcore j) with
        | Some _, _ => (Ok (s, false), j)
        | None, None =>
            (Ok (s', fired), mkJournal (with_event iid m (st_now st) d) (cursor_seq (jcore j)))
        | None, Some r =>
            if matches r m
            then (Ok (s', fired), mkJournal d (Z.max (latest_committed_cursor j) (source_cursor r)))
            else (Raise (EventIdentityConflict iid), j)
        end
    end.
Proof.
  intros Hj t iid. destruct (bool_decide (kind sig ∈ KNOWN)) eqn:Hk; simpl;
    [|unfold record; by rewrite Hk].
  apply bool_decide_eq_true in Hk. destruct (breaker_of t) as [s|] eqn:Hs.
  - rewrite (record_run st sig now j s Hk Hs), (apply_signal_spec st sig now j s Hj Hs).
    cbv zeta. fold t iid. destruct (incidents t !! iid); [by destruct (b_state s)|].
    destruct (select_journal_row iid (jcore j)) as [r|]; [|done].
    by destruct (matches r _).
  - unfold record. rewrite bool_decide_eq_true_2 by done. run. by rewrite bind_get_breaker; fold t; rewrite Hs.
Qed.

(** When a clear breaker trips: a new incident trips it exactly when its
    kind is immediate, or it completes its kind's threshold inside the rolling
    window (itself included), or it is a disconnect and some disconnect since
    the last reconnect is older than the grace period; and [on_trip] fires
    exactly then. *)
Theorem record_trips_iff st sig now (j j' : DomainJournal T) s s' fired :
  jwf j → breaker_of (table_of (jdb j)) = Some s → b_state s = CLEAR →
  incidents (table_of (jdb j)) !! incident_id (kind sig) (occurred_at sig) (signal_key sig) = None →
  record st sig now j = (Ok (s', fired), j') →
  (fired = true ↔ trips sig now (table_of (jdb j))) ∧
  (b_state s' = TRIPPED ↔ fired = true) ∧
  (fired = true → breaker_of (table_of (jdb j')) = Some s' ∧ b_revision s' = b_revision s + 1 ∧
                  tripped_at s' = Some now ∧ reason_code s' = Some (kind sig)).
Proof.
  intros Hj Hs Hc Hf Hrun. rewrite record_spec in Hrun by done. cbv zeta in Hrun.
  destruct (negb _); [done|]. rewrite Hs, Hf in Hrun.
  set (s1 := signalled_state sig now (table_of (jdb j)) s) in *.
  assert (s' = s1 ∧ fired = bool_decide (b_state s1 = TRIPPED) ∧ breaker_of (table_of (jdb j')) = Some s1)
    as (-> & -> & Hb).
  { rewrite Hc in Hrun. simpl in Hrun.
    assert (∀ d : db T, breaker_of (table_of (with_table
      (λ t, set_breaker s1 (after_signal sig now t)) d)) = Some s1) as Hset.
    { intros d. rewrite table_of_with. unfold breaker_of. simpl. apply lookup_insert_eq. }
    destruct (select_journal_row _ _) as [r|]; [destruct (matches r _); [|done]|];
      injection Hrun as <- <- <-; (split; [done|split; [done|apply (Hset (jdb j))]]). }
  clear Hrun. rewrite bool_decide_eq_true. rewrite <-trip_reason_spec by done.
  assert (b_state s1 = TRIPPED ↔ is_Some (trip_reason sig now (after_signal sig now (table_of (jdb j))))) as Htr.
  { unfold s1, signalled_state. rewrite Hc.
    destruct (trip_reason _ _ _) as [[code message]|]; [split; [by eauto|done]|].
    rewrite Hc. split; [done|by intros []]. }
  split; [done|]. split; [done|]. intros Htrip. split; [done|].
  apply Htr in Htrip as [[code message] Htrip].
  assert (code = kind sig) as ->.
  { by eapply trip_reason_code. }
  unfold s1, signalled_state. by rewrite Hc, Htrip.
Qed.

(** C9. A trip is sticky: no sequence of signals changes a tripped breaker -
    its first reason, its time and its revision stay - and none of them calls
    [on_trip] again. *)
Theorem trip_is_sticky (signals : list (stamp * BreakerSignal * Z)) (j : DomainJournal T) s :
  jwf j → breaker_of (table_of (jdb j)) = Some s → b_state s = TRIPPED →
  let run j x := final (record x.1.1 x.1.2 x.2) j in
  let j' := fold_left run signals j in
  breaker_of (table_of (jdb j')) = Some s ∧ jwf j' ∧
  ∀ st sig now s' fired, outcome (record st sig now) j' = Ok (s', fired) → fired = false.
Proof.
  intros Hj Hs Ht run j'.
  assert (∀ j1 st sig now, jwf j1 → breaker_of (table_of (jdb j1)) = Some s →
    jwf (final (record st sig now) j1) ∧
    breaker_of (table_of (jdb (final (record st sig now) j1))) = Some s ∧
    ∀ s' fired, outcome (record st sig now) j1 = Ok (s', fired) → fired = false) as Hstep.
  { clear -Ht. intros j st sig now Hj Hs. unfold final, outcome.
    rewrite record_spec by done. cbv zeta.
    destruct (negb _); [by split_and!; try done; intros ? ? [=]|]. rewrite Hs.
    assert (signalled_state sig now (table_of (jdb j)) s = s) as -> by (unfold signalled_state; by rewrite Ht).
    rewrite Ht. simpl.
    assert (∀ d : db T, breaker_of (table_of (with_table
      (λ t, set_breaker s (after_signal sig now t)) d)) = Some s) as Hset.
    { intros d. rewrite table_of_with. unfold breaker_of. simpl. apply lookup_insert_eq. }
    destruct (incidents _ !! _); [by split_and!; naive_solver|].
    destruct (select_journal_row _ _) as [r|] eqn:Hsel.
    - destruct (matches r _); [|by split_and!; try done; intros ? ? [=]]. simpl. split_and!; [|done|naive_solver].
      split; [apply Hj|]. simpl. pose proof (jwf_latest _ Hj).
      apply select_Some in Hsel as [Hr _]. pose proof (newest_ge _ _ Hr). unfold jcore in *. simpl. lia.
    - simpl. split_and!; [|exact (Hset (jdb j))|naive_solver]. split; unfold jcore; simpl.
      + apply wf_append; [apply Hj|done].
      + rewrite newest_append by apply Hj. lia. }
  assert (jwf j' ∧ breaker_of (table_of (jdb j')) = Some s) as [Hj' Hs'].
  { apply (preserved_fold (λ j, jwf j ∧ breaker_of (table_of (jdb j)) = Some s) run); [|done].
    intros j1 x [H1 H2]. by destruct (Hstep j1 x.1.1 x.1.2 x.2 H1 H2) as (? & ? & _). }
  split_and!; [done|done|]. intros st sig now. by apply Hstep.
Qed.

(** Every branch of [reset]: the arguments are required; a clear breaker is
    returned as it is; a daily-loss trip waits for another session; readiness and
    reconciliation are both required; and an accepted reset clears the row,
    keeps the time of the trip, and records one event - or nothing if the
    command's event id belongs to a different event. *)
Theorem reset_spec st ready reconciled session_key command_id reason authority now (j : DomainJournal T) s :
  jwf j → breaker_of (table_of (jdb j)) = Some s →
  let run := reset st ready reconciled session_key command_id reason authority now j in
  let same_session := match tripped_at s with
    | Some t => String.eqb (session_key t) (session_key now) | None => false end in
  let s' := reset_state command_id (strip reason) now s in
  let eid := ("breaker-reset:" +:+ command_id)%string in
  let m := reset_mutation command_id s' now in
  let d := with_table (set_breaker s') (jdb j) in
  if (String.eqb command_id "" || String.eqb (strip reason) "" || String.eqb (strip authority) "")%bool
  then run = (Raise (BreakerResetRefused "command, reason, and operator authority are required"), j)
  else if bool_decide (b_state s = CLEAR) then run = (Ok s, j)
  else if bool_decide (reason_code s = Some "DAILY_LOSS_BREACH"%string) && same_session
  then run = (Raise (BreakerResetRefused "daily-loss breaker may reset only in the next session"), j)
  else if negb ready
  then run = (Raise (BreakerResetRefused "semantic readiness preconditions are not satisfied"), j)
  else if negb (reconciled command_id)
  then run = (Raise (BreakerResetRefused "reconciliation is incomplete"), j)
  else run = match select_journal_row eid (jcore j) with
    | None => (Ok s', mkJournal (with_event eid m (st_now st) d) (cursor_seq (jcore j)))
    | Some r =>
        if matches r m
        then (Ok s', mkJournal d (Z.max (latest_committed_cursor j) (source_cursor r)))
        else (Raise (EventIdentityConflict eid), j)
    end.
Proof.
  intros Hj Hs run same_session s' eid m d. unfold run, reset.
  run. destruct (String.eqb command_id ""), (String.eqb (strip reason) ""),
    (String.eqb (strip authority) ""); simpl; try done.
  rewrite bind_get_breaker, Hs.
  destruct (b_state s) eqn:Hst; [done|]. rewrite bool_decide_eq_false_2 by done.
  cbv zeta. fold same_session. run.
  destruct (_ && same_session); [done|]. simpl. run.
  destruct ready; [|done]. simpl. run. destruct (reconciled command_id); [|done]. simpl.
  unfold reset_store. rewrite mutate_batch_work_spec. cbv zeta. unfold outcome, final.
  rewrite (reset_work_run st command_id (strip reason) now (jdb j) s (jwf_core _ Hj) Hs Hst).
  cbv zeta. fold s' eid m d (jcore j).
  destruct (select_journal_row eid (jcore j)) as [r|]; simpl.
  - destruct (matches r m); simpl; [done|]. unfold d. rewrite rollback_with_table. by destruct j.
  - by rewrite signalled_fresh.
Qed.
End breaker.

(** ** Concrete runs *)
Definition ex_breaker_db : DomainJournal breaker_tables :=
  empty_journal (mkPconn ∅ (mkBreakerTables ∅ ∅)).
Definition ex_cleared : DomainJournal breaker_tables :=
  final (seed_breaker "DU1") ex_breaker_db.
Definition ex_quote (n : Z) : BreakerSignal :=
  mkSignal "QUOTE_FAILURE" (minutes n) "no quote" ("q" +:+ pretty n).
Definition ex_record (sig : BreakerSignal) (now : Z) :=
  record (T := breaker_tables) (λ s, s) "DU1" (seconds 30) (mkStamp "u" now) sig now.
(** Two quote failures, four minutes apart. *)
Definition ex_two : DomainJournal breaker_tables :=
  final (ex_record (ex_quote 4) (minutes 4)) (final (ex_record (ex_quote 0) 0) ex_cleared).
Definition ex_tripped : DomainJournal breaker_tables :=
  final (ex_record (ex_quote 5) (minutes 5)) ex_two.

Lemma seed_breaker_final {T} `{HasTable T breaker_tables} account (j : DomainJournal T) :
  ∃ f, final (seed_breaker account) j = final (plain_transaction (write_table f)) j.
Proof.
  eexists. unfold seed_breaker, final. rewrite bind_unfold. unfold plain_transaction at 1.
  unfold write_table at 1, modify. simpl. unfold get_breaker. run. by destruct (breaker_of _ _).
Qed.

Lemma jwf_record {T} `{HasTable T breaker_tables} sha account grace st sig now (j : DomainJournal T) :
  jwf j → jwf (final (record sha account grace st sig now) j).
Proof.
  intros Hj. unfold record, final. run. destruct (bool_decide _); [|done].
  rewrite bind_get_breaker. destruct (breaker_of _ _); [|done]. rewrite bind_unfold.
  pose proof (jwf_work _ j (lawful_apply_signal sha account st sig now
    (trip_reason account grace sig now)) Hj) as Hw.
  unfold final, apply_signal in *. by destruct (mutate_batch_work _ j) as [[?|?] ?].
Qed.

Lemma ex_cleared_jwf : jwf ex_cleared.
Proof.
  unfold ex_cleared. destruct (seed_breaker_final (T := breaker_tables) "DU1" ex_breaker_db) as [f ->].
  apply jwf_plain; [apply lawful_write_table|apply jwf_empty].
Qed.
Lemma ex_two_jwf : jwf ex_two.
Proof. unfold ex_two, ex_record. apply jwf_record. apply jwf_record. exact ex_cleared_jwf. Qed.
Lemma ex_tripped_jwf : jwf ex_tripped.
Proof. unfold ex_tripped, ex_record. apply jwf_record. exact ex_two_jwf. Qed.

Definition ex_tripped_state : BreakerState :=
  mkBreaker "DU1" TRIPPED (Some "QUOTE_FAILURE"%string)
    (Some "3 quote_failure signals within 0:05:00"%string) 2 (Some (minutes 5)) None None.

Lemma record_spec_witness :
  (ex_record (ex_quote 5) (minutes 5) ex_two).1 = Ok (ex_tripped_state, true).
Proof.
  unfold ex_record. rewrite (record_spec _ _ _ _ _ _ _ ex_two_jwf). vm_compute. reflexivity.
Defined.

Lemma record_trips_iff_witness :
  trips "DU1" (seconds 30) (ex_quote 5) (minutes 5) (table_of (jdb ex_two)).
Proof.
  refine (proj1 (proj1 (record_trips_iff (λ s, s) "DU1" (seconds 30) (mkStamp "u" (minutes 5))
    (ex_quote 5) (minutes 5) ex_two ex_tripped
    (mkBreaker "DU1" CLEAR None None 1 None None None) ex_tripped_state true
    ex_two_jwf _ _ _ _)) _); vm_compute; reflexivity.
Defined.

Lemma trip_is_sticky_witness :
  breaker_of "DU1" (table_of (jdb (final (ex_record
    (mkSignal "BROKER_RECONNECTED" (minutes 6) "" "r") (minutes 6)) ex_tripped)))
  = Some ex_tripped_state.
Proof.
  refine (proj1 (trip_is_sticky (λ s, s) "DU1" (seconds 30)
    [(mkStamp "u" (minutes 6), mkSignal "BROKER_RECONNECTED" (minutes 6) "" "r", minutes 6)]
    ex_tripped ex_tripped_state ex_tripped_jwf _ _)); vm_compute; reflexivity.
Defined.

Lemma reset_spec_witness :
  (reset (T := breaker_tables) "DU1" (mkStamp "u" (hours 1)) true (λ _, true) (λ t, date_iso (utc_date t))
     "cmd-9" " checked " "ops" (hours 1) ex_tripped).1
  = Ok (reset_state "cmd-9" "checked" (hours 1) ex_tripped_state).
Proof.
  pose proof (reset_spec "DU1" (mkStamp "u" (hours 1)) true (λ _, true) (λ t, date_iso (utc_date t))
    "cmd-9" " checked " "ops" (hours 1) ex_tripped ex_tripped_state ex_tripped_jwf eq_refl) as H.
  vm_compute in H. vm_compute. exact (f_equal fst H).
Defined.
