(* ===== verification/ExitOwner.v ===== *)
(** * Exit ownership ([trader/trading/exit_owner.py])

    One close per position, one flatten per account: every exit claims here
    first.  The theorems: no reachable registry has two active owners of one
    position (or a scoped owner beside an account flatten), a claim returns the
    root that owns the position afterwards, and an owner that finished never
    becomes active again. *)
From stdpp Require Import base tactics gmap list strings.
From Stdlib Require Import ZArith Lia Ascii.
From S2P Require Import Prelude Py.
Open Scope Z_scope.

Inductive owner_kind : Type := KIND_SCOPED | KIND_ACCOUNT.
Inductive owner_goal : Type := GOAL_ZERO | GOAL_PARTIAL.
Inductive owner_state : Type := STATE_ACTIVE | STATE_SUPERSEDED | STATE_RELEASED | STATE_FAILED_SAFE.
Inductive claim_outcome : Type := CLAIMED | JOINED | UPGRADED | JOINED_FLATTEN.

Global Instance owner_kind_eq_dec : EqDecision owner_kind.
Proof. solve_decision. Defined.
Global Instance owner_goal_eq_dec : EqDecision owner_goal.
Proof. solve_decision. Defined.
Global Instance owner_state_eq_dec : EqDecision owner_state.
Proof. solve_decision. Defined.

Section registry.
(** The DOUBLE column is stored and handed back, never computed with. *)
Context {float : Type}.

Record ExitOwnerRow : Type := mkOwner {
  root_id : string;
  x_account_id : string;
  conid : option Z;
  x_kind : owner_kind;
  goal : owner_goal;
  goal_quantity : option float;
  x_state : owner_state;
  x_updated_at : Z;
}.

Record ExitClaim : Type := mkClaim {
  claim_root : string;
  claim_result : claim_outcome;
  superseded : list string;
}.

(** [exit_owners], by primary key *)
Notation exit_owners := (gmap string ExitOwnerRow).

Fixpoint has_colon (s : string) : bool :=
  match s with
  | EmptyString => false
  | String c s' => Ascii.eqb c ":" || has_colon s'
  end.

Definition check_root_id (root : string) : M exit_owners unit :=
  require (negb (String.eqb root "") && negb (has_colon root)) ValueError.

(** [SELECT ... fetchone()]: some row that satisfies the WHERE clause. *)
Definition rows (t : exit_owners) : list ExitOwnerRow := map snd (map_to_list t).
Definition fetch (p : ExitOwnerRow → bool) (t : exit_owners) : option ExitOwnerRow :=
  head (filter (λ r, p r = true) (rows t)).

Definition is_active_scoped (account : string) (r : ExitOwnerRow) : bool :=
  String.eqb (x_account_id r) account && bool_decide (x_kind r = KIND_SCOPED)
  && bool_decide (x_state r = STATE_ACTIVE).
Definition owns_position (account : string) (c : Z) (r : ExitOwnerRow) : bool :=
  is_active_scoped account r && bool_decide (conid r = Some c).
Definition owns_account (account : string) (r : ExitOwnerRow) : bool :=
  String.eqb (x_account_id r) account && bool_decide (x_kind r = KIND_ACCOUNT)
  && bool_decide (x_state r = STATE_ACTIVE).

Definition get_in_tx (root : string) : M exit_owners (option ExitOwnerRow) := gets (λ t, t !! root).
Definition owner_for_in_tx (account : string) (c : Z) : M exit_owners (option ExitOwnerRow) :=
  gets (fetch (owns_position account c)).
Definition account_owner_in_tx (account : string) : M exit_owners (option ExitOwnerRow) :=
  gets (fetch (owns_account account)).

Definition ensure_partial_allowed_in_tx (account : string) (c : Z) : M exit_owners unit :=
  flatten ← account_owner_in_tx account;
  owner ← match flatten with
          | Some r => mret (Some r)
          | None => owner_for_in_tx account c
          end;
  match owner with
  | Some r => raise (ExitInProgress (root_id r))
  | None => mret tt
  end.

Definition set_goal_zero (now : Z) (r : ExitOwnerRow) : ExitOwnerRow :=
  mkOwner (root_id r) (x_account_id r) (conid r) (x_kind r) GOAL_ZERO None (x_state r) now.
Definition set_state (s : owner_state) (now : Z) (r : ExitOwnerRow) : ExitOwnerRow :=
  mkOwner (root_id r) (x_account_id r) (conid r) (x_kind r) (goal r) (goal_quantity r) s now.

(** [UPDATE ... WHERE p] *)
Definition update_where (p : ExitOwnerRow → bool) (f : ExitOwnerRow → ExitOwnerRow)
    (t : exit_owners) : exit_owners := (λ r, if p r then f r else r) <$> t.

Definition active_root (root : string) (r : ExitOwnerRow) : bool :=
  String.eqb (root_id r) root && bool_decide (x_state r = STATE_ACTIVE).

Definition upgrade_goal_in_tx (root : string) (now : Z) : M exit_owners unit :=
  modify (update_where (active_root root) (set_goal_zero now)).

Definition finish_in_tx (root : string) (s : owner_state) (now : Z) : M exit_owners unit :=
  require (bool_decide (s = STATE_RELEASED) || bool_decide (s = STATE_FAILED_SAFE)) ValueError ;;
  modify (update_where (active_root root) (set_state s now)).

Definition insert_in_tx (root account : string) (c : option Z) (k : owner_kind) (g : owner_goal)
    (q : option float) (now : Z) : M exit_owners unit :=
  existing ← get_in_tx root;
  require (bool_decide (existing = None)) ValueError ;;
  modify (<[root := mkOwner root account c k g q STATE_ACTIVE now]>).

Definition claim_scoped_in_tx (account : string) (c : Z) (root : string) (quantity : option float)
    (now : Z) : M exit_owners ExitClaim :=
  check_root_id root ;;
  let wants_partial := match quantity with Some _ => true | None => false end in
  flatten ← account_owner_in_tx account;
  match flatten with
  | Some f =>
      if wants_partial then raise (ExitInProgress (root_id f))
      else mret (mkClaim (root_id f) JOINED_FLATTEN [])
  | None =>
      owner ← owner_for_in_tx account c;
      match owner with
      | Some o =>
          if String.eqb (root_id o) root then mret (mkClaim (root_id o) JOINED [])
          else if wants_partial then raise (ExitInProgress (root_id o))
          else match goal o with
          | GOAL_PARTIAL =>
              upgrade_goal_in_tx (root_id o) now ;;
              mret (mkClaim (root_id o) UPGRADED [])
          | GOAL_ZERO => mret (mkClaim (root_id o) JOINED [])
          end
      | None =>
          insert_in_tx root account (Some c) KIND_SCOPED
            (if wants_partial then GOAL_PARTIAL else GOAL_ZERO) quantity now ;;
          mret (mkClaim root CLAIMED [])
      end
  end.

(** [tuple(sorted(...))] *)
Definition sorted_roots (l : list string) : list string := (sort_keys ((λ r, (r, tt)) <$> l)).*1.

Definition claim_account_in_tx (account root : string) (now : Z) : M exit_owners ExitClaim :=
  check_root_id root ;;
  flatten ← account_owner_in_tx account;
  match flatten with
  | Some f =>
      mret (mkClaim (root_id f) (if String.eqb (root_id f) root then CLAIMED else JOINED_FLATTEN) [])
  | None =>
      scoped ← gets (λ t, sorted_roots
        (root_id <$> filter (λ r, is_active_scoped account r = true) (rows t)));
      modify (update_where (is_active_scoped account) (set_state STATE_SUPERSEDED now)) ;;
      insert_in_tx root account None KIND_ACCOUNT GOAL_ZERO None now ;;
      mret (mkClaim root CLAIMED scoped)
  end.

(** One-transaction conveniences *)
Definition claim_scoped account c root quantity now :=
  transaction (claim_scoped_in_tx account c root quantity now).
Definition claim_account account root now := transaction (claim_account_in_tx account root now).
Definition release root now := transaction (finish_in_tx root STATE_RELEASED now).

(** ** The invariant *)

Definition shaped (r : ExitOwnerRow) : Prop :=
  match x_kind r with
  | KIND_ACCOUNT => conid r = None ∧ goal r = GOAL_ZERO
  | KIND_SCOPED => is_Some (conid r)
  end ∧ (goal r = GOAL_PARTIAL ↔ is_Some (goal_quantity r)).

Record exclusive (t : exit_owners) : Prop := {
  ex_key k r : t !! k = Some r → root_id r = k ∧ k ≠ ""%string ∧ has_colon k = false;
  ex_shape k r : t !! k = Some r → shaped r;
  ex_position a c k1 k2 r1 r2 : t !! k1 = Some r1 → t !! k2 = Some r2 →
    owns_position a c r1 = true → owns_position a c r2 = true → k1 = k2;
  ex_account a k1 k2 r1 r2 : t !! k1 = Some r1 → t !! k2 = Some r2 →
    owns_account a r1 = true → owns_account a r2 = true → k1 = k2;
  ex_flatten a k1 k2 r1 r2 : t !! k1 = Some r1 → t !! k2 = Some r2 →
    owns_account a r1 = true → is_active_scoped a r2 = true → False;
}.

(** What every committed operation does: it keeps the invariant, never touches a
    row that has ended, and never drops or renames one. *)
Record advances (t t' : exit_owners) : Prop := {
  adv_ok : exclusive t → exclusive t';
  adv_ended k r : t !! k = Some r → x_state r ≠ STATE_ACTIVE → t' !! k = Some r;
  adv_keeps k r : t !! k = Some r → ∃ r', t' !! k = Some r' ∧
    x_account_id r' = x_account_id r ∧ conid r' = conid r ∧ x_kind r' = x_kind r;
}.

#[local] Instance advances_preorder : PreOrder advances.
Proof.
  split.
  - intros t. split; eauto.
  - intros t1 t2 t3 [Ha Hb Hc] [Ha' Hb' Hc']. split; eauto.
    intros k r Hr. destruct (Hc k r Hr) as (r' & Hr' & ? & ? & ?).
    destruct (Hc' k r' Hr') as (r'' & ? & ? & ? & ?). exists r''. split_and!; congruence.
Qed.

Lemma fetch_Some p (t : exit_owners) r :
  fetch p t = Some r → p r = true ∧ ∃ k, t !! k = Some r.
Proof.
  unfold fetch. intros H.
  assert (r ∈ filter (λ r, p r = true) (rows t)) as Hin
    by (destruct (filter _ _); [done|]; simplify_eq/=; set_solver).
  apply list_elem_of_filter in Hin as [Hp Hr]. split; [done|].
  unfold rows in Hr. apply list_elem_of_fmap in Hr as ([k r'] & -> & Hr). exists k.
  by apply elem_of_map_to_list in Hr.
Qed.

Lemma fetch_None p (t : exit_owners) k r : fetch p t = None → t !! k = Some r → p r = false.
Proof.
  unfold fetch. intros H Hr. apply not_true_is_false. intros Hp.
  assert (r ∈ filter (λ r, p r = true) (rows t)) as Hin.
  { apply list_elem_of_filter. split; [done|]. unfold rows.
    apply list_elem_of_fmap. exists (k, r). split; [done|]. by apply elem_of_map_to_list. }
  destruct (filter _ _); [set_solver|done].
Qed.

Lemma lookup_update p f (t : exit_owners) k :
  update_where p f t !! k = (λ r, if p r then f r else r) <$> t !! k.
Proof. apply lookup_fmap. Qed.

(** An [UPDATE] of active rows that keeps what a row is about. *)
Record harmless (f : ExitOwnerRow → ExitOwnerRow) : Prop := {
  hl_root r : root_id (f r) = root_id r;
  hl_account r : x_account_id (f r) = x_account_id r;
  hl_conid r : conid (f r) = conid r;
  hl_kind r : x_kind (f r) = x_kind r;
  hl_state r : x_state (f r) = STATE_ACTIVE → x_state r = STATE_ACTIVE;
  hl_shape r : shaped r → shaped (f r);
}.

Lemma harmless_goal now : harmless (set_goal_zero now).
Proof.
  split; try done. intros r [Hk Hg]. split; simpl.
  - destruct (x_kind r); [done|]. by destruct Hk.
  - split; [done|by intros []].
Qed.
Lemma harmless_state s now : s ≠ STATE_ACTIVE → harmless (set_state s now).
Proof. intros Hs. by split. Qed.

Lemma scoped_active a r : is_active_scoped a r = true → x_state r = STATE_ACTIVE.
Proof. unfold is_active_scoped. intros H. by to_prop. Qed.
Lemma account_active a r : owns_account a r = true → x_state r = STATE_ACTIVE.
Proof. unfold owns_account. intros H. by to_prop. Qed.
Lemma position_scoped a c r : owns_position a c r = true → is_active_scoped a r = true.
Proof. unfold owns_position. intros H. by to_prop. Qed.
Lemma root_active root r : active_root root r = true → x_state r = STATE_ACTIVE.
Proof. unfold active_root. intros H. by to_prop. Qed.

Lemma advances_update p f (t : exit_owners) :
  harmless f → (∀ r, p r = true → x_state r = STATE_ACTIVE) → advances t (update_where p f t).
Proof.
  intros Hf Hp.
  assert (∀ k r', update_where p f t !! k = Some r' → ∃ r, t !! k = Some r ∧
    root_id r' = root_id r ∧ x_account_id r' = x_account_id r ∧ conid r' = conid r ∧ x_kind r' = x_kind r ∧
    (x_state r' = STATE_ACTIVE → x_state r = STATE_ACTIVE) ∧ (shaped r → shaped r')) as Hinv.
  { intros k r'. rewrite lookup_update. intros (r & Hr & ->)%fmap_Some. exists r. split; [done|].
    destruct Hf. destruct (p r); split_and!; auto. }
  assert (∀ a r r', x_account_id r' = x_account_id r → x_kind r' = x_kind r →
    (x_state r' = STATE_ACTIVE → x_state r = STATE_ACTIVE) →
    (is_active_scoped a r' = true → is_active_scoped a r = true) ∧
    (owns_account a r' = true → owns_account a r = true)) as Hpred.
  { intros a r r' Ha Hk Hs. unfold is_active_scoped, owns_account. rewrite Ha, Hk.
    split; rewrite !andb_true_iff, !bool_decide_eq_true; intros [[? ?] ?]; auto. }
  split.
  - intros [Hkey Hshape Hpos Hacc Hfl]. split.
    + intros k r' Hr. destruct (Hinv k r' Hr) as (r & Hr0 & -> & _). by apply Hkey.
    + intros k r' Hr. destruct (Hinv k r' Hr) as (r & Hr0 & _ & _ & _ & _ & _ & Hsh). eauto.
    + intros a c k1 k2 r1 r2 H1 H2 O1 O2.
      destruct (Hinv k1 r1 H1) as (s1 & ? & ? & Ea1 & Ec1 & Ek1 & Es1 & _).
      destruct (Hinv k2 r2 H2) as (s2 & ? & ? & Ea2 & Ec2 & Ek2 & Es2 & _).
      unfold owns_position in O1, O2. rewrite Ec1 in O1. rewrite Ec2 in O2.
      apply andb_true_iff in O1 as [O1 C1], O2 as [O2 C2].
      apply (Hpos a c k1 k2 s1 s2); try done; unfold owns_position; apply andb_true_iff;
        (split; [|done]); eapply Hpred; eauto.
    + intros a k1 k2 r1 r2 H1 H2 O1 O2.
      destruct (Hinv k1 r1 H1) as (s1 & ? & ? & Ea1 & Ec1 & Ek1 & Es1 & _).
      destruct (Hinv k2 r2 H2) as (s2 & ? & ? & Ea2 & Ec2 & Ek2 & Es2 & _).
      apply (Hacc a k1 k2 s1 s2); try done; eapply Hpred; eauto.
    + intros a k1 k2 r1 r2 H1 H2 O1 O2.
      destruct (Hinv k1 r1 H1) as (s1 & ? & ? & Ea1 & Ec1 & Ek1 & Es1 & _).
      destruct (Hinv k2 r2 H2) as (s2 & ? & ? & Ea2 & Ec2 & Ek2 & Es2 & _).
      apply (Hfl a k1 k2 s1 s2); try done; eapply Hpred; eauto.
  - intros k r Hr Hs. rewrite lookup_update, Hr. simpl.
    destruct (p r) eqn:E; [by destruct (Hs (Hp r E))|done].
  - intros k r Hr. rewrite lookup_update, Hr. eexists. split; [reflexivity|].
    destruct Hf. destruct (p r); auto.
Qed.

(** A new row is safe when nothing active owns what it claims. *)
Lemma advances_insert (t : exit_owners) r :
  t !! root_id r = None → root_id r ≠ ""%string → has_colon (root_id r) = false → shaped r →
  (∀ k r', t !! k = Some r' → owns_account (x_account_id r) r' = false) →
  (∀ k r', t !! k = Some r' → match x_kind r, conid r with
    | KIND_ACCOUNT, _ => is_active_scoped (x_account_id r) r' = false
    | KIND_SCOPED, Some c => owns_position (x_account_id r) c r' = false
    | KIND_SCOPED, None => False end) →
  advances t (<[root_id r := r]> t).
Proof.
  intros Hfresh Hne Hcol Hsh Hna Hns.
  assert (∀ a, owns_account a r = true → a = x_account_id r ∧ x_kind r = KIND_ACCOUNT) as Hra
    by (unfold owns_account; intros a H; by to_prop).
  assert (∀ a, is_active_scoped a r = true → a = x_account_id r ∧ x_kind r = KIND_SCOPED) as Hrs
    by (unfold is_active_scoped; intros a H; by to_prop).
  assert (∀ a c, owns_position a c r = true → a = x_account_id r ∧ conid r = Some c ∧ x_kind r = KIND_SCOPED)
    as Hrp by (intros a c H; destruct (Hrs a (position_scoped _ _ _ H)); unfold owns_position in H; by to_prop).
  assert (∀ k r', <[root_id r := r]> t !! k = Some r' → (k = root_id r ∧ r' = r) ∨ t !! k = Some r') as Hinv.
  { intros k r' [[<- <-]|[? ?]]%lookup_insert_Some; auto. }
  split.
  - intros [Hkey Hshape Hpos Hacc Hfl]. split.
    + intros k r' [[-> ->]|?]%Hinv; [done|by apply Hkey].
    + intros k r' [[-> ->]|?]%Hinv; [done|by eapply Hshape].
    + intros a c k1 k2 r1 r2 [[-> ->]|H1]%Hinv [[-> ->]|H2]%Hinv O1 O2; try done; [| |by eapply Hpos].
      * destruct (Hrp a c O1) as (-> & Hc & Hk). specialize (Hns _ _ H2). rewrite Hk, Hc in Hns. congruence.
      * destruct (Hrp a c O2) as (-> & Hc & Hk). specialize (Hns _ _ H1). rewrite Hk, Hc in Hns. congruence.
    + intros a k1 k2 r1 r2 [[-> ->]|H1]%Hinv [[-> ->]|H2]%Hinv O1 O2; try done; [| |by eapply Hacc].
      * destruct (Hra a O1) as [-> _]. specialize (Hna _ _ H2). congruence.
      * destruct (Hra a O2) as [-> _]. specialize (Hna _ _ H1). congruence.
    + intros a k1 k2 r1 r2 [[-> ->]|H1]%Hinv [[-> ->]|H2]%Hinv O1 O2; [| | |exact (Hfl a k1 k2 r1 r2 H1 H2 O1 O2)].
      * destruct (Hra a O1), (Hrs a O2). congruence.
      * destruct (Hra a O1) as [-> Hk]. specialize (Hns _ _ H2). rewrite Hk in Hns. congruence.
      * destruct (Hrs a O2) as [-> Hk]. specialize (Hna _ _ H1). congruence.
  - intros k r' Hr' _. rewrite lookup_insert_ne; [done|congruence].
  - intros k r' Hr'. exists r'. rewrite lookup_insert_ne; [done|congruence].
Qed.

(** ** Transactions of the callers *)

(** The statements a caller may compose in one transaction. *)
Inductive caller_work : ∀ {A}, M exit_owners A → Prop :=
  | work_ret {A} (a : A) : caller_work (mret a)
  | work_raise {A} e : caller_work (@raise _ A e)
  | work_read {A} (f : exit_owners → A) : caller_work (gets f)
  | work_bind {A B} (w : M exit_owners A) (k : A → M exit_owners B) :
      caller_work w → (∀ a, caller_work (k a)) → caller_work (w ≫= k)
  | work_scoped account c root q now : caller_work (claim_scoped_in_tx account c root q now)
  | work_account account root now : caller_work (claim_account_in_tx account root now)
  | work_upgrade root now : caller_work (upgrade_goal_in_tx root now)
  | work_finish root s now : caller_work (finish_in_tx root s now).

Inductive owner_step : exit_owners → exit_owners → Prop :=
  | step_tx {A} (w : M exit_owners A) t : caller_work w → owner_step t (final (transaction w) t).

Definition committed {A} (w : M exit_owners A) : Prop :=
  ∀ t a t', w t = (Ok a, t') → advances t t'.

Lemma check_root_ok root (t : exit_owners) u t' :
  check_root_id root t = (Ok u, t') → t' = t ∧ root ≠ ""%string ∧ has_colon root = false.
Proof. intros [H ->]%require_ok. by to_prop. Qed.

Lemma insert_in_tx_ok root account c k g q now (t : exit_owners) u t' :
  insert_in_tx root account c k g q now t = (Ok u, t') →
  t !! root = None ∧ t' = <[root := mkOwner root account c k g q STATE_ACTIVE now]> t.
Proof.
  unfold insert_in_tx, get_in_tx. run. destruct (t !! root) as [r|] eqn:E; simpl; [done|].
  unfold modify. by intros [= _ <-].
Qed.

Lemma committed_scoped account c root q now : committed (claim_scoped_in_tx account c root q now).
Proof.
  intros t a t' H. unfold claim_scoped_in_tx in H. apply bind_ok in H as (u & t1 & Hc & H).
  apply check_root_ok in Hc as (-> & Hne & Hcol). unfold account_owner_in_tx, owner_for_in_tx in H.
  rewrite bind_gets in H. destruct (fetch (owns_account account) t) as [f|] eqn:Hf.
  { destruct q; run_inv; reflexivity. }
  rewrite bind_gets in H. destruct (fetch (owns_position account c) t) as [o|] eqn:Ho.
  - destruct (String.eqb (root_id o) root); [run_inv; reflexivity|].
    destruct q; [run_inv|]. destruct (goal o); [run_inv; reflexivity|].
    unfold upgrade_goal_in_tx in H. rewrite bind_modify in H. run_inv.
    apply advances_update; [apply harmless_goal|apply root_active].
  - apply bind_ok in H as (? & t2 & Hi & H). apply insert_in_tx_ok in Hi as [Hfresh ->]. run_inv.
    apply (advances_insert t (mkOwner root account (Some c) KIND_SCOPED _ q STATE_ACTIVE now));
      simpl; try done.
    + split; simpl; [by eexists|]. destruct q; (split; [by eauto|by intros []]).
    + intros k r' Hr. by eapply fetch_None.
    + intros k r' Hr. by eapply fetch_None.
Qed.

Lemma committed_account account root now : committed (claim_account_in_tx account root now).
Proof.
  intros t a t' H. unfold claim_account_in_tx in H. apply bind_ok in H as (u & t1 & Hc & H).
  apply check_root_ok in Hc as (-> & Hne & Hcol). unfold account_owner_in_tx in H.
  rewrite bind_gets in H. destruct (fetch (owns_account account) t) as [f|] eqn:Hf;
    [run_inv; reflexivity|].
  rewrite bind_gets, bind_modify in H. apply bind_ok in H as (? & t2 & Hi & H).
  apply insert_in_tx_ok in Hi as [Hfresh ->]. run_inv.
  set (t1 := update_where _ _ t) in *.
  transitivity t1.
  { apply advances_update; [by apply harmless_state|apply scoped_active]. }
  apply (advances_insert t1 (mkOwner root account None KIND_ACCOUNT GOAL_ZERO None STATE_ACTIVE now));
    simpl; try done.
  - split; simpl; [done|]. by split; [|intros []].
  - intros k r'. unfold t1. rewrite lookup_update. intros (r & Hr & ->)%fmap_Some.
    pose proof (fetch_None _ _ _ _ Hf Hr) as Hno.
    destruct (is_active_scoped account r) eqn:E; [|done].
    unfold owns_account in *. simpl. by rewrite andb_false_r.
  - intros k r'. unfold t1. rewrite lookup_update. intros (r & Hr & ->)%fmap_Some.
    destruct (is_active_scoped account r) eqn:E; [|done].
    unfold is_active_scoped. simpl. by rewrite andb_false_r.
Qed.

Lemma committed_work {A} (w : M exit_owners A) : caller_work w → committed w.
Proof.
  induction 1 as [A a|A e|A f|A B w k _ IHw _ IHk|account c root q now|account root now|root now|root s now].
  - intros t b t' [= <- <-]. reflexivity.
  - intros t b t' [=].
  - intros t b t' [= <- <-]. reflexivity.
  - intros t b t' H. apply bind_ok in H as (a & t1 & Hw & Hk).
    transitivity t1; [by eapply IHw|by eapply IHk].
  - apply committed_scoped.
  - apply committed_account.
  - intros t b t' [= <- <-]. apply advances_update; [apply harmless_goal|apply root_active].
  - intros t b t' H. unfold finish_in_tx in H. apply bind_ok in H as (? & t1 & [Hs ->]%require_ok & H).
    injection H as <- <-. apply advances_update; [|apply root_active].
    apply harmless_state. intros ->. discriminate.
Qed.

Lemma owner_step_advances t t' : owner_step t t' → advances t t'.
Proof.
  destruct 1 as [A w t Hw]. unfold final, transaction.
  destruct (w t) as [[a|e] t'] eqn:E; [|reflexivity]. by eapply committed_work.
Qed.
Lemma owner_steps_advance t t' : rtc owner_step t t' → advances t t'.
Proof. induction 1; [reflexivity|]. etransitivity; [by apply owner_step_advances|done]. Qed.

Lemma exclusive_empty : exclusive ∅.
Proof. by split; intros *; rewrite ?lookup_empty. Qed.

(** ** Theorems *)

Definition active_owner (account : string) (c : Z) (t : exit_owners) (root : string) : Prop :=
  ∃ r, t !! root = Some r ∧ (owns_account account r = true ∨ owns_position account c r = true).

(** C10. Exclusive ownership: whatever claims, upgrades, finishes and failed
    transactions ran, a position has at most one active owner, an account at most
    one active flatten, and a flatten never coexists with an active scoped owner
    of its account. *)
Theorem exit_ownership_exclusive t account c root1 root2 :
  rtc owner_step ∅ t →
  exclusive t ∧
  (active_owner account c t root1 → active_owner account c t root2 → root1 = root2).
Proof.
  intros Hs. pose proof (adv_ok _ _ (owner_steps_advance _ _ Hs) exclusive_empty) as He.
  split; [done|]. intros (r1 & H1 & O1) (r2 & H2 & O2).
  destruct O1 as [O1|O1], O2 as [O2|O2].
  - by eapply (ex_account _ He).
  - destruct (ex_flatten _ He account root1 root2 r1 r2); try done. by eapply position_scoped.
  - destruct (ex_flatten _ He account root2 root1 r2 r1); try done. by eapply position_scoped.
  - by eapply (ex_position _ He).
Qed.

(** An exit that ended has ended: a row that was superseded, released or
    failed safe is never changed again by any later step, and its root id cannot
    start another exit - a claim that would insert it raises and writes nothing. *)
Theorem ended_exit_is_final t t' root r account c q now :
  exclusive t → t !! root = Some r → x_state r ≠ STATE_ACTIVE → rtc owner_step t t' →
  t' !! root = Some r ∧
  ((∀ k r', t' !! k = Some r' → owns_account account r' = false ∧ owns_position account c r' = false) →
   claim_scoped account c root q now t' = (Raise ValueError, t')) ∧
  ((∀ k r', t' !! k = Some r' → owns_account account r' = false) →
   claim_account account root now t' = (Raise ValueError, t')).
Proof.
  intros Hex Hr Hst Hs. pose proof (adv_ended _ _ (owner_steps_advance _ _ Hs) root r Hr Hst) as Hr'.
  split; [done|]. destruct (ex_key _ Hex root r Hr) as (_ & Hne & Hcol).
  assert (∀ t1, check_root_id root t1 = (Ok tt, t1)) as Hroot.
  { intros t1. unfold check_root_id. rewrite (proj2 (String.eqb_neq _ _) Hne), Hcol. done. }
  assert (∀ p, (∀ k r', t' !! k = Some r' → p r' = false) → fetch p t' = None) as Hnone.
  { intros p Hp. destruct (fetch p t') as [r'|] eqn:E; [|done].
    apply fetch_Some in E as [E (k & Hk)]. by rewrite (Hp _ _ Hk) in E. }
  assert (∀ t1 r1 a c0 k g q0 n, t1 !! root = Some r1 →
    insert_in_tx root a c0 k g q0 n t1 = (Raise ValueError, t1)) as Hins.
  { intros t1 r1 a c0 k g q0 n H1. unfold insert_in_tx, get_in_tx. run. by rewrite H1. }
  split; intros Hfree; [unfold claim_scoped, claim_scoped_in_tx|unfold claim_account, claim_account_in_tx];
    unfold transaction; rewrite (bind_step _ _ _ tt t') by done;
    unfold account_owner_in_tx, owner_for_in_tx; run; rewrite Hnone by naive_solver.
  - run. rewrite Hnone by naive_solver. rewrite bind_unfold. by erewrite Hins.
  - run. rewrite bind_unfold. erewrite Hins; [done|].
    rewrite lookup_update, Hr'. simpl. destruct (is_active_scoped account r) eqn:E; [|done].
    by apply scoped_active in E.
Qed.

(** What a scoped close promises: on success it returns the root of the
    active owner of the position - its own new one, one it joined, a partial one
    now raised to zero, or the account's flatten; on failure nothing changed, and
    the failures are a bad or used root id, or a partial request against an owner
    that is there. *)
Theorem claim_scoped_owns t account c root q now :
  exclusive t →
  match claim_scoped account c root q now t with
  | (Raise e, t') => t' = t ∧
      (e = ValueError ∨ is_Some q ∧ ∃ o, e = ExitInProgress o ∧ active_owner account c t o)
  | (Ok cl, t') => ∃ r, t' !! claim_root cl = Some r ∧ superseded cl = [] ∧
      match claim_result cl with
      | JOINED_FLATTEN => owns_account account r = true ∧ q = None ∧ t' = t
      | CLAIMED => owns_position account c r = true ∧ claim_root cl = root ∧ goal_quantity r = q ∧
                   t !! root = None
      | JOINED => owns_position account c r = true ∧ t' = t ∧
                  (claim_root cl = root ∨ q = None ∧ goal r = GOAL_ZERO)
      | UPGRADED => owns_position account c r = true ∧ goal r = GOAL_ZERO ∧ goal_quantity r = None ∧
                    q = None
      end
  end.
Proof.
  intros Hex. unfold claim_scoped, transaction, claim_scoped_in_tx, check_root_id. run.
  destruct (_ && _)%bool; [|by split; [|left]].
  unfold account_owner_in_tx, owner_for_in_tx. run.
  destruct (fetch (owns_account account) t) as [f|] eqn:Hf.
  - apply fetch_Some in Hf as [Hown (k & Hk)]. destruct (ex_key _ Hex k f Hk) as [Hkf _].
    rewrite <-Hkf in Hk. destruct q as [q|]; simpl; [|by exists f].
    split; [done|]. right. split; [by eexists|]. exists (root_id f). split; [done|].
    exists f. auto 10.
  - run. destruct (fetch (owns_position account c) t) as [o|] eqn:Ho.
    + apply fetch_Some in Ho as [Hown (k & Hk)]. destruct (ex_key _ Hex k o Hk) as [Hko _].
      rewrite <-Hko in Hk. destruct (String.eqb_spec (root_id o) root) as [<-|Hne]; simpl.
      { exists o. auto 10. }
      destruct q as [q|]; simpl.
      { split; [done|]. right. split; [by eexists|]. exists (root_id o). split; [done|]. exists o. auto 10. }
      destruct (goal o) eqn:Hg; simpl; [by exists o; auto 10|].
      assert (active_root (root_id o) o = true) as Hact.
      { unfold active_root. rewrite String.eqb_refl, bool_decide_eq_true_2; [done|].
        by eapply scoped_active, position_scoped. }
      exists (set_goal_zero now o). rewrite lookup_update, Hk. simpl. by rewrite Hact.
    + rewrite bind_unfold. unfold insert_in_tx, get_in_tx. run.
      destruct (t !! root) eqn:Hroot; simpl; [by split; [|left]|].
      eexists. rewrite lookup_insert_eq. split; [done|]. split; [done|]. split_and!; try done.
      unfold owns_position, is_active_scoped. simpl. by rewrite String.eqb_refl, bool_decide_eq_true_2.
Qed.

Lemma elem_of_sorted_roots k l : k ∈ sorted_roots l ↔ k ∈ l.
Proof.
  unfold sorted_roots. rewrite sort_keys_perm, <-list_fmap_compose.
  by rewrite (list_fmap_ext _ id), list_fmap_id by done.
Qed.

(** What a flatten promises: on success the account has an active flatten with
    the returned root; a new one supersedes every active scoped owner of the
    account, and returns exactly their roots; on failure (a bad or used root id)
    nothing is superseded. *)
Theorem claim_account_owns t account root now :
  exclusive t →
  match claim_account account root now t with
  | (Raise e, t') => t' = t ∧ e = ValueError
  | (Ok cl, t') => ∃ r, t' !! claim_root cl = Some r ∧ owns_account account r = true ∧
      (t' = t ∧ superseded cl = [] ∨
       claim_root cl = root ∧ t !! root = None ∧
       (∀ k r', t' !! k = Some r' → is_active_scoped account r' = false) ∧
       ∀ k, k ∈ superseded cl ↔ ∃ r0, t !! k = Some r0 ∧ is_active_scoped account r0 = true ∧
                                 t' !! k = Some (set_state STATE_SUPERSEDED now r0))
  end.
Proof.
  intros Hex. pose proof (committed_account account root now t) as Hadv.
  unfold claim_account, transaction, claim_account_in_tx, check_root_id in *. revert Hadv. run.
  destruct (_ && _)%bool; [|done]. intros Hadv.
  unfold account_owner_in_tx in *. revert Hadv. run.
  destruct (fetch (owns_account account) t) as [f|] eqn:Hf; intros Hadv.
  - apply fetch_Some in Hf as [Hown (k & Hk)]. destruct (ex_key _ Hex k f Hk) as [Hkf _].
    rewrite <-Hkf in Hk. exists f. simpl. auto.
  - revert Hadv. run. rewrite !bind_unfold. unfold insert_in_tx, get_in_tx. run.
    rewrite lookup_update. destruct (t !! root) as [r0|] eqn:Hroot; simpl; [done|].
    set (t1 := update_where _ _ t). intros Hadv.
    specialize (Hadv _ _ eq_refl). apply adv_ok in Hadv; [|done].
    set (r := mkOwner root account None KIND_ACCOUNT GOAL_ZERO None STATE_ACTIVE now) in *.
    assert (owns_account account r = true) as Hr
      by (unfold owns_account, r; simpl; by rewrite String.eqb_refl).
    exists r. rewrite lookup_insert_eq. split; [done|]. split; [done|]. right. split_and!; try done.
    + intros k r' Hk. apply not_true_is_false. intros Hs.
      by apply (ex_flatten _ Hadv account root k r r'); [rewrite lookup_insert_eq| | |].
    + intros k. rewrite elem_of_sorted_roots, list_elem_of_fmap. split.
      * intros (r0 & -> & [Hs Hin]%list_elem_of_filter).
        unfold rows in Hin. apply list_elem_of_fmap in Hin as ([k r1] & -> & Hin).
        apply elem_of_map_to_list in Hin. simpl in *.
        destruct (ex_key _ Hex k r1 Hin) as [-> _]. exists r1. split_and!; [done|done|].
        rewrite lookup_insert_ne by congruence. unfold t1. by rewrite lookup_update, Hin; simpl; rewrite Hs.
      * intros (r0 & Hk & Hs & _). exists r0. destruct (ex_key _ Hex k r0 Hk) as [-> _].
        split; [done|]. apply list_elem_of_filter. split; [done|].
        unfold rows. apply list_elem_of_fmap. exists (k, r0). split; [done|]. by apply elem_of_map_to_list.
Qed.
End registry.
Notation exit_owners float := (gmap string (ExitOwnerRow (float := float))).

(** ** Concrete runs *)
Definition ex_partial : exit_owners string :=
  final (claim_scoped "DU1" 265598 "cmd-1" (Some "5.0"%string) 1) ∅.
Definition ex_flattened : exit_owners string :=
  final (claim_account "DU1" "cmd-2" 2) ex_partial.

Lemma ex_partial_reachable : rtc owner_step ∅ ex_partial.
Proof. apply rtc_once, (step_tx (claim_scoped_in_tx "DU1" 265598 "cmd-1" (Some "5.0"%string) 1)), work_scoped. Qed.
Lemma ex_flattened_step : rtc owner_step ex_partial ex_flattened.
Proof. apply rtc_once, (step_tx (claim_account_in_tx "DU1" "cmd-2" 2)), work_account. Qed.
Lemma ex_flattened_reachable : rtc owner_step ∅ ex_flattened.
Proof. etransitivity; [apply ex_partial_reachable|apply ex_flattened_step]. Qed.
Lemma ex_partial_exclusive : exclusive ex_partial.
Proof. apply (adv_ok _ _ (owner_steps_advance _ _ ex_partial_reachable)), exclusive_empty. Qed.
Lemma ex_flattened_exclusive : exclusive ex_flattened.
Proof. apply (adv_ok _ _ (owner_steps_advance _ _ ex_flattened_reachable)), exclusive_empty. Qed.

Definition ex_flatten_row : ExitOwnerRow (float := string) :=
  mkOwner "cmd-2" "DU1" None KIND_ACCOUNT GOAL_ZERO None STATE_ACTIVE 2.
Definition ex_ended_row : ExitOwnerRow (float := string) :=
  mkOwner "cmd-1" "DU1" (Some 265598) KIND_SCOPED GOAL_PARTIAL (Some "5.0"%string) STATE_SUPERSEDED 2.

Lemma exit_ownership_exclusive_witness :
  exclusive ex_flattened ∧ active_owner "DU1" 265598 ex_flattened "cmd-2".
Proof.
  assert (active_owner "DU1" 265598 ex_flattened "cmd-2") as H
    by (exists ex_flatten_row; split; [reflexivity|by left]).
  split; [|exact H].
  exact (proj1 (exit_ownership_exclusive ex_flattened "DU1" 265598 "cmd-2" "cmd-2" ex_flattened_reachable)).
Defined.

Lemma ended_exit_is_final_witness :
  claim_scoped "DU1" 265598 "cmd-1" None 3
    (final (release "cmd-2" 3) ex_flattened)
  = (Raise ValueError, final (release "cmd-2" 3) ex_flattened).
Proof.
  refine (proj1 (proj2 (ended_exit_is_final ex_flattened (final (release "cmd-2" 3) ex_flattened)
    "cmd-1" ex_ended_row "DU1" 265598 None 3 ex_flattened_exclusive _ _ _)) _).
  - reflexivity.
  - discriminate.
  - apply rtc_once, (step_tx (finish_in_tx "cmd-2" STATE_RELEASED 3)), work_finish.
  - change (final (release "cmd-2" 3) ex_flattened)
      with ({[ "cmd-2"%string := set_state STATE_RELEASED 3 ex_flatten_row;
               "cmd-1"%string := ex_ended_row ]} : exit_owners string).
    intros k r' [[<- <-]|[_ Hk]]%lookup_insert_Some; [by split|].
    apply lookup_singleton_Some in Hk as [<- <-]. by split.
Defined.

Lemma claim_scoped_owns_witness :
  outcome (claim_scoped "DU1" 265598 "cmd-7" None 3) ex_partial = Ok (mkClaim "cmd-1" UPGRADED []) ∧
  ∃ r, final (claim_scoped "DU1" 265598 "cmd-7" None 3) ex_partial !! "cmd-1"%string = Some r ∧
       goal r = GOAL_ZERO.
Proof.
  split; [reflexivity|].
  pose proof (claim_scoped_owns ex_partial "DU1" 265598 "cmd-7" None 3 ex_partial_exclusive) as H.
  destruct (claim_scoped "DU1" 265598 "cmd-7" None 3 ex_partial) as [[cl|e] t'] eqn:E;
    vm_compute in E; [|discriminate E].
  injection E as <- <-. destruct H as (r & Hr & _ & _ & Hg & _). exists r. by split.
Defined.

Lemma claim_account_owns_witness :
  outcome (claim_account "DU1" "cmd-2" 2) ex_partial = Ok (mkClaim "cmd-2" CLAIMED ["cmd-1"%string]) ∧
  ∃ r, ex_flattened !! "cmd-2"%string = Some r ∧ owns_account "DU1" r = true.
Proof.
  split; [reflexivity|].
  pose proof (claim_account_owns ex_partial "DU1" "cmd-2" 2 ex_partial_exclusive) as H.
  unfold ex_flattened, final.
  destruct (claim_account "DU1" "cmd-2" 2 ex_partial) as [[cl|e] t'] eqn:E;
    vm_compute in E; [|discriminate E].
  injection E as <- <-. destruct H as (r & Hr & Ho & _). exists r. by split.
Defined.
