(* ===== verification/Epoch.v ===== *)
(** * The controller epoch: the trader's lease and the controller's side of it
    ([trader/automation/controller_epoch.py], [trader/ai/leadership.py])

    [ControllerEpochs] grants numbered leases inside the journal's write
    transaction; [Leadership] is what a controller process keeps of its grant.
    The theorems: every branch of a grant, and - for any number of processes, any
    delay, loss, duplication and reordering of requests and replies - that a
    process which still believes it leads holds the newest epoch, so no two
    processes lead at once. *)
From stdpp Require Import base tactics gmap list strings.
From Stdlib Require Import ZArith Lia Ascii.
From S2P Require Import Prelude Py Journal Store.
Open Scope Z_scope.

(** ** [ControllerEpochs] *)
Definition EPOCH_MISSING : string := "CONTROLLER_EPOCH_MISSING".
Definition EPOCH_STALE : string := "CONTROLLER_EPOCH_STALE".
Definition EPOCH_HELD : string := "CONTROLLER_EPOCH_HELD".
Definition EPOCH_UNKNOWN : string := "CONTROLLER_EPOCH_UNKNOWN".
Definition MIN_LEASE_SECONDS : Z := 10.
Definition MAX_LEASE_SECONDS : Z := 600.
Definition MAX_CONTROLLER_EPOCH : Z := 2 ^ 53.

(** [HOLDER_ID.fullmatch]: [a-z0-9][a-z0-9_.-]{0,63} *)
Definition is_low_alnum (c : ascii) : bool :=
  let n := N_of_ascii c in ((97 <=? n) && (n <=? 122) || (48 <=? n) && (n <=? 57))%N.
Definition is_holder_char (c : ascii) : bool :=
  is_low_alnum c || Ascii.eqb c "_" || Ascii.eqb c "." || Ascii.eqb c "-".
Fixpoint all_chars (p : ascii → bool) (s : string) : bool :=
  match s with EmptyString => true | String c s' => p c && all_chars p s' end.
Definition HOLDER_ID (s : string) : bool :=
  match s with
  | EmptyString => false
  | String c s' => is_low_alnum c && all_chars is_holder_char s' && (String.length s' <=? 63)%nat
  end.

(** One row of [ai_controller_epochs], under its epoch *)
Record epoch_row : Type := mkEpochRow {
  ep_holder_id : string;
  granted_at : Z;
  renewed_at : Z;
  lease_expires_at : Z;
}.
Notation epoch_table := (gmap Z epoch_row).

Record EpochGrant : Type := mkGrant {
  g_epoch : Z;
  g_holder_id : string;
  g_lease_expires_at : Z;
  g_renewed : bool;
}.

(** [type(value) is int and 1 <= value <= MAX_CONTROLLER_EPOCH] *)
Definition is_epoch_number (v : json) : bool :=
  match v with JInt z => (1 <=? z) && (z <=? MAX_CONTROLLER_EPOCH) | _ => false end.

Definition check_grant_input {S} (holder_id current_epoch lease_seconds : json) : M S unit :=
  require (match holder_id with JStr h => HOLDER_ID h | _ => false end) ValueError ;;
  require (match current_epoch with JNull => true | v => is_epoch_number v end) ValueError ;;
  require (match lease_seconds with
           | JInt z => (MIN_LEASE_SECONDS <=? z) && (z <=? MAX_LEASE_SECONDS)
           | _ => false end) ValueError.

(** [ORDER BY epoch DESC LIMIT 1] *)
Definition latest_epoch (t : epoch_table) : option (Z * epoch_row) :=
  e ← max_of fst (map_to_list t);
  row ← t !! e;
  Some (e, row).

Section epochs.
Context {T : Type} `{HasTable T epoch_table}.

Definition grant_in_tx (holder_id : string) (current_epoch : option Z) (lease_seconds now : Z)
    : M (tx T) EpochGrant :=
  t ← read_table;
  let latest := latest_epoch t in
  require (negb match current_epoch with
           | Some c => match latest with None => true | Some (e, _) => e <? c end
           | None => false end) (EpochRefused EPOCH_UNKNOWN) ;;
  let expires := now + seconds lease_seconds in
  match latest with
  | Some (e, row) =>
      if now <? lease_expires_at row then
        require (String.eqb (ep_holder_id row) holder_id && bool_decide (current_epoch = Some e))
          (EpochRefused EPOCH_HELD) ;;
        write_table (<[e := mkEpochRow (ep_holder_id row) (granted_at row) now expires]>) ;;
        mret (mkGrant e holder_id expires true)
      else
        write_table (<[e + 1 := mkEpochRow holder_id now now expires]>) ;;
        mret (mkGrant (e + 1) holder_id expires false)
  | None =>
      write_table (<[1 := mkEpochRow holder_id now now expires]>) ;;
      mret (mkGrant 1 holder_id expires false)
  end.

Definition grant (holder_id current_epoch lease_seconds : json) (now : datetime)
    : M (DomainJournal T) EpochGrant :=
  check_grant_input holder_id current_epoch lease_seconds ;;
  now ← as_utc_strict now;
  match holder_id, lease_seconds with
  | JStr holder, JInt lease =>
      mutate_batch_work
        (grant_in_tx holder (match current_epoch with JInt c => Some c | _ => None end) lease now)
  | _, _ => raise ValueError
  end.

Definition require_current (epoch : option Z) : M (DomainJournal T) unit :=
  match epoch with
  | None => raise (EpochRefused EPOCH_MISSING)
  | Some e =>
      t ← read_store;
      require (match latest_epoch t with None => false | Some (l, _) => e =? l end)
        (EpochRefused EPOCH_STALE)
  end.

(** What a grant decides, on the table alone. *)
Definition granted (holder_id : string) (current_epoch : option Z) (lease now : Z) (t : epoch_table)
    : res (EpochGrant * epoch_table) :=
  let expires := now + seconds lease in
  match latest_epoch t with
  | None =>
      if bool_decide (current_epoch = None)
      then Ok (mkGrant 1 holder_id expires false, <[1 := mkEpochRow holder_id now now expires]> t)
      else Raise (EpochRefused EPOCH_UNKNOWN)
  | Some (e, row) =>
      if match current_epoch with Some c => e <? c | None => false end
      then Raise (EpochRefused EPOCH_UNKNOWN)
      else if now <? lease_expires_at row
      then if String.eqb (ep_holder_id row) holder_id && bool_decide (current_epoch = Some e)
           then Ok (mkGrant e holder_id expires true,
                    <[e := mkEpochRow (ep_holder_id row) (granted_at row) now expires]> t)
           else Raise (EpochRefused EPOCH_HELD)
      else Ok (mkGrant (e + 1) holder_id expires false,
               <[e + 1 := mkEpochRow holder_id now now expires]> t)
  end.

Lemma grant_in_tx_run holder current lease now (t : tx T) :
  grant_in_tx holder current lease now t =
    match granted holder current lease now (table_of (tx_db t)) with
    | Ok (g, t') => (Ok g, mkTx (with_table (λ _, t') (tx_db t)) (tx_events t))
    | Raise e => (Raise e, t)
    end.
Proof.
  unfold grant_in_tx, granted. run.
  destruct (latest_epoch _) as [[e row]|].
  - destruct current as [c|]; simpl.
    + destruct (e <? c); simpl; [done|]. destruct (now <? lease_expires_at row); [|done].
      run. by destruct (_ && _)%bool.
    + destruct (now <? lease_expires_at row); [|done].
      run. by destruct (_ && _)%bool.
  - destruct current as [c|]; [by rewrite bool_decide_eq_false_2|done].
Qed.

Lemma lawful_grant holder current lease now : lawful (grant_in_tx holder current lease now).
Proof.
  apply lawful_steady. intros t _. unfold final. rewrite grant_in_tx_run.
  destruct (granted _ _ _ _ _) as [[g t']|e]; [|apply rtc_refl]. simpl.
  apply rtc_once, (tx_producer _ t).
Qed.

(** The journal after a committed change of the table. *)
Definition epochs_written (t : epoch_table) (j : DomainJournal T) : DomainJournal T :=
  mkJournal (with_table (λ _, t) (jdb j)) (latest_committed_cursor j).

Lemma grant_run holder current lease now (j : DomainJournal T) :
  mutate_batch_work (grant_in_tx holder current lease now) j =
    match granted holder current lease now (table_of (jdb j)) with
    | Ok (g, t') => (Ok g, epochs_written t' j)
    | Raise e => (Raise e, j)
    end.
Proof.
  rewrite mutate_batch_work_spec. cbv zeta. unfold outcome, final.
  rewrite grant_in_tx_run. cbn [tx_db].
  destruct (granted _ _ _ _ _) as [[g t']|e]; simpl; [done|]. by rewrite rollback_id; destruct j.
Qed.

(** Every branch of a grant request.  Malformed input and a naive clock raise
    before anything is read; otherwise the newest lease decides: an epoch the
    trader never granted is refused, a lease still running is renewed for its own
    holder at its own epoch and refused to anybody else, and an expired (or first)
    one yields the next number, never a used one.  A refusal changes nothing, no
    outcome adds a journal event, and the row the grant reports is the newest. *)
Theorem grant_spec (j : DomainJournal T) holder current lease now off :
  let input_ok := HOLDER_ID holder && (MIN_LEASE_SECONDS <=? lease) && (lease <=? MAX_LEASE_SECONDS)
    && match current with Some c => (1 <=? c) && (c <=? MAX_CONTROLLER_EPOCH) | None => true end in
  grant (JStr holder) (jopt JInt current) (JInt lease) (Aware now off) j =
    if negb input_ok then (Raise ValueError, j)
    else match granted holder current lease now (table_of (jdb j)) with
    | Ok (g, t') => (Ok g, epochs_written t' j)
    | Raise e => (Raise e, j)
    end.
Proof.
  cbv zeta. unfold grant, check_grant_input. rewrite <-grant_run. run.
  destruct (HOLDER_ID holder); [|done]. cbn [andb]. run.
  destruct current as [c|]; cbn [jopt is_epoch_number].
  - by destruct (1 <=? c), (c <=? MAX_CONTROLLER_EPOCH), (MIN_LEASE_SECONDS <=? lease),
      (lease <=? MAX_LEASE_SECONDS).
  - by destruct (MIN_LEASE_SECONDS <=? lease), (lease <=? MAX_LEASE_SECONDS).
Qed.
End epochs.

(** *** The newest epoch *)
Lemma latest_Some (t : epoch_table) e row :
  latest_epoch t = Some (e, row) ↔
  t !! e = Some row ∧ ∀ e' row', t !! e' = Some row' → e' ≤ e.
Proof.
  unfold latest_epoch. split.
  - destruct (max_of fst (map_to_list t)) as [m|] eqn:Em; [|done]. simpl.
    destruct (t !! m) as [r|] eqn:Er; [|done]. simpl. intros [= -> ->]. split; [done|].
    intros e' row' He'. apply elem_of_map_to_list in He'. by apply (max_of_ge _ _ _ _ Em He').
  - intros [He Hmax]. pose proof He as Hin. apply elem_of_map_to_list in Hin.
    destruct (max_of fst (map_to_list t)) as [m|] eqn:Em.
    + pose proof (max_of_ge _ _ _ _ Em Hin) as Hle. simpl in Hle.
      destruct (max_of_elem _ _ _ Em) as ([e' r'] & Hin' & Hm). simpl in Hm. subst e'.
      apply elem_of_map_to_list in Hin'. specialize (Hmax _ _ Hin').
      assert (m = e) as -> by lia. simpl. by rewrite He.
    + apply max_of_None in Em. rewrite Em in Hin. set_solver.
Qed.

Lemma latest_None (t : epoch_table) : latest_epoch t = None → t = ∅.
Proof.
  unfold latest_epoch. destruct (max_of fst (map_to_list t)) as [m|] eqn:Em.
  - destruct (max_of_elem _ _ _ Em) as ([e' r'] & Hin' & Hm). simpl in Hm. subst e'.
    apply elem_of_map_to_list in Hin'. simpl. by rewrite Hin'.
  - intros _. apply max_of_None in Em. by apply map_to_list_empty_iff.
Qed.

(** ** [Leadership] *)
Definition LEASE_SAFETY_SECONDS : Z := seconds 5.
Definition LOST_TO_ANOTHER : list string := ["CONTROLLER_EPOCH_HELD"; "CONTROLLER_EPOCH_UNKNOWN"]%string.

Record HeldEpoch : Type := mkHeld {
  h_epoch : Z;
  h_lease_expires_at : Z;
  local_deadline : Z;
}.

(** One row of [ai_held_epochs], under its epoch *)
Record held_row : Type := mkHeldRow {
  hr_holder_id : string;
  acquired_at : Z;
  hr_renewed_at : Z;
  hr_lease_expires_at : Z;
  lost_at : option Z;
  lost_reason : option string;
}.

Record Leadership : Type := mkLeadership {
  held : option HeldEpoch;
  last_epoch : option Z;
  ai_held_epochs : gmap Z held_row;
}.

(** [_parse_grant] *)
Definition parse_grant (reply : json) : res (Z * Z) :=
  match reply with
  | JObj d =>
      match assoc "epoch" d, assoc "lease_expires_at" d with
      | Some (JInt epoch), Some (JStr text) =>
          if epoch <? 1 then Raise (RpcOutcomeUnknown "GRANT_REPLY_MALFORMED")
          else match parse_datetime text with
          | Some (Aware expires _) => Ok (epoch, expires)
          | _ => Raise (RpcOutcomeUnknown "GRANT_REPLY_MALFORMED")
          end
      | _, _ => Raise (RpcOutcomeUnknown "GRANT_REPLY_MALFORMED")
      end
  | _ => Raise (RpcOutcomeUnknown "GRANT_REPLY_MALFORMED")
  end.

Definition new_leadership (rows : gmap Z held_row) : Leadership := mkLeadership None None rows.

Definition current_epoch (monotonic : Z) (l : Leadership) : option Z :=
  match held l with
  | None => None
  | Some h => if local_deadline h <=? monotonic then None else Some (h_epoch h)
  end.

Definition set_held (h : option HeldEpoch) : M Leadership unit :=
  modify (λ l, mkLeadership h (last_epoch l) (ai_held_epochs l)).
Definition set_last_epoch (e : option Z) : M Leadership unit :=
  modify (λ l, mkLeadership (held l) e (ai_held_epochs l)).
Definition write_held_rows (f : gmap Z held_row → gmap Z held_row) : M Leadership unit :=
  modify (λ l, mkLeadership (held l) (last_epoch l) (f (ai_held_epochs l))).

(** [UPDATE ... SET lost_at, lost_reason WHERE epoch = ? AND lost_at IS NULL] *)
Definition lose (epoch now : Z) (reason : string) (rows : gmap Z held_row) : gmap Z held_row :=
  alter (λ r, match lost_at r with
              | None => mkHeldRow (hr_holder_id r) (acquired_at r) (hr_renewed_at r)
                          (hr_lease_expires_at r) (Some now) (Some reason)
              | Some _ => r end) epoch rows.

Definition mark_lost (reason : string) (now : Z) : M Leadership unit :=
  h ← gets held;
  set_held None ;;
  match h with
  | None => mret tt
  | Some h => write_held_rows (lose (h_epoch h) now reason)
  end.

Definition on_stale (code : string) (now : Z) : M Leadership unit := mark_lost code now.

Section leadership.
(** The process's holder id and the lease it asks for. *)
Context (holder : string) (lease_seconds : Z).

(** The body [grant_once] sends. *)
Definition grant_body (l : Leadership) : json * json * json :=
  (JStr holder, jopt JInt (last_epoch l), JInt lease_seconds).

Definition persist (epoch expires now : Z) : M Leadership unit :=
  previous ← gets last_epoch;
  write_held_rows (λ rows,
    let rows := match previous with
      | Some p => if p =? epoch then rows else lose p now "SUPERSEDED" rows
      | None => rows
      end in
    match rows !! epoch with
    | Some r => <[epoch := mkHeldRow holder (acquired_at r) now expires None None]> rows
    | None => <[epoch := mkHeldRow holder now now expires None None]> rows
    end).

(** [grant_once] from its reply: [started] is the monotonic clock before the
    request, [now] the wall clock. *)
Definition grant_once (started now : Z) (reply : res json) : M Leadership Z :=
  match reply with
  | Raise (RpcRefused code) =>
      if bool_decide (code ∈ LOST_TO_ANOTHER) then
        (if String.eqb code "CONTROLLER_EPOCH_UNKNOWN" then set_last_epoch None else mret tt) ;;
        mark_lost code now ;;
        raise (NotLeader code)
      else raise (RpcRefused code)
  | Raise e => raise e
  | Ok reply =>
      match parse_grant reply with
      | Raise e => raise e
      | Ok (epoch, expires) =>
          persist epoch expires now ;;
          set_last_epoch (Some epoch) ;;
          set_held (Some (mkHeld epoch expires (started + seconds lease_seconds - LEASE_SAFETY_SECONDS))) ;;
          mret epoch
      end
  end.

(** One pass of a retry loop: its clocks and its reply. *)
Record attempt : Type := mkAttempt { at_started : Z; at_now : Z; at_reply : res json }.

Definition retried (e : exc) : bool :=
  match e with NotLeader _ | RpcNotSent _ | RpcOutcomeUnknown _ => true | _ => false end.

(** [acquire] until granted, or until stopped (the attempts end). *)
Fixpoint acquire (attempts : list attempt) : M Leadership (option Z) :=
  match attempts with
  | [] => mret None
  | a :: later =>
      try_except
        (epoch ← grant_once (at_started a) (at_now a) (at_reply a); mret (Some epoch))
        (λ e, if retried e then Some (acquire later) else None)
  end.

(** [run_renewals]: each round first drops an epoch past its deadline. *)
Fixpoint run_renewals (rounds : list (Z * attempt)) : M Leadership unit :=
  match rounds with
  | [] => mret tt
  | (monotonic, a) :: later =>
      h ← gets held;
      match h with
      | Some h => if local_deadline h <=? monotonic
                  then mark_lost "LEASE_EXPIRED_LOCALLY" (at_now a) else mret tt
      | None => mret tt
      end ;;
      try_except (grant_once (at_started a) (at_now a) (at_reply a) ;; mret tt)
        (λ e, if retried e then Some (mret tt) else None) ;;
      run_renewals later
  end.
End leadership.

(** [_grant_ai_controller_epoch_handler]: the reply of the RPC. *)
Definition grant_reply (r : res EpochGrant) : res json :=
  match r with
  | Ok g => Ok (JObj [("epoch", JInt (g_epoch g));
                      ("lease_expires_at", JStr (isoformat (g_lease_expires_at g)))])
  | Raise (EpochRefused code) => Raise (RpcRefused code)
  | Raise e => Raise (RpcRefused "INTERNAL")
  end.

(** ** The trader and any number of processes

    Time is the trader's clock; a process's monotonic clock runs at the same
    rate from its own origin.  Requests and replies stay in flight for ever: they
    may be handled late, out of order, twice or never. *)
Section system.
Context {T : Type} `{HasTable T epoch_table}.
Context (lease_of : string → Z) (origin : string → Z).

Record request : Type := mkRequest { rq_holder : string; rq_current : option Z; rq_sent : Z }.
Record reply : Type := mkReply { rp_holder : string; rp_sent : Z; rp_result : res json }.

Record system : Type := mkSystem {
  clock : Z;
  trader : DomainJournal T;
  requests : list request;
  replies : list reply;
  processes : gmap string Leadership;
}.

(** What the process [h] reads from its monotonic clock at time [t]. *)
Definition monotonic (h : string) (t : Z) : Z := t - origin h.

Definition handle (rq : request) (s : system) : res EpochGrant * DomainJournal T :=
  grant (JStr (rq_holder rq)) (jopt JInt (rq_current rq)) (JInt (lease_of (rq_holder rq)))
    (Aware (clock s) 0) (trader s).

Definition receive (h : string) (sent now : Z) (r : res json) (p : Leadership) : Leadership :=
  final (grant_once h (lease_of h) (monotonic h sent) now r) p.

Inductive sys_step : system → system → Prop :=
  | step_tick now s : clock s ≤ now →
      sys_step s (mkSystem now (trader s) (requests s) (replies s) (processes s))
  | step_start h rows s : processes s !! h = None →
      sys_step s (mkSystem (clock s) (trader s) (requests s) (replies s)
                    (<[h := new_leadership rows]> (processes s)))
  | step_send h p s : processes s !! h = Some p →
      sys_step s (mkSystem (clock s) (trader s)
                    (mkRequest h (last_epoch p) (clock s) :: requests s) (replies s) (processes s))
  | step_handle rq s : rq ∈ requests s →
      sys_step s (mkSystem (clock s) (handle rq s).2 (requests s)
                    (mkReply (rq_holder rq) (rq_sent rq) (grant_reply (handle rq s).1) :: replies s)
                    (processes s))
  | step_receive rp p now s : rp ∈ replies s → processes s !! rp_holder rp = Some p →
      sys_step s (mkSystem (clock s) (trader s) (requests s) (replies s)
                    (<[rp_holder rp := receive (rp_holder rp) (rp_sent rp) now (rp_result rp) p]> (processes s)))
  (* a request that was not sent, or whose outcome is unknown *)
  | step_no_reply h p e sent now s : processes s !! h = Some p →
      sys_step s (mkSystem (clock s) (trader s) (requests s) (replies s)
                    (<[h := receive h sent now (Raise e) p]> (processes s)))
  | step_lost h p reason now s : processes s !! h = Some p →
      sys_step s (mkSystem (clock s) (trader s) (requests s) (replies s)
                    (<[h := final (mark_lost reason now) p]> (processes s))).

Definition initial (now : Z) (j : DomainJournal T) : system := mkSystem now j [] [] ∅.

Definition epochs_of (s : system) : epoch_table := table_of (jdb (trader s)).

(** The row of an epoch promises the holder's lease to run until [until]. *)
Definition promised (s : system) (h : string) (e until : Z) : Prop :=
  ∃ row, epochs_of s !! e = Some row ∧ ep_holder_id row = h ∧ until ≤ lease_expires_at row.

Record sys_ok (s : system) : Prop := {
  so_superseded e e' row row' : epochs_of s !! e = Some row → epochs_of s !! e' = Some row' →
    e < e' → lease_expires_at row ≤ clock s;
  so_lease e row : epochs_of s !! e = Some row →
    lease_expires_at row ≤ clock s + seconds (lease_of (ep_holder_id row));
  so_requests rq : rq ∈ requests s → rq_sent rq ≤ clock s;
  so_replies rp j e expires : rp ∈ replies s → rp_result rp = Ok j → parse_grant j = Ok (e, expires) →
    promised s (rp_holder rp) e (rp_sent rp + seconds (lease_of (rp_holder rp)));
  so_held h p he : processes s !! h = Some p → held p = Some he →
    promised s h (h_epoch he) (local_deadline he + origin h + LEASE_SAFETY_SECONDS);
}.

Lemma parse_granted epoch text e expires :
  parse_grant (JObj [("epoch", JInt epoch); ("lease_expires_at", JStr text)]) = Ok (e, expires) →
  e = epoch.
Proof.
  unfold parse_grant. cbn [assoc String.eqb Ascii.eqb Bool.eqb].
  destruct (epoch <? 1); [done|]. destruct (parse_datetime text) as [[us|us off]|]; congruence.
Qed.

(** What one process does leaves the trader alone. *)
Lemma promised_same s s' h e u : trader s' = trader s → promised s h e u → promised s' h e u.
Proof. unfold promised, epochs_of. by intros ->. Qed.

(** What [held] can be after a reply. *)
Lemma receive_held h sent now r p he :
  held (receive h sent now r p) = Some he →
  held p = Some he ∨
  ∃ j e expires, r = Ok j ∧ parse_grant j = Ok (e, expires) ∧ h_epoch he = e ∧
    local_deadline he = monotonic h sent + seconds (lease_of h) - LEASE_SAFETY_SECONDS.
Proof.
  unfold receive, final, grant_once. destruct r as [j|e].
  - destruct (parse_grant j) as [[e expires]|?] eqn:Hj; [|by left].
    unfold persist, set_last_epoch, set_held, write_held_rows. run. simpl.
    intros [= <-]. right. by exists j, e, expires.
  - destruct e; try (by left). case_bool_decide; [|by left].
    unfold mark_lost, set_held, set_last_epoch, write_held_rows. rewrite bind_if.
    destruct (String.eqb _ _); run; simpl; destruct (held p); by run.
Qed.

Lemma mark_lost_held reason now p : held (final (mark_lost reason now) p) = None.
Proof. unfold final, mark_lost, set_held, write_held_rows. run. by destruct (held p). Qed.

(** A grant only extends its own holder's newest lease or follows an expired one. *)
Lemma granted_ok h current lease now t g t' :
  granted h current lease now t = Ok (g, t') →
  (∃ row', t' = <[g_epoch g := row']> t ∧ ep_holder_id row' = h ∧
           lease_expires_at row' = now + seconds lease) ∧
  (∀ e row, t !! e = Some row → e ≤ g_epoch g) ∧
  (∀ row, t !! g_epoch g = Some row → ep_holder_id row = h) ∧
  (t !! g_epoch g = None → ∀ l lrow, latest_epoch t = Some (l, lrow) → lease_expires_at lrow ≤ now).
Proof.
  unfold granted. destruct (latest_epoch t) as [[l lrow]|] eqn:Hl.
  - pose proof (proj1 (latest_Some t l lrow) Hl) as [Hlt Hmax].
    destruct (match current with Some c => l <? c | None => false end); [done|].
    destruct (Z.ltb_spec now (lease_expires_at lrow)) as [Hrun|Hexp].
    + destruct (String.eqb_spec (ep_holder_id lrow) h) as [Hh|]; [|done]. simpl.
      case_bool_decide; [|done]. intros [= <- <-]. simpl. split_and!; [by eexists|done| |congruence].
      intros row Hrow. by simplify_eq.
    + intros [= <- <-]. simpl.
      assert (t !! (l + 1) = None) as Hn.
      { destruct (t !! (l + 1)) eqn:E; [|done]. specialize (Hmax _ _ E). lia. }
      rewrite Hn. split_and!; [by eexists| |done|].
      * intros e row He. specialize (Hmax _ _ He). lia.
      * intros _ l' lrow' Hl'. by simplify_eq.
  - apply latest_None in Hl as ->. case_bool_decide; [|done]. intros [= <- <-]. simpl.
    rewrite lookup_empty. split_and!; [by eexists| |done|done].
    intros e row He. by rewrite lookup_empty in He.
Qed.

Lemma handle_table rq s :
  let '(r, j') := handle rq s in
  match r with
  | Ok g => granted (rq_holder rq) (rq_current rq) (lease_of (rq_holder rq)) (clock s) (epochs_of s)
            = Ok (g, table_of (jdb j'))
  | Raise _ => j' = trader s
  end.
Proof.
  unfold handle. rewrite grant_spec. destruct (negb _); [done|]. fold (epochs_of s).
  destruct (granted _ _ _ _ _) as [[g t']|e]; [|done]. simpl. by rewrite table_of_with.
Qed.

Lemma latest_exists (t : epoch_table) e row :
  t !! e = Some row → ∃ l lrow, latest_epoch t = Some (l, lrow) ∧ e ≤ l.
Proof.
  intros He. destruct (latest_epoch t) as [[l lrow]|] eqn:Hl.
  - exists l, lrow. split; [done|]. by eapply (proj2 (proj1 (latest_Some t l lrow) Hl)).
  - apply latest_None in Hl as ->. by rewrite lookup_empty in He.
Qed.

Lemma sys_ok_initial now j :
  (∀ e row, table_of (jdb j) !! e = Some row → lease_expires_at row ≤ now) →
  (∀ e row, table_of (jdb j) !! e = Some row → 0 ≤ lease_of (ep_holder_id row)) →
  sys_ok (initial now j).
Proof.
  intros Ht Hl. split; unfold epochs_of; simpl.
  - intros e e' row row' He _ _. by eapply Ht.
  - intros e row He. specialize (Ht _ _ He). specialize (Hl _ _ He). unfold seconds. lia.
  - intros rq Hrq. by apply not_elem_of_nil in Hrq.
  - intros rp r e expires Hrp. by apply not_elem_of_nil in Hrp.
  - intros h p he Hp. by rewrite lookup_empty in Hp.
Qed.

(** The trader's table after it handled a request. *)
Section handled.
Context (rq : request) (s s' : system).
Hypothesis Hok : sys_ok s.
Hypothesis Hclock : clock s' = clock s.
Hypothesis Htrader : trader s' = (handle rq s).2.

Lemma handled_table :
  (∃ e, (handle rq s).1 = Raise e) ∧ epochs_of s' = epochs_of s ∨
  ∃ g, (handle rq s).1 = Ok g ∧
    granted (rq_holder rq) (rq_current rq) (lease_of (rq_holder rq)) (clock s) (epochs_of s)
    = Ok (g, epochs_of s').
Proof.
  pose proof (handle_table rq s) as H1. unfold epochs_of at 1 4. rewrite Htrader.
  destruct (handle rq s) as [[g|e] j']; simpl in *; [right; by exists g|left; split; [by eexists|by rewrite H1]].
Qed.

Lemma handled_promised h e u : promised s h e u → promised s' h e u.
Proof.
  intros (row & Hrow & Hh & Hu). destruct handled_table as [[_ E]|(g & _ & Hg)].
  - exists row. by rewrite E.
  - destruct (granted_ok _ _ _ _ _ _ _ Hg) as ((row' & Ht' & Hh' & He') & _ & Hown & _).
    unfold promised. rewrite Ht'. destruct (decide (e = g_epoch g)) as [->|Hne].
    + exists row'. rewrite lookup_insert_eq. specialize (Hown _ Hrow).
      pose proof (so_lease _ Hok _ _ Hrow) as Hl. rewrite Hown in Hl.
      split_and!; [done|congruence|lia].
    + exists row. by rewrite lookup_insert_ne.
Qed.

Lemma handled_superseded e e' row row' :
  epochs_of s' !! e = Some row → epochs_of s' !! e' = Some row' → e < e' →
  lease_expires_at row ≤ clock s.
Proof.
  destruct handled_table as [[_ ->]|(g & _ & Hg)]; [apply (so_superseded _ Hok)|].
  destruct (granted_ok _ _ _ _ _ _ _ Hg) as ((rowg & Ht' & _ & _) & Hle & _ & Hexp).
  rewrite Ht'. intros He He' Hlt. apply lookup_insert_Some in He as [[<- <-]|[Hne He]].
  { apply lookup_insert_Some in He' as [[<- <-]|[_ He']]; [lia|]. specialize (Hle _ _ He'). lia. }
  apply lookup_insert_Some in He' as [[<- <-]|[_ He']]; [|by apply (so_superseded _ Hok e e' row row')].
  destruct (epochs_of s !! g_epoch g) as [rg|] eqn:Eg; [by apply (so_superseded _ Hok e (g_epoch g) row rg)|].
  destruct (latest_exists _ _ _ He) as (l & lrow & Hl & Hel).
  specialize (Hexp eq_refl _ _ Hl). apply latest_Some in Hl as [Hl Hmax].
  destruct (decide (e = l)) as [->|]; [by simplify_eq|].
  apply (so_superseded _ Hok e l row lrow); [done|done|lia].
Qed.

Lemma handled_lease e row :
  epochs_of s' !! e = Some row →
  lease_expires_at row ≤ clock s + seconds (lease_of (ep_holder_id row)).
Proof.
  destruct handled_table as [[_ ->]|(g & _ & Hg)]; [apply (so_lease _ Hok)|].
  destruct (granted_ok _ _ _ _ _ _ _ Hg) as ((rowg & Ht' & Hh & He) & _).
  rewrite Ht'. intros [[<- <-]|[_ Hrow]]%lookup_insert_Some; [rewrite Hh, He; lia|by apply (so_lease _ Hok) in Hrow].
Qed.

Lemma handled_reply j e expires :
  rq ∈ requests s → grant_reply (handle rq s).1 = Ok j → parse_grant j = Ok (e, expires) →
  promised s' (rq_holder rq) e (rq_sent rq + seconds (lease_of (rq_holder rq))).
Proof.
  intros Hrq Hr Hj. destruct handled_table as [[[err He] _]|(g & Hres & Hg)].
  { rewrite He in Hr. by destruct err. }
  rewrite Hres in Hr. injection Hr as <-.
  apply parse_granted in Hj as ->.
  destruct (granted_ok _ _ _ _ _ _ _ Hg) as ((row & Ht' & Hh & He) & _).
  exists row. rewrite Ht', lookup_insert_eq. split_and!; [done|done|].
  pose proof (so_requests _ Hok _ Hrq). lia.
Qed.
End handled.

(** A step of the processes and the network, the trader's table and clock kept. *)
Lemma sys_ok_processes s s' :
  clock s' = clock s → trader s' = trader s → replies s' = replies s →
  (∀ rq, rq ∈ requests s' → rq ∈ requests s ∨ rq_sent rq ≤ clock s) →
  (∀ h p he, processes s' !! h = Some p → held p = Some he →
     promised s h (h_epoch he) (local_deadline he + origin h + LEASE_SAFETY_SECONDS)) →
  sys_ok s → sys_ok s'.
Proof.
  intros Hc Ht Hr Hq Hp Hok. destruct Hok as [H1 H2 H3 H4 H5].
  split; unfold epochs_of in *; rewrite ?Hc, ?Ht, ?Hr; try done.
  - intros rq Hrq. destruct (Hq rq Hrq); [by apply H3|done].
  - intros rp j e expires Hrp Hres Hj. apply (promised_same s); [done|]. by eapply H4.
  - intros h p he Hpr Hhe. apply (promised_same s); [done|]. by eapply Hp.
Qed.

Lemma sys_ok_received s h p sent now r :
  sys_ok s → processes s !! h = Some p →
  (∀ j e expires, r = Ok j → parse_grant j = Ok (e, expires) →
     promised s h e (sent + seconds (lease_of h))) →
  ∀ h' p' he, <[h := receive h sent now r p]> (processes s) !! h' = Some p' → held p' = Some he →
  promised s h' (h_epoch he) (local_deadline he + origin h' + LEASE_SAFETY_SECONDS).
Proof.
  intros Hok Hp Hr h' p' he [[<- <-]|[_ Hp']]%lookup_insert_Some Hhe; [|by eapply (so_held _ Hok)].
  apply receive_held in Hhe as [Hhe|(j & e & expires & -> & Hj & <- & ->)]; [by eapply (so_held _ Hok)|].
  destruct (Hr j _ expires eq_refl Hj) as (row & Hrow & Hh & Hu). exists row. split_and!; [done|done|].
  unfold monotonic. lia.
Qed.

Lemma sys_ok_step s s' : sys_step s s' → sys_ok s → sys_ok s'.
Proof.
  destruct 1 as [now s Hn|h rows s Hh|h p s Hp|rq s Hrq|rp p now s Hrp Hp|h p e sent now s Hp|h p reason now s Hp];
    intros Hok.
  - destruct Hok as [H1 H2 H3 H4 H5]. split; unfold epochs_of in *; simpl; try done.
    + intros e e' row row' He He' Hlt. specialize (H1 e e' row row' He He' Hlt). lia.
    + intros e row He. specialize (H2 e row He). lia.
    + intros rq Hrq. specialize (H3 rq Hrq). lia.
  - apply (sys_ok_processes s); try done; [by left|].
    simpl. intros h' p he [[<- <-]|[_ Hp]]%lookup_insert_Some Hhe; [done|by eapply (so_held _ Hok)].
  - apply (sys_ok_processes s); try done; [|apply (so_held _ Hok)].
    intros rq [->|Hrq]%elem_of_cons; [right; simpl; lia|by left].
  - set (s' := mkSystem _ _ _ _ _). split; simpl.
    + intros e e' row row'. by apply (handled_superseded rq s s' Hok).
    + intros e row. by apply (handled_lease rq s s' Hok).
    + apply (so_requests _ Hok).
    + intros rp j e expires [->|Hrp]%elem_of_cons Hres Hj; simpl in *.
      * by apply (handled_reply rq s s' Hok eq_refl j e expires).
      * apply (handled_promised rq s s' Hok); [done..|]. by eapply (so_replies _ Hok).
    + intros h p he Hp Hhe. apply (handled_promised rq s s' Hok); [done..|]. by eapply (so_held _ Hok).
  - apply (sys_ok_processes s); try done; [by left|].
    apply sys_ok_received; [done|done|]. intros j e expires Hres Hj. by eapply (so_replies _ Hok).
  - apply (sys_ok_processes s); try done; [by left|].
    apply sys_ok_received; [done|done|]. intros j e' expires [=].
  - apply (sys_ok_processes s); try done; [by left|].
    simpl. intros h' p' he [[<- <-]|[_ Hp']]%lookup_insert_Some Hhe; [|by eapply (so_held _ Hok)].
    by rewrite mark_lost_held in Hhe.
Qed.

Lemma sys_ok_steps s s' : rtc sys_step s s' → sys_ok s → sys_ok s'.
Proof. induction 1; eauto using sys_ok_step. Qed.

(** C11. One leader.  Whatever was delayed, lost, repeated or reordered, a process
    whose [current_epoch] is still [Some e] holds the trader's newest epoch, its
    row names this process, its lease runs for at least the safety margin, and
    the trader's own check accepts it; so two processes never lead at once. *)
Theorem one_leader now0 j s h p e :
  (∀ e row, table_of (jdb j) !! e = Some row → lease_expires_at row ≤ now0) →
  (∀ e row, table_of (jdb j) !! e = Some row → 0 ≤ lease_of (ep_holder_id row)) →
  rtc sys_step (initial now0 j) s →
  processes s !! h = Some p → current_epoch (monotonic h (clock s)) p = Some e →
  (∃ row, latest_epoch (epochs_of s) = Some (e, row) ∧ ep_holder_id row = h ∧
          clock s + LEASE_SAFETY_SECONDS < lease_expires_at row) ∧
  require_current (Some e) (trader s) = (Ok tt, trader s) ∧
  ∀ h' p' e', processes s !! h' = Some p' →
    current_epoch (monotonic h' (clock s)) p' = Some e' → h' = h ∧ e' = e.
Proof.
  intros Ht Hl Hs. pose proof (sys_ok_steps _ _ Hs (sys_ok_initial _ _ Ht Hl)) as Hok.
  assert (∀ h p e, processes s !! h = Some p → current_epoch (monotonic h (clock s)) p = Some e →
    ∃ row, latest_epoch (epochs_of s) = Some (e, row) ∧ ep_holder_id row = h ∧
           clock s + LEASE_SAFETY_SECONDS < lease_expires_at row) as Hlead.
  { clear h p e. intros h p e Hp. unfold current_epoch.
    destruct (held p) as [he|] eqn:Hhe; [|done].
    destruct (Z.leb_spec (local_deadline he) (monotonic h (clock s))) as [|Hd]; [done|]. intros [= <-].
    destruct (so_held _ Hok h p he Hp Hhe) as (row & Hrow & Hh & Hu). unfold monotonic in Hd.
    exists row. split_and!; [|done|lia].
    apply latest_Some. split; [done|]. intros e' row' He'.
    destruct (Z.le_gt_cases e' (h_epoch he)) as [|Hlt]; [done|].
    pose proof (so_superseded _ Hok _ _ _ _ Hrow He' Hlt). unfold LEASE_SAFETY_SECONDS, seconds in *. lia. }
  intros Hp He. destruct (Hlead h p e Hp He) as (row & Hrow & Hh & Hx). split_and!.
  - by exists row.
  - unfold require_current. run. fold (epochs_of s). rewrite Hrow. simpl. by rewrite Z.eqb_refl.
  - intros h' p' e' Hp' He'. destruct (Hlead h' p' e' Hp' He') as (row' & Hrow' & Hh' & _).
    rewrite Hrow in Hrow'. injection Hrow' as <- <-. by subst.
Qed.
End system.

(** ** Concrete runs *)
Definition ex_lease : string → Z := λ _, 60.
Definition ex_origin : string → Z := λ h, if String.eqb h "ai-1" then 0 else 7.
Definition ex_s0 : system (T := epoch_table) := initial 0 (empty_journal (mkPconn ∅ ∅)).
Definition ex_s1 := mkSystem (clock ex_s0) (trader ex_s0) (requests ex_s0) (replies ex_s0)
  (<["ai-1"%string := new_leadership ∅]> (processes ex_s0)).
Definition ex_rq : request := mkRequest "ai-1" None 0.
Definition ex_s2 := mkSystem (clock ex_s1) (trader ex_s1) (ex_rq :: requests ex_s1) (replies ex_s1)
  (processes ex_s1).
Definition ex_rp : reply := mkReply "ai-1" 0 (grant_reply (handle ex_lease ex_rq ex_s2).1).
Definition ex_s3 := mkSystem (clock ex_s2) (handle ex_lease ex_rq ex_s2).2 (requests ex_s2)
  (ex_rp :: replies ex_s2) (processes ex_s2).
Definition ex_leader : Leadership :=
  receive ex_lease ex_origin "ai-1" 0 5 (rp_result ex_rp) (new_leadership ∅).
Definition ex_s4 := mkSystem (clock ex_s3) (trader ex_s3) (requests ex_s3) (replies ex_s3)
  (<["ai-1"%string := ex_leader]> (processes ex_s3)).
Definition ex_s5 := mkSystem (seconds 10) (trader ex_s4) (requests ex_s4) (replies ex_s4)
  (processes ex_s4).

Lemma ex_s5_reachable : rtc (sys_step ex_lease ex_origin) ex_s0 ex_s5.
Proof.
  eapply rtc_l; [exact (step_start _ _ "ai-1" ∅ ex_s0 eq_refl)|].
  eapply rtc_l; [exact (step_send _ _ "ai-1" (new_leadership ∅) ex_s1 eq_refl)|].
  eapply rtc_l; [exact (step_handle _ _ ex_rq ex_s2 (list_elem_of_here _ _))|].
  eapply rtc_l; [exact (step_receive ex_lease ex_origin ex_rp (new_leadership ∅) 5 ex_s3
    (list_elem_of_here _ _) eq_refl)|].
  apply rtc_once, (step_tick _ _ (seconds 10) ex_s4). by vm_compute.
Qed.

Lemma one_leader_witness :
  require_current (Some 1) (trader ex_s5) = (Ok tt, trader ex_s5).
Proof.
  refine (proj1 (proj2 (one_leader ex_lease ex_origin 0 (empty_journal (mkPconn ∅ ∅)) ex_s5 "ai-1"
    ex_leader 1 _ _ ex_s5_reachable eq_refl _))).
  - intros e row He. change ((∅ : epoch_table) !! e = Some row) in He. by rewrite lookup_empty in He.
  - intros e row He. change ((∅ : epoch_table) !! e = Some row) in He. by rewrite lookup_empty in He.
  - vm_compute. reflexivity.
Defined.
