(* ===== verification/Proposal.v ===== *)
(** * The proposal authority ([trader/data/proposal_repository.py],
    [trader/trading/proposal_command_service.py])

    A trade proposal is a row of [trade_proposals] in the journal's database;
    every change of it and the [proposal.updated] event that announces it are
    one transaction.  The theorems: what an accepted creation guarantees and
    that a refused one leaves nothing behind, the lifecycle of a proposal's
    status, and the lockstep of a row's revision with its event stream. *)
From stdpp Require Import base tactics gmap list strings pretty.
From Stdlib Require Import ZArith Lia.
From S2P Require Import Prelude Py Journal Store TradingControl.
Open Scope Z_scope.

(** ** Rows *)
Inductive proposal_status : Type := PENDING | APPROVED | REJECTED | EXPIRED | EXECUTED | FAILED.

Global Instance proposal_status_eq_dec : EqDecision proposal_status.
Proof. solve_decision. Defined.

Definition status_text (s : proposal_status) : string :=
  match s with
  | PENDING => "PENDING" | APPROVED => "APPROVED" | REJECTED => "REJECTED"
  | EXPIRED => "EXPIRED" | EXECUTED => "EXECUTED" | FAILED => "FAILED"
  end.

Record ProposalRecord : Type := mkProposal {
  p_id : Z;
  symbol : string;
  action : string;
  quantity : option float;
  amount : option float;
  execution : dict;
  reasoning : string;
  confidence : float;
  thesis : string;
  p_source : string;
  metadata : dict;
  status : proposal_status;
  p_created_at : Z;
  p_updated_at : Z;
  order_ids : list Z;
  rejection_reason : string;
  sec_type : string;
  p_account_id : option string;
  account_mode : option string;
  p_conid : option Z;
  reference_price : option float;
  reference_timestamp : option Z;
  reference_quote_side : option string;
  reference_feed_type : option string;
  max_price_drift_bps : option float;
  expires_at : option Z;
  live_approval_eligible : bool;
  revision : Z;
  order_group_id : option string;
}.

(** [ProposalRecord.from_row]: the defaults a read fills in. *)
Definition or_text (default s : string) : string := if String.eqb s "" then default else s.
Definition from_row (r : ProposalRecord) : ProposalRecord :=
  mkProposal (p_id r) (symbol r) (action r) (quantity r) (amount r) (execution r) (reasoning r)
    (confidence r) (thesis r) (or_text "manual" (p_source r)) (metadata r) (status r)
    (p_created_at r) (p_updated_at r) (order_ids r) (rejection_reason r)
    (or_text "STK" (sec_type r)) (p_account_id r) (account_mode r) (p_conid r)
    (reference_price r) (reference_timestamp r) (reference_quote_side r) (reference_feed_type r)
    (max_price_drift_bps r) (expires_at r) (live_approval_eligible r) (revision r) (order_group_id r).

Record ProposalDraft : Type := mkDraft {
  d_id : Z;
  d_symbol : string;
  d_action : string;
  d_quantity : option float;
  d_amount : option float;
  d_execution : dict;
  d_reasoning : string;
  d_confidence : float;
  d_thesis : string;
  d_source : string;
  d_metadata : dict;
  d_sec_type : string;
  d_account_id : string;
  d_account_mode : string;
  d_conid : Z;
  d_reference_price : float;
  d_reference_timestamp : Z;
  d_reference_quote_side : string;
  d_reference_feed_type : string;
  d_max_price_drift_bps : float;
  d_expires_at : Z;
  d_live_approval_eligible : bool;
  d_created_at : Z;
}.

Definition record_from_draft (d : ProposalDraft) (rev : Z) : ProposalRecord :=
  mkProposal (d_id d) (d_symbol d) (d_action d) (d_quantity d) (d_amount d) (d_execution d)
    (d_reasoning d) (d_confidence d) (d_thesis d) (d_source d) (d_metadata d) PENDING
    (d_created_at d) (d_created_at d) [] "" (d_sec_type d) (Some (d_account_id d))
    (Some (d_account_mode d)) (Some (d_conid d)) (Some (d_reference_price d))
    (Some (d_reference_timestamp d)) (Some (d_reference_quote_side d))
    (Some (d_reference_feed_type d)) (Some (d_max_price_drift_bps d)) (Some (d_expires_at d))
    (d_live_approval_eligible d) rev None.

(** The row [insert_pending_in_tx] stores: the JSON columns are canonical text. *)
Definition stored_row (d : ProposalDraft) (rev : Z) : ProposalRecord :=
  mkProposal (d_id d) (d_symbol d) (d_action d) (d_quantity d) (d_amount d)
    (dict_sorted (d_execution d)) (d_reasoning d) (d_confidence d) (d_thesis d) (d_source d)
    (dict_sorted (d_metadata d)) PENDING (d_created_at d) (d_created_at d) [] ""
    (d_sec_type d) (Some (d_account_id d)) (Some (d_account_mode d)) (Some (d_conid d))
    (Some (d_reference_price d)) (Some (d_reference_timestamp d))
    (Some (d_reference_quote_side d)) (Some (d_reference_feed_type d))
    (Some (d_max_price_drift_bps d)) (Some (d_expires_at d)) (d_live_approval_eligible d) rev None.

(** One status change: the columns the [UPDATE] statements and [replace(...)]
    set. *)
Definition moved (s : proposal_status) (reason : string) (ids : list Z) (now rev : Z)
    (r : ProposalRecord) : ProposalRecord :=
  mkProposal (p_id r) (symbol r) (action r) (quantity r) (amount r) (execution r) (reasoning r)
    (confidence r) (thesis r) (p_source r) (metadata r) s (p_created_at r) now ids reason
    (sec_type r) (p_account_id r) (account_mode r) (p_conid r) (reference_price r)
    (reference_timestamp r) (reference_quote_side r) (reference_feed_type r)
    (max_price_drift_bps r) (expires_at r) (live_approval_eligible r) rev (order_group_id r).

Definition linked (group : string) (r : ProposalRecord) : ProposalRecord :=
  mkProposal (p_id r) (symbol r) (action r) (quantity r) (amount r) (execution r) (reasoning r)
    (confidence r) (thesis r) (p_source r) (metadata r) (status r) (p_created_at r) (p_updated_at r)
    (order_ids r) (rejection_reason r) (sec_type r) (p_account_id r) (account_mode r) (p_conid r)
    (reference_price r) (reference_timestamp r) (reference_quote_side r) (reference_feed_type r)
    (max_price_drift_bps r) (expires_at r) (live_approval_eligible r) (revision r) (Some group).

(** [json_extract_string(metadata, '$.expires_at') IS NOT NULL] *)
Definition has_legacy_expiry (r : ProposalRecord) : bool :=
  match assoc "expires_at" (metadata r) with None | Some JNull => false | Some _ => true end.

Definition expired_by (now : Z) (r : ProposalRecord) : bool :=
  match expires_at r with
  | Some e => e <=? now
  | None => has_legacy_expiry r
  end.

Definition proposal_event_id (id rev : Z) : string :=
  ("proposal:" +:+ pretty id +:+ ":" +:+ pretty rev)%string.

Inductive ApprovalClaim : Type :=
  | CLAIM_CLAIMED | CLAIM_EXPIRED | CLAIM_REVISION_MISMATCH | CLAIM_NOT_PENDING
  | CLAIM_NOT_FOUND | CLAIM_WRONG_ACCOUNT.
Global Instance ApprovalClaim_eq_dec : EqDecision ApprovalClaim.
Proof. solve_decision. Defined.

(** [trade_proposals], by primary key *)
Notation proposal_table := (gmap Z ProposalRecord).

Section repository.
Context {T : Type} `{HasTable T proposal_table}.
(** [repr] of a float *)
Context (float_repr : float → string).

Definition jfloat (f : float) : json := JFloat (float_repr f).
Definition jiso (t : Z) : json := JStr (isoformat t).

Definition proposal_to_payload (r : ProposalRecord) : dict :=
  [("id", JInt (p_id r)); ("symbol", JStr (symbol r)); ("action", JStr (action r));
   ("quantity", jopt jfloat (quantity r)); ("amount", jopt jfloat (amount r));
   ("execution", JObj (execution r)); ("reasoning", JStr (reasoning r));
   ("confidence", jfloat (confidence r)); ("thesis", JStr (thesis r));
   ("source", JStr (p_source r)); ("metadata", JObj (metadata r));
   ("status", JStr (status_text (status r))); ("created_at", jiso (p_created_at r));
   ("updated_at", jiso (p_updated_at r)); ("order_ids", JArr (map JInt (order_ids r)));
   ("rejection_reason", JStr (rejection_reason r)); ("sec_type", JStr (sec_type r));
   ("account_id", jopt JStr (p_account_id r)); ("account_mode", jopt JStr (account_mode r));
   ("conid", jopt JInt (p_conid r)); ("reference_price", jopt jfloat (reference_price r));
   ("reference_timestamp", jopt jiso (reference_timestamp r));
   ("reference_quote_side", jopt JStr (reference_quote_side r));
   ("reference_feed_type", jopt JStr (reference_feed_type r));
   ("max_price_drift_bps", jopt jfloat (max_price_drift_bps r));
   ("expires_at", jopt jiso (expires_at r));
   ("live_approval_eligible", JBool (live_approval_eligible r)); ("revision", JInt (revision r));
   ("order_group_id", jopt JStr (order_group_id r))].

Definition mutation_for (r : ProposalRecord) (correlation_id : option string) : DomainMutation :=
  mkMutation "proposal.updated" "proposal" (pretty (p_id r)) op_upsert (p_account_id r)
    "trader_service" (Aware (p_updated_at r) 0) correlation_id (Some (proposal_to_payload r)).

(** *** Reads *)
Definition get_proposal (id : Z) : M (DomainJournal T) (option ProposalRecord) :=
  t ← read_store; mret (from_row <$> (t : proposal_table) !! id).

Definition all_proposals (t : proposal_table) : list ProposalRecord := map snd (map_to_list t).

(** [ORDER BY created_at DESC LIMIT ?] *)
Definition list_proposals (wanted : option string) (limit : Z) : M (DomainJournal T) (list ProposalRecord) :=
  t ← read_store;
  mret (from_row <$> take (Z.to_nat limit) (reverse (order_by p_created_at
    (filter (λ r, match wanted with None => true | Some s => String.eqb (status_text (status r)) s end = true)
       (all_proposals t))))).

Definition pending_duplicate (source : string) (conid : Z) (act : string) (t : proposal_table) : bool :=
  existsb (λ r, bool_decide (status r = PENDING) && String.eqb (p_source r) source
                && bool_decide (p_conid r = Some conid) && String.eqb (action r) act)
    (all_proposals t).

Definition stale_pending (now : Z) (t : proposal_table) : list ProposalRecord :=
  from_row <$> order_by p_id
    (filter (λ r, status r = PENDING ∧ expired_by now r = true) (all_proposals t)).

(** *** Statements on the table, through the transaction's connection *)
Definition proposals_of (p : pconn T) : proposal_table := tget (tables p).
Definition set_proposals (f : proposal_table → proposal_table) (p : pconn T) : pconn T :=
  mkPconn (seqs p) (tset (f (proposals_of p)) (tables p)).

(** [UPDATE trade_proposals SET ... WHERE id = ? AND ... RETURNING] *)
Definition update_returning (id : Z) (where_ : ProposalRecord → bool)
    (f : ProposalRecord → ProposalRecord) : M (pconn T) (option ProposalRecord) :=
  t ← gets proposals_of;
  match (t : proposal_table) !! id with
  | Some r => if where_ r then modify (set_proposals <[id := f r]>) ;; mret (Some (from_row (f r)))
              else mret None
  | None => mret None
  end.

Definition in_state (s : proposal_status) (rev : Z) (r : ProposalRecord) : bool :=
  bool_decide (status r = s) && (revision r =? rev).

Definition insert_pending_in_tx (d : ProposalDraft) (rev : Z) : M (pconn T) ProposalRecord :=
  t ← gets proposals_of;
  match (t : proposal_table) !! d_id d with
  | Some _ => raise (ConstraintException "trade_proposals")
  | None => modify (set_proposals <[d_id d := stored_row d rev]>) ;; mret (from_row (stored_row d rev))
  end.

Definition reject_in_tx (id : Z) (reason : string) (now expected : Z) : M (pconn T) (option ProposalRecord) :=
  update_returning id (in_state PENDING expected)
    (λ r, moved REJECTED reason (order_ids r) now (revision r + 1) r).

Definition expire_in_tx (id now expected : Z) : M (pconn T) (option ProposalRecord) :=
  update_returning id (λ r, in_state PENDING expected r && expired_by now r)
    (λ r, moved EXPIRED (rejection_reason r) (order_ids r) now (revision r + 1) r).

Definition claimed_row (now : Z) (r : ProposalRecord) : ProposalRecord :=
  moved (if expired_by now r then EXPIRED else APPROVED) (rejection_reason r) (order_ids r) now
    (revision r + 1) r.

(** The re-read of a missed claim sees the committed table, which the
    transaction has not changed. *)
Definition claim_for_approval_in_tx (id : Z) (expected : option Z) (account : string) (now : Z)
    : M (pconn T) (ApprovalClaim * option ProposalRecord) :=
  row ← update_returning id
    (λ r, bool_decide (status r = PENDING) && bool_decide (expected = Some (revision r))
          && bool_decide (p_account_id r = Some account)) (claimed_row now);
  match row with
  | Some record =>
      mret (if bool_decide (status record = APPROVED) then CLAIM_CLAIMED else CLAIM_EXPIRED, Some record)
  | None =>
      t ← gets proposals_of;
      match from_row <$> (t : proposal_table) !! id with
      | None => mret (CLAIM_NOT_FOUND, None)
      | Some current =>
          mret (if bool_decide (p_account_id current ≠ Some account) then CLAIM_WRONG_ACCOUNT
                else if bool_decide (status current ≠ PENDING) then CLAIM_NOT_PENDING
                else CLAIM_REVISION_MISMATCH, Some current)
      end
  end.

Definition link_order_group_in_tx (id : Z) (group : string) : M (pconn T) unit :=
  update_returning id (λ r, bool_decide (status r = APPROVED)) (linked group) ;; mret tt.

Definition mark_order_submitted_in_tx (id : Z) (ids : list Z) (expected now : Z)
    : M (pconn T) (option ProposalRecord) :=
  update_returning id (in_state APPROVED expected)
    (λ r, moved EXECUTED (rejection_reason r) ids now (revision r + 1) r).

Definition mark_failed_in_tx (id : Z) (reason : string) (expected now : Z)
    : M (pconn T) (option ProposalRecord) :=
  update_returning id (in_state APPROVED expected)
    (λ r, moved FAILED reason (order_ids r) now (revision r + 1) r).

(** *** Identities *)
Definition PROPOSAL_SEQ : string := "trade_proposals_id_seq".

(** [SELECT nextval(...)], on its own: the sequence moves for good. *)
Definition nextval (name : string) : M (DomainJournal T) Z := λ j,
  let p := db_producer (jdb j) in
  let n := default 1 (seqs p !! name) in
  (Ok n, mkJournal (mkDb (db_core (jdb j)) (mkPconn (<[name := n + 1]> (seqs p)) (tables p)))
           (latest_committed_cursor j)).

(** [SELECT 1 FROM trade_proposals ... UNION ALL SELECT 1 FROM domain_event_journal ...] *)
Definition id_taken (id : Z) (j : DomainJournal T) : bool :=
  bool_decide (is_Some ((table_of (jdb j) : proposal_table) !! id))
  || bool_decide (is_Some (select_journal_row (proposal_event_id id 1) (db_core (jdb j)))).

Fixpoint reserve_loop (attempts : nat) : M (DomainJournal T) Z :=
  match attempts with
  | O => raise (RuntimeError "unable to reserve an unused trade_proposals id")
  | S attempts' =>
      id ← nextval PROPOSAL_SEQ;
      taken ← gets (id_taken id);
      if (taken : bool) then reserve_loop attempts' else mret id
  end.
Definition reserve_id : M (DomainJournal T) Z := reserve_loop (Z.to_nat 10000).

(** ** [ProposalCommandService] *)
Context `{HasTable T control_table}.

Record ExecutableQuote : Type := mkQuote {
  q_conid : Z;
  q_side : string;
  q_price : float;
  market_timestamp : datetime;
  q_feed_type : string;
  session_state : string;
}.

Record ProposalCreateRequest : Type := mkCreate {
  c_conid : Z;
  c_action : string;
  c_quantity : option float;
  c_amount : option float;
  c_execution : dict;
  c_reasoning : string;
  c_confidence : float;
  c_thesis : string;
  c_group : string;
  c_max_price_drift_bps : option float;
  c_max_hold_bars : option Z;
  c_close_by_time : option string;
  c_close_by_tz : option string;
}.

(** What the service's collaborators answer for the request. *)
Record Authorities : Type := mkAuthorities {
  (* resolve_conid: symbol and security type *)
  au_secdef : option (string * string);
  (* check_instrument(...).approved *)
  au_instrument_ok : bool;
  (* reducible_quantity, when a position authority is wired *)
  au_reducible : option float;
  (* whether the pause gate is wired *)
  au_controls : bool;
  (* executable_quote(conid, side=...) *)
  au_quote : string → option ExecutableQuote;
  (* sizer.compute: amount_usd and quantity, when a sizer is wired *)
  au_sizer : option (float * float);
}.

Definition refuse {S A} (code : string) : M S A := raise (ProposalCreationRefused code).

Definition is_reducing_close (au : Authorities) (rq : ProposalCreateRequest) : bool :=
  if negb (String.eqb (c_action rq) "SELL") then false
  else match c_quantity rq, au_reducible au with
  | Some q, Some held => fle q held
  | _, _ => false
  end.

Definition size (au : Authorities) (rq : ProposalCreateRequest) (price : float)
    : res (option float * float) :=
  match c_quantity rq, c_amount rq with
  | Some q, _ =>
      if fle q fzero then Raise (ProposalCreationRefused "INVALID_SIZE") else Ok (Some q, fmul q price)
  | None, Some a =>
      if fle a fzero then Raise (ProposalCreationRefused "INVALID_SIZE") else Ok (Some (fdiv a price), a)
  | None, None =>
      match au_sizer au with
      | None => Raise (ProposalCreationRefused "SIZING_BLOCKED")
      | Some (usd, q) =>
          if fle usd fzero then Raise (ProposalCreationRefused "SIZING_BLOCKED")
          else Ok (Some (if feq q fzero then fdiv usd price else q), usd)
      end
  end.

Definition DEFAULT_DRIFT_BPS : float := float_of_Z 50.

(** [metadata] of a new proposal *)
Definition create_metadata (rq : ProposalCreateRequest) : dict :=
  (if String.eqb (c_group rq) "" then [] else [("group", JStr (c_group rq))])
  ++ (match c_max_hold_bars rq with Some n => [("max_hold_bars", JInt n)] | None => [] end)
  ++ (match c_close_by_time rq with
      | Some t =>
          if String.eqb t "" then []
          else ("close_by_time", JStr t)
               :: (match c_close_by_tz rq with
                   | Some z => if String.eqb z "" then [] else [("close_by_tz", JStr z)]
                   | None => [] end)
      | None => []
      end).

Section service.
Context (account mode : string) (ttl : Z).

(** The refusals that come before anything is written; the quote that passes. *)
Definition screen (au : Authorities) (rq : ProposalCreateRequest) (source : string)
    : M (DomainJournal T) (string * string * ExecutableQuote) :=
  require (String.eqb (c_action rq) "BUY" || String.eqb (c_action rq) "SELL")
    (ProposalCreationRefused "INVALID_ACTION") ;;
  require (negb (bool_decide (is_Some (c_quantity rq)) && bool_decide (is_Some (c_amount rq))))
    (ProposalCreationRefused "INVALID_SIZE") ;;
  match au_secdef au with
  | None => refuse "UNKNOWN_CONID"
  | Some (symbol, secType) =>
      require (au_instrument_ok au) (ProposalCreationRefused "TRADING_FILTER_REJECTED") ;;
      require (negb (String.eqb (c_action rq) "SELL" && starts_with "strategy:" source
                     && match au_reducible au with Some held => fle held fzero | None => false end))
        (ProposalCreationRefused "NO_LONG_TO_CLOSE") ;;
      (if au_controls au && negb (is_reducing_close au rq)
       then try_except (require_unpaused account)
              (λ e, match e with
                    | TradingPausedError _ | PauseStateUnavailable _ => Some (refuse "TRADING_PAUSED")
                    | _ => None end)
       else mret tt) ;;
      let side := if String.eqb (c_action rq) "BUY" then "ask"%string else "bid"%string in
      match au_quote au side with
      | None => refuse "QUOTE_UNAVAILABLE"
      | Some quote =>
          require (negb (fle (q_price quote) fzero)) (ProposalCreationRefused "QUOTE_UNAVAILABLE") ;;
          require ((q_conid quote =? c_conid rq) && String.eqb (q_side quote) side)
            (ProposalCreationRefused "QUOTE_UNAVAILABLE") ;;
          require (is_aware (market_timestamp quote)) (ProposalCreationRefused "QUOTE_UNAVAILABLE") ;;
          mret (symbol, secType, quote)
      end
  end.

Definition draft_of (rq : ProposalCreateRequest) (source symbol secType : string)
    (quote : ExecutableQuote) (sized : option float * float) (id now : Z) : ProposalDraft :=
  mkDraft id symbol (c_action rq) sized.1 (Some sized.2) (c_execution rq) (c_reasoning rq)
    (c_confidence rq) (c_thesis rq) source (create_metadata rq) (or_text "STK" secType)
    account mode (c_conid rq) (q_price quote) (as_utc (market_timestamp quote)) (q_side quote)
    (q_feed_type quote) (default DEFAULT_DRIFT_BPS (c_max_price_drift_bps rq)) (now + ttl) true now.

(** The callback of [create_proposal] *)
Definition write_created (source : string) (draft : ProposalDraft) (rev : Z)
    : M (pconn T) ProposalRecord :=
  require (rev =? 1) ConcurrentProposalChange ;;
  t ← gets proposals_of;
  require (negb (starts_with "strategy:" source
                 && pending_duplicate source (d_conid draft) (d_action draft) t))
    (ProposalCreationRefused "DUPLICATE_PENDING") ;;
  insert_pending_in_tx draft rev.

Definition create_proposal (st : stamp) (au : Authorities) (rq : ProposalCreateRequest)
    (source correlation_id : string) (now : datetime) : M (DomainJournal T) ProposalRecord :=
  '(symbol, secType, quote) ← screen au rq source;
  match size au rq (q_price quote) with
  | Raise e => raise e
  | Ok sized =>
      now ← as_utc_strict now;
      id ← reserve_id;
      let draft := draft_of rq source symbol secType quote sized id now in
      let predicted := record_from_draft draft 1 in
      written ← try_except
        (m ← new_mutation (mutation_for predicted (Some correlation_id));
         mutate_written st m (write_created source draft) (proposal_event_id id 1))
        (λ e, match e with
              | EventIdentityConflict _ => Some (refuse "PROPOSAL_IDENTITY_CONFLICT")
              | _ => None end);
      first_written written
  end.

(** [if record is None: raise _ConcurrentProposalChange] *)
Definition or_concurrent {S} (o : option ProposalRecord) : M S ProposalRecord :=
  match o with Some r => mret r | None => raise ConcurrentProposalChange end.

Definition reject_proposal (st : stamp) (id : Z) (reason correlation_id : string) (now : datetime)
    : M (DomainJournal T) ProposalRecord :=
  current ← get_proposal id;
  match current with
  | None => refuse "NOT_FOUND"
  | Some current =>
      match status current with
      | REJECTED => mret current
      | PENDING =>
          now ← as_utc_strict now;
          let predicted := moved REJECTED reason (order_ids current) now (revision current + 1) current in
          m ← new_mutation (mutation_for predicted (Some correlation_id));
          written ← mutate_written st m
            (λ rev, require (rev =? revision predicted) ConcurrentProposalChange ;;
                    r ← reject_in_tx id reason now (revision current);
                    or_concurrent r)
            (proposal_event_id id (revision predicted));
          first_written written
      | _ => refuse "NOT_PENDING"
      end
  end.

(** One proposal of [expire_stale]; [None] when it changed meanwhile. *)
Definition expire_one (st : stamp) (now : Z) (current : ProposalRecord) : M (DomainJournal T) (option Z) :=
  let predicted := moved EXPIRED (rejection_reason current) (order_ids current) now
                     (revision current + 1) current in
  try_except
    (m ← new_mutation (mutation_for predicted None);
     written ← mutate_written st m
       (λ rev, require (rev =? revision predicted) ConcurrentProposalChange ;;
               r ← expire_in_tx (p_id current) now (revision current);
               or_concurrent r)
       (proposal_event_id (p_id current) (revision predicted));
     r ← first_written written;
     mret (Some (p_id r)))
    (λ e, match e with ConcurrentProposalChange => Some (mret None) | _ => None end).

Definition expire_stale (st : Z → stamp) (now : datetime) : M (DomainJournal T) (list Z) :=
  now ← as_utc_strict now;
  stale ← (t ← read_store; mret (stale_pending now t));
  expired ← map_each stale (λ r, expire_one (st (p_id r)) now r);
  mret (omap id expired).
End service.

(** ** The invariant of the authority *)
Definition proposals (j : DomainJournal T) : proposal_table := table_of (jdb j).
Definition revision_of (j : DomainJournal T) (id : Z) : Z :=
  match proposals j !! id with Some r => revision r | None => 0 end.

(** A row's revision is the journal's revision of its entity, and an event id
    of the form [proposal:i:n] names revision [n] of proposal [i]. *)
Record authority_ok (j : DomainJournal T) : Prop := {
  ao_jwf : jwf j;
  ao_lockstep id : read_current_revision "proposal" (pretty id) (jcore j) = revision_of j id;
  ao_key id r : proposals j !! id = Some r → p_id r = id ∧ 1 ≤ revision r;
  ao_ids row i n : row ∈ journal (jcore j) → event_id row = proposal_event_id i n →
    entity_type row = "proposal"%string ∧ entity_id row = pretty i ∧ entity_revision row = n;
}.

Lemma proposal_event_id_inj i n i' n' :
  proposal_event_id i n = proposal_event_id i' n' → i = i' ∧ n = n'.
Proof.
  unfold proposal_event_id. intros E.
  change ("proposal:" +:+ pretty i +:+ ":" +:+ pretty n)%string
    with ("proposal" +:+ ":" +:+ (pretty i +:+ ":" +:+ pretty n))%string in E.
  change ("proposal:" +:+ pretty i' +:+ ":" +:+ pretty n')%string
    with ("proposal" +:+ ":" +:+ (pretty i' +:+ ":" +:+ pretty n'))%string in E.
  apply app_colon_inj in E as [_ E]; [|done..].
  apply app_colon_inj in E as [E1 E2]; [|apply pretty_Z_no_colon..].
  by apply (inj pretty) in E1, E2.
Qed.

Lemma proposal_event_fresh j id n :
  authority_ok j → revision_of j id < n → select_journal_row (proposal_event_id id n) (jcore j) = None.
Proof.
  intros Hj Hn. destruct (select_journal_row _ _) as [row|] eqn:E; [|done].
  apply select_Some in E as [Hrow Heid].
  destruct (ao_ids _ Hj row id n Hrow Heid) as (Ht & Hi & Hr).
  pose proof (current_revision_ge _ _ (jwf_core _ (ao_jwf _ Hj)) Hrow) as Hle.
  rewrite Ht, Hi, (ao_lockstep _ Hj) in Hle. lia.
Qed.

(** The journal after a change of a proposal to [r] and its event. *)
Definition proposal_written (r : ProposalRecord) (m : DomainMutation) (now : Z) (j : DomainJournal T)
    : DomainJournal T :=
  mkJournal (mkDb (append_core (jcore j) (proposal_event_id (p_id r) (revision r)) m now)
               (set_proposals <[p_id r := r]> (db_producer (jdb j)))) (cursor_seq (jcore j)).

Lemma proposals_written r m now j : proposals (proposal_written r m now j) = <[p_id r := r]> (proposals j).
Proof. unfold proposals, table_of, proposal_written, set_proposals. simpl. apply tget_tset. Qed.

Lemma revision_appended c eid m now etype id :
  read_current_revision etype id (append_core c eid m now) =
    if bool_decide ((etype, id) = (m_entity_type m, m_entity_id m))
    then read_current_revision (m_entity_type m) (m_entity_id m) c + 1
    else read_current_revision etype id c.
Proof.
  unfold read_current_revision at 1. case_bool_decide as E.
  - destruct (append_lookup_eq c eid m now) as (row & Hrow & Hrev & _). rewrite E, Hrow, Hrev. done.
  - by rewrite append_lookup_ne.
Qed.

Lemma authority_ok_written r m now j :
  authority_ok j → m_entity_type m = "proposal"%string → m_entity_id m = pretty (p_id r) →
  revision r = revision_of j (p_id r) + 1 → authority_ok (proposal_written r m now j).
Proof.
  intros Hj Ht Hi Hr. pose proof (ao_jwf _ Hj) as Hw.
  assert (0 ≤ revision_of j (p_id r)) as Hpos.
  { rewrite <-(ao_lockstep _ Hj). apply current_revision_nonneg, Hw. }
  assert (select_journal_row (proposal_event_id (p_id r) (revision r)) (jcore j) = None) as Hf
    by (apply proposal_event_fresh; [done|lia]).
  split.
  - split; unfold jcore; simpl; [apply wf_append; [apply Hw|done]|].
    rewrite newest_append by apply Hw. lia.
  - intros id. unfold jcore at 1. simpl. rewrite revision_appended, Ht, Hi.
    unfold revision_of. rewrite proposals_written. case_bool_decide as E.
    + injection E as E%(inj pretty). subst id. rewrite lookup_insert_eq, (ao_lockstep _ Hj). lia.
    + rewrite lookup_insert_ne by congruence. apply (ao_lockstep _ Hj).
  - intros id r'. rewrite proposals_written. intros [[<- <-]|[_ Hr']]%lookup_insert_Some; [split; [done|lia]|].
    by apply (ao_key _ Hj).
  - intros row i n Hrow Heid. change (journal (jcore (proposal_written r m now j)))
      with (journal (append_core (jcore j) (proposal_event_id (p_id r) (revision r)) m now)) in Hrow.
    apply append_elem in Hrow as [Hrow| ->]; [by apply (ao_ids _ Hj)|].
    simpl in Heid. apply proposal_event_id_inj in Heid as [<- <-]. simpl.
    rewrite Ht, Hi, (ao_lockstep _ Hj). done.
Qed.

Lemma update_returning_run id where_ f (p : pconn T) :
  update_returning id where_ f p =
    match proposals_of p !! id with
    | Some r => if where_ r then (Ok (Some (from_row (f r))), set_proposals <[id := f r]> p) else (Ok None, p)
    | None => (Ok None, p)
    end.
Proof.
  unfold update_returning. run. destruct (proposals_of p !! id) as [r|]; [|done].
  destruct (where_ r); [|done]. by run.
Qed.

(** The approval claim's compare-and-set, and its classification of a miss. *)
Definition claimable (expected : option Z) (account : string) (r : ProposalRecord) : bool :=
  bool_decide (status r = PENDING) && bool_decide (expected = Some (revision r))
  && bool_decide (p_account_id r = Some account).
Definition claim_miss (account : string) (r : ProposalRecord) : ApprovalClaim :=
  if bool_decide (p_account_id r ≠ Some account) then CLAIM_WRONG_ACCOUNT
  else if bool_decide (status r ≠ PENDING) then CLAIM_NOT_PENDING else CLAIM_REVISION_MISMATCH.

Lemma claim_for_approval_run id expected account now (p : pconn T) :
  claim_for_approval_in_tx id expected account now p =
    match proposals_of p !! id with
    | None => (Ok (CLAIM_NOT_FOUND, None), p)
    | Some r =>
        if claimable expected account r
        then (Ok (if expired_by now r then CLAIM_EXPIRED else CLAIM_CLAIMED, Some (from_row (claimed_row now r))),
              set_proposals <[id := claimed_row now r]> p)
        else (Ok (claim_miss account r, Some (from_row r)), p)
    end.
Proof.
  unfold claim_for_approval_in_tx. rewrite bind_unfold, update_returning_run.
  destruct (proposals_of p !! id) as [r|] eqn:Hr.
  - fold (claimable expected account r). destruct (claimable expected account r).
    + simpl. unfold claimed_row. simpl. by destruct (expired_by now r).
    + rewrite bind_gets, Hr. done.
  - by rewrite bind_gets, Hr.
Qed.

(** An [UPDATE] of one row together with its event: the callback runs at the
    revision the row expects, so the change commits. *)
Lemma mutate_update_run st id r m where_ f rev (j : DomainJournal T) :
  authority_ok j → proposals j !! id = Some r → rev = revision r + 1 →
  where_ r = true → p_id (f r) = p_id r → revision (f r) = revision r + 1 →
  m_entity_type m = "proposal"%string → m_entity_id m = pretty id →
  mutate_written st m
    (λ n, require (n =? rev) ConcurrentProposalChange ;;
          o ← update_returning id where_ f; or_concurrent o) (proposal_event_id id rev) j
  = (Ok [from_row (f r)], proposal_written (f r) m (st_now st) j).
Proof.
  intros Hj Hr -> Hw Hid Hrev Ht Hi. rewrite mutate_written_spec by apply Hj.
  assert (revision_of j id = revision r) as Hof by (unfold revision_of; by rewrite Hr).
  rewrite proposal_event_fresh by (done || lia).
  rewrite Ht, Hi, (ao_lockstep _ Hj), Hof, bind_require, Z.eqb_refl, bind_unfold, update_returning_run.
  change (proposals_of (db_producer (jdb j))) with (proposals j). rewrite Hr, Hw.
  unfold proposal_written. rewrite Hrev, Hid. destruct (ao_key _ Hj id r Hr) as [-> _]. done.
Qed.


Lemma bind_get_proposal {A} id (k : option ProposalRecord → M (DomainJournal T) A) j :
  (get_proposal id ≫= k) j = k (from_row <$> proposals j !! id) j.
Proof. done. Qed.

(** ** Theorems *)

(** Every branch of [reject_proposal]: an unknown proposal and one that is
    neither pending nor rejected are refused, a rejected one is returned as it
    is, and a pending one becomes REJECTED at the next revision in one commit
    with its event; nothing else changes, and the invariant is kept. *)
Theorem reject_proposal_spec st id reason correlation u off j :
  authority_ok j →
  let run := reject_proposal st id reason correlation (Aware u off) j in
  match proposals j !! id with
  | None => run = (Raise (ProposalCreationRefused "NOT_FOUND"), j)
  | Some r =>
      match status r with
      | REJECTED => run = (Ok (from_row r), j)
      | PENDING =>
          let change r := moved REJECTED reason (order_ids r) u (revision r + 1) r in
          run = (Ok (from_row (change r)),
                 proposal_written (change r)
                   (mutation_for (change (from_row r)) (Some correlation)) (st_now st) j)
      | _ => run = (Raise (ProposalCreationRefused "NOT_PENDING"), j)
      end
  end ∧ authority_ok run.2.
Proof.
  intros Hj run.
  assert (match proposals j !! id with
  | None => run = (Raise (ProposalCreationRefused "NOT_FOUND"), j)
  | Some r =>
      match status r with
      | REJECTED => run = (Ok (from_row r), j)
      | PENDING =>
          let change r := moved REJECTED reason (order_ids r) u (revision r + 1) r in
          run = (Ok (from_row (change r)),
                 proposal_written (change r)
                   (mutation_for (change (from_row r)) (Some correlation)) (st_now st) j)
      | _ => run = (Raise (ProposalCreationRefused "NOT_PENDING"), j)
      end
  end) as Hrun.
  { unfold run, reject_proposal. rewrite bind_get_proposal.
    destruct (proposals j !! id) as [r|] eqn:Hr; simpl; [|done].
    destruct (status r) eqn:Hs; try done. cbv zeta.
    unfold as_utc_strict. run. rewrite bind_new_mutation by done.
    rewrite bind_unfold. unfold reject_in_tx. rewrite (mutate_update_run _ _ r); try done.
    - simpl. unfold in_state. by rewrite Hs, bool_decide_eq_true_2, Z.eqb_refl.
    - simpl. by destruct (ao_key _ Hj id r Hr) as [-> _]. }
  split; [exact Hrun|].
  destruct (proposals j !! id) as [r|] eqn:Hr; [|by rewrite Hrun].
  destruct (status r); cbv zeta in Hrun; rewrite Hrun; try done.
  apply authority_ok_written; try done. destruct (ao_key _ Hj id r Hr) as [Hid _].
  simpl. unfold revision_of. by rewrite Hid, Hr.
Qed.

(** *** The expiry sweep *)
Lemma elem_of_stale now (t : proposal_table) r' :
  r' ∈ stale_pending now t ↔
  ∃ k r, t !! k = Some r ∧ status r = PENDING ∧ expired_by now r = true ∧ r' = from_row r.
Proof.
  unfold stale_pending. rewrite list_elem_of_fmap. split.
  - intros (r & -> & Hr). rewrite order_by_perm in Hr.
    apply list_elem_of_filter in Hr as [[Hs He] Hr]. unfold all_proposals in Hr.
    apply list_elem_of_fmap in Hr as ([k r0] & -> & Hr). apply elem_of_map_to_list in Hr. by exists k, r0.
  - intros (k & r & Hk & Hs & He & ->). exists r. split; [done|]. rewrite order_by_perm.
    apply list_elem_of_filter. split; [done|]. unfold all_proposals. apply list_elem_of_fmap.
    exists (k, r). split; [done|]. by apply elem_of_map_to_list.
Qed.

Lemma NoDup_ids j : authority_ok j → NoDup (p_id <$> all_proposals (proposals j)).
Proof.
  intros Hj. unfold all_proposals. rewrite <-list_fmap_compose.
  rewrite (list_fmap_ext _ fst); [apply NoDup_fst_map_to_list|].
  intros i [k r] Hk. apply list_elem_of_lookup_2, elem_of_map_to_list in Hk.
  by destruct (ao_key _ Hj k r Hk).
Qed.

Definition expired_row (now : Z) (r : ProposalRecord) : ProposalRecord :=
  moved EXPIRED (rejection_reason r) (order_ids r) now (revision r + 1) r.

Lemma expire_one_run st now id r (j : DomainJournal T) :
  authority_ok j → proposals j !! id = Some r → status r = PENDING → expired_by now r = true →
  expire_one st now (from_row r) j =
    (Ok (Some (p_id r)), proposal_written (expired_row now r)
       (mutation_for (expired_row now (from_row r)) None) (st_now st) j).
Proof.
  intros Hj Hr Hs He. unfold expire_one, try_except. cbv zeta.
  rewrite bind_new_mutation by done. rewrite bind_unfold. simpl.
  destruct (ao_key _ Hj id r Hr) as [Hid _]. unfold expire_in_tx.
  rewrite (mutate_update_run _ _ r); try done.
  - by rewrite Hid.
  - simpl. unfold in_state. by rewrite Hs, bool_decide_eq_true_2, Z.eqb_refl, He.
Qed.

(** The expiry sweep: every pending proposal past its expiry, and no other,
    becomes EXPIRED at its next revision; the result names exactly those, no
    proposal is skipped as changed, and the invariant is kept. *)
Theorem expire_stale_spec st u off j :
  authority_ok j →
  ∃ j', expire_stale st (Aware u off) j = (Ok (p_id <$> stale_pending u (proposals j)), j') ∧
    authority_ok j' ∧
    ∀ id, proposals j' !! id =
      match proposals j !! id with
      | Some r => Some (if bool_decide (status r = PENDING) && expired_by u r then expired_row u r else r)
      | None => None
      end.
Proof.
  intros Hj. unfold expire_stale, as_utc_strict. run.
  fold (proposals j).
  assert (∀ l j1, authority_ok j1 → NoDup (p_id <$> l) →
    (∀ r', r' ∈ l → ∃ r, proposals j1 !! p_id r' = Some r ∧ status r = PENDING ∧
                          expired_by u r = true ∧ r' = from_row r) →
    ∃ j', map_each l (λ r, expire_one (st (p_id r)) u r) j1 = (Ok (Some <$> (p_id <$> l)), j') ∧
      authority_ok j' ∧ ∀ id, proposals j' !! id =
        if bool_decide (id ∈ p_id <$> l) then expired_row u <$> proposals j1 !! id
        else proposals j1 !! id) as Hloop.
  { induction l as [|r' l IH]; intros j1 Hj1 Hnd Hl.
    - exists j1. split; [done|]. split; [done|]. intros id. by rewrite bool_decide_eq_false_2 by set_solver.
    - rewrite fmap_cons in Hnd. apply NoDup_cons in Hnd as [Hn Hnd].
      destruct (Hl r' ltac:(set_solver)) as (r & Hr & Hs & He & ->). simpl in Hr, Hn.
      cbn [map_each]. rewrite bind_unfold, (expire_one_run _ _ (p_id r) r) by done.
      set (j2 := proposal_written _ _ _ j1).
      assert (authority_ok j2) as Hj2.
      { apply authority_ok_written; try done. simpl. unfold revision_of. by rewrite Hr. }
      destruct (IH j2 Hj2 Hnd) as (j' & Hrun & Hj' & Hprop).
      { intros r1 Hr1. destruct (Hl r1 ltac:(set_solver)) as (r0 & Hr0 & ?). exists r0. split; [|done].
        unfold j2. rewrite proposals_written. simpl. rewrite lookup_insert_ne; [done|].
        intros E. destruct Hn. rewrite E. by apply list_elem_of_fmap_2. }
      exists j'. rewrite bind_unfold, Hrun. split; [done|]. split; [done|].
      intros id. rewrite Hprop. unfold j2. rewrite proposals_written. simpl.
      destruct (decide (id = p_id r)) as [->|Hne].
      + rewrite bool_decide_eq_false_2 by done. rewrite bool_decide_eq_true_2 by set_solver.
        by rewrite lookup_insert_eq, Hr.
      + rewrite lookup_insert_ne by done.
        assert (id ∈ p_id <$> (from_row r :: l) ↔ id ∈ p_id <$> l) as Hext.
        { rewrite fmap_cons, elem_of_cons. simpl. naive_solver. }
        case_bool_decide as Hin1; case_bool_decide as Hin2; try done; exfalso; tauto. }
  destruct (Hloop (stale_pending u (proposals j)) j Hj) as (j' & Hrun & Hj' & Hprop).
  { unfold stale_pending. rewrite <-list_fmap_compose. change (p_id ∘ from_row) with p_id.
    rewrite order_by_perm.
    eapply sublist_NoDup; [apply (NoDup_ids _ Hj)|]. apply fmap_sublist, sublist_filter. }
  { intros r' (k & r & Hk & Hs & He & ->)%elem_of_stale. exists r. split; [|done].
    simpl. by destruct (ao_key _ Hj k r Hk) as [-> _]. }
  exists j'. rewrite bind_unfold, Hrun. split_and!; [|done|].
  - unfold mret, M_ret. do 2 f_equal. clear. induction (p_id <$> _); [done|]. simpl. by f_equal.
  - intros id. rewrite Hprop. destruct (proposals j !! id) as [r|] eqn:Hr.
    + assert (id ∈ p_id <$> stale_pending u (proposals j) ↔ status r = PENDING ∧ expired_by u r = true) as Hin.
      { rewrite list_elem_of_fmap. split.
        - intros (r' & -> & (k & r0 & Hk & Hs & He & ->)%elem_of_stale). simpl in Hr.
          destruct (ao_key _ Hj k r0 Hk) as [Hkey _]. rewrite Hkey in Hr. by simplify_eq.
        - intros [Hs He]. exists (from_row r). split; [by destruct (ao_key _ Hj id r Hr)|].
          apply elem_of_stale. by exists id, r. }
      rewrite (bool_decide_ext _ _ Hin). clear Hin. destruct (expired_by u r); simpl.
      * rewrite (bool_decide_ext (status r = PENDING ∧ true = true) (status r = PENDING)) by tauto.
        rewrite andb_true_r. by case_bool_decide.
      * rewrite bool_decide_eq_false_2 by (by intros [_ ?]). by rewrite andb_false_r.
    + by case_bool_decide.
Qed.

(** *** Creation *)
Section creation.
Context (account mode : string) (ttl : Z).

(** What the trader has verified about a request it accepts. *)
Record admissible (au : Authorities) (rq : ProposalCreateRequest) (source : string)
    (quote : ExecutableQuote) (j : DomainJournal T) : Prop := {
  ad_action : c_action rq = "BUY"%string ∨ c_action rq = "SELL"%string;
  ad_one_size : c_quantity rq = None ∨ c_amount rq = None;
  ad_instrument : is_Some (au_secdef au) ∧ au_instrument_ok au = true;
  ad_not_flat held : c_action rq = "SELL"%string → starts_with "strategy:" source = true →
    au_reducible au = Some held → fle held fzero = false;
  ad_gate : au_controls au = true → is_reducing_close au rq = false →
    require_unpaused account j = (Ok tt, j);
  ad_quote : au_quote au (q_side quote) = Some quote;
  ad_side : q_side quote = if String.eqb (c_action rq) "BUY" then "ask"%string else "bid"%string;
  ad_conid : q_conid quote = c_conid rq;
  ad_price : fle (q_price quote) fzero = false;
  ad_aware : is_aware (market_timestamp quote) = true;
}.

Lemma screen_spec au rq source j :
  match screen account au rq source j with
  | (Ok (_, _, quote), j') => j' = j ∧ admissible au rq source quote j
  | (Raise e, j') => j' = j ∧ ∃ code, e = ProposalCreationRefused code
  end.
Proof.
  unfold screen. rewrite bind_require.
  destruct (String.eqb (c_action rq) "BUY" || String.eqb (c_action rq) "SELL") eqn:Hact; [|by split; [|eexists]].
  rewrite bind_require. destruct (negb _) eqn:Hsize; [|by split; [|eexists]].
  destruct (au_secdef au) as [[symbol secType]|] eqn:Hsec; [|by split; [|eexists]].
  rewrite bind_require. destruct (au_instrument_ok au) eqn:Hinst; [|by split; [|eexists]].
  rewrite bind_require. destruct (negb (_ && _ && _)) eqn:Hflat; [|by split; [|eexists]].
  rewrite bind_unfold.
  assert (∀ m, (m = if au_controls au && negb (is_reducing_close au rq)
    then try_except (require_unpaused account)
           (λ e, match e with
                 | TradingPausedError _ | PauseStateUnavailable _ => Some (refuse "TRADING_PAUSED")
                 | _ => None end)
    else mret tt) →
    match m j with
    | (Ok _, j') => j' = j ∧ (au_controls au = true → is_reducing_close au rq = false →
                              require_unpaused account j = (Ok tt, j))
    | (Raise e, j') => j' = j ∧ ∃ code, e = ProposalCreationRefused code
    end) as Hgate.
  { intros m ->. destruct (au_controls au); simpl; [|done].
    destruct (is_reducing_close au rq); simpl; [done|].
    unfold try_except. rewrite require_unpaused_spec.
    destruct (controls j !! account) as [s|]; simpl; [|by split; [|eexists]].
    destruct (new_exposure_paused s); simpl; [by split; [|eexists]|done]. }
  specialize (Hgate _ eq_refl).
  match type of Hgate with match ?m j with _ => _ end => destruct (m j) as [[[]|e] j'] end;
    [|exact Hgate].
  destruct Hgate as [-> Hgate]. cbv zeta.
  set (side := if String.eqb (c_action rq) "BUY" then _ else _) in *.
  destruct (au_quote au side) as [quote|] eqn:Hquote; [|by split; [|eexists]].
  rewrite bind_require. destruct (negb (fle _ _)) eqn:Hprice; [|by split; [|eexists]].
  rewrite bind_require. destruct (_ && String.eqb (q_side quote) side) eqn:Hid; [|by split; [|eexists]].
  rewrite bind_require. destruct (is_aware _) eqn:Haware; [|by split; [|eexists]].
  split; [done|]. to_prop. split; try done.
  - destruct Hact as [E|E]; to_prop; auto.
  - destruct Hsize as [E|E]; apply bool_decide_eq_false in E; [left|right];
      (destruct (c_quantity rq), (c_amount rq); try done; by destruct E).
  - intros held Ha Hs Hh. rewrite Ha, Hs, Hh in Hflat. by destruct Hflat.
  - by replace (q_side quote) with side.
Qed.

Lemma reserve_spec n j :
  match reserve_loop n j with
  | (r, j') => jcore j' = jcore j ∧ proposals j' = proposals j ∧ tables (db_producer (jdb j')) = tables (db_producer (jdb j)) ∧
      latest_committed_cursor j' = latest_committed_cursor j ∧
      match r with
      | Ok id => id_taken id j' = false
      | Raise e => e = RuntimeError "unable to reserve an unused trade_proposals id"
      end
  end.
Proof.
  revert j. induction n as [|n IH]; intros j; [done|]. cbn [reserve_loop].
  rewrite bind_unfold. unfold nextval. cbn [fst snd].
  set (j1 := mkJournal _ _). rewrite bind_gets. destruct (id_taken _ j1) eqn:E; [|done].
  specialize (IH j1). by destruct (reserve_loop n j1) as [r j'].
Qed.

Lemma authority_ok_same j j' :
  jcore j' = jcore j → proposals j' = proposals j →
  latest_committed_cursor j' = latest_committed_cursor j → authority_ok j → authority_ok j'.
Proof.
  intros Hc Hp Hl [[] H2 H3 H4].
  split; [split; by rewrite ?Hc, ?Hl| | |]; unfold revision_of; rewrite ?Hc, ?Hp; done.
Qed.

Lemma write_created_run source draft rev (p : pconn T) :
  write_created source draft rev p =
    if negb (rev =? 1) then (Raise ConcurrentProposalChange, p)
    else if starts_with "strategy:" source
            && pending_duplicate source (d_conid draft) (d_action draft) (proposals_of p)
    then (Raise (ProposalCreationRefused "DUPLICATE_PENDING"), p)
    else match proposals_of p !! d_id draft with
    | Some _ => (Raise (ConstraintException "trade_proposals"), p)
    | None => (Ok (from_row (stored_row draft rev)), set_proposals <[d_id draft := stored_row draft rev]> p)
    end.
Proof.
  unfold write_created, insert_pending_in_tx. run. destruct (rev =? 1); [|done]. run.
  destruct (_ && _); [done|]. simpl. run. by destruct (proposals_of p !! d_id draft).
Qed.

(** What creating a proposal guarantees.  An accepted request was admissible
    (a known tradable instrument, at most one size, the pause gate passed unless
    it verifiably reduces a position, a positive quote of the right side and
    instrument with a zoned time), became one new PENDING row at revision one,
    sized and priced by that quote, expiring after the time to live, with one
    event in the same commit, and did not duplicate a strategy's pending one.  A
    refused request left no row and no event, and only refusal codes or an
    exhausted id sequence are raised. *)
Theorem create_proposal_spec st au rq source correlation u off j :
  authority_ok j →
  match create_proposal account mode ttl st au rq source correlation (Aware u off) j with
  | (Raise e, j') =>
      authority_ok j' ∧ proposals j' = proposals j ∧ jcore j' = jcore j ∧
      ((∃ code, e = ProposalCreationRefused code)
       ∨ e = RuntimeError "unable to reserve an unused trade_proposals id")
  | (Ok r, j') =>
      ∃ row quote, authority_ok j' ∧ r = from_row row ∧
      proposals j !! p_id row = None ∧ proposals j' = <[p_id row := row]> (proposals j) ∧
      (∃ m, journal (jcore j') = journal (jcore j)
              ++ [appended_row (jcore j) (proposal_event_id (p_id row) 1) m (st_now st)]) ∧
      admissible au rq source quote j ∧
      size au rq (q_price quote) = Ok (quantity row, default fzero (amount row)) ∧
      status row = PENDING ∧ revision row = 1 ∧ p_account_id row = Some account ∧
      action row = c_action rq ∧ p_conid row = Some (c_conid rq) ∧
      reference_price row = Some (q_price quote) ∧ expires_at row = Some (u + ttl) ∧
      (starts_with "strategy:" source = true →
       pending_duplicate source (c_conid rq) (c_action rq) (proposals j) = false)
  end.
Proof.
  intros Hj. unfold create_proposal. rewrite bind_unfold. pose proof (screen_spec au rq source j) as Hscreen.
  destruct (screen account au rq source j) as [[[[symbol secType] quote]|e] j0].
  2: { destruct Hscreen as [-> ?]. by split_and!; [| | |left]. }
  destruct Hscreen as [-> Had]. destruct (size au rq (q_price quote)) as [sized|e] eqn:Hsize.
  2: { split_and!; [done..|]. left. revert Hsize. unfold size.
       destruct (c_quantity rq), (c_amount rq), (au_sizer au) as [[? ?]|]; intros Hs;
         repeat case_match; simplify_eq; by eexists. }
  unfold as_utc_strict. rewrite bind_ret, bind_unfold. unfold reserve_id.
  pose proof (reserve_spec (Z.to_nat 10000) j) as Hres.
  destruct (reserve_loop _ j) as [[id|e] j1]; destruct Hres as (Hc & Hp & Htab & Hl & Hid).
  2: { split_and!; [by eapply authority_ok_same|done|done|by right]. }
  pose proof (authority_ok_same _ _ Hc Hp Hl Hj) as Hj1. cbv zeta.
  set (draft := draft_of account mode ttl rq source symbol secType quote sized id u).
  set (m := mutation_for (record_from_draft draft 1) (Some correlation)).
  unfold id_taken in Hid. apply orb_false_iff in Hid as [Hfree Hfresh].
  apply bool_decide_eq_false in Hfree, Hfresh. fold (proposals j1) in Hfree. rewrite Hp in Hfree.
  fold (jcore j1) in Hfresh. rewrite Hc in Hfresh.
  assert (proposals j !! id = None) as Hnone by by apply eq_None_not_Some.
  assert (select_journal_row (proposal_event_id id 1) (jcore j) = None) as Hsel by by apply eq_None_not_Some.
  rewrite bind_unfold. unfold try_except. rewrite bind_new_mutation by done.
  rewrite mutate_written_spec by apply Hj1. rewrite Hc, Hsel.
  change (m_entity_type m) with "proposal"%string. change (m_entity_id m) with (pretty id).
  rewrite (ao_lockstep _ Hj). assert (revision_of j id = 0) as -> by (unfold revision_of; by rewrite Hnone).
  rewrite write_created_run. change (0 + 1 =? 1) with true. cbn [negb].
  change (proposals_of (db_producer (jdb j1))) with (proposals j1). rewrite Hp.
  change (d_conid draft) with (c_conid rq). change (d_action draft) with (c_action rq).
  change (d_id draft) with id. rewrite Hnone.
  destruct (starts_with "strategy:" source && pending_duplicate _ _ _ _) eqn:Hdup.
  - split_and!; [|done|done|left; by eexists].
    eapply (authority_ok_same j); [done| |done|done]. unfold proposals, table_of. simpl. by rewrite Htab.
  - cbn [first_written]. set (row := stored_row draft (0 + 1)).
    exists row, quote.
    match goal with |- authority_ok ?j' ∧ _ => assert (j' = proposal_written row m (st_now st) j1) as -> end.
    { unfold proposal_written. by rewrite Hc. }
    split_and!; try done.
    + apply authority_ok_written; try done. unfold revision_of. rewrite Hp. simpl. by rewrite Hnone.
    + rewrite proposals_written. by rewrite Hp.
    + exists m. unfold jcore at 1. simpl. by rewrite Hc.
    + rewrite Hsize. by destruct sized.
    + intros Hst. by rewrite Hst in Hdup.
Qed.
End creation.

Lemma authority_ok_empty (p : pconn T) :
  (tget (tables p) : proposal_table) = ∅ → authority_ok (empty_journal p).
Proof.
  intros Hp. assert (proposals (empty_journal p) = ∅) as He by done.
  split; [apply jwf_empty| | |]; unfold revision_of; rewrite ?He.
  - intros id. by rewrite lookup_empty.
  - intros id r. by rewrite lookup_empty.
  - intros row i n Hrow. by apply not_elem_of_nil in Hrow.
Qed.
End repository.

(** ** Concrete runs *)
Definition ex_tables : Type := control_table * proposal_table.
Definition ex_repr : float → string := λ _, "1.0"%string.
Definition ex_price : float := float_of_Z 100.
Definition ex_none : DomainJournal ex_tables := empty_journal (mkPconn ∅ (∅, ∅)).
Definition ex_proposal : ProposalRecord :=
  mkProposal 1 "AAPL" "BUY" (Some (float_of_Z 2)) (Some (float_of_Z 200)) [] "" fzero "" "manual" []
    PENDING 0 0 [] "" "STK" (Some "DU1"%string) (Some "paper"%string) (Some 265598) (Some ex_price)
    (Some 0) (Some "ask"%string) (Some "live"%string) (Some DEFAULT_DRIFT_BPS) (Some (minutes 5)) true 1 None.
Definition ex_pending : DomainJournal ex_tables :=
  proposal_written ex_proposal (mutation_for ex_repr ex_proposal (Some "cmd-1"%string)) 0 ex_none.
Definition ex_st : stamp := mkStamp "u" (minutes 6).

Lemma ex_pending_ok : authority_ok ex_pending.
Proof. apply authority_ok_written; [by apply authority_ok_empty|done|reflexivity|reflexivity]. Qed.

Lemma reject_proposal_spec_witness :
  status <$> proposals (reject_proposal ex_repr ex_st 1 "stale thesis" "cmd-2" (Aware (minutes 2) 0)
    ex_pending).2 !! 1 = Some REJECTED.
Proof.
  destruct (reject_proposal_spec ex_repr ex_st 1 "stale thesis" "cmd-2" (minutes 2) 0 ex_pending
    ex_pending_ok) as [H _].
  change (proposals ex_pending !! 1) with (Some ex_proposal) in H. cbn [status ex_proposal] in H.
  cbv zeta in H. rewrite H. reflexivity.
Defined.

Lemma expire_stale_spec_witness : ∃ j',
  expire_stale ex_repr (λ _, ex_st) (Aware (minutes 5) 0) ex_pending = (Ok [1], j') ∧
  status <$> proposals j' !! 1 = Some EXPIRED.
Proof.
  destruct (expire_stale_spec ex_repr (λ _, ex_st) (minutes 5) 0 ex_pending ex_pending_ok)
    as (j' & Hrun & _ & Hp).
  exists j'. split; [exact Hrun|]. rewrite Hp. reflexivity.
Defined.

Definition ex_request : ProposalCreateRequest :=
  mkCreate 265598 "BUY" None (Some (float_of_Z 500)) [] "breakout" fzero "" "" None None None None.
Definition ex_authorities : Authorities :=
  mkAuthorities (Some ("AAPL", "STK")%string) true None false
    (λ side, Some (mkQuote 265598 side ex_price (Aware (minutes 3) 0) "live" "regular")) None.

Lemma create_proposal_spec_witness : ∃ row,
  create_proposal ex_repr "DU1" "paper" (minutes 5) ex_st ex_authorities ex_request "manual" "cmd-3"
    (Aware (minutes 3) 0) ex_none = (Ok (from_row row),
      final (create_proposal ex_repr "DU1" "paper" (minutes 5) ex_st ex_authorities ex_request "manual"
        "cmd-3" (Aware (minutes 3) 0)) ex_none) ∧
  quantity row = Some (float_of_Z 5) ∧ expires_at row = Some (minutes 8).
Proof.
  pose proof (create_proposal_spec ex_repr "DU1" "paper" (minutes 5) ex_st ex_authorities ex_request
    "manual" "cmd-3" (minutes 3) 0 ex_none ltac:(by apply authority_ok_empty)) as H.
  unfold final. destruct (create_proposal _ _ _ _ _ _ _ _ _ _ ex_none) as [[r|e] j'] eqn:E.
  - destruct H as (row & quote & _ & -> & _ & _ & _ & Had & Hs & _ & _ & _ & _ & _ & _ & Hexp & _).
    exists row. split; [done|]. split; [|exact Hexp].
    assert (q_price quote = ex_price) as Hprice
      by (pose proof (ad_quote _ _ _ _ _ _ Had) as Hq; simpl in Hq; by injection Hq as <-).
    rewrite Hprice in Hs.
    apply (f_equal (λ x, match x with Ok y => y.1 | Raise _ => None end)) in Hs.
    cbn [fst] in Hs. rewrite <-Hs. vm_compute. reflexivity.
  - exfalso. apply (f_equal (λ x, match x.1 with Ok _ => true | Raise _ => false end)) in E.
    vm_compute in E. discriminate E.
Defined.
