(* ===== verification/Command.v ===== *)
(** * The command authority ([trader/trading/command_coordinator.py])

    Every trading command goes through [TradingCommandCoordinator.execute]: an
    exact-retry lookup, then one transaction that spends the preflight nonce,
    inserts the ledger row and the audit record and journals RECEIVED, then the
    registered handler, then one more transition.  The theorems: a replay runs
    nothing, a refused claim leaves nothing, among any number of concurrent
    callers at most one dispatches a command id, and the outcome of every branch
    of a command with its ledger row. *)
From stdpp Require Import base tactics gmap list strings pretty.
From Stdlib Require Import ZArith Lia Ascii.
From S2P Require Import Prelude Py Journal Store.
Open Scope Z_scope.

(** ** Contracts *)
Inductive command_state : Type :=
  | RECEIVED | VALIDATED | SUBMITTING | SUBMITTED | REJECTED | OUTCOME_UNKNOWN | RESOLVED.
Global Instance command_state_eq_dec : EqDecision command_state.
Proof. solve_decision. Defined.

Definition state_name (s : command_state) : string :=
  match s with
  | RECEIVED => "RECEIVED" | VALIDATED => "VALIDATED" | SUBMITTING => "SUBMITTING"
  | SUBMITTED => "SUBMITTED" | REJECTED => "REJECTED" | OUTCOME_UNKNOWN => "OUTCOME_UNKNOWN"
  | RESOLVED => "RESOLVED"
  end.

(** [state in _TERMINAL_STATES] *)
Definition is_terminal (s : command_state) : bool :=
  match s with RESOLVED | REJECTED => true | _ => false end.

Record CommandReceipt : Type := mkReceipt {
  rc_command_id : string;
  rc_correlation_id : string;
  rc_state : command_state;
  rc_outcome : option dict;
  rc_error_code : option string;
  retryable : bool;
}.

Record CommandRequest : Type := mkRequest {
  command_id : string;
  cr_action : string;
  cr_account_id : option string;
  target_type : string;
  target_id : string;
  expected_version : option Z;
  body : dict;
  cr_source : string;
  preflight_nonce : option string;
  parent_command_id : option string;
  session_fingerprint : option string;
  principal : option string;
  controller_epoch : option Z;
}.

(** [CommandRequest.__post_init__] *)
Definition new_request {S} (r : CommandRequest) : M S CommandRequest :=
  require (no_char ":" (command_id r)) ValueError ;; mret r.

(** [parent_command_id or command_id] *)
Definition request_correlation_id (r : CommandRequest) : string :=
  match parent_command_id r with
  | Some p => if String.eqb p "" then command_id r else p
  | None => command_id r
  end.

(** *** [canonical_json]: sorted keys, no blanks, text as it is *)
Definition escape_raw_char (c : ascii) : string :=
  let n := N_of_ascii c in
  if ((n <? 32) || (n =? 34) || (n =? 92))%N then escape_char c else String c "".
Fixpoint escape_raw (s : string) : string :=
  match s with
  | EmptyString => ""
  | String c s' => (escape_raw_char c +:+ escape_raw s')%string
  end.
Definition quoted_raw (s : string) : string := (quote +:+ escape_raw s +:+ quote)%string.

Fixpoint canonical_json (j : json) : string :=
  match j with
  | JNull => "null"
  | JBool true => "true"
  | JBool false => "false"
  | JInt z => pretty z
  | JFloat r => r
  | JStr s => quoted_raw s
  | JArr l => ("[" +:+ join "," (map canonical_json l) +:+ "]")%string
  | JObj kvs =>
      ("{" +:+ join ","
         (map (λ kv, (quoted_raw kv.1 +:+ ":" +:+ kv.2)%string)
            (sort_keys (map (λ kv, (kv.1, canonical_json kv.2)) kvs))) +:+ "}")%string
  end.

(** What a command is: neither its source, its nonce, its session nor its
    caller. *)
Definition request_identity (r : CommandRequest) : json :=
  JObj [("action", JStr (cr_action r)); ("account_id", jopt JStr (cr_account_id r));
        ("target_type", JStr (target_type r)); ("target_id", JStr (target_id r));
        ("expected_version", jopt JInt (expected_version r)); ("body", JObj (body r))].

Record LedgerRow : Type := mkLedgerRow {
  l_command_id : string;
  request_hash : string;
  l_account_id : option string;
  l_action : string;
  l_target_type : string;
  l_target_id : string;
  l_expected_version : option Z;
  l_state : command_state;
  l_outcome : option dict;
  l_error_code : option string;
  l_source : string;
  l_created_at : Z;
  l_updated_at : Z;
}.

Record AuditRow : Type := mkAudit {
  audit_id : Z;
  a_command_id : string;
  a_correlation_id : string;
  a_action : string;
  a_target_type : string;
  a_target_id : string;
  a_expected_version : option Z;
  redacted_inputs : dict;
  validation_result : option string;
  acknowledgement : option string;
  a_outcome : option string;
  a_created_at : Z;
}.

(** The two tables of the migration. *)
Notation ledger_table := (gmap string LedgerRow).
Notation audit_table := (list AuditRow).

Definition row_to_receipt (r : LedgerRow) : CommandReceipt :=
  mkReceipt (l_command_id r) (l_command_id r) (l_state r) (l_outcome r) (l_error_code r)
    (negb (is_terminal (l_state r)) && negb (bool_decide (l_state r = OUTCOME_UNKNOWN))).

Definition conflict_receipt (id : string) : CommandReceipt :=
  mkReceipt id id REJECTED None (Some "COMMAND_CONFLICT"%string) false.

Inductive LedgerClaim : Type :=
  | claim_new
  | claim_replay (receipt : CommandReceipt)
  | claim_conflict (receipt : CommandReceipt).

(** [f"command:{command_id}:{to_state.lower()}"] *)
Definition command_event_id (id : string) (s : command_state) : string :=
  ("command:" +:+ id +:+ ":" +:+ lower (state_name s))%string.

(** The shape every [command.updated] event of a command has. *)
Definition command_mutation (r : CommandRequest) (now : Z) (payload : dict) : DomainMutation :=
  mkMutation "command.updated" "command" (command_id r) op_upsert (cr_account_id r)
    "trader_service" (Aware now 0) (Some (request_correlation_id r)) (Some payload).

Definition received_payload (r : CommandRequest) : dict :=
  [("state", JStr "RECEIVED"); ("action", JStr (cr_action r));
   ("target_type", JStr (target_type r)); ("target_id", JStr (target_id r))].

Definition command_updated_mutation (r : CommandRequest) (s : command_state) (now : Z)
    (outcome : option dict) (error_code : option string) : DomainMutation :=
  command_mutation r now
    [("state", JStr (state_name s)); ("action", JStr (cr_action r));
     ("target_type", JStr (target_type r)); ("target_id", JStr (target_id r));
     ("outcome", jopt JObj outcome); ("error_code", jopt JStr error_code)].

(** What a step reads from outside: the component's clock, and the journal's
    own stamp. *)
Record moment : Type := mkMoment { mo_now : datetime; mo_stamp : stamp }.

(** ** Ledger and audit *)
Section ledger.
Context {T : Type} `{HasTable T ledger_table, HasTable T audit_table}.
(** [hashlib.sha256(...).hexdigest()] *)
Context (sha256_hex : string → string).

Definition canonical_request_hash (r : CommandRequest) : string :=
  sha256_hex (canonical_json (request_identity r)).

Definition ledger_of (p : pconn T) : ledger_table := tget (tables p).
Definition audit_of (p : pconn T) : audit_table := tget (tables p).
Definition set_ledger (f : ledger_table → ledger_table) (p : pconn T) : pconn T :=
  mkPconn (seqs p) (tset (f (ledger_of p)) (tables p)).

(** *** [CommandLedger] *)
Definition get_row (id : string) : M (DomainJournal T) (option LedgerRow) :=
  gets (λ j, ledger_of (db_producer (jdb j)) !! id).

Definition claim_or_replay (r : CommandRequest) : M (DomainJournal T) LedgerClaim :=
  row ← get_row (command_id r);
  mret (match row with
  | None => claim_new
  | Some row =>
      if String.eqb (request_hash row) (canonical_request_hash r)
      then claim_replay (row_to_receipt row)
      else claim_conflict (conflict_receipt (command_id r))
  end).

Definition received_row (r : CommandRequest) (hash : string) (now : Z) : LedgerRow :=
  mkLedgerRow (command_id r) hash (cr_account_id r) (cr_action r) (target_type r) (target_id r)
    (expected_version r) RECEIVED None None (cr_source r) now now.

Definition insert_received_in_tx (r : CommandRequest) (hash : string) (now : Z)
    : M (pconn T) LedgerRow :=
  t ← gets ledger_of;
  match (t : ledger_table) !! command_id r with
  | Some _ => raise (ConstraintException "command_ledger")
  | None =>
      modify (set_ledger <[command_id r := received_row r hash now]>) ;;
      mret (received_row r hash now)
  end.

(** The columns the [UPDATE] sets: an outcome or a code that is not given is
    cleared. *)
Definition set_command_state (s : command_state) (outcome : option dict) (code : option string)
    (now : Z) (row : LedgerRow) : LedgerRow :=
  mkLedgerRow (l_command_id row) (request_hash row) (l_account_id row) (l_action row)
    (l_target_type row) (l_target_id row) (l_expected_version row) s outcome code (l_source row)
    (l_created_at row) now.

Definition transition_in_tx (id : string) (from to : command_state) (outcome : option dict)
    (code : option string) (now : Z) : M (pconn T) LedgerRow :=
  t ← gets ledger_of;
  match (t : ledger_table) !! id with
  | Some row =>
      if bool_decide (l_state row = from) then
        modify (set_ledger <[id := set_command_state to outcome code now row]>) ;;
        mret (set_command_state to outcome code now row)
      else raise (IllegalCommandTransition id (state_name from) (state_name to))
  | None => raise (IllegalCommandTransition id (state_name from) (state_name to))
  end.

(** [SELECT ... WHERE p ORDER BY created_at] *)
Definition ledger_rows (p : LedgerRow → bool) (t : ledger_table) : list LedgerRow :=
  order_by l_created_at (filter (λ r, p r = true) (map snd (map_to_list t))).
Definition select_rows (p : LedgerRow → bool) : M (DomainJournal T) (list LedgerRow) :=
  gets (λ j, ledger_rows p (ledger_of (db_producer (jdb j)))).

Definition unresolved (r : LedgerRow) : bool := negb (is_terminal (l_state r)).

Definition unresolved_for_target (ttype tid : string) : M (DomainJournal T) (list LedgerRow) :=
  select_rows (λ r, String.eqb (l_target_type r) ttype && String.eqb (l_target_id r) tid
                    && unresolved r).
Definition unresolved_for_account (account : string) (exclude : option string)
    : M (DomainJournal T) (list LedgerRow) :=
  select_rows (λ r, bool_decide (l_account_id r = Some account) && unresolved r
    && match exclude with Some id => negb (String.eqb (l_command_id r) id) | None => true end).
Definition reconcilable : M (DomainJournal T) (list LedgerRow) :=
  select_rows (λ r, match l_state r with
                    | SUBMITTING | OUTCOME_UNKNOWN | SUBMITTED => true | _ => false end).
Definition received : M (DomainJournal T) (list LedgerRow) :=
  select_rows (λ r, bool_decide (l_state r = RECEIVED)).
Definition pre_dispatch_orphans : M (DomainJournal T) (list LedgerRow) :=
  select_rows (λ r, bool_decide (l_state r = VALIDATED)).

(** [SELECT ... FROM command_audit WHERE command_id = ? ORDER BY audit_id LIMIT 1] *)
Definition first_audit (id : string) (l : audit_table) : option AuditRow :=
  head (order_by audit_id (filter (λ a, a_command_id a = id) l)).
Definition audited_correlation_id (id : string) : M (DomainJournal T) (option string) :=
  gets (λ j, a_correlation_id <$> first_audit id (audit_of (db_producer (jdb j)))).
Definition audited_body (id : string) : M (DomainJournal T) (option dict) :=
  gets (λ j, redacted_inputs <$> first_audit id (audit_of (db_producer (jdb j)))).

Definition COMMAND_RETENTION : Z := days 30.

(** [DELETE ... RETURNING command_id], in a transaction of its own. *)
Definition purgeable (cutoff : Z) (r : LedgerRow) : bool :=
  is_terminal (l_state r) && (l_updated_at r <? cutoff).
Definition purge_expired (now : datetime) : M (DomainJournal T) Z :=
  plain_transaction (in_producer (
    let cutoff := as_utc now - COMMAND_RETENTION in
    t ← gets ledger_of;
    let deleted := filter (λ kr, purgeable cutoff kr.2 = true) (map_to_list (t : ledger_table)) in
    modify (set_ledger (filter (λ kr, purgeable cutoff kr.2 = false))) ;;
    mret (Z.of_nat (length deleted)))).

(** *** [CommandAudit] *)
Definition AUDIT_SEQ : string := "command_audit_seq".

Definition record_in_tx (r : CommandRequest) (correlation_id : string) (now : Z) : M (pconn T) unit :=
  modify (λ p,
    let n := default 1 (seqs p !! AUDIT_SEQ) in
    mkPconn (<[AUDIT_SEQ := n + 1]> (seqs p))
      (tset (audit_of p ++ [mkAudit n (command_id r)
        (if String.eqb correlation_id "" then command_id r else correlation_id) (cr_action r)
        (target_type r) (target_id r) (expected_version r) (body r) None None None now]) (tables p))).
End ledger.

(** ** What the claim transaction calls besides the ledger *)

(** [PreflightNonceGate]: spends a nonce on the caller's transaction. *)
Class NonceGate (T : Type) `{HasTable T ledger_table} : Type := {
  consume_in_tx : option string → CommandRequest → M (pconn T) bool;
  consume_keeps_ledger n r p : ledger_of (final (consume_in_tx n r) p) = ledger_of p;
}.

(** The audit sink ([audit: Any]): one record per command, or an exception. *)
Class AuditSink (T : Type) `{HasTable T ledger_table} : Type := {
  write_audit : CommandRequest → string → Z → M (pconn T) unit;
  audit_keeps_ledger r c now p : ledger_of (final (write_audit r c now) p) = ledger_of p;
}.

(** [CommandAudit] is one. *)
Global Instance command_audit_sink T `{HasTable T ledger_table, HasTable T audit_table}
  `{!Disjoint_tables T ledger_table audit_table} : AuditSink T.
Proof.
  refine {| write_audit := record_in_tx |}. intros r c now p.
  unfold final, record_in_tx, modify, ledger_of. simpl. apply tget_tset_other.
Defined.

(** ** [TradingCommandCoordinator] *)

(** The trader process: the journal's database, the commands handed to the
    reconciler, and what the handlers act on. *)
Record world (T E : Type) : Type := mkWorld {
  w_journal : DomainJournal T;
  scheduled : list (string * Z);
  w_env : E;
}.
Arguments mkWorld {T E} _ _ _.
Arguments w_journal {T E} _.
Arguments scheduled {T E} _.
Arguments w_env {T E} _.

Section coordinator.
Context {T E : Type} `{HasTable T ledger_table} `{!NonceGate T, !AuditSink T}.
Context (sha256_hex : string → string).
(** [ReconcilerPort.schedule], when one is wired. *)
Context (reconciler : option (string → Z → res unit)).

Definition set_journal (j : DomainJournal T) (w : world T E) : world T E :=
  mkWorld j (scheduled w) (w_env w).
Definition on_journal {A} : M (DomainJournal T) A → M (world T E) A := zoom w_journal set_journal.

(** [_ActionRegistration]; [saga] tells which result the handler has. *)
Inductive ActionRegistration : Type :=
  | single_step (handler : CommandRequest → M (world T E) dict) (requires_preflight : bool)
  | saga (handler : CommandRequest → M (world T E) CommandReceipt) (requires_preflight : bool).
Definition needs_nonce (reg : ActionRegistration) : bool :=
  match reg with single_step _ b | saga _ b => b end.

Definition register_action (action : string) (reg : ActionRegistration)
    (actions : gmap string ActionRegistration) : gmap string ActionRegistration :=
  <[action := reg]> actions.
Definition unregister_action (action : string) (actions : gmap string ActionRegistration)
    : bool * gmap string ActionRegistration :=
  match actions !! action with
  | None => (false, actions)
  | Some _ => (true, delete action actions)
  end.

Definition reconciliation_complete_for_account (account : string) (exclude : option string)
    : M (DomainJournal T) bool :=
  rows ← unresolved_for_account account exclude;
  mret (match rows with [] => true | _ => false end).

(** [_write_received] *)
Definition write_received (reg : ActionRegistration) (r : CommandRequest) (now _revision : Z)
    : M (pconn T) LedgerRow :=
  (if needs_nonce reg then
     ok ← consume_in_tx (preflight_nonce r) r;
     if (ok : bool) then mret tt
     else raise (CommandValidationError "PREFLIGHT_REQUIRED"
                   "missing, expired, or already-consumed preflight nonce")
   else mret tt) ;;
  row ← insert_received_in_tx r (canonical_request_hash sha256_hex r) now;
  write_audit r (request_correlation_id r) now ;;
  mret row.

Definition losing_claim_receipt (r : CommandRequest) : M (DomainJournal T) CommandReceipt :=
  claim ← claim_or_replay sha256_hex r;
  match claim with
  | claim_new => raise (RuntimeError "journal/ledger atomicity violated")
  | claim_replay receipt | claim_conflict receipt => mret receipt
  end.

(** A claim that was refused with nothing kept. *)
Definition refused (r : CommandRequest) (code : string) : CommandReceipt :=
  mkReceipt (command_id r) (command_id r) REJECTED None (Some code) true.

(** Steps 2 and 3 of [execute]: [None] when this caller inserted the RECEIVED
    row and owns the dispatch. *)
Definition receive (reg : ActionRegistration) (r : CommandRequest) (tm : moment)
    : M (DomainJournal T) (option CommandReceipt) :=
  received_at ← as_utc_strict (mo_now tm);
  m ← new_mutation (command_mutation r received_at (received_payload r));
  claimed ← try_except
    (inserted ← mutate_written (mo_stamp tm) m (write_received reg r received_at)
       (command_event_id (command_id r) RECEIVED);
     mret (inl inserted))
    (λ e, Some (match e with
      | CommandValidationError code _ => mret (inr (refused r code))
      | EventIdentityConflict _ => receipt ← losing_claim_receipt r; mret (inr receipt)
      | _ => mret (inr (refused r "AUDIT_UNAVAILABLE"))
      end));
  match claimed with
  | inr receipt => mret (Some receipt)
  | inl [] => receipt ← losing_claim_receipt r; mret (Some receipt)
  | inl (_ :: _) => mret None
  end.

(** [_transition] *)
Definition transition (r : CommandRequest) (from to : command_state) (outcome : option dict)
    (code : option string) (tm : moment) : M (DomainJournal T) LedgerRow :=
  now ← as_utc_strict (mo_now tm);
  m ← new_mutation (command_updated_mutation r to now outcome code);
  transitioned ← mutate_written (mo_stamp tm) m
    (λ _, transition_in_tx (command_id r) from to outcome code now)
    (command_event_id (command_id r) to);
  first_written transitioned.

(** [self._reconciler.schedule(command_id, now)] *)
Definition call_schedule (hook : string → Z → res unit) (id : string) (now : Z)
    : M (world T E) unit :=
  modify (λ w, mkWorld (w_journal w) (scheduled w ++ [(id, now)]) (w_env w)) ;;
  match hook id now with Ok _ => mret tt | Raise e => raise e end.

(** [except Exception: pass] *)
Definition swallow {S A} (a : A) (m : M S A) : M S A := try_except m (λ _, Some (mret a)).

Definition schedule_reconcile (id : string) (now : datetime) : M (world T E) unit :=
  match reconciler with
  | None => mret tt
  | Some hook => swallow tt (t ← as_utc_strict now; call_schedule hook id t)
  end.

Definition fallback_outcome_unknown (r : CommandRequest) (tm : moment) (at_ : datetime)
    : M (world T E) unit :=
  parked ← swallow false (on_journal (
    current ← get_row (command_id r);
    match current with
    | None => mret false
    | Some current =>
        if is_terminal (l_state current) || bool_decide (l_state current = OUTCOME_UNKNOWN)
        then mret false
        else transition r (l_state current) OUTCOME_UNKNOWN None (Some "INTERNAL_ERROR"%string) tm ;;
             mret true
    end));
  if (parked : bool) then schedule_reconcile (command_id r) at_ else mret tt.

(** Step 4 of [execute] *)
Definition run_handler (reg : ActionRegistration) (r : CommandRequest) (tm : moment) (at_ : datetime)
    : M (world T E) CommandReceipt :=
  match reg with
  | saga handler _ =>
      try_except (handler r) (λ e, Some (fallback_outcome_unknown r tm at_ ;; raise e))
  | single_step handler _ =>
      result ← try_except (outcome ← handler r; mret (inl outcome))
        (λ e, Some (match e with
          | CommandValidationError code message =>
              row ← on_journal (transition r RECEIVED REJECTED (Some [("message"%string, JStr message)])
                                  (Some code) tm);
              mret (inr (row_to_receipt row))
          | _ =>
              parked ← swallow false (on_journal (
                transition r RECEIVED OUTCOME_UNKNOWN None (Some "INTERNAL_ERROR"%string) tm ;; mret true));
              (if (parked : bool) then schedule_reconcile (command_id r) at_ else mret tt) ;;
              raise e
          end));
      match result with
      | inr receipt => mret receipt
      | inl outcome =>
          row ← on_journal (transition r RECEIVED RESOLVED (Some outcome) None tm);
          mret (row_to_receipt row)
      end
  end.

(** [execute]: [t_receive], [t_final] and [t_schedule] are its readings of the
    clock. *)
Definition execute (actions : gmap string ActionRegistration) (r : CommandRequest)
    (t_receive t_final : moment) (t_schedule : datetime) : M (world T E) CommandReceipt :=
  match actions !! cr_action r with
  | None => raise KeyError
  | Some reg =>
      claim ← on_journal (claim_or_replay sha256_hex r);
      match claim with
      | claim_replay receipt | claim_conflict receipt => mret receipt
      | claim_new =>
          lost ← on_journal (receive reg r t_receive);
          match lost with
          | Some receipt => mret receipt
          | None => run_handler reg r t_final t_schedule
          end
      end
  end.

(** [get_command] *)
Definition get_command (id : string) : M (DomainJournal T) (option CommandReceipt) :=
  row ← get_row id; mret (row_to_receipt <$> row).
End coordinator.

(** ** A command's place in the ledger *)

(** The states whose event a command in state [s] may already have. *)
Definition passed (s : command_state) : list command_state :=
  match s with
  | RECEIVED => [RECEIVED]
  | VALIDATED => [RECEIVED; VALIDATED]
  | SUBMITTING => [RECEIVED; VALIDATED; SUBMITTING]
  | SUBMITTED => [RECEIVED; VALIDATED; SUBMITTING; SUBMITTED]
  | OUTCOME_UNKNOWN => [RECEIVED; VALIDATED; SUBMITTING; SUBMITTED; OUTCOME_UNKNOWN]
  | RESOLVED | REJECTED =>
      [RECEIVED; VALIDATED; SUBMITTING; SUBMITTED; REJECTED; OUTCOME_UNKNOWN; RESOLVED]
  end.

Lemma string_app_cancel a b c : (a +:+ b = a +:+ c)%string → b = c.
Proof. induction a as [|x a IH]; [done|]. intros [= E]. by apply IH. Qed.

Lemma command_event_id_inj id s s' : command_event_id id s = command_event_id id s' → s = s'.
Proof.
  unfold command_event_id. intros E. do 3 apply string_app_cancel in E.
  by destruct s, s'.
Qed.

Section facts.
Context {T : Type} `{HasTable T ledger_table}.
Implicit Types (j : DomainJournal T) (p : pconn T).

Definition command_ledger j : ledger_table := ledger_of (db_producer (jdb j)).

(** The command's row, and that the events of the states ahead are free. *)
Record command_at (id : string) (row : LedgerRow) j : Prop := {
  ca_jwf : jwf j;
  ca_row : command_ledger j !! id = Some row;
  ca_fresh s : s ∉ passed (l_state row) →
    select_journal_row (command_event_id id s) (jcore j) = None;
}.

Lemma ledger_set f p : ledger_of (set_ledger f p) = f (ledger_of p).
Proof. unfold ledger_of, set_ledger. simpl. apply tget_tset. Qed.

(** The journal after a command's row became [row] and its event. *)
Definition command_written (id : string) (row : LedgerRow) (s : command_state) (m : DomainMutation)
    (now : Z) j : DomainJournal T :=
  mkJournal (mkDb (append_core (jcore j) (command_event_id id s) m now)
               (set_ledger <[id := row]> (db_producer (jdb j)))) (cursor_seq (jcore j)).

Lemma command_ledger_written id row s m now j :
  command_ledger (command_written id row s m now j) = <[id := row]> (command_ledger j).
Proof. apply ledger_set. Qed.

Lemma jwf_appended eid m now j p :
  jwf j → select_journal_row eid (jcore j) = None →
  jwf (mkJournal (mkDb (append_core (jcore j) eid m now) p) (cursor_seq (jcore j))).
Proof.
  intros [W HL] Hf. split; unfold jcore; simpl; [by apply wf_append|].
  rewrite newest_append by done. lia.
Qed.

Lemma select_appended eid m now c eid' :
  select_journal_row eid c = None →
  select_journal_row eid' (append_core c eid m now) =
    if bool_decide (eid' = eid) then Some (appended_row c eid m now) else select_journal_row eid' c.
Proof.
  intros Hf. unfold select_journal_row in *. simpl. rewrite filter_app.
  case_bool_decide as E.
  - subst. destruct (filter _ (journal c)) eqn:Hl; [|done]. rewrite filter_cons_True by done. done.
  - rewrite filter_cons_False by (intros Hc; by apply E). by rewrite filter_nil, app_nil_r.
Qed.

Lemma command_at_written id row row' s m now j :
  command_at id row j → s ∉ passed (l_state row) → l_state row' = s →
  command_at id row' (command_written id row' s m now j).
Proof.
  intros [Hj Hr Hf] Hs <-. split.
  - apply jwf_appended; auto.
  - rewrite command_ledger_written. apply lookup_insert_eq.
  - intros s' Hs'. unfold jcore. simpl. rewrite select_appended by auto.
    assert (s' ≠ l_state row') as Hne.
    { intros ->. apply Hs'. destruct (l_state row'); simpl; set_solver. }
    rewrite bool_decide_eq_false_2 by (by intros E%command_event_id_inj).
    apply Hf. destruct (l_state row), (l_state row'), s'; simpl in *; set_solver.
Qed.

Lemma transition_in_tx_run id from to o c now p row :
  ledger_of p !! id = Some row → l_state row = from →
  transition_in_tx id from to o c now p =
    (Ok (set_command_state to o c now row), set_ledger <[id := set_command_state to o c now row]> p).
Proof.
  intros Hr Hs. unfold transition_in_tx. rewrite bind_gets, Hr, bool_decide_eq_true_2 by done.
  by run.
Qed.

(** A transition of a command that is where the code thinks it is. *)
Lemma transition_run r from to o c u off st j row :
  command_at (command_id r) row j → l_state row = from → to ∉ passed from →
  let row' := set_command_state to o c u row in
  transition r from to o c (mkMoment (Aware u off) st) j =
    (Ok row', command_written (command_id r) row' to (command_updated_mutation r to u o c) (st_now st) j).
Proof.
  intros [Hj Hr Hf] <- Hto row'. unfold transition, as_utc_strict. simpl. run.
  rewrite bind_new_mutation by done. rewrite bind_unfold, mutate_written_spec by done.
  rewrite Hf by done. by rewrite (transition_in_tx_run _ _ _ _ _ _ _ row).
Qed.
End facts.

Section claim.
Context {T E : Type} `{HasTable T ledger_table} `{!NonceGate T, !AuditSink T}.
Context (sha256_hex : string → string) (reconciler : option (string → Z → res unit)).
Implicit Types (j : DomainJournal T) (p : pconn T) (w : world T E) (r : CommandRequest).

Definition hash_of r : string := canonical_request_hash sha256_hex r.

(** What an exact retry, or another command under the same id, is answered. *)
Definition claim_answer r (row : LedgerRow) : CommandReceipt :=
  if String.eqb (request_hash row) (hash_of r) then row_to_receipt row
  else conflict_receipt (command_id r).

Lemma bind_on_journal {A B} (m : M (DomainJournal T) A) (k : A → M (world T E) B) w :
  (on_journal m ≫= k) w =
    match m (w_journal w) with
    | (Ok a, j) => k a (set_journal j w)
    | (Raise e, j) => (Raise e, set_journal j w)
    end.
Proof. rewrite bind_unfold. unfold on_journal, zoom. by destruct (m _) as [[a|e] j]. Qed.

Lemma set_journal_id w : set_journal (w_journal w) w = w.
Proof. by destruct w. Qed.

Lemma claim_or_replay_run r j :
  claim_or_replay sha256_hex r j =
    (Ok match command_ledger j !! command_id r with
        | None => claim_new
        | Some row => if String.eqb (request_hash row) (hash_of r) then claim_replay (row_to_receipt row)
                      else claim_conflict (conflict_receipt (command_id r))
        end, j).
Proof. done. Qed.

(** The loser of a race is answered from the winner's row. *)
Definition lost r j : res CommandReceipt :=
  match command_ledger j !! command_id r with
  | Some row => Ok (claim_answer r row)
  | None => Raise (RuntimeError "journal/ledger atomicity violated")
  end.

Lemma losing_run r j : losing_claim_receipt sha256_hex r j = (lost r j, j).
Proof.
  unfold losing_claim_receipt, lost. rewrite bind_unfold, claim_or_replay_run. unfold claim_answer.
  destruct (command_ledger j !! command_id r) as [row|]; [|done]. by destruct (String.eqb _ _).
Qed.

(** The claim's writes insert one RECEIVED row, or raise. *)
Lemma write_received_run (reg : ActionRegistration (T := T) (E := E)) r now rev p row p' :
  write_received sha256_hex reg r now rev p = (Ok row, p') →
  row = received_row r (hash_of r) now ∧ ledger_of p !! command_id r = None ∧
  ledger_of p' = <[command_id r := row]> (ledger_of p).
Proof.
  unfold write_received. intros Hrun. apply bind_ok in Hrun as ([] & p1 & Hgate & Hrun).
  assert (ledger_of p1 = ledger_of p) as H1.
  { destruct (needs_nonce reg); [|by injection Hgate as <-].
    apply bind_ok in Hgate as (ok & p2 & Hc & Hgate).
    destruct ok; [injection Hgate as <-|done].
    rewrite <-(consume_keeps_ledger (preflight_nonce r) r p). unfold final. by rewrite Hc. }
  apply bind_ok in Hrun as (row' & p2 & Hins & Hrun).
  apply bind_ok in Hrun as ([] & p3 & Haud & Hrun). injection Hrun as <- <-.
  assert (ledger_of p3 = ledger_of p2) as H3.
  { rewrite <-(audit_keeps_ledger r (request_correlation_id r) now p2). unfold final. by rewrite Haud. }
  unfold insert_received_in_tx in Hins. rewrite bind_gets, H1 in Hins.
  destruct (ledger_of p !! command_id r) eqn:Hn; [done|].
  rewrite bind_modify in Hins. injection Hins as <- <-.
  by rewrite H3, ledger_set, H1.
Qed.

(** The journal, and the world, after the claim's transaction. *)
Definition received_journal (reg : ActionRegistration (T := T) (E := E)) r u st j : DomainJournal T :=
  mkJournal
    (mkDb (append_core (jcore j) (command_event_id (command_id r) RECEIVED)
             (command_mutation r u (received_payload r)) (st_now st))
       (final (write_received sha256_hex reg r u
          (read_current_revision "command" (command_id r) (jcore j) + 1)) (db_producer (jdb j))))
    (cursor_seq (jcore j)).
Definition received_world reg r u st w : world T E :=
  set_journal (received_journal reg r u st (w_journal w)) w.

(** A transaction that rolled back: the tables are as before, only sequence
    values may be burnt. *)
Definition only_burnt j j' : Prop :=
  jcore j' = jcore j ∧ tables (db_producer (jdb j')) = tables (db_producer (jdb j)) ∧
  latest_committed_cursor j' = latest_committed_cursor j.

Lemma only_burnt_ledger j j' : only_burnt j j' → command_ledger j' = command_ledger j.
Proof. intros (_ & Ht & _). unfold command_ledger, ledger_of. by rewrite Ht. Qed.

(** How the claim's transaction fails. *)
Definition claim_failure r j (e : exc) : res CommandReceipt :=
  match e with
  | CommandValidationError code _ => Ok (refused r code)
  | EventIdentityConflict _ => lost r j
  | _ => Ok (refused r "AUDIT_UNAVAILABLE")
  end.

Lemma receive_fresh reg r u off st j :
  jwf j → select_journal_row (command_event_id (command_id r) RECEIVED) (jcore j) = None →
  match outcome (write_received sha256_hex reg r u
          (read_current_revision "command" (command_id r) (jcore j) + 1)) (db_producer (jdb j)) with
  | Ok _ => receive sha256_hex reg r (mkMoment (Aware u off) st) j
            = (Ok None, received_journal reg r u st j)
  | Raise e => ∃ j', only_burnt j j' ∧
      receive sha256_hex reg r (mkMoment (Aware u off) st) j = (Some <$> claim_failure r j e, j')
  end.
Proof.
  intros Hj Hfree. unfold outcome. unfold receive, as_utc_strict, received_journal. cbn [mo_now mo_stamp]. run.
  rewrite bind_new_mutation by done. rewrite bind_unfold. unfold try_except. rewrite bind_unfold.
  rewrite mutate_written_spec by done. rewrite Hfree. simpl. unfold final.
  destruct (write_received _ _ _ _ _ _) as [[row|e] p] eqn:Hw; [done|]. cbn [fst].
  set (j' := mkJournal _ _). exists j'. split; [done|].
  destruct e; try done; simpl; rewrite bind_unfold, losing_run; unfold lost;
    change (command_ledger j' !! command_id r) with (command_ledger j !! command_id r);
    by destruct (command_ledger j !! command_id r).
Qed.

Lemma receive_journaled reg r u off st j ev :
  jwf j → select_journal_row (command_event_id (command_id r) RECEIVED) (jcore j) = Some ev →
  ∃ j', jdb j' = jdb j ∧ jwf j' ∧
    receive (E := E) sha256_hex reg r (mkMoment (Aware u off) st) j = (Some <$> lost r j, j').
Proof.
  intros Hj Hev. unfold receive, as_utc_strict. cbn [mo_now mo_stamp]. run.
  rewrite bind_new_mutation by done. rewrite bind_unfold. unfold try_except. rewrite bind_unfold.
  rewrite mutate_written_spec by done. rewrite Hev. set (m := command_mutation _ _ _).
  destruct (matches ev m).
  - exists (mkJournal (jdb j) (Z.max (latest_committed_cursor j) (source_cursor ev))).
    split; [done|]. split.
    { apply select_Some in Hev as [Hev _]. pose proof (newest_ge _ _ Hev). destruct Hj as [W HL].
      split; [done|]. simpl. unfold jcore in *. simpl. lia. }
    rewrite ret_run. cbv beta iota. rewrite bind_unfold, losing_run.
    change (lost r (mkJournal _ _)) with (lost r j). by destruct (lost r j).
  - exists j. split_and!; [done..|]. cbv beta iota.
    rewrite !bind_unfold, losing_run. by destruct (lost r j).
Qed.

Lemma received_at reg r u st w row p :
  jwf (w_journal w) →
  (∀ s, select_journal_row (command_event_id (command_id r) s) (jcore (w_journal w)) = None) →
  write_received sha256_hex reg r u
    (read_current_revision "command" (command_id r) (jcore (w_journal w)) + 1)
    (db_producer (jdb (w_journal w))) = (Ok row, p) →
  command_at (command_id r) row (w_journal (received_world reg r u st w)).
Proof.
  intros Hj Hf Hw. pose proof (write_received_run _ _ _ _ _ _ _ Hw) as (-> & Hn & Hp).
  split.
  - apply jwf_appended; auto.
  - unfold command_ledger, received_world, received_journal. simpl. unfold final. rewrite Hw. simpl. rewrite Hp.
    apply lookup_insert_eq.
  - intros s Hs. unfold jcore at 1. simpl. rewrite select_appended by done.
    rewrite bool_decide_eq_false_2; [apply Hf|].
    intros ->%command_event_id_inj. apply Hs. simpl. set_solver.
Qed.

(** ** Theorems *)

(** Every way into a command.  An unknown action is refused; a recorded
    command is answered from its row (its receipt for the same request, a
    conflict for another) and nothing runs or changes; a first submission whose
    nonce or audit record fails leaves every table as it was and is retryable;
    otherwise one transaction stores the RECEIVED row with its event and only
    then the handler runs.  An id whose event outlived its purged row is refused
    for good, before anything is written. *)
Theorem execute_spec actions r u off st tm at_ w :
  jwf (w_journal w) →
  let j := w_journal w in
  let run := execute sha256_hex reconciler actions r (mkMoment (Aware u off) st) tm at_ w in
  match actions !! cr_action r with
  | None => run = (Raise KeyError, w)
  | Some reg =>
      match command_ledger j !! command_id r with
      | Some row => run = (Ok (claim_answer r row), w)
      | None =>
          match select_journal_row (command_event_id (command_id r) RECEIVED) (jcore j) with
          | Some _ => ∃ j', jdb j' = jdb j ∧
              run = (Raise (RuntimeError "journal/ledger atomicity violated"), set_journal j' w)
          | None =>
              let writes := write_received sha256_hex reg r u
                (read_current_revision "command" (command_id r) (jcore j) + 1) in
              match outcome writes (db_producer (jdb j)) with
              | Raise e => ∃ j', only_burnt j j' ∧ run = (claim_failure r j e, set_journal j' w)
              | Ok row =>
                  let w1 := received_world reg r u st w in
                  run = run_handler reconciler reg r tm at_ w1 ∧
                  row = received_row r (hash_of r) u ∧
                  command_ledger (w_journal w1) = <[command_id r := row]> (command_ledger j) ∧
                  scheduled w1 = scheduled w ∧ w_env w1 = w_env w ∧
                  ((∀ s, select_journal_row (command_event_id (command_id r) s) (jcore j) = None) →
                   command_at (command_id r) row (w_journal w1))
              end
          end
      end
  end.
Proof.
  intros Hj j run. unfold run, execute. destruct (actions !! cr_action r) as [reg|]; [|done].
  rewrite bind_on_journal, claim_or_replay_run, set_journal_id. fold j. unfold claim_answer.
  destruct (command_ledger j !! command_id r) as [row|] eqn:Hrow; [by destruct (String.eqb _ _)|].
  rewrite bind_on_journal. fold j. destruct (select_journal_row _ _) as [ev|] eqn:Hev.
  - destruct (receive_journaled reg r u off st j ev Hj Hev) as (j' & Hdb & _ & Hrun).
    exists j'. split; [done|]. rewrite Hrun. unfold lost. by rewrite Hrow.
  - pose proof (receive_fresh reg r u off st j Hj Hev) as Hrec. cbv zeta. destruct (outcome _ _) as [row|e] eqn:Hout.
    + rewrite Hrec. unfold outcome in Hout.
      destruct (write_received _ _ _ _ _ _) as [o p] eqn:Hw. simpl in Hout. subst o.
      pose proof (write_received_run _ _ _ _ _ _ _ Hw) as (Hr & _ & Hp).
      split_and!; try done.
      * unfold command_ledger, received_world, received_journal. simpl. unfold final. fold j. rewrite Hw. exact Hp.
      * intros Hf. by eapply received_at.
    + destruct Hrec as (j' & Hb & Hrec). exists j'. split; [done|]. rewrite Hrec.
      by destruct (claim_failure r j e).
Qed.
(** *** What a single-step command records *)

(** The rows of other commands may change while the handler runs; this one's
    row and the events ahead of it are its own. *)
Definition keeps_command r (h : CommandRequest → M (world T E) dict) : Prop :=
  ∀ w row, command_at (command_id r) row (w_journal w) →
    command_at (command_id r) row (w_journal (final (h r) w)).

Lemma on_journal_transition {B} r from to o c u off st w row (k : LedgerRow → M (world T E) B) :
  command_at (command_id r) row (w_journal w) → l_state row = from → to ∉ passed from →
  let row' := set_command_state to o c u row in
  (on_journal (transition r from to o c (mkMoment (Aware u off) st)) ≫= k) w =
    k row' (set_journal (command_written (command_id r) row' to
              (command_updated_mutation r to u o c) (st_now st) (w_journal w)) w).
Proof. intros Hat Hs Hto row'. by rewrite bind_on_journal, (transition_run _ _ _ _ _ _ _ _ _ row). Qed.

Lemma schedule_run id v off w :
  schedule_reconcile reconciler id (Aware v off) w =
    (Ok tt, match reconciler with
            | Some _ => mkWorld (w_journal w) (scheduled w ++ [(id, v)]) (w_env w)
            | None => w
            end).
Proof.
  unfold schedule_reconcile, swallow, try_except, call_schedule. destruct reconciler as [hook|]; [|done].
  unfold as_utc_strict. run. by destruct (hook id v) as [[]|e].
Qed.

Definition scheduled_after id v w : list (string * Z) :=
  match reconciler with Some _ => scheduled w ++ [(id, v)] | None => scheduled w end.

(** The row a handler's outcome leaves. *)
Definition handler_row (o : res dict) u (row : LedgerRow) : LedgerRow :=
  match o with
  | Ok d => set_command_state RESOLVED (Some d) None u row
  | Raise (CommandValidationError code message) =>
      set_command_state REJECTED (Some [("message"%string, JStr message)]) (Some code) u row
  | Raise _ => set_command_state OUTCOME_UNKNOWN None (Some "INTERNAL_ERROR"%string) u row
  end.

Lemma park_run r u off st v off' e w row :
  command_at (command_id r) row (w_journal w) → l_state row = RECEIVED →
  (parked ← swallow false (on_journal (
     transition r RECEIVED OUTCOME_UNKNOWN None (Some "INTERNAL_ERROR"%string)
       (mkMoment (Aware u off) st) ;; mret true));
   (if (parked : bool) then schedule_reconcile reconciler (command_id r) (Aware v off') else mret tt) ;;
   raise e : M (world T E) (dict + CommandReceipt)) w =
  (Raise e, mkWorld (command_written (command_id r) (handler_row (Raise KeyError) u row) OUTCOME_UNKNOWN
     (command_updated_mutation r OUTCOME_UNKNOWN u None (Some "INTERNAL_ERROR"%string)) (st_now st)
     (w_journal w)) (scheduled_after (command_id r) v w) (w_env w)).
Proof.
  intros Hat Hs. rewrite bind_unfold. unfold swallow, try_except.
  replace (on_journal _ w) with
    (mret (M := M (world T E)) true (set_journal (command_written (command_id r)
       (handler_row (Raise KeyError) u row) OUTCOME_UNKNOWN
       (command_updated_mutation r OUTCOME_UNKNOWN u None (Some "INTERNAL_ERROR"%string)) (st_now st)
       (w_journal w)) w)).
  - rewrite ret_run. cbn beta iota. rewrite bind_unfold, schedule_run.
    unfold scheduled_after. by destruct reconciler.
  - unfold on_journal, zoom. rewrite bind_unfold.
    by rewrite (transition_run _ _ _ _ _ _ _ _ _ row) by (done || (simpl; set_solver)).
Qed.

Lemma single_step_run h b r u off st v off' w row :
  keeps_command r h → command_at (command_id r) row (w_journal w) → l_state row = RECEIVED →
  let o := outcome (h r) w in
  let w2 := final (h r) w in
  let run := run_handler reconciler (single_step h b) r (mkMoment (Aware u off) st) (Aware v off') w in
  command_at (command_id r) (handler_row o u row) (w_journal run.2) ∧
  match o with
  | Ok _ | Raise (CommandValidationError _ _) =>
      run.1 = Ok (row_to_receipt (handler_row o u row)) ∧ scheduled run.2 = scheduled w2
  | Raise e => run.1 = Raise e ∧ scheduled run.2 = scheduled_after (command_id r) v w2
  end.
Proof.
  intros Hk Hat Hs o w2. pose proof (Hk _ _ Hat) as Hat2. fold w2 in Hat2.
  assert (∀ s row', l_state row' = s → s ∉ passed RECEIVED → ∀ m,
    command_at (command_id r) row' (command_written (command_id r) row' s m (st_now st) (w_journal w2)))
    as Hmove by (intros s row' <- Hp m; apply (command_at_written _ row); [done|by rewrite Hs|done]).
  unfold run_handler. rewrite bind_unfold. unfold try_except. rewrite (bind_unfold (h r)).
  unfold o, outcome in *. unfold final in w2.
  destruct (h r w) as [[d|e] w'] eqn:Hrun; cbn [fst snd] in *; subst w2;
    rewrite ?ret_run; cbn beta iota.
  - rewrite (on_journal_transition _ _ _ _ _ _ _ _ _ row) by (done || (simpl; set_solver)).
    split; [|done]. apply Hmove; [done|]. simpl. set_solver.
  - destruct e; try (rewrite (park_run _ _ _ _ _ _ _ _ row) by done;
      split; [|done]; apply Hmove; [done|]; simpl; set_solver).
    rewrite (on_journal_transition _ _ _ _ _ _ _ _ _ row) by (done || (simpl; set_solver)).
    split; [|done]. apply Hmove; [done|]. simpl. set_solver.
Qed.

(** A recorded command is answered from its row. *)
Lemma execute_recorded actions r tm tm' at_ w row :
  is_Some (actions !! cr_action r) → command_ledger (w_journal w) !! command_id r = Some row →
  execute sha256_hex reconciler actions r tm tm' at_ w = (Ok (claim_answer r row), w).
Proof.
  intros [reg Hreg] Hrow. unfold execute. rewrite Hreg, bind_on_journal, claim_or_replay_run, Hrow.
  rewrite set_journal_id. unfold claim_answer. by destruct (String.eqb _ _).
Qed.

(** ** Concurrent submissions of one command id *)

(** Where a caller of [execute] is: before its lookup, past a lookup that found
    nothing, owner of the dispatch, or answered. *)
Inductive caller : Type := Calling | Unclaimed | Dispatching | Answered.
Definition dispatching (c : caller) : Prop := match c with Dispatching => True | _ => False end.

(** The callers of one id, each with its own registration, request and clock,
    and everything else that goes on in the process; the event of a claim is
    within the journal's retention. *)
Record submission : Type := mkSubmission {
  sub_registration : ActionRegistration (T := T) (E := E);
  sub_request : CommandRequest;
  sub_now : Z;
  sub_stamp : stamp;
}.
Definition sub_receive (s : submission) : M (DomainJournal T) (option CommandReceipt) :=
  receive sha256_hex (sub_registration s) (sub_request s) (mkMoment (Aware (sub_now s) 0) (sub_stamp s)).

Inductive calls_step (id : string) (subs : list submission)
    : DomainJournal T * list caller → DomainJournal T * list caller → Prop :=
  | step_lookup i j cs s claim :
      cs !! i = Some Calling → subs !! i = Some s →
      claim_or_replay sha256_hex (sub_request s) j = (Ok claim, j) →
      calls_step id subs (j, cs)
        (j, <[i := match claim with claim_new => Unclaimed | _ => Answered end]> cs)
  | step_receive i j cs s o j' :
      cs !! i = Some Unclaimed → subs !! i = Some s → sub_receive s j = (o, j') →
      calls_step id subs (j, cs)
        (j', <[i := match o with Ok None => Dispatching | _ => Answered end]> cs)
  | step_elsewhere j j' cs :
      journal_step j j' →
      (is_Some (select_journal_row (command_event_id id RECEIVED) (jcore j)) →
       is_Some (select_journal_row (command_event_id id RECEIVED) (jcore j'))) →
      calls_step id subs (j, cs) (j', cs).

(** What holds of the callers: a dispatch needs the event, and there is one. *)
Definition one_owner (id : string) (s : DomainJournal T * list caller) : Prop :=
  jwf s.1 ∧
  (∀ i c, s.2 !! i = Some c → dispatching c →
     is_Some (select_journal_row (command_event_id id RECEIVED) (jcore s.1))) ∧
  ∀ i k c c', s.2 !! i = Some c → s.2 !! k = Some c' → dispatching c → dispatching c' → i = k.

Lemma jwf_receive reg r u off st j o j' :
  let claimed j := is_Some (select_journal_row (command_event_id (command_id r) RECEIVED) (jcore j)) in
  jwf j → receive (E := E) sha256_hex reg r (mkMoment (Aware u off) st) j = (o, j') →
  jwf j' ∧ (claimed j → claimed j') ∧ (o = Ok None → ¬ claimed j ∧ claimed j').
Proof.
  intros claimed Hj Hrun. unfold claimed. destruct (select_journal_row _ (jcore j)) as [ev|] eqn:Hev.
  - destruct (receive_journaled reg r u off st j ev Hj Hev) as (j1 & Hdb & Hj1 & Hr).
    rewrite Hrun in Hr. injection Hr as -> ->.
    assert (jcore j1 = jcore j) as -> by (unfold jcore; by rewrite Hdb).
    rewrite Hev. split_and!; [done|done|]. by destruct (lost r j).
  - pose proof (receive_fresh reg r u off st j Hj Hev) as Hr.
    destruct (outcome _ _) as [row|e].
    + rewrite Hrun in Hr. injection Hr as -> ->. split_and!; [by apply jwf_appended|by intros []|].
      intros _. split; [by intros []|]. unfold jcore at 1. simpl.
      rewrite select_appended by done. by rewrite bool_decide_eq_true_2.
    + destruct Hr as (j1 & (Hc & Ht & Hl) & Hr). rewrite Hrun in Hr. injection Hr as -> ->.
      split_and!; [split; rewrite ?Hc, ?Hl; apply Hj|by intros []|]. by destruct (claim_failure r j e).
Qed.

Lemma one_owner_step id subs s s' :
  Forall (λ x, command_id (sub_request x) = id) subs →
  calls_step id subs s s' → one_owner id s → one_owner id s'.
Proof.
  intros Hid Hstep (Hj & Hev & Hone). rewrite Forall_lookup in Hid.
  destruct Hstep as [i j cs s claim Hi Hs Hl|i j cs s o j' Hi Hs Hr|j j' cs Hstep Hkeep]; simpl in *.
  - set (c := match claim with claim_new => _ | _ => _ end).
    assert (¬ dispatching c) as Hc by (unfold c; destruct claim; intros []).
    split_and!; simpl; [done| |].
    + intros k c'. intros [(<- & <- & _)|[_ Hk]]%list_lookup_insert_Some; [done|by apply (Hev k)].
    + intros k k' c1 c2.
      intros [(<- & <- & _)|[_ Hk]]%list_lookup_insert_Some; [done|].
      intros [(<- & <- & _)|[_ Hk']]%list_lookup_insert_Some; [done|by apply (Hone k k' c1 c2)].
  - specialize (Hid _ _ Hs). simpl in Hid. subst id.
    destruct (jwf_receive _ _ _ _ _ _ _ _ Hj Hr) as (Hj' & Hmono & Hnew).
    set (c := match o with Ok None => _ | _ => _ end).
    assert (dispatching c → o = Ok None) as Hc by (unfold c; by destruct o as [[]|]; intros ?).
    split_and!; simpl; [done| |].
    + intros k c'. intros [(<- & <- & _)|[_ Hk]]%list_lookup_insert_Some; [|naive_solver].
      intros Hd. by apply Hnew, Hc.
    + intros k k' c1 c2.
      intros [(<- & <- & _)|[Hn Hk]]%list_lookup_insert_Some;
      intros [(<- & <- & _)|[Hn' Hk']]%list_lookup_insert_Some; [done| | |by apply (Hone k k' c1 c2)].
      * intros Hd1 Hd2. destruct (proj1 (Hnew (Hc Hd1))). by eapply Hev.
      * intros Hd1 Hd2. destruct (proj1 (Hnew (Hc Hd2))). by eapply Hev.
  - split_and!; simpl; [by eapply jwf_step|naive_solver|done].
Qed.

(** C12. Any number of threads may submit one command id at once, with the same or
    different requests, while other transactions, compactions and restarts
    interleave: never do two of them own the dispatch, none does once the event
    of a claim is recorded, and whoever owns it has that event committed. *)
Theorem one_dispatch id subs j s :
  jwf j → Forall (λ x, command_id (sub_request x) = id) subs →
  rtc (calls_step id subs) (j, replicate (length subs) Calling) s →
  (∀ i k, s.2 !! i = Some Dispatching → s.2 !! k = Some Dispatching → i = k) ∧
  (∀ i, s.2 !! i = Some Dispatching →
     is_Some (select_journal_row (command_event_id id RECEIVED) (jcore s.1)) ∧
     ∀ x, x ∈ subs → ∀ o j', sub_receive x s.1 = (o, j') → o ≠ Ok None).
Proof.
  intros Hj Hid Hsteps.
  assert (one_owner id (j, replicate (length subs) Calling)) as Hinit.
  { split_and!; [done| |]; simpl; intros *; intros [-> _]%lookup_replicate; [done|].
    by intros [-> _]%lookup_replicate. }
  assert (one_owner id s) as (Hs & Hev & Hone).
  { clear -Hinit Hsteps Hid. induction Hsteps; [done|]. by eapply IHHsteps, one_owner_step. }
  split; [by intros i k Hi Hk; apply (Hone i k _ _ Hi Hk)|].
  intros i Hi. pose proof (Hev i _ Hi I) as Hsome. split; [done|].
  intros x Hx o j' Hr ->. rewrite Forall_forall in Hid. specialize (Hid _ Hx). simpl in Hid. subst id.
  destruct (jwf_receive _ _ _ _ _ _ _ _ Hs Hr) as (_ & _ & Hnew). by destruct Hnew.
Qed.
End claim.

(** ** Concrete runs *)
Definition ex_tables : Type := ledger_table * (audit_table * unit).
(** A gate that lets every command through. *)
Definition ex_gate : NonceGate ex_tables.
Proof. by refine {| consume_in_tx _ _ := (mret true : M (pconn ex_tables) bool) |}. Defined.
#[local] Existing Instance ex_gate.
Definition ex_world : world ex_tables unit := mkWorld (empty_journal (mkPconn ∅ (∅, ([], tt)))) [] tt.
Definition ex_request : CommandRequest :=
  mkRequest "c-1" "pause_trading" (Some "DU1"%string) "account" "DU1" None [("reason", JStr "news")] "cli"
    None None None None None.
Definition ex_handler (r : CommandRequest) : M (world ex_tables unit) dict :=
  mret [("paused", JBool true)].
Definition ex_actions : gmap string (ActionRegistration (T := ex_tables) (E := unit)) :=
  register_action "pause_trading" (single_step ex_handler true) ∅.
Definition ex_moment (n : Z) : moment := mkMoment (Aware (seconds n) 0) (mkStamp "u" (seconds n)).
Definition ex_hash : string → string := id.
Definition ex_run : res CommandReceipt * world ex_tables unit :=
  execute ex_hash None ex_actions ex_request (ex_moment 1) (ex_moment 2) (Aware (seconds 3) 0) ex_world.

Lemma ex_world_jwf : jwf (w_journal ex_world).
Proof. apply jwf_empty. Qed.

Definition ex_row : LedgerRow := received_row ex_request (hash_of ex_hash ex_request) (seconds 1).

Lemma execute_spec_witness :
  command_ledger (w_journal (received_world ex_hash (single_step ex_handler true) ex_request (seconds 1)
    (mkStamp "u" (seconds 1)) ex_world)) !! "c-1"%string = Some ex_row ∧ ex_run.1 = Ok (row_to_receipt
      (set_command_state RESOLVED (Some [("paused", JBool true)]) None (seconds 2) ex_row)).
Proof.
  pose proof (execute_spec ex_hash None ex_actions ex_request (seconds 1) 0 (mkStamp "u" (seconds 1))
    (ex_moment 2) (Aware (seconds 3) 0) ex_world ex_world_jwf) as Hspec.
  cbv zeta in Hspec.
  change (ex_actions !! cr_action ex_request) with (Some (single_step ex_handler true)) in Hspec.
  change (command_ledger (w_journal ex_world) !! command_id ex_request) with (@None LedgerRow) in Hspec.
  change (select_journal_row (command_event_id (command_id ex_request) RECEIVED)
    (jcore (w_journal ex_world))) with (@None journal_row) in Hspec.
  cbv beta iota in Hspec.
  match type of Hspec with context [outcome ?m ?s] => change (outcome m s) with (Ok ex_row) in Hspec end.
  destruct Hspec as (_ & _ & Hl & _). split; [rewrite Hl; apply lookup_insert_eq|]. vm_compute. reflexivity.
Defined.

Lemma ex_keeps : keeps_command ex_request ex_handler.
Proof. by intros w row Hat. Qed.


(** Two callers of one id: the second is answered by the first one's row. *)
Definition ex_sub : submission (T := ex_tables) (E := unit) :=
  mkSubmission (single_step ex_handler true) ex_request (seconds 1) (mkStamp "u" (seconds 1)).
Definition ex_raced : DomainJournal ex_tables := (sub_receive ex_hash ex_sub (w_journal ex_world)).2.

Lemma one_dispatch_witness :
  is_Some (select_journal_row (command_event_id "c-1" RECEIVED) (jcore ex_raced)) ∧
  (sub_receive ex_hash ex_sub ex_raced).1 ≠ Ok None.
Proof.
  assert (rtc (calls_step ex_hash "c-1" [ex_sub; ex_sub]) (w_journal ex_world, replicate 2 Calling)
    (ex_raced, [Dispatching; Unclaimed])) as Hsteps.
  { eapply rtc_l; [by apply (step_lookup _ _ _ 0%nat _ _ ex_sub claim_new)|].
    eapply rtc_l; [by apply (step_lookup _ _ _ 1%nat _ _ ex_sub claim_new)|].
    eapply rtc_l; [eapply (step_receive _ _ _ 0%nat _ _ ex_sub (Ok None) ex_raced); try done|].
    apply rtc_refl. }
  destruct (one_dispatch ex_hash "c-1" [ex_sub; ex_sub] (w_journal ex_world) _ ex_world_jwf
    ltac:(by repeat constructor) Hsteps) as [_ Hone].
  destruct (Hone 0%nat eq_refl) as [Hev Hlost]. split; [exact Hev|].
  apply (Hlost ex_sub (list_elem_of_here _ _) _ (sub_receive ex_hash ex_sub ex_raced).2).
  apply surjective_pairing.
Defined.
