(* ===== verification/Nonce.v ===== *)
(** * Preflight nonces ([trader/trading/preflight_nonce.py])

    A nonce is issued for one command, spent on the transaction that claims the
    command, and bound to the command's id, account, request hash and session.
    [PreflightNonceGate] is the production instance of the coordinator's
    [NonceGate] interface.  The theorems: exactly which submissions a nonce
    admits, and that one nonce authorizes one claim, ever. *)
From stdpp Require Import base tactics gmap list strings.
From Stdlib Require Import ZArith Lia.
From S2P Require Import Prelude Py Journal Store Command.
Open Scope Z_scope.

Record NonceRow : Type := mkNonce {
  n_command_id : string;
  n_account_id : option string;
  n_account_mode : string;
  n_session_fingerprint : string;
  n_request_hash : string;
  issued_at : Z;
  n_expires_at : Z;
  consumed : bool;
}.

(** [preflight_nonces], by primary key *)
Notation nonce_table := (gmap string NonceRow).

Section gate.
Context {T : Type} `{HasTable T nonce_table}.
Context (sha256_hex : string → string).

Definition nonces_of (p : pconn T) : nonce_table := tget (tables p).
Definition set_nonces (f : nonce_table → nonce_table) (p : pconn T) : pconn T :=
  mkPconn (seqs p) (tset (f (nonces_of p)) (tables p)).

(** [issue_with_expiry]: [nonce] is the fresh [uuid4().hex]; the transaction is
    [journal.db.transaction], outside the journal. *)
Definition issue_with_expiry (ttl : Z) (nonce command : string) (account : option string)
    (mode fingerprint hash : string) (now : Z) : M (pconn T) (string * Z) :=
  transaction (
    t ← gets nonces_of;
    match (t : nonce_table) !! nonce with
    | Some _ => raise (ConstraintException "preflight_nonces")
    | None =>
        modify (set_nonces <[nonce := mkNonce command account mode fingerprint hash now (now + ttl) false]>)
    end) ;;
  mret (nonce, now + ttl).

Definition spent (row : NonceRow) : NonceRow :=
  mkNonce (n_command_id row) (n_account_id row) (n_account_mode row) (n_session_fingerprint row)
    (n_request_hash row) (issued_at row) (n_expires_at row) true.

(** [nonce is None or ""] *)
Definition given (nonce : option string) : option string :=
  match nonce with Some n => if String.eqb n "" then None else Some n | None => None end.

Definition consume_nonce_in_tx (now : Z) (nonce : option string) (r : CommandRequest)
    : M (pconn T) bool :=
  match given nonce with
  | None => mret false
  | Some n =>
      t ← gets nonces_of;
      match (t : nonce_table) !! n with
      | None => mret false
      | Some row =>
          if consumed row then mret false
          else if n_expires_at row <? now then mret false
          else if negb (String.eqb (n_command_id row) (command_id r)) then mret false
          else if negb (bool_decide (n_account_id row = cr_account_id r)) then mret false
          else if negb (String.eqb (n_request_hash row) (canonical_request_hash sha256_hex r)) then mret false
          else if negb (String.eqb (n_session_fingerprint row) (default "" (session_fingerprint r)))
          then mret false
          else modify (set_nonces <[n := spent row]>) ;; mret true
      end
  end.

(** ** What a nonce admits *)
Definition admits (now : Z) (row : NonceRow) (r : CommandRequest) : Prop :=
  consumed row = false ∧ now ≤ n_expires_at row ∧ n_command_id row = command_id r ∧
  n_account_id row = cr_account_id r ∧ n_request_hash row = canonical_request_hash sha256_hex r ∧
  n_session_fingerprint row = default ""%string (session_fingerprint r).

Global Instance admits_dec now row r : Decision (admits now row r).
Proof. unfold admits. apply _. Defined.

Lemma consume_run now nonce r (p : pconn T) :
  consume_nonce_in_tx now nonce r p =
    match given nonce with
    | Some n =>
        match nonces_of p !! n with
        | Some row => if bool_decide (admits now row r) then (Ok true, set_nonces <[n := spent row]> p)
                      else (Ok false, p)
        | None => (Ok false, p)
        end
    | None => (Ok false, p)
    end.
Proof.
  unfold consume_nonce_in_tx. destruct (given nonce) as [n|]; [|done]. rewrite bind_gets.
  destruct (nonces_of p !! n) as [row|]; [|done].
  destruct (decide (admits now row r)) as [Ha|Ha];
    [rewrite (bool_decide_eq_true_2 (admits _ _ _)) by done|
     rewrite (bool_decide_eq_false_2 (admits _ _ _)) by done].
  - unfold admits in Ha. destruct Ha as (-> & He & -> & -> & -> & ->).
    destruct (Z.ltb_spec (n_expires_at row) now); [lia|].
    rewrite !String.eqb_refl, bool_decide_eq_true_2 by done. by run.
  - repeat (case_match; [done|]). to_prop. destruct Ha. by split_and!.
Qed.

Lemma nonces_set f p : nonces_of (set_nonces f p) = f (nonces_of p).
Proof. unfold nonces_of, set_nonces. simpl. apply tget_tset. Qed.

(** Exactly when a nonce admits a submission: it exists, is unspent and not
    past its expiry, and was issued for this command id, account, request and
    session.  Then it is spent and nothing else changes; otherwise nothing does. *)
Theorem consume_nonce_spec now n r (p : pconn T) :
  n ≠ ""%string →
  let run := consume_nonce_in_tx now (Some n) r p in
  (run.1 = Ok true ↔ ∃ row, nonces_of p !! n = Some row ∧ admits now row r) ∧
  (run.1 = Ok true →
     nonces_of run.2 = alter spent n (nonces_of p) ∧ seqs run.2 = seqs p ∧
     tables run.2 = tset (nonces_of run.2) (tables p)) ∧
  (run.1 ≠ Ok true → run = (Ok false, p)).
Proof.
  intros Hn run. unfold run. rewrite consume_run. unfold given.
  destruct (String.eqb_spec n ""); [done|].
  destruct (nonces_of p !! n) as [row|] eqn:Hrow; simpl.
  - case_bool_decide as Ha; simpl.
    + split_and!; [naive_solver| |done]. intros _. rewrite nonces_set. split_and!; [|done|].
      * apply map_eq. intros k. destruct (decide (k = n)) as [->|Hk].
        -- by rewrite lookup_insert_eq, lookup_alter_eq, Hrow.
        -- by rewrite lookup_insert_ne, lookup_alter_ne.
      * done.
    + split_and!; [naive_solver..|done].
  - naive_solver.
Qed.
End gate.

(** ** The gate of the coordinator *)
Section authority.
Context {T E : Type} `{HasTable T ledger_table, HasTable T audit_table, HasTable T nonce_table}
  `{!Disjoint_tables T ledger_table audit_table, !Disjoint_tables T ledger_table nonce_table,
    !Disjoint_tables T audit_table nonce_table}.
Context (sha256_hex : string → string).

(** [now] is the gate's clock. *)
Definition preflight_gate (now : Z) : NonceGate T.
Proof.
  refine {| consume_in_tx := consume_nonce_in_tx sha256_hex now |}.
  intros n r p. unfold final. rewrite consume_run.
  destruct (given n) as [k|]; [|done]. destruct (nonces_of p !! k); [|done].
  case_bool_decide; [|done]. unfold ledger_of, set_nonces. simpl. apply tget_tset_other.
Defined.

Definition receive_at (now : Z) (reg : ActionRegistration (T := T) (E := E)) (r : CommandRequest)
    (tm : moment) : M (DomainJournal T) (option CommandReceipt) :=
  receive (NonceGate0 := preflight_gate now) sha256_hex reg r tm.

Lemma nonces_set_ledger f (p : pconn T) : nonces_of (set_ledger f p) = nonces_of p.
Proof. unfold nonces_of, set_ledger. simpl. apply tget_tset_other_r. Qed.
Lemma nonces_audit r c now (p : pconn T) : nonces_of (final (write_audit r c now) p) = nonces_of p.
Proof. unfold nonces_of, final, write_audit, record_in_tx, modify. simpl. apply tget_tset_other_r. Qed.

Definition nonces j : nonce_table := nonces_of (db_producer (jdb (T := T) j)).

(** The claim's writes on a nonce: a claim that needs one and passes has spent
    it; one whose nonce is spent raises before it writes. *)
Lemma claim_spends now (reg : ActionRegistration (T := T) (E := E)) r at_ rev p row p' :
  needs_nonce reg = true →
  write_received (NonceGate0 := preflight_gate now) sha256_hex reg r at_ rev p = (Ok row, p') →
  ∃ n nr, preflight_nonce r = Some n ∧ n ≠ ""%string ∧ nonces_of p !! n = Some nr ∧
    admits sha256_hex now nr r ∧ nonces_of p' !! n = Some (spent nr).
Proof.
  intros Hneed. unfold write_received. rewrite Hneed. intros Hrun.
  apply bind_ok in Hrun as ([] & p1 & Hgate & Hrun).
  apply bind_ok in Hgate as (ok & p2 & Hc & Hgate). destruct ok; [injection Hgate as <-|done].
  simpl in Hc. rewrite consume_run in Hc. unfold given in Hc.
  destruct (preflight_nonce r) as [n|] eqn:Hn; [|done].
  destruct (String.eqb_spec n ""); [done|].
  destruct (nonces_of p !! n) as [nr|] eqn:Hnr; [|done].
  case_bool_decide as Ha; [|done]. injection Hc as <-.
  exists n, nr. split_and!; try done.
  apply bind_ok in Hrun as (row' & p3 & Hins & Hrun).
  apply bind_ok in Hrun as ([] & p4 & Haud & Hrun). injection Hrun as <- <-.
  assert (nonces_of p4 = nonces_of p3) as ->.
  { rewrite <-(nonces_audit r (request_correlation_id r) at_ p3). unfold final. by rewrite Haud. }
  unfold insert_received_in_tx in Hins. rewrite bind_gets in Hins.
  destruct (_ !! command_id r); [done|]. rewrite bind_modify in Hins. injection Hins as <- <-.
  rewrite nonces_set_ledger, nonces_set. apply lookup_insert_eq.
Qed.

Lemma claim_without_nonce now (reg : ActionRegistration (T := T) (E := E)) r at_ rev p :
  needs_nonce reg = true →
  (∀ n nr, preflight_nonce r = Some n → nonces_of p !! n = Some nr → ¬ admits sha256_hex now nr r) →
  ∃ m, write_received (NonceGate0 := preflight_gate now) sha256_hex reg r at_ rev p =
    (Raise (CommandValidationError "PREFLIGHT_REQUIRED" m), p).
Proof.
  intros Hneed Hno. eexists. unfold write_received. rewrite Hneed, bind_unfold, bind_unfold. simpl.
  rewrite consume_run. unfold given. destruct (preflight_nonce r) as [n|]; [|done].
  destruct (String.eqb_spec n ""); [done|]. destruct (nonces_of p !! n) as [nr|] eqn:Hnr; [|done].
  rewrite bool_decide_eq_false_2; [done|]. by eapply Hno.
Qed.

(** C14. One nonce authorizes one claim.  A submission that becomes the owner of a
    dispatch under a preflight registration presented a stored, unexpired nonce
    issued for it, and its commit has spent that nonce; from any later state in
    which the row is still that spent row, no submission with the same nonce, of
    this or any other command, session or time, is admitted: it is refused with
    PREFLIGHT_REQUIRED and every table stays as it was. *)
Theorem nonce_authorizes_once now (reg : ActionRegistration (T := T) (E := E)) r u off st j j' :
  jwf j → needs_nonce reg = true →
  receive_at now reg r (mkMoment (Aware u off) st) j = (Ok None, j') →
  ∃ n nr, preflight_nonce r = Some n ∧ nonces j !! n = Some nr ∧ admits sha256_hex now nr r ∧
    nonces j' !! n = Some (spent nr) ∧
    ∀ now2 (reg2 : ActionRegistration (T := T) (E := E)) r2 u2 off2 st2 j2,
      jwf j2 → needs_nonce reg2 = true → preflight_nonce r2 = Some n →
      nonces j2 !! n = Some (spent nr) →
      select_journal_row (command_event_id (command_id r2) RECEIVED) (jcore j2) = None →
      ∃ j3, only_burnt j2 j3 ∧
        receive_at now2 reg2 r2 (mkMoment (Aware u2 off2) st2) j2
        = (Ok (Some (refused r2 "PREFLIGHT_REQUIRED")), j3).
Proof.
  intros Hj Hneed Hrun. unfold receive_at in Hrun.
  destruct (jwf_receive _ _ _ _ _ _ _ _ _ Hj Hrun) as (_ & _ & Hfresh).
  assert (select_journal_row (command_event_id (command_id r) RECEIVED) (jcore j) = None) as Hf
    by by apply eq_None_not_Some, Hfresh.
  pose proof (receive_fresh (NonceGate0 := preflight_gate now) sha256_hex reg r u off st j Hj Hf) as H'.
  rewrite Hrun in H'. unfold outcome in H'.
  destruct (write_received _ _ _ _ _ _) as [[row|e] p] eqn:Hw; simpl in H'.
  2: { destruct H' as (? & _ & [=E' _]). by destruct (claim_failure _ _ _ _). }
  injection H' as ->. destruct (claim_spends _ _ _ _ _ _ _ _ Hneed Hw) as (n & nr & Hn & _ & Hnr & Ha & Hs).
  exists n, nr. split_and!; try done.
  { unfold nonces, received_journal. simpl. unfold final. by rewrite Hw. }
  intros now2 reg2 r2 u2 off2 st2 j2 Hj2 Hneed2 Hn2 Hrow2 Hf2.
  pose proof (receive_fresh (NonceGate0 := preflight_gate now2) sha256_hex reg2 r2 u2 off2 st2 j2 Hj2 Hf2) as H'.
  destruct (claim_without_nonce now2 reg2 r2 u2
    (read_current_revision "command" (command_id r2) (jcore j2) + 1) (db_producer (jdb j2)) Hneed2)
    as (m & Hw2).
  { intros n' nr' Hn' Hnr' [Hc _]. rewrite Hn2 in Hn'. injection Hn' as <-.
    change (nonces j2 !! n = Some nr') in Hnr'. rewrite Hrow2 in Hnr'. by injection Hnr' as <-. }
  unfold outcome in H'. rewrite Hw2 in H'. exact H'.
Qed.
End authority.

(** ** Concrete runs *)
Definition ex_nonce_tables : Type := ledger_table * (audit_table * (nonce_table * unit)).
Definition ex_approve : CommandRequest :=
  mkRequest "c-9" "pause_trading" (Some "DU1"%string) "account" "DU1" None [] "web" (Some "n-1"%string) None
    (Some "s-1"%string) None None.
Definition ex_issued : NonceRow :=
  mkNonce "c-9" (Some "DU1"%string) "paper" "s-1" (canonical_request_hash id ex_approve) 0 (seconds 120) false.
Definition ex_conn : pconn ex_nonce_tables := mkPconn ∅ (∅, ([], ({["n-1"%string := ex_issued]}, tt))).

Lemma consume_nonce_spec_witness :
  nonces_of (consume_nonce_in_tx id (seconds 5) (Some "n-1"%string) ex_approve ex_conn).2
  = alter spent "n-1" (nonces_of ex_conn).
Proof.
  destruct (consume_nonce_spec id (seconds 5) "n-1" ex_approve ex_conn ltac:(done)) as (Hiff & Hspent & _).
  apply Hspent, Hiff. exists ex_issued. split; [reflexivity|].
  vm_compute. split_and!; reflexivity || discriminate.
Defined.

Definition ex_reg : ActionRegistration (T := ex_nonce_tables) (E := unit) :=
  single_step (λ _, mret []) true.
Definition ex_at (n : Z) : moment := mkMoment (Aware (seconds n) 0) (mkStamp "u" (seconds n)).
Definition ex_before : DomainJournal ex_nonce_tables := empty_journal ex_conn.
Definition ex_after : DomainJournal ex_nonce_tables :=
  (receive_at id (seconds 5) ex_reg ex_approve (ex_at 5) ex_before).2.
(** The same nonce on another command, in the same session. *)
Definition ex_other : CommandRequest :=
  mkRequest "c-10" "pause_trading" (Some "DU1"%string) "account" "DU1" None [] "web" (Some "n-1"%string) None
    (Some "s-1"%string) None None.

Lemma nonce_authorizes_once_witness : ∃ j3,
  receive_at id (seconds 6) ex_reg ex_other (ex_at 6) ex_after
  = (Ok (Some (refused ex_other "PREFLIGHT_REQUIRED")), j3).
Proof.
  assert (receive_at id (seconds 5) ex_reg ex_approve (ex_at 5) ex_before = (Ok None, ex_after)) as Hrun
    by reflexivity.
  destruct (nonce_authorizes_once id (seconds 5) ex_reg ex_approve (seconds 5) 0 (mkStamp "u" (seconds 5))
    ex_before ex_after ltac:(apply jwf_empty) eq_refl Hrun) as (n & nr & Hn & Hnr & _ & Hs & Hnext).
  injection Hn as <-. change (Some ex_issued = Some nr) in Hnr. injection Hnr as <-.
  destruct (Hnext (seconds 6) ex_reg ex_other (seconds 6) 0 (mkStamp "u" (seconds 6)) ex_after) as (j3 & _ & H).
  - destruct (jwf_receive (NonceGate0 := preflight_gate id (seconds 5)) id ex_reg ex_approve (seconds 5) 0
      (mkStamp "u" (seconds 5)) ex_before (Ok None) ex_after ltac:(apply jwf_empty) Hrun) as [Hj _]. exact Hj.
  - reflexivity.
  - reflexivity.
  - exact Hs.
  - reflexivity.
  - by exists j3.
Defined.
