(* ===== verification/Risk.v ===== *)
(** * Risk decisions and projections ([trader/trading/risk_producer.py])

    [RiskProducer] journals three kinds of risk rows: policies and projections,
    which a later value replaces, and per-command decisions, which are written
    once.  [ReconciliationProducer] journals reconciliation runs.  The theorem:
    whatever the producer publishes, a recorded decision keeps its payload and
    its revision for good. *)
From stdpp Require Import base tactics gmap list strings.
From Stdlib Require Import ZArith Lia Ascii.
From S2P Require Import Prelude Py Journal Store.
Open Scope Z_scope.

Inductive risk_kind : Type := kind_policy | kind_projection | kind_decision.
Definition kind_text (k : risk_kind) : string :=
  match k with kind_policy => "policy" | kind_projection => "projection" | kind_decision => "decision" end.

Record RiskRow : Type := mkRisk {
  risk_kind_of : risk_kind;
  rk_account_id : string;
  risk_payload : dict;
  risk_revision : Z;
  risk_updated_at : Z;
}.

Record ReconciliationRow : Type := mkRun {
  run_trigger : string;
  run_source_cursor : option Z;
  discrepancies : list json;
  resolutions : list json;
  started_at : Z;
  run_completed_at : Z;
  run_revision : Z;
}.

(** [risk_state] and [reconciliation_runs], by primary key *)
Notation risk_table := (gmap string RiskRow).
Notation run_table := (gmap string ReconciliationRow).

(** [trader/domain/identity.py] *)
Definition risk_policy_entity_id (policy_id : string) : string := ("policy:" +:+ policy_id)%string.
Definition risk_projection_entity_id (account : string) : string := ("projection:" +:+ account)%string.
Definition risk_decision_entity_id (command : string) : string := ("decision:" +:+ command)%string.

(** Equality of a stored payload and a new one: the order of keys does not
    count. *)
Definition same_payload (a b : dict) : bool := String.eqb (dumps (JObj a)) (dumps (JObj b)).

Section producer.
Context {T : Type} `{HasTable T risk_table}.
Context (account : string).

Definition risks_of (p : pconn T) : risk_table := tget (tables p).
Definition set_risks (f : risk_table → risk_table) (p : pconn T) : pconn T :=
  mkPconn (seqs p) (tset (f (risks_of p)) (tables p)).

(** [_append_write], at the clock's [now] *)
Definition risk_mutation (id : string) (k : risk_kind) (payload : dict) (correlation : option string)
    (now : Z) : DomainMutation :=
  mkMutation "risk.updated" "risk" id op_upsert (Some account) "trader_service" (Aware now 0)
    correlation (Some (assoc_merge [("kind", JStr (kind_text k)); ("risk_id", JStr id)] payload)).

Definition write_risk (id : string) (k : risk_kind) (payload : dict) (now revision : Z)
    : M (pconn T) unit :=
  modify (set_risks (<[id := mkRisk k account (dict_sorted payload) revision now]> ∘ delete id)).

Definition append_write (st : stamp) (id : string) (k : risk_kind) (payload : dict)
    (correlation : option string) (now : Z) : M (tx T) (option DomainEvent) :=
  e ← append st (risk_mutation id k payload correlation now) (write_risk id k payload now) None;
  mret (Some e).

Definition get_risk_in_tx (id : string) : M (tx T) (option RiskRow) :=
  in_producer (gets (λ p, risks_of p !! id)).

Definition publish_replaceable (st : stamp) (id : string) (k : risk_kind) (payload : dict) (now : Z)
    : M (DomainJournal T) (option DomainEvent) :=
  mutate_batch_work (
    current ← get_risk_in_tx id;
    match current with
    | Some row =>
        if same_payload (risk_payload row) payload then mret None
        else append_write st id k payload None now
    | None => append_write st id k payload None now
    end).

Definition publish_policy (st : stamp) (policy_id : string) (payload : dict) (now : Z) :=
  publish_replaceable st (risk_policy_entity_id policy_id) kind_policy payload now.

Definition publish_decision (st : stamp) (command : string) (payload : dict)
    (correlation : option string) (now : Z) : M (DomainJournal T) (option DomainEvent) :=
  mutate_batch_work (
    current ← get_risk_in_tx (risk_decision_entity_id command);
    match current with
    | Some row =>
        if same_payload (risk_payload row) payload then mret None
        else raise (RiskDecisionImmutable command)
    | None =>
        append_write st (risk_decision_entity_id command) kind_decision payload
          (Some (match correlation with
                 | Some c => if String.eqb c "" then command else c
                 | None => command end)) now
    end).

(** *** The debounced projection: the producer's timer, and the journal *)
Record producer : Type := mkProducer { rp_journal : DomainJournal T; pending_timer : bool }.

(** [mark_projection_dirty]: [true] when it starts a timer. *)
Definition mark_projection_dirty : M producer bool := λ s,
  if pending_timer s then (Ok false, s) else (Ok true, mkProducer (rp_journal s) true).

(** [flush_projection]; [compute] is what [compute_projection()] answers. *)
Definition flush_projection (st : stamp) (compute : res dict) (now : Z) : M producer (option DomainEvent) :=
  modify (λ s, mkProducer (rp_journal s) false) ;;
  match compute with
  | Raise _ => mret None
  | Ok payload =>
      zoom rp_journal (λ j s, mkProducer j (pending_timer s))
        (publish_replaceable st (risk_projection_entity_id account) kind_projection payload now)
  end.
End producer.

(** ** [ReconciliationProducer.publish_run] *)
Section reconciliation.
Context {T : Type} `{HasTable T run_table}.

Definition run_payload (run_id : string) (row : ReconciliationRow) : dict :=
  [("run_id", JStr run_id); ("trigger", JStr (run_trigger row));
   ("source_cursor", jopt JInt (run_source_cursor row));
   ("discrepancies", JArr (discrepancies row)); ("resolutions", JArr (resolutions row));
   ("started_at", JStr (isoformat (started_at row)));
   ("completed_at", JStr (isoformat (run_completed_at row)))].

(** [row] carries the arguments; its revision is the journal's. *)
Definition publish_run (st : stamp) (run_id : string) (row : ReconciliationRow)
    : M (DomainJournal T) DomainEvent :=
  mutate st
    (mkMutation "reconciliation.updated" "reconciliation" run_id op_upsert None "trader_service"
       (Aware (run_completed_at row) 0) None (Some (run_payload run_id row)))
    (λ revision, modify (λ p, mkPconn (seqs p)
      (tset (<[run_id := mkRun (run_trigger row) (run_source_cursor row)
                (map json_sorted (discrepancies row)) (map json_sorted (resolutions row))
                (started_at row) (run_completed_at row) revision]>
             (delete run_id (tget (tables p) : run_table))) (tables p)))) None.
End reconciliation.

(** ** What a publication does *)
Section facts.
Context {T : Type} `{HasTable T risk_table}.
Context (account : string).
Implicit Types (j : DomainJournal T).

Definition risks j : risk_table := risks_of (db_producer (jdb j)).

Lemma risks_set f p : risks_of (set_risks f p) = f (risks_of (T := T) p).
Proof. unfold risks_of, set_risks. simpl. apply tget_tset. Qed.

(** The journal after a new risk row and its event. *)
Definition risk_written (st : stamp) (id : string) (k : risk_kind) (payload : dict)
    (correlation : option string) (now : Z) j : DomainJournal T :=
  mkJournal
    (mkDb (append_core (jcore j) (st_uuid st) (risk_mutation account id k payload correlation now) (st_now st))
       (set_risks (λ t, <[id := mkRisk k account (dict_sorted payload)
                            (read_current_revision "risk" id (jcore j) + 1) now]> (delete id t))
          (db_producer (jdb j)))) (cursor_seq (jcore j)).

Lemma append_write_run st id k payload correlation now j :
  jwf j → select_journal_row (st_uuid st) (jcore j) = None →
  append_write account st id k payload correlation now (mkTx (jdb j) []) =
    (Ok (Some (recorded_event (jcore j) (st_uuid st) (risk_mutation account id k payload correlation now) (st_now st))),
     mkTx (jdb (risk_written st id k payload correlation now j))
       [recorded_event (jcore j) (st_uuid st) (risk_mutation account id k payload correlation now) (st_now st)]).
Proof.
  intros Hj Hf. unfold append_write. rewrite bind_unfold, append_spec by apply Hj. simpl.
  change (tx_core (mkTx (jdb j) [])) with (jcore j). by rewrite Hf.
Qed.

Lemma bind_get_risk {A} id (k : option RiskRow → M (tx T) A) j :
  (get_risk_in_tx id ≫= k) (mkTx (jdb j) []) = k (risks j !! id) (mkTx (jdb j) []).
Proof. rewrite bind_unfold. unfold get_risk_in_tx, in_producer, zoom, gets. simpl. by destruct j as [[? []]]. Qed.

Lemma untouched {A} (a : A) j :
  mkJournal (tx_db (mkTx (jdb j) [])) (signalled (latest_committed_cursor j) []) = j.
Proof. by destruct j. Qed.

(** One new row, at the transaction's level and committed. *)
Lemma mutate_append_risk st id k payload correlation now j (w : M (tx T) (option DomainEvent)) :
  jwf j → select_journal_row (st_uuid st) (jcore j) = None →
  w (mkTx (jdb j) []) = append_write account st id k payload correlation now (mkTx (jdb j) []) →
  mutate_batch_work w j =
    (Ok (Some (recorded_event (jcore j) (st_uuid st) (risk_mutation account id k payload correlation now) (st_now st))),
     risk_written st id k payload correlation now j).
Proof.
  intros Hj Hf Hw. rewrite append_write_run in Hw by done.
  rewrite (mutate_batch_work_run _ _ _ _ Hw). cbn [tx_events]. by rewrite signalled_fresh.
Qed.

Lemma publish_decision_run st command payload correlation now j :
  jwf j → select_journal_row (st_uuid st) (jcore j) = None →
  let id := risk_decision_entity_id command in
  publish_decision account st command payload correlation now j =
  match risks j !! id with
  | Some row => if same_payload (risk_payload row) payload then (Ok None, j)
                else (Raise (RiskDecisionImmutable command), j)
  | None =>
      let c := Some (match correlation with
                     | Some c => if String.eqb c "" then command else c | None => command end) in
      (Ok (Some (recorded_event (jcore j) (st_uuid st)
                   (risk_mutation account id kind_decision payload c now) (st_now st))),
       risk_written st id kind_decision payload c now j)
  end.
Proof.
  intros Hj Hf id. unfold publish_decision. fold id.
  destruct (risks j !! id) as [row|] eqn:Hr.
  - destruct (same_payload _ _) eqn:Hs.
    + erewrite mutate_batch_work_run by (rewrite bind_get_risk, Hr, Hs; reflexivity).
      cbn. by destruct j.
    + erewrite mutate_batch_work_run by (rewrite bind_get_risk, Hr, Hs; reflexivity).
      cbn. rewrite rollback_id. by destruct j.
  - apply mutate_append_risk; [done|done|]. by rewrite bind_get_risk, Hr.
Qed.

Lemma publish_replaceable_run st id k payload now j :
  jwf j → select_journal_row (st_uuid st) (jcore j) = None →
  publish_replaceable account st id k payload now j =
  if match risks j !! id with Some row => same_payload (risk_payload row) payload | None => false end
  then (Ok None, j)
  else (Ok (Some (recorded_event (jcore j) (st_uuid st)
                    (risk_mutation account id k payload None now) (st_now st))),
        risk_written st id k payload None now j).
Proof.
  intros Hj Hf. unfold publish_replaceable. destruct (risks j !! id) as [row|] eqn:Hr.
  - destruct (same_payload _ _) eqn:Hs.
    + erewrite mutate_batch_work_run by (rewrite bind_get_risk, Hr, Hs; reflexivity).
      cbn. by destruct j.
    + apply mutate_append_risk; [done|done|]. by rewrite bind_get_risk, Hr, Hs.
  - apply mutate_append_risk; [done|done|]. by rewrite bind_get_risk, Hr.
Qed.

(** Everything the producer publishes; each write brings a fresh event id. *)
Inductive risk_step : DomainJournal T → DomainJournal T → Prop :=
  | step_policy st id payload now j :
      select_journal_row (st_uuid st) (jcore j) = None →
      risk_step j (final (publish_policy account st id payload now) j)
  | step_decision st command payload correlation now j :
      select_journal_row (st_uuid st) (jcore j) = None →
      risk_step j (final (publish_decision account st command payload correlation now) j)
  | step_projection st payload now j :
      select_journal_row (st_uuid st) (jcore j) = None →
      risk_step j (final (publish_replaceable account st (risk_projection_entity_id account)
                            kind_projection payload now) j).

Lemma risk_written_lookup st id k payload c now j id' :
  id ≠ id' → risks (risk_written st id k payload c now j) !! id' = risks j !! id'.
Proof.
  intros Hne. unfold risks at 1. simpl. rewrite risks_set.
  by rewrite lookup_insert_ne, lookup_delete_ne.
Qed.
Lemma jwf_risk_written st id k payload c now j :
  jwf j → select_journal_row (st_uuid st) (jcore j) = None → jwf (risk_written st id k payload c now j).
Proof.
  intros [W HL] Hf. split; unfold jcore; simpl; [by apply wf_append|].
  rewrite newest_append by done. lia.
Qed.

Lemma risk_step_keeps command row j j' :
  risk_step j j' → jwf j → risks j !! risk_decision_entity_id command = Some row →
  jwf j' ∧ risks j' !! risk_decision_entity_id command = Some row.
Proof.
  destruct 1 as [st id payload now j Hf|st c payload correlation now j Hf|st payload now j Hf];
    intros Hj Hrow; unfold final.
  - unfold publish_policy. rewrite publish_replaceable_run by done. case_match; [done|]. simpl.
    by rewrite risk_written_lookup; [split; [apply jwf_risk_written|]|].
  - rewrite publish_decision_run by done. cbv zeta.
    destruct (risks j !! risk_decision_entity_id c) as [row'|] eqn:Hc; [by case_match|]. simpl.
    rewrite risk_written_lookup; [by split; [apply jwf_risk_written|]|]. congruence.
  - rewrite publish_replaceable_run by done. case_match; [done|]. simpl.
    by rewrite risk_written_lookup; [split; [apply jwf_risk_written|]|].
Qed.

(** A risk decision is written once.  Whatever the producer publishes
    afterwards, policies, projections and decisions under any id, the row of a
    recorded decision stays as it is; publishing the same decision again changes
    nothing and another one under its id is refused. *)
Theorem decision_is_immutable command row j j' :
  jwf j → risks j !! risk_decision_entity_id command = Some row → rtc risk_step j j' →
  risks j' !! risk_decision_entity_id command = Some row ∧
  ∀ st payload correlation now, select_journal_row (st_uuid st) (jcore j') = None →
    publish_decision account st command payload correlation now j' =
      (if same_payload (risk_payload row) payload then Ok None
       else Raise (RiskDecisionImmutable command), j').
Proof.
  intros Hj Hrow Hsteps.
  assert (jwf j' ∧ risks j' !! risk_decision_entity_id command = Some row) as [Hj' Hrow'].
  { revert Hj Hrow. induction Hsteps as [|j1 j2 j3 Hs _ IH]; [done|]. intros Hj Hrow.
    destruct (risk_step_keeps _ _ _ _ Hs Hj Hrow). by apply IH. }
  split; [done|]. intros st payload correlation now Hf.
  rewrite publish_decision_run by done. cbv zeta. rewrite Hrow'. by case_match.
Qed.
End facts.

(** ** A concrete run *)
Definition ex_risk_tables : Type := risk_table * unit.
Definition ex_decision : dict := [("decision", JStr "approve"); ("proposal_id", JInt 1)].
Definition ex_producer : DomainJournal ex_risk_tables := empty_journal (mkPconn ∅ (∅, tt)).
Definition ex_decided : DomainJournal ex_risk_tables :=
  (publish_decision "DU1" (mkStamp "u-1" 5) "c-1" ex_decision None 5 ex_producer).2.

Lemma decision_is_immutable_witness :
  publish_decision "DU1" (mkStamp "u-3" 7) "c-1" [("decision", JStr "reject")] None 7
    (final (publish_policy "DU1" (mkStamp "u-2" 6) "p" [] 6) ex_decided) =
    (Raise (RiskDecisionImmutable "c-1"), final (publish_policy "DU1" (mkStamp "u-2" 6) "p" [] 6) ex_decided).
Proof.
  assert (jwf ex_decided) as Hj.
  { unfold ex_decided. rewrite publish_decision_run; [|apply jwf_empty|reflexivity].
    apply jwf_risk_written; [apply jwf_empty|reflexivity]. }
  destruct (risks ex_decided !! risk_decision_entity_id "c-1") as [row|] eqn:Hrow; [|discriminate Hrow].
  destruct (decision_is_immutable "DU1" "c-1" row ex_decided
    (final (publish_policy "DU1" (mkStamp "u-2" 6) "p" [] 6) ex_decided) Hj Hrow) as [_ Hsame].
  { apply rtc_once, step_policy. reflexivity. }
  rewrite Hsame by reflexivity.
  assert (same_payload (risk_payload row) [("decision", JStr "reject")] = false) as ->; [|done].
  vm_compute in Hrow. injection Hrow as <-. reflexivity.
Defined.
