(* ===== verification/Approval.v ===== *)
(** * The approval saga ([trader/trading/command_coordinator.py])

    [ApprovalCommandService.approve] is the one command that dispatches real
    orders.  It validates the proposal, records the risk decision, claims the
    proposal and the command in one transaction (the pause gate re-checked in
    it), re-validates, and only then calls the broker; what the broker answers
    decides the last transaction.  The theorems: the broker is called at most
    once and only with everything the guards demand committed, and the proposal,
    the command and the receipt agree after every answer. *)
From stdpp Require Import base tactics gmap list strings pretty.
From Stdlib Require Import ZArith Lia Ascii SpecFloat.
From S2P Require Import Prelude Py Correlation Journal Store TradingControl Proposal Command Risk.
Open Scope Z_scope.

(** ** Pure guards *)
Inductive RiskDirection : Type := INCREASING | REDUCING.
Global Instance RiskDirection_eq_dec : EqDecision RiskDirection.
Proof. solve_decision. Defined.

Record CommandProblem : Type := mkProblem { cp_code : string; cp_retryable : bool }.

Definition classify_risk_direction (action : string) (held order : float) : RiskDirection :=
  if String.eqb action "SELL" && flt fzero held && fle order held then REDUCING
  else if String.eqb action "BUY" && flt held fzero && fle order (fneg held) then REDUCING
  else INCREASING.

Definition MAX_SOURCE_CLOCK_SKEW_SECONDS : float := float_of_Z 30.

(** [now - quote.market_timestamp]: a naive time does not subtract. *)
Definition quote_age (now : Z) (q : ExecutableQuote) : res float :=
  match market_timestamp q with
  | Naive _ => Raise TypeError
  | Aware t _ => Ok (total_seconds (now - t))
  end.

(** Too old, or from the future. *)
Definition check_age (age limit : float) : option CommandProblem :=
  if flt limit age then Some (mkProblem "QUOTE_STALE" true)
  else if flt age (fneg MAX_SOURCE_CLOCK_SKEW_SECONDS) then Some (mkProblem "SOURCE_CLOCK_SKEW" true)
  else None.

(** [abs(price - reference) / reference * 10_000.0] *)
Definition drift_bps (price reference : float) : res float :=
  if feq reference fzero then Raise ZeroDivisionError
  else Ok (fmul (fdiv (fabs (fsub price reference)) reference) (float_of_Z 10000)).

Definition check_drift (r : ProposalRecord) (q : ExecutableQuote) : res (option CommandProblem) :=
  match reference_price r, max_price_drift_bps r with
  | Some reference, Some limit =>
      match drift_bps (q_price q) reference with
      | Raise e => Raise e
      | Ok drift => Ok (if flt limit drift then Some (mkProblem "PRICE_DRIFT_EXCEEDED" false) else None)
      end
  | _, _ => Raise TypeError
  end.

Definition expected_side (action : string) : string := if String.eqb action "BUY" then "ask" else "bid".

(** [not quote.price or quote.price <= 0] *)
Definition no_price (p : float) : bool := feq p fzero || fle p fzero.

Definition order_type_of (r : ProposalRecord) : json := default (JStr "MARKET") (assoc "order_type" (execution r)).

Definition check_exposure_increasing_guards (r : ProposalRecord) (quote : option ExecutableQuote)
    (now : Z) (mode : string) (outside_session : bool) (paper_max_age : option float)
    : res (option CommandProblem) :=
  match quote with
  | None => Ok (Some (mkProblem "EXECUTABLE_QUOTE_MISSING" true))
  | Some q =>
      if negb (String.eqb (q_side q) (expected_side (action r))) || no_price (q_price q)
      then Ok (Some (mkProblem "EXECUTABLE_QUOTE_MISSING" true))
      else
      let aged (limit : float) :=
        match quote_age now q with
        | Raise e => Raise e
        | Ok age => match check_age age limit with Some p => Ok (Some p) | None => check_drift r q end
        end in
      if String.eqb mode "live" then
        if negb (String.eqb (q_feed_type q) "live") then Ok (Some (mkProblem "FEED_NOT_LIVE" true))
        else if negb (String.eqb (session_state q) "continuous")
                && (match order_type_of r with JStr s => String.eqb s "MARKET" | _ => false end
                    || negb outside_session)
        then Ok (Some (mkProblem "SESSION_INCOMPATIBLE" true))
        else aged (float_of_Z 5)
      else match paper_max_age with
      | Some limit => aged limit
      | None => check_drift r q
      end
  end.

(** ** Ports *)

(** What [BrokerRiskSnapshot] gives the saga. *)
Record BrokerRiskSnapshot : Type := mkSnapshot {
  generation_id : Z;
  source_cursor_seen : Z;
  reducible_quantity : option Z → float;
}.

Record ApprovalContext : Type := mkContext {
  x_conid : option Z;
  x_side : string;
  x_quantity : float;
  x_reference_price : option float;
  x_max_drift_bps : option float;
  x_direction : RiskDirection;
  x_broker : BrokerRiskSnapshot;
  (* [ExecutableMarketEvidence]: the quote and when it was received *)
  x_market : option (ExecutableQuote * Z);
}.

Record DispatchPermit : Type := mkPermit {
  dp_generation_id : Z;
  dp_source_cursor : Z;
  quote_timestamp : option datetime;
  what_if_timestamp : option datetime;
  warnings : list string;
}.

(** One call of [OrderDispatchPort.submit]. *)
Record dispatch : Type := mkDispatch {
  sent_proposal : ProposalRecord;
  sent_order_ref : string;
  sent_order_group : string;
}.

(** The readings of the clock, in program order. *)
Inductive reading : Type :=
  | at_guards | at_context | at_preview | at_decision | at_validated | at_claim | at_claim_event
  | at_submitting | at_claim_refused | at_permit | at_permit_decision | at_failed | at_failed_event
  | at_failed_command | at_ambiguous | at_schedule | at_submitted | at_submitted_event
  | at_submitted_command.

Section saga.
Context {T : Type} `{HasTable T control_table, HasTable T proposal_table, HasTable T ledger_table,
  HasTable T risk_table}.
Context (float_repr : float → string).
Context (account_id account_mode : string).
Context (outside_session_limit_enabled : bool) (paper_max_quote_age_seconds : option float).
(** [ReconcilerPort.schedule] *)
Context (reconciler : string → Z → res unit).
(** The clock, and the journal's stamps *)
Context (clock : reading → Z) (stamps : reading → stamp).

(** What the collaborators answer during one approval. *)
Record Ports : Type := mkPorts {
  (* broker.capture(account_id) *)
  po_snapshot : res BrokerRiskSnapshot;
  (* risk_gate.evaluate(...).approved *)
  po_risk_approved : ProposalRecord → BrokerRiskSnapshot → bool;
  (* quotes.executable_quote(conid, side=...) *)
  po_quote : option Z → string → res (option ExecutableQuote);
  (* dispatch_guard.revalidate(context, cmd, now), when one is wired *)
  po_guard : option (reading → ApprovalContext → CommandRequest → Z → res DispatchPermit);
  (* orders.submit(...): the placed order ids.  It runs for a while, so the
     world may change under it. *)
  po_submit : dispatch → M (world T (list dispatch)) (list Z);
}.

Definition LIVE_APPROVE_PRINCIPAL : string := "dashboard".

(** [int(cmd.body["proposal_id"])]; the request model makes it an integer. *)
Definition proposal_id_of (cmd : CommandRequest) : res Z :=
  match assoc "proposal_id" (body cmd) with
  | Some (JInt n) => Ok n
  | Some _ => Raise TypeError
  | None => Raise KeyError
  end.

Definition now_at {S} (t : reading) : M S Z := mret (clock t).
Definition moment_at (t : reading) : moment := mkMoment (Aware (clock t) 0) (stamps t).

(** [raise] for the failed outcome of a collaborator *)
Definition answer {S A} (r : res A) : M S A := match r with Ok a => mret a | Raise e => raise e end.

(** ** Validation *)
Record verdict : Type := mkVerdict {
  v_problem : option CommandProblem;
  v_direction : option RiskDirection;
  v_decision : dict;
  v_context : option ApprovalContext;
}.

Definition reject_decision (code : string) (id : Z) : dict :=
  [("decision", JStr "reject"); ("code", JStr code); ("proposal_id", JInt id)].
Definition approve_decision (direction : string) (id : Z) : dict :=
  [("decision", JStr "approve"); ("direction", JStr direction); ("proposal_id", JInt id)].

Definition not_retryable_snapshot_codes : list string :=
  ["ACCOUNT_MISMATCH"; "ACCOUNT_MODE_MISMATCH"; "INVALID_NET_LIQUIDATION"; "INVALID_DAILY_PNL";
   "INVALID_POSITION"; "INVALID_WORKING_ORDER"].

Definition is_live : bool := String.eqb account_mode "live".

(** [record is None] to [COMMAND_IN_FLIGHT]: the guards on stored state. *)
Definition identity_problem (record : ProposalRecord) (cmd : CommandRequest) (inflight : list LedgerRow)
    : option CommandProblem :=
  if negb (bool_decide (status record = PENDING)) then Some (mkProblem "NOT_PENDING" false)
  else if match expected_version cmd with Some v => negb (revision record =? v) | None => false end
  then Some (mkProblem "REVISION_MISMATCH" false)
  else if negb (bool_decide (p_account_id record = Some account_id))
  then Some (mkProblem "WRONG_ACCOUNT" false)
  else if is_live && negb (live_approval_eligible record) then Some (mkProblem "LIVE_INELIGIBLE" false)
  else if is_live && negb (bool_decide (principal cmd = Some LIVE_APPROVE_PRINCIPAL))
  then Some (mkProblem "LLM_LIVE_APPROVE_FORBIDDEN" false)
  else if negb (bool_decide (filter (λ r, l_command_id r ≠ command_id cmd) inflight = []))
  then Some (mkProblem "COMMAND_IN_FLIGHT" true)
  else None.

Definition context_of (record : ProposalRecord) (qty : float) (d : RiskDirection)
    (snapshot : BrokerRiskSnapshot) (market : option (ExecutableQuote * Z)) : ApprovalContext :=
  mkContext (p_conid record) (action record) qty (reference_price record)
    (max_price_drift_bps record) d snapshot market.

(** The guards on broker and market evidence. *)
Definition validate_market (ports : Ports) (record : ProposalRecord) (cmd : CommandRequest) (id : Z)
    (snapshot : BrokerRiskSnapshot) : res verdict :=
  let reject code retry :=
    Ok (mkVerdict (Some (mkProblem code retry)) None (reject_decision code id) None) in
  if negb (po_risk_approved ports record snapshot) then reject "RISK_REJECTED"%string false
  else
  let held := reducible_quantity snapshot (p_conid record) in
  let qty := default fzero (quantity record) in
  let direction := classify_risk_direction (action record) held qty in
  if String.eqb (action record) "SELL" && flt fzero held && flt held qty
  then Ok (mkVerdict (Some (mkProblem "REDUCIBLE_QUANTITY_EXCEEDED" false)) (Some direction)
             (reject_decision "REDUCIBLE_QUANTITY_EXCEEDED" id) None)
  else match direction with
  | REDUCING =>
      Ok (mkVerdict None (Some direction) (approve_decision "REDUCING" (p_id record))
            (Some (context_of record qty direction snapshot None)))
  | INCREASING =>
      match po_quote ports (p_conid record) (expected_side (action record)) with
      | Raise e => Raise e
      | Ok quote =>
          match check_exposure_increasing_guards record quote (clock at_guards) account_mode
                  outside_session_limit_enabled paper_max_quote_age_seconds with
          | Raise e => Raise e
          | Ok (Some p) =>
              Ok (mkVerdict (Some p) (Some direction) (reject_decision (cp_code p) (p_id record)) None)
          | Ok None =>
              let context := context_of record qty direction snapshot
                               ((λ q, (q, clock at_context)) <$> quote) in
              let approved :=
                Ok (mkVerdict None (Some direction) (approve_decision "INCREASING" (p_id record))
                      (Some context)) in
              match po_guard ports with
              | None => approved
              | Some revalidate =>
                  match revalidate at_preview context cmd (clock at_preview) with
                  | Raise (DispatchGuardError code retry) => reject code retry
                  | Raise e => Raise e
                  | Ok _ => approved
                  end
              end
          end
      end
  end.

Definition validate (ports : Ports) (record : option ProposalRecord) (cmd : CommandRequest) (id : Z)
    : M (DomainJournal T) verdict :=
  let reject code retry :=
    mret (mkVerdict (Some (mkProblem code retry)) None (reject_decision code id) None) in
  match record with
  | None => reject "PROPOSAL_NOT_FOUND"%string false
  | Some record =>
      inflight ← unresolved_for_target "proposal" (pretty (p_id record));
      match identity_problem record cmd inflight with
      | Some p => reject (cp_code p) (cp_retryable p)
      | None =>
          match po_snapshot ports with
          | Raise (BrokerRiskSnapshotError code) =>
              reject code (negb (bool_decide (code ∈ not_retryable_snapshot_codes)))
          | Raise _ => reject "BROKER_UNAVAILABLE"%string true
          | Ok snapshot => answer (validate_market ports record cmd id snapshot)
          end
      end
  end.
(** ** Transactions of the saga *)

(** [_receipt] *)
Definition receipt (id : string) (s : command_state) (code : option string) (retry : bool)
    (outcome : option dict) : CommandReceipt := mkReceipt id id s outcome code retry.

(** [_transition_command] *)
Definition transition_command (cmd : CommandRequest) (from to : command_state) (outcome : option dict)
    (code : option string) (t : reading) : M (DomainJournal T) unit :=
  now ← now_at t;
  m ← new_mutation (command_updated_mutation cmd to now outcome code);
  mutate (stamps t) m
    (λ _, transition_in_tx (command_id cmd) from to outcome code now ;; mret tt)
    (Some (command_event_id (command_id cmd) to)) ;;
  mret tt.

(** [append(repo.mutation_for(row, ...), _assert_proposal_revision(...), ...)] *)
Definition append_proposal (cmd : CommandRequest) (id : Z) (row : ProposalRecord) (t : reading)
    : M (tx T) unit :=
  m ← new_mutation (mutation_for float_repr row (Some (command_id cmd)));
  append (stamps t) m (λ rev, require (rev =? revision row) ConcurrentProposalChange)
    (Some (proposal_event_id id (revision row))) ;;
  mret tt.

(** [append(_command_updated_mutation(...), _noop_write, ...)] *)
Definition append_command (cmd : CommandRequest) (s : command_state) (outcome : option dict)
    (code : option string) (t : reading) : M (tx T) unit :=
  m ← new_mutation (command_updated_mutation cmd s (clock t) outcome code);
  append (stamps t) m (λ _, mret tt) (Some (command_event_id (command_id cmd) s)) ;;
  mret tt.

Definition claim_code (c : ApprovalClaim) : string :=
  match c with
  | CLAIM_EXPIRED => "PROPOSAL_EXPIRED" | CLAIM_REVISION_MISMATCH => "REVISION_MISMATCH"
  | CLAIM_NOT_PENDING => "NOT_PENDING" | CLAIM_WRONG_ACCOUNT => "WRONG_ACCOUNT"
  | CLAIM_NOT_FOUND | CLAIM_CLAIMED => "PROPOSAL_NOT_FOUND"
  end.

Definition group_of (cmd : CommandRequest) : string := ("og-" +:+ command_id cmd)%string.

(** The claim: [work] of [approve]. *)
Definition claim_work (cmd : CommandRequest) (record : ProposalRecord) (direction : option RiskDirection)
    : M (tx T) (option ProposalRecord) :=
  (if bool_decide (direction = Some INCREASING)
   then require_unpaused_in_tx (default ""%string (p_account_id record)) else mret tt) ;;
  claim ← in_producer (claim_for_approval_in_tx (p_id record) (expected_version cmd) account_id
                         (clock at_claim));
  match (claim : ApprovalClaim * option ProposalRecord) with
  | (CLAIM_CLAIMED, Some row) =>
      in_producer (link_order_group_in_tx (p_id record) (group_of cmd)) ;;
      let linked := linked (group_of cmd) row in
      append_proposal cmd (p_id record) linked at_claim_event ;;
      in_producer (transition_in_tx (command_id cmd) VALIDATED SUBMITTING None None (clock at_submitting)) ;;
      append_command cmd SUBMITTING None None at_submitting ;;
      mret (Some linked)
  | (CLAIM_EXPIRED, Some row) =>
      append_proposal cmd (p_id record) row at_claim_event ;; mret None
  | (result, _) => raise (ApprovalClaimFailed (claim_code result))
  end.

(** [_fail_after_broker_rejection] *)
Definition fail_work (cmd : CommandRequest) (id rev : Z) (reason code : string) : M (tx T) unit :=
  row ← in_producer (mark_failed_in_tx id reason rev (clock at_failed));
  row ← or_concurrent row;
  append_proposal cmd id row at_failed_event ;;
  in_producer (transition_in_tx (command_id cmd) SUBMITTING REJECTED None (Some code) (clock at_failed_command)) ;;
  append_command cmd REJECTED None (Some code) at_failed_command.
Definition fail_after_broker_rejection (cmd : CommandRequest) (id rev : Z) (reason code : string)
    : M (DomainJournal T) unit := mutate_batch_work (fail_work cmd id rev reason code).

Definition outcome_payload (cmd : CommandRequest) (ids : list Z) : dict :=
  [("order_ids", JArr (map JInt ids)); ("order_group_id", JStr (group_of cmd))].

(** [finish] *)
Definition finish_work (cmd : CommandRequest) (id rev : Z) (ids : list Z) : M (tx T) unit :=
  row ← in_producer (mark_order_submitted_in_tx id ids rev (clock at_submitted));
  row ← or_concurrent row;
  append_proposal cmd id row at_submitted_event ;;
  in_producer (transition_in_tx (command_id cmd) SUBMITTING SUBMITTED (Some (outcome_payload cmd ids)) None
                 (clock at_submitted_command)) ;;
  append_command cmd SUBMITTED (Some (outcome_payload cmd ids)) None at_submitted_command.

(** ** The saga, phase by phase *)
Notation world := (world T (list dispatch)).

(** [self._orders.submit(...)] *)
Definition submit (ports : Ports) (d : dispatch) : M world (list Z) :=
  modify (λ w, mkWorld (w_journal w) (scheduled w) (w_env w ++ [d])) ;;
  po_submit ports d.

(** An ambiguous dispatch: the proposal stays APPROVED for the reconciler. *)
Definition park (cmd : CommandRequest) (outcome : option dict) : M world CommandReceipt :=
  on_journal (transition_command cmd SUBMITTING OUTCOME_UNKNOWN outcome
                (Some "DISPATCH_AMBIGUOUS"%string) at_ambiguous) ;;
  call_schedule reconciler (command_id cmd) (clock at_schedule) ;;
  mret (receipt (command_id cmd) OUTCOME_UNKNOWN (Some "DISPATCH_AMBIGUOUS"%string) false outcome).

(** From the irreversible boundary on. *)
Definition dispatch_phase (ports : Ports) (cmd : CommandRequest) (id : Z) (claimed : ProposalRecord)
    : M world CommandReceipt :=
  submitted ← try_except
    (ids ← submit ports (mkDispatch claimed (encode_order_ref (group_of cmd)) (group_of cmd));
     mret (inl ids))
    (λ e, Some (match e with
      | BrokerRejectedError why =>
          on_journal (fail_after_broker_rejection cmd id (revision claimed) why "BROKER_REJECTED") ;;
          mret (inr (receipt (command_id cmd) REJECTED (Some "BROKER_REJECTED"%string) false None))
      | _ => r ← park cmd None; mret (inr r)
      end));
  match submitted with
  | inr r => mret r
  | inl ids =>
      try_except
        (on_journal (mutate_batch_work (finish_work cmd id (revision claimed) ids)) ;;
         mret (receipt (command_id cmd) SUBMITTED None false (Some (outcome_payload cmd ids))))
        (λ _, Some (park cmd (Some (outcome_payload cmd ids))))
  end.

Definition permit_decision (p : DispatchPermit) (id : Z) : dict :=
  [("decision", JStr "approve"); ("proposal_id", JInt id);
   ("generation_id", JInt (dp_generation_id p)); ("source_cursor", JInt (dp_source_cursor p));
   ("quote_timestamp", jopt (λ d, JStr (iso_datetime d)) (quote_timestamp p));
   ("what_if_timestamp", jopt (λ d, JStr (iso_datetime d)) (what_if_timestamp p));
   ("warnings", JArr (map JStr (warnings p)))].

Definition publish (cmd : CommandRequest) (key : string) (payload : dict) (t : reading)
    : M (DomainJournal T) unit :=
  publish_decision account_id (stamps t) key payload (Some (command_id cmd)) (clock t) ;; mret tt.

(** The last look before the broker; [Some receipt] when it refuses. *)
Definition permit_phase (ports : Ports) (cmd : CommandRequest) (id : Z) (claimed : ProposalRecord)
    (context : option ApprovalContext) : M (DomainJournal T) (option CommandReceipt) :=
  let key := (command_id cmd +:+ "/dispatch")%string in
  match po_guard ports, context with
  | Some revalidate, Some context =>
      match revalidate at_permit context cmd (clock at_permit) with
      | Raise (DispatchGuardError code retry) =>
          publish cmd key (reject_decision code id) at_permit_decision ;;
          fail_after_broker_rejection cmd id (revision claimed)
            ("pre-dispatch validation: " +:+ code)%string code ;;
          mret (Some (receipt (command_id cmd) REJECTED (Some code) retry None))
      | Raise e => raise e
      | Ok permit =>
          publish cmd key (permit_decision permit id) at_permit_decision ;; mret None
      end
  | _, _ => mret None
  end.

(** [{**decision, "generation_id": ..., ...}] *)
Definition with_evidence (v : verdict) : dict :=
  match v_context v with
  | None => v_decision v
  | Some c =>
      assoc_merge (v_decision v)
        [("generation_id", JInt (generation_id (x_broker c)));
         ("source_cursor", JInt (source_cursor_seen (x_broker c)));
         ("quote_timestamp", jopt (λ qt, JStr (iso_datetime (market_timestamp qt.1))) (x_market c))]
  end.

(** The claim transaction and its refusals. *)
Definition claim_phase (cmd : CommandRequest) (record : ProposalRecord) (direction : option RiskDirection)
    : M (DomainJournal T) (ProposalRecord + CommandReceipt) :=
  let refuse code retry :=
    transition_command cmd VALIDATED REJECTED None (Some code) at_claim_refused ;;
    mret (inr (receipt (command_id cmd) REJECTED (Some code) retry None)) in
  claimed ← try_except (c ← mutate_batch_work (claim_work cmd record direction); mret (inl c))
    (λ e, match e with
      | TradingPausedError _ | PauseStateUnavailable _ => Some (r ← refuse "TRADING_PAUSED"%string true; mret (inr r))
      | ApprovalClaimFailed code => Some (r ← refuse code false; mret (inr r))
      | _ => None
      end);
  match claimed with
  | inr r => mret r
  | inl (Some row) => mret (inl row)
  | inl None => refuse "PROPOSAL_EXPIRED"%string false
  end.

(** Everything before the irreversible boundary: the claimed proposal, or the
    final receipt. *)
Definition prepare (ports : Ports) (cmd : CommandRequest)
    : M (DomainJournal T) ((Z * ProposalRecord) + CommandReceipt) :=
  id ← answer (proposal_id_of cmd);
  record ← get_proposal id;
  v ← validate ports record cmd id;
  publish cmd (command_id cmd) (with_evidence v) at_decision ;;
  match v_problem v, record with
  | Some p, _ =>
      transition_command cmd RECEIVED REJECTED None (Some (cp_code p)) at_validated ;;
      mret (inr (receipt (command_id cmd) REJECTED (Some (cp_code p)) (cp_retryable p) None))
  | None, None => raise TypeError
  | None, Some record =>
      transition_command cmd RECEIVED VALIDATED None None at_validated ;;
      claimed ← claim_phase cmd record (v_direction v);
      match claimed with
      | inr r => mret (inr r)
      | inl row =>
          refused ← permit_phase ports cmd (p_id record) row (v_context v);
          mret (match refused with Some r => inr r | None => inl (p_id record, row) end)
      end
  end.

(** [ApprovalCommandService.approve] *)
Definition approve (ports : Ports) (cmd : CommandRequest) : M world CommandReceipt :=
  ready ← on_journal (prepare ports cmd);
  match ready with
  | inr r => mret r
  | inl (id, claimed) => dispatch_phase ports cmd id claimed
  end.
End saga.

(** ** A proposal and its command, step by step *)
Lemma command_not_proposal id s i n : command_event_id id s ≠ proposal_event_id i n.
Proof. unfold command_event_id, proposal_event_id. discriminate. Qed.

Section facts.
Context {T : Type} `{HasTable T control_table, HasTable T proposal_table, HasTable T ledger_table,
  HasTable T risk_table}.
Context `{!Disjoint_tables T proposal_table ledger_table, !Disjoint_tables T proposal_table risk_table,
  !Disjoint_tables T ledger_table risk_table}.
Implicit Types (j : DomainJournal T) (p : pconn T).

Lemma proposals_set_ledger f p : proposals_of (set_ledger f p) = proposals_of p.
Proof. unfold proposals_of, set_ledger. simpl. apply tget_tset_other. Qed.
Lemma ledger_set_proposals f p : ledger_of (set_proposals f p) = ledger_of p.
Proof. unfold ledger_of, set_proposals. simpl. apply tget_tset_other_r. Qed.
Lemma proposals_set_risks f p : proposals_of (set_risks f p) = proposals_of p.
Proof. unfold proposals_of, set_risks. simpl. apply tget_tset_other. Qed.
Lemma ledger_set_risks f p : ledger_of (set_risks f p) = ledger_of p.
Proof. unfold ledger_of, set_risks. simpl. apply tget_tset_other. Qed.

(** Another entity's event keeps the proposals' invariant, *)
Lemma authority_ok_other eid m now p j :
  authority_ok j → select_journal_row eid (jcore j) = None → m_entity_type m ≠ "proposal"%string →
  (∀ i n, eid ≠ proposal_event_id i n) → proposals_of p = proposals j →
  authority_ok (mkJournal (mkDb (append_core (jcore j) eid m now) p) (cursor_seq (jcore j))).
Proof.
  intros Hj Hf Ht Hid Hp. set (j' := mkJournal _ _).
  assert (proposals j' = proposals j) as Hp' by done.
  split.
  - by apply jwf_appended; [apply Hj|].
  - intros id. unfold revision_of. rewrite Hp'. unfold jcore at 1. simpl. rewrite revision_appended.
    rewrite bool_decide_eq_false_2 by congruence. apply (ao_lockstep _ Hj).
  - rewrite Hp'. apply (ao_key _ Hj).
  - intros row i n Hrow Heid. unfold jcore in Hrow. simpl in Hrow.
    change (row ∈ journal (append_core (jcore j) eid m now)) in Hrow.
    apply append_elem in Hrow as [Hrow| ->]; [by apply (ao_ids _ Hj)|]. by destruct (Hid i n).
Qed.

(** and an event of another kind leaves a command where it is. *)
Lemma command_at_other id row eid m now p j :
  command_at id row j → select_journal_row eid (jcore j) = None →
  (∀ s, eid ≠ command_event_id id s) → ledger_of p = command_ledger j →
  command_at id row (mkJournal (mkDb (append_core (jcore j) eid m now) p) (cursor_seq (jcore j))).
Proof.
  intros [Hj Hr Hf] He Hne Hp. split.
  - by apply jwf_appended.
  - unfold command_ledger. simpl. by rewrite Hp.
  - intros s Hs. unfold jcore. simpl. rewrite select_appended by done.
    rewrite bool_decide_eq_false_2 by (intros E; by apply (Hne s)). by apply Hf.
Qed.

(** The saga's view of the journal: its proposals and its command. *)
Record saga_at (id : string) (row : LedgerRow) j : Prop := {
  sa_authority : authority_ok j;
  sa_command : command_at id row j;
}.

Lemma saga_at_command id row row' s m now j :
  saga_at id row j → m_entity_type m ≠ "proposal"%string → s ∉ passed (l_state row) → l_state row' = s →
  saga_at id row' (command_written id row' s m now j).
Proof.
  intros [Ha Hc] Hm Hs Hrow'. split; [|by eapply command_at_written].
  apply authority_ok_other; [done|by apply (ca_fresh _ _ _ Hc)|done|intros; apply command_not_proposal|].
  apply proposals_set_ledger.
Qed.

Lemma saga_at_proposal id row r m now j :
  saga_at id row j → m_entity_type m = "proposal"%string → m_entity_id m = pretty (p_id r) →
  revision r = revision_of j (p_id r) + 1 → saga_at id row (proposal_written r m now j).
Proof.
  intros [Ha Hc] Ht Hi Hr. split; [by apply authority_ok_written|].
  apply command_at_other; [done|apply proposal_event_fresh; [done|lia]| |apply ledger_set_proposals].
  intros s E. by apply (command_not_proposal id s (p_id r) (revision r)).
Qed.

Lemma command_ledger_proposal r m now j :
  command_ledger (proposal_written r m now j) = command_ledger j.
Proof. apply ledger_set_proposals. Qed.
Lemma proposals_command id row s m now j : proposals (command_written id row s m now j) = proposals j.
Proof. apply proposals_set_ledger. Qed.

(** *** The uuids of the risk rows: fresh, and without a colon *)
Definition uuid_fresh (u : string) j : Prop :=
  no_char ":" u = true ∧ select_journal_row u (jcore j) = None.

Lemma no_char_colon a b : no_char ":" (a +:+ ":" +:+ b)%string = false.
Proof. rewrite no_char_app. simpl. apply andb_false_r. Qed.
Lemma command_event_id_colon id s : no_char ":" (command_event_id id s) = false.
Proof. apply (no_char_colon "command"). Qed.
Lemma proposal_event_id_colon i n : no_char ":" (proposal_event_id i n) = false.
Proof. apply (no_char_colon "proposal"). Qed.

Lemma uuid_fresh_appended u eid m now p l j :
  uuid_fresh u j → select_journal_row eid (jcore j) = None → u ≠ eid →
  uuid_fresh u (mkJournal (mkDb (append_core (jcore j) eid m now) p) l).
Proof.
  intros [Hu Hf] He Hne. split; [done|]. unfold jcore. simpl. rewrite select_appended by done.
  by rewrite bool_decide_eq_false_2.
Qed.

Lemma saga_at_risk account id row st k rid payload c now j :
  saga_at id row j → uuid_fresh (st_uuid st) j →
  saga_at id row (risk_written account st rid k payload c now j).
Proof.
  intros [Ha Hc] [Hu Hf]. split.
  - apply authority_ok_other; [done|done|done| |apply proposals_set_risks].
    intros i n E. rewrite E, proposal_event_id_colon in Hu. done.
  - apply command_at_other; [done|done| |apply ledger_set_risks].
    intros s E. rewrite E, command_event_id_colon in Hu. done.
Qed.
End facts.

Section runs.
Context {T : Type} `{HasTable T control_table, HasTable T proposal_table, HasTable T ledger_table,
  HasTable T risk_table}.
Context `{!Disjoint_tables T proposal_table ledger_table, !Disjoint_tables T proposal_table risk_table,
  !Disjoint_tables T ledger_table risk_table}.
Context (float_repr : float → string) (account_id account_mode : string).
Context (outside : bool) (paper_max : option float).
Context (reconciler : string → Z → res unit) (clock : reading → Z) (stamps : reading → stamp).
Implicit Types (j : DomainJournal T) (p : pconn T).

Notation transition_command := (transition_command (T := T) clock stamps).

Lemma transition_command_run cmd from to o c t j row :
  saga_at (command_id cmd) row j → l_state row = from → to ∉ passed from →
  let row' := set_command_state to o c (clock t) row in
  let j' := command_written (command_id cmd) row' to (command_updated_mutation cmd to (clock t) o c)
              (st_now (stamps t)) j in
  transition_command cmd from to o c t j = (Ok tt, j') ∧ saga_at (command_id cmd) row' j'.
Proof.
  intros Hat <- Hto row' j'. pose proof (sa_command _ _ _ Hat) as [Hj Hr Hf]. split.
  - unfold Approval.transition_command, now_at. run. rewrite bind_new_mutation by done.
    rewrite bind_unfold, mutate_spec by done. simpl. rewrite Hf by done.
    by rewrite bind_unfold, (transition_in_tx_run _ _ _ _ _ _ _ row).
  - by apply (saga_at_command _ row).
Qed.

(** A proposal's new row and its command's new state, with both events. *)
Definition paired (cmd : CommandRequest) (r : ProposalRecord) (pr : ProposalRecord) (row : LedgerRow)
    (s : command_state) (o : option dict) (c : option string) (t1 t2 : reading) j : DomainJournal T :=
  command_written (command_id cmd) (set_command_state s o c (clock t2) row) s
    (command_updated_mutation cmd s (clock t2) o c) (st_now (stamps t2))
    (proposal_written r (mutation_for float_repr pr (Some (command_id cmd))) (st_now (stamps t1)) j).

Lemma paired_at cmd r pr row s o c t1 t2 j :
  saga_at (command_id cmd) row j → p_id pr = p_id r → revision r = revision_of j (p_id r) + 1 →
  s ∉ passed (l_state row) →
  saga_at (command_id cmd) (set_command_state s o c (clock t2) row) (paired cmd r pr row s o c t1 t2 j).
Proof.
  intros Hat Hid Hrev Hs. apply (saga_at_command _ row); [|done..].
  apply saga_at_proposal; [done|done| |done]. simpl. by rewrite Hid.
Qed.

Lemma paired_tables cmd r pr row s o c t1 t2 j :
  let j' := paired cmd r pr row s o c t1 t2 j in
  proposals j' = <[p_id r := r]> (proposals j) ∧
  command_ledger j' = <[command_id cmd := set_command_state s o c (clock t2) row]> (command_ledger j).
Proof.
  intros j'. unfold j', paired. rewrite proposals_command, proposals_written.
  by rewrite command_ledger_written, command_ledger_proposal.
Qed.

Lemma append_proposal_run cmd id pr t1 core p evs :
  wf core → select_journal_row (proposal_event_id id (revision pr)) core = None →
  read_current_revision "proposal" (pretty (p_id pr)) core + 1 = revision pr →
  let m := mutation_for float_repr pr (Some (command_id cmd)) in
  let eid := proposal_event_id id (revision pr) in
  append_proposal float_repr stamps cmd id pr t1 (mkTx (mkDb core p) evs) =
    (Ok tt, mkTx (mkDb (append_core core eid m (st_now (stamps t1))) p)
              (evs ++ [recorded_event core eid m (st_now (stamps t1))])).
Proof.
  intros W Hf Hrev m eid. unfold append_proposal. rewrite bind_new_mutation by done.
  rewrite bind_unfold, append_spec by done. cbn [default tx_core tx_db db_core]. unfold tx_core. simpl.
  fold eid in Hf |- *. rewrite Hf, Hrev, Z.eqb_refl. done.
Qed.

Lemma append_command_run cmd s o c t core p evs :
  wf core → select_journal_row (command_event_id (command_id cmd) s) core = None →
  let m := command_updated_mutation cmd s (clock t) o c in
  let eid := command_event_id (command_id cmd) s in
  append_command clock stamps cmd s o c t (mkTx (mkDb core p) evs) =
    (Ok tt, mkTx (mkDb (append_core core eid m (st_now (stamps t))) p)
              (evs ++ [recorded_event core eid m (st_now (stamps t))])).
Proof.
  intros W Hf m eid. unfold append_command. rewrite bind_new_mutation by done.
  rewrite bind_append by done. unfold tx_core. simpl. fold eid in Hf |- *. by rewrite Hf.
Qed.

(** The tail every paired transaction shares. *)
Definition paired_tail cmd (id : Z) pr from to o c t1 t2 : M (tx T) unit :=
  append_proposal float_repr stamps cmd id pr t1 ;;
  in_producer (transition_in_tx (command_id cmd) from to o c (clock t2)) ;;
  append_command clock stamps cmd to o c t2.

Lemma paired_run cmd r pr row from to o c t1 t2 j :
  saga_at (command_id cmd) row j → p_id pr = p_id r → revision pr = revision r →
  revision r = revision_of j (p_id r) + 1 → l_state row = from → to ∉ passed from →
  ∃ evs, paired_tail cmd (p_id r) pr from to o c t1 t2
    (mkTx (mkDb (jcore j) (set_proposals <[p_id r := r]> (db_producer (jdb j)))) []) =
  (Ok tt, mkTx (jdb (paired cmd r pr row to o c t1 t2 j)) evs) ∧
  ∀ l, signalled l evs = Z.max l (latest_committed_cursor (paired cmd r pr row to o c t1 t2 j)).
Proof.
  intros Hat Hid Hrev Hnext <- Hto.
  pose proof (sa_authority _ _ _ Hat) as Ha. pose proof (sa_command _ _ _ Hat) as Hc.
  assert (select_journal_row (proposal_event_id (p_id r) (revision pr)) (jcore j) = None) as Hf.
  { apply proposal_event_fresh; [done|]. lia. }
  assert (wf (jcore j)) as W by apply Ha. eexists. split.
  - unfold paired_tail. rewrite bind_unfold, append_proposal_run; [|done|done|].
    2: { rewrite Hid, (ao_lockstep _ Ha). lia. }
    rewrite bind_in_producer. cbn [tx_db db_producer db_core tx_events].
    rewrite (transition_in_tx_run _ _ _ _ _ _ _ row); [|rewrite ledger_set_proposals; apply Hc|done].
    rewrite append_command_run.
    + unfold paired, command_written, proposal_written, jcore. simpl. rewrite Hrev. reflexivity.
    + by apply wf_append.
    + rewrite select_appended by done.
      rewrite bool_decide_eq_false_2 by apply command_not_proposal. by apply (ca_fresh _ _ _ Hc).
  - intros l. unfold signalled, recorded_event. simpl. unfold jcore. lia.
Qed.

Lemma paired_then {A} cmd id pr from to o c t1 t2 t t' (k : M (tx T) A) :
  paired_tail cmd id pr from to o c t1 t2 t = (Ok tt, t') →
  (append_proposal float_repr stamps cmd id pr t1 ;;
   in_producer (transition_in_tx (command_id cmd) from to o c (clock t2)) ;;
   append_command clock stamps cmd to o c t2 ;; k) t = k t'.
Proof.
  unfold paired_tail. rewrite !bind_unfold. destruct (append_proposal _ _ _ _ _ _ t) as [[[]|e] t1'] eqn:?; [|done].
  rewrite !bind_unfold. destruct (in_producer _ t1') as [[x|e] t2']; [|done].
  rewrite !bind_unfold. by intros ->.
Qed.

Lemma commit_paired {A} (w : M (tx T) A) j (a : A) J evs :
  w (mkTx (jdb j) []) = (Ok a, mkTx (jdb J) evs) →
  (∀ l, signalled l evs = Z.max l (latest_committed_cursor J)) →
  latest_committed_cursor j ≤ latest_committed_cursor J →
  mutate_batch_work w j = (Ok a, J).
Proof.
  intros Hw Hs Hl. rewrite (mutate_batch_work_run _ _ _ _ Hw). cbn [tx_db tx_events].
  rewrite Hs, Z.max_r by done. by destruct J.
Qed.
(** *** The claim *)
Definition gate_open (account : string) j : bool :=
  match controls j !! account with Some s => negb (new_exposure_paused s) | None => false end.

Lemma gate_run account j :
  require_unpaused_in_tx account (mkTx (jdb j) []) =
    (match controls j !! account with
     | None => Raise (PauseStateUnavailable account)
     | Some s => if new_exposure_paused s then Raise (TradingPausedError account) else Ok tt
     end, mkTx (jdb j) []).
Proof.
  unfold require_unpaused_in_tx, get_control_in_tx, controls. rewrite bind_in_producer.
  destruct j as [[c p] l]. unfold gets. simpl.
  destruct (_ !! account) as [s|]; [|done]. by destruct (new_exposure_paused s).
Qed.

Definition gated (d : option RiskDirection) (account : option string) j : bool :=
  negb (bool_decide (d = Some INCREASING)) || gate_open (default ""%string account) j.

Lemma seq_gt_latest j : jwf j → latest_committed_cursor j < cursor_seq (jcore j).
Proof. intros [W HL]. pose proof (newest_lt_seq _ W). lia. Qed.

Lemma unchanged {A} (r : res A) j :
  (r, mkJournal (rollback (jdb j) (tx_db (mkTx (jdb j) []))) (latest_committed_cursor j)) = (r, j).
Proof. simpl. rewrite rollback_id. by destruct j. Qed.

Lemma claim_miss_cases account r :
  claim_miss account r = CLAIM_WRONG_ACCOUNT ∨ claim_miss account r = CLAIM_NOT_PENDING
  ∨ claim_miss account r = CLAIM_REVISION_MISMATCH.
Proof. unfold claim_miss. repeat case_bool_decide; auto. Qed.

Lemma link_run id group p r :
  proposals_of p !! id = Some r → status r = APPROVED →
  link_order_group_in_tx id group p = (Ok tt, set_proposals <[id := linked group r]> p).
Proof.
  intros Hr Hs. unfold link_order_group_in_tx. rewrite bind_unfold, update_returning_run, Hr.
  by rewrite bool_decide_eq_true_2.
Qed.

Lemma set_proposals_twice id r r' p :
  set_proposals <[id := r']> (set_proposals <[id := r]> p) = set_proposals <[id := r']> p.
Proof.
  unfold set_proposals, proposals_of. simpl. by rewrite tget_tset, tset_tset, insert_insert_eq.
Qed.

(** The claim's transaction, on every branch. *)
Lemma claim_work_run cmd record d j row :
  saga_at (command_id cmd) row j → l_state row = VALIDATED →
  let now := clock at_claim in
  let work := mutate_batch_work (claim_work float_repr account_id clock stamps cmd record d) j in
  if gated d (p_account_id record) j then
    match proposals j !! p_id record with
    | Some r =>
        if claimable (expected_version cmd) account_id r then
          if expired_by now r then
            work = (Ok None, proposal_written (claimed_row now r)
              (mutation_for float_repr (from_row (claimed_row now r)) (Some (command_id cmd)))
              (st_now (stamps at_claim_event)) j)
          else
            let claimed := linked (group_of cmd) (from_row (claimed_row now r)) in
            work = (Ok (Some claimed),
              paired cmd (linked (group_of cmd) (claimed_row now r)) claimed row SUBMITTING None None
                at_claim_event at_submitting j)
        else work = (Raise (ApprovalClaimFailed (claim_code (claim_miss account_id r))), j)
    | None => work = (Raise (ApprovalClaimFailed "PROPOSAL_NOT_FOUND"), j)
    end
  else work = (Raise (TradingPausedError (default ""%string (p_account_id record))), j) ∨
       work = (Raise (PauseStateUnavailable (default ""%string (p_account_id record))), j).
Proof.
  intros Hat Hs now work. pose proof (sa_authority _ _ _ Hat) as Ha.
  unfold gated. destruct (negb (bool_decide (d = Some INCREASING)) || _) eqn:Hgate.
  - assert (∀ A (k : unit → M (tx T) A),
      ((if bool_decide (d = Some INCREASING) then require_unpaused_in_tx (default ""%string (p_account_id record))
        else mret tt) ≫= k) (mkTx (jdb j) []) = k tt (mkTx (jdb j) [])) as Hskip.
    { intros A k. rewrite bind_unfold. destruct (bool_decide _); [|done]. simpl in Hgate.
      rewrite gate_run. unfold gate_open in Hgate. destruct (controls j !! _) as [s|]; [|done].
      by destruct (new_exposure_paused s). }
    assert (∀ A (k : _ → M (tx T) A), (in_producer (claim_for_approval_in_tx (p_id record)
        (expected_version cmd) account_id (clock at_claim)) ≫= k) (mkTx (jdb j) []) =
      match proposals j !! p_id record with
      | None => k (CLAIM_NOT_FOUND, None) (mkTx (jdb j) [])
      | Some r =>
          if claimable (expected_version cmd) account_id r
          then k (if expired_by now r then CLAIM_EXPIRED else CLAIM_CLAIMED, Some (from_row (claimed_row now r)))
                 (mkTx (mkDb (jcore j) (set_proposals <[p_id record := claimed_row now r]> (db_producer (jdb j)))) [])
          else k (claim_miss account_id r, Some (from_row r)) (mkTx (jdb j) [])
      end) as Hclaim.
    { intros A k. rewrite bind_in_producer. cbn [tx_db tx_events]. rewrite claim_for_approval_run.
      change (proposals_of (db_producer (jdb j))) with (proposals j).
      destruct (proposals j !! p_id record) as [r|]; [|by destruct j as [[] ?]].
      destruct (claimable _ _ r); [done|]. by destruct j as [[] ?]. }
    destruct (proposals j !! p_id record) as [r|] eqn:Hr.
    2: { unfold work. erewrite mutate_batch_work_run
           by (unfold claim_work; rewrite Hskip, Hclaim; reflexivity). apply unchanged. }
    destruct (ao_key _ Ha _ _ Hr) as [Hid _].
    destruct (claimable _ _ r) eqn:Hcl.
    2: { unfold work. destruct (claim_miss_cases account_id r) as [Hm|[Hm|Hm]]; rewrite Hm in *;
         (erewrite mutate_batch_work_run
            by (unfold claim_work; rewrite Hskip, Hclaim; reflexivity)); apply unchanged. }
    assert (revision_of j (p_id record) = revision r) as Hrev by (unfold revision_of; by rewrite Hr).
    destruct (expired_by now r) eqn:Hexp.
    + assert (revision (claimed_row now r) = revision_of j (p_id record) + 1) as Hnext by (simpl; lia).
      unfold work. erewrite mutate_batch_work_run.
      2: { unfold claim_work. rewrite Hskip, Hclaim, bind_unfold, append_proposal_run.
           - reflexivity.
           - apply Ha.
           - apply proposal_event_fresh; [done|]. simpl. lia.
           - simpl. rewrite Hid, (ao_lockstep _ Ha), Hrev. done. }
      cbn [app tx_events tx_db]. rewrite signalled_fresh by apply Ha.
      unfold proposal_written. simpl. by rewrite Hid.
    + set (r' := linked (group_of cmd) (claimed_row now r)).
      destruct (paired_run cmd r' (linked (group_of cmd) (from_row (claimed_row now r))) row VALIDATED
        SUBMITTING None None at_claim_event at_submitting j) as (evs & Hrun & Hsig);
        [done..|simpl; rewrite Hid; lia|done|simpl; set_solver|].
      apply commit_paired with evs; [|done|].
      * unfold claim_work. rewrite Hskip, Hclaim, bind_in_producer. cbn [tx_db db_producer db_core tx_events].
        rewrite (link_run _ _ _ (claimed_row now r)).
        2: { unfold proposals_of at 1. simpl. by rewrite tget_tset, lookup_insert_eq. }
        2: { unfold claimed_row. simpl. by rewrite Hexp. }
        rewrite set_proposals_twice. cbv zeta. fold r'.
        change (p_id r') with (p_id r) in Hrun. rewrite Hid in Hrun.
        eapply paired_then in Hrun. exact Hrun.
      * pose proof (seq_gt_latest j (ao_jwf _ Ha)). unfold paired. simpl. unfold jcore in *. simpl. lia.
  - apply orb_false_iff in Hgate as [Hd Hgate]. apply negb_false_iff in Hd.
    unfold work. unfold gate_open in Hgate.
    destruct (controls j !! _) as [s|] eqn:Hc; [destruct (new_exposure_paused s) eqn:Hp; [left|done]|right];
      (erewrite mutate_batch_work_run
        by (unfold claim_work; rewrite Hd, bind_unfold, gate_run, Hc, ?Hp; reflexivity));
      apply unchanged.
Qed.
(** *** The last transaction: an APPROVED proposal's end and its command's *)
Lemma settle_run cmd id rev f row from to o c t1 t2 j :
  saga_at (command_id cmd) row j → l_state row = from → to ∉ passed from →
  (∀ r, p_id (f r) = p_id r ∧ (revision r = rev → revision (f r) = revision r + 1)) →
  mutate_batch_work (
    o' ← in_producer (update_returning id (in_state APPROVED rev) f);
    pr ← or_concurrent o';
    paired_tail cmd id pr from to o c t1 t2) j =
  match proposals j !! id with
  | Some r =>
      if in_state APPROVED rev r
      then (Ok tt, paired cmd (f r) (from_row (f r)) row to o c t1 t2 j)
      else (Raise ConcurrentProposalChange, j)
  | None => (Raise ConcurrentProposalChange, j)
  end.
Proof.
  intros Hat Hs Hto Hf. pose proof (sa_authority _ _ _ Hat) as Ha.
  assert (∀ A (k : _ → M (tx T) A),
    (in_producer (update_returning id (in_state APPROVED rev) f) ≫= k) (mkTx (jdb j) []) =
    match proposals j !! id with
    | Some r => if in_state APPROVED rev r
                then k (Some (from_row (f r)))
                       (mkTx (mkDb (jcore j) (set_proposals <[id := f r]> (db_producer (jdb j)))) [])
                else k None (mkTx (jdb j) [])
    | None => k None (mkTx (jdb j) [])
    end) as Hupd.
  { intros A k. rewrite bind_in_producer. cbn [tx_db tx_events]. rewrite update_returning_run.
    change (proposals_of (db_producer (jdb j))) with (proposals j).
    destruct (proposals j !! id) as [r|]; [|by destruct j as [[] ?]].
    destruct (in_state _ _ r); [done|]. by destruct j as [[] ?]. }
  destruct (proposals j !! id) as [r|] eqn:Hr.
  2: { erewrite mutate_batch_work_run by (rewrite Hupd; reflexivity). apply unchanged. }
  destruct (in_state APPROVED rev r) eqn:Hin.
  2: { erewrite mutate_batch_work_run by (rewrite Hupd; reflexivity). apply unchanged. }
  unfold in_state in Hin. apply andb_true_iff in Hin as [_ Hrev%Z.eqb_eq].
  destruct (Hf r) as [Hid Hnext]. specialize (Hnext Hrev). destruct (ao_key _ Ha _ _ Hr) as [Hk _].
  destruct (paired_run cmd (f r) (from_row (f r)) row from to o c t1 t2 j) as (evs & Hrun & Hsig); [done..| |done|done|].
  { rewrite Hid, Hk. unfold revision_of. by rewrite Hr. }
  apply commit_paired with evs; [|done|].
  - rewrite Hupd. unfold or_concurrent. rewrite bind_ret. rewrite Hid, Hk in Hrun. exact Hrun.
  - pose proof (seq_gt_latest j (ao_jwf _ Ha)). unfold paired. simpl. unfold jcore in *. simpl. lia.
Qed.

Definition failed_row (reason : string) (r : ProposalRecord) : ProposalRecord :=
  moved FAILED reason (order_ids r) (clock at_failed) (revision r + 1) r.
Definition executed_row (ids : list Z) (r : ProposalRecord) : ProposalRecord :=
  moved EXECUTED (rejection_reason r) ids (clock at_submitted) (revision r + 1) r.

Lemma fail_run cmd id rev reason code row j :
  saga_at (command_id cmd) row j → l_state row = SUBMITTING →
  fail_after_broker_rejection float_repr clock stamps cmd id rev reason code j =
  match proposals j !! id with
  | Some r =>
      if in_state APPROVED rev r
      then (Ok tt, paired cmd (failed_row reason r) (from_row (failed_row reason r)) row REJECTED None
                     (Some code) at_failed_event at_failed_command j)
      else (Raise ConcurrentProposalChange, j)
  | None => (Raise ConcurrentProposalChange, j)
  end.
Proof.
  intros Hat Hs. apply (settle_run cmd id rev (failed_row reason) row SUBMITTING); try done.
  simpl. set_solver.
Qed.

Lemma finish_run cmd id rev ids row j :
  saga_at (command_id cmd) row j → l_state row = SUBMITTING →
  mutate_batch_work (finish_work float_repr clock stamps cmd id rev ids) j =
  match proposals j !! id with
  | Some r =>
      if in_state APPROVED rev r
      then (Ok tt, paired cmd (executed_row ids r) (from_row (executed_row ids r)) row SUBMITTED
                     (Some (outcome_payload cmd ids)) None at_submitted_event at_submitted_command j)
      else (Raise ConcurrentProposalChange, j)
  | None => (Raise ConcurrentProposalChange, j)
  end.
Proof.
  intros Hat Hs. apply (settle_run cmd id rev (executed_row ids) row SUBMITTING); try done.
  simpl. set_solver.
Qed.
(** ** Theorems *)
Notation world := (world T (list dispatch)).
Implicit Types (w : world).
Notation Ports := (Ports (T := T)).

(** What the broker call may do while it runs: anything to the rest of the
    world, nothing to this command's row and events, and it does not break the
    proposals' invariant. *)
Definition port_law (ports : Ports) (cmd : CommandRequest) : Prop :=
  ∀ d w row, saga_at (command_id cmd) row (w_journal w) →
    saga_at (command_id cmd) row (w_journal (final (po_submit ports d) w)) ∧
    w_env (final (po_submit ports d) w) = w_env w.

Definition ambiguous_row (cmd : CommandRequest) (o : option dict) (row : LedgerRow) : LedgerRow :=
  set_command_state OUTCOME_UNKNOWN o (Some "DISPATCH_AMBIGUOUS"%string) (clock at_ambiguous) row.

Lemma park_dispatch_run cmd o w row :
  saga_at (command_id cmd) row (w_journal w) → l_state row = SUBMITTING →
  ∃ j', park reconciler clock stamps cmd o w =
    (match reconciler (command_id cmd) (clock at_schedule) with
     | Ok _ => Ok (receipt (command_id cmd) OUTCOME_UNKNOWN (Some "DISPATCH_AMBIGUOUS"%string) false o)
     | Raise e => Raise e
     end, mkWorld j' (scheduled w ++ [(command_id cmd, clock at_schedule)]) (w_env w)) ∧
    saga_at (command_id cmd) (ambiguous_row cmd o row) j' ∧ proposals j' = proposals (w_journal w).
Proof.
  intros Hat Hs.
  destruct (transition_command_run cmd SUBMITTING OUTCOME_UNKNOWN o (Some "DISPATCH_AMBIGUOUS"%string)
    at_ambiguous (w_journal w) row Hat Hs ltac:(simpl; set_solver)) as [Hrun Hat'].
  cbv zeta in Hrun, Hat'. eexists. split; [|split; [exact Hat'|apply proposals_command]].
  unfold park. rewrite bind_on_journal, Hrun. unfold call_schedule. run.
  by destruct (reconciler _ _) as [[]|e].
Qed.

(** The ledger row, the proposal and the broker log after a dispatch. *)
Record ended (cmd : CommandRequest) (row' : LedgerRow) (ps : proposal_table)
    (log : list dispatch) (sched : list (string * Z)) w : Prop := {
  en_saga : saga_at (command_id cmd) row' (w_journal w);
  en_proposals : proposals (w_journal w) = ps;
  en_log : w_env w = log;
  en_scheduled : scheduled w = sched;
}.

Lemma dispatch_unfold (ports : Ports) cmd id claimed w :
  let d := mkDispatch claimed (encode_order_ref (group_of cmd)) (group_of cmd) in
  dispatch_phase float_repr reconciler clock stamps ports cmd id claimed w =
    match po_submit ports d (mkWorld (w_journal w) (scheduled w) (w_env w ++ [d])) with
    | (Ok ids, w2) =>
        match mutate_batch_work (finish_work float_repr clock stamps cmd id (revision claimed) ids)
                (w_journal w2) with
        | (Ok _, j') => (Ok (receipt (command_id cmd) SUBMITTED None false (Some (outcome_payload cmd ids))),
                         set_journal j' w2)
        | (Raise _, j') => park reconciler clock stamps cmd (Some (outcome_payload cmd ids)) (set_journal j' w2)
        end
    | (Raise e, w2) =>
        match e with
        | BrokerRejectedError why =>
            match fail_after_broker_rejection float_repr clock stamps cmd id (revision claimed) why
                    "BROKER_REJECTED" (w_journal w2) with
            | (Ok _, j') => (Ok (receipt (command_id cmd) REJECTED (Some "BROKER_REJECTED"%string) false None),
                             set_journal j' w2)
            | (Raise e', j') => (Raise e', set_journal j' w2)
            end
        | _ => park reconciler clock stamps cmd None w2
        end
    end.
Proof.
  intros d. unfold dispatch_phase. rewrite bind_unfold. unfold try_except at 1. rewrite bind_unfold.
  unfold submit. rewrite bind_modify. fold d.
  destruct (po_submit ports d _) as [[ids|e] w2].
  - rewrite ret_run. cbn beta iota. unfold try_except. rewrite bind_on_journal.
    by destruct (mutate_batch_work _ _) as [[[]|e] j'].
  - destruct e; try (rewrite bind_unfold; by destruct (park _ _ _ _ _ w2) as [[r|e] w3]).
    rewrite bind_on_journal. by destruct (fail_after_broker_rejection _ _ _ _ _ _ _ _ _) as [[[]|e] j'].
Qed.

(** *** What was checked before the broker is called *)
Notation validate ports := (validate account_id account_mode outside paper_max clock ports).

Record approved (ports : Ports) cmd (r : ProposalRecord) (d : RiskDirection) (ctx : ApprovalContext) j : Prop := {
  ap_pending : status r = PENDING;
  ap_account : p_account_id r = Some account_id;
  ap_live : account_mode = "live"%string →
    live_approval_eligible r = true ∧ principal cmd = Some LIVE_APPROVE_PRINCIPAL;
  ap_alone k other : command_ledger j !! k = Some other → l_target_type other = "proposal"%string →
    l_target_id other = pretty (p_id r) → is_terminal (l_state other) = false →
    l_command_id other = command_id cmd;
  ap_snapshot : po_snapshot ports = Ok (x_broker ctx);
  ap_risk : po_risk_approved ports r (x_broker ctx) = true;
  ap_direction : d = classify_risk_direction (action r) (reducible_quantity (x_broker ctx) (p_conid r))
                       (default fzero (quantity r)) ∧ x_direction ctx = d;
  ap_no_short : String.eqb (action r) "SELL" && flt fzero (reducible_quantity (x_broker ctx) (p_conid r))
    && flt (reducible_quantity (x_broker ctx) (p_conid r)) (default fzero (quantity r)) = false;
  ap_quote : d = INCREASING → ∃ quote,
    po_quote ports (p_conid r) (expected_side (action r)) = Ok quote ∧
    check_exposure_increasing_guards r quote (clock at_guards) account_mode outside paper_max = Ok None;
}.

Lemma validate_market_spec (ports : Ports) r cmd id snapshot v :
  validate_market account_mode outside paper_max clock ports r cmd id snapshot = Ok v → v_problem v = None →
  ∃ d ctx, v_direction v = Some d ∧ v_context v = Some ctx ∧ x_broker ctx = snapshot ∧
    po_risk_approved ports r snapshot = true ∧
    d = classify_risk_direction (action r) (reducible_quantity snapshot (p_conid r)) (default fzero (quantity r)) ∧
    x_direction ctx = d ∧
    String.eqb (action r) "SELL" && flt fzero (reducible_quantity snapshot (p_conid r))
      && flt (reducible_quantity snapshot (p_conid r)) (default fzero (quantity r)) = false ∧
    (d = INCREASING → ∃ quote, po_quote ports (p_conid r) (expected_side (action r)) = Ok quote ∧
       check_exposure_increasing_guards r quote (clock at_guards) account_mode outside paper_max = Ok None).
Proof.
  unfold validate_market. destruct (po_risk_approved ports r snapshot); [|by intros [= <-]]. cbn [negb].
  set (held := reducible_quantity _ _). set (qty := default fzero _).
  destruct (String.eqb (action r) "SELL" && _ && _) eqn:Hshort; [by intros [= <-]|].
  destruct (classify_risk_direction _ held qty) eqn:Hd.
  - destruct (po_quote _ _ _) as [quote|] eqn:Hq; [|done].
    destruct (check_exposure_increasing_guards _ _ _ _ _ _) as [[p|]|] eqn:Hg; [by intros [= <-]| |done].
    destruct (po_guard ports) as [revalidate|].
    + destruct (revalidate _ _ _ _) as [permit|[]]; try done; intros [= <-]; [|done].
      intros _. do 2 eexists. split_and!; try done. intros _. by exists quote.
    + intros [= <-] _. do 2 eexists. split_and!; try done. intros _. by exists quote.
  - intros [= <-] _. do 2 eexists. by split_and!.
Qed.

Lemma elem_of_ledger_rows q (t : ledger_table) row :
  row ∈ ledger_rows q t ↔ (∃ k, t !! k = Some row) ∧ q row = true.
Proof.
  unfold ledger_rows. rewrite order_by_perm, list_elem_of_filter, list_elem_of_fmap. split.
  - intros [Hq ([k x] & -> & Hk%elem_of_map_to_list)]. split; [by exists k|done].
  - intros [[k Hk] Hq]. split; [done|]. exists (k, row). split; [done|]. by apply elem_of_map_to_list.
Qed.

Lemma identity_problem_none r cmd inflight :
  identity_problem account_id account_mode r cmd inflight = None →
  status r = PENDING ∧ p_account_id r = Some account_id ∧
  (account_mode = "live"%string → live_approval_eligible r = true ∧ principal cmd = Some LIVE_APPROVE_PRINCIPAL) ∧
  ∀ other, other ∈ inflight → l_command_id other = command_id cmd.
Proof.
  unfold identity_problem, is_live. intros Hn.
  destruct (bool_decide (status r = PENDING)) eqn:G1; [|done]. simpl in Hn.
  destruct (match expected_version cmd with Some v => _ | None => _ end); [done|].
  destruct (bool_decide (p_account_id r = _)) eqn:G3; [|done]. simpl in Hn.
  destruct (String.eqb account_mode "live" && negb (live_approval_eligible r)) eqn:G4; [done|].
  destruct (String.eqb account_mode "live" && negb (bool_decide _)) eqn:G5; [done|].
  destruct (bool_decide (filter _ inflight = [])) eqn:G6; [|done].
  apply bool_decide_eq_true in G1, G3, G6. split_and!; [done..| |].
  - intros ->. rewrite String.eqb_refl in G4, G5. simpl in G4, G5.
    apply negb_false_iff in G4, G5. by apply bool_decide_eq_true in G5.
  - intros other Hin. destruct (decide (l_command_id other = command_id cmd)); [done|].
    assert (other ∈ filter (λ x, l_command_id x ≠ command_id cmd) inflight) as Hf
      by by apply list_elem_of_filter.
    rewrite G6 in Hf. by apply not_elem_of_nil in Hf.
Qed.

Lemma validate_spec (ports : Ports) record cmd id j :
  ∃ o, validate ports record cmd id j = (o, j) ∧
    ∀ v, o = Ok v → v_problem v = None →
      ∃ r d ctx, record = Some r ∧ v_direction v = Some d ∧ v_context v = Some ctx ∧
        approved ports cmd r d ctx j.
Proof.
  unfold Approval.validate. destruct record as [r|]; [|eexists; split; [done|]; by intros v [= <-]].
  unfold unresolved_for_target, select_rows. rewrite bind_gets.
  destruct (identity_problem _ _ r cmd _) as [p|] eqn:Hid;
    [eexists; split; [done|]; by intros v [= <-]|].
  apply identity_problem_none in Hid as (Hp & Hacc & Hlive & Halone).
  destruct (po_snapshot ports) as [snapshot|e] eqn:Hsnap.
  - destruct (validate_market _ _ _ _ _ r cmd id snapshot) as [v|e] eqn:Hv; [|by eexists].
    exists (Ok v). split; [done|]. intros v' [= <-] Hnone.
    destruct (validate_market_spec _ _ _ _ _ _ Hv Hnone) as (d & ctx & Hd & Hc & Hb & Hr & Hdir & Hx & Hs & Hq).
    exists r, d, ctx. split_and!; [done..|]. subst snapshot. split; try done.
    intros k other Hk Ht Hi Hterm. apply Halone. apply elem_of_ledger_rows. split; [by exists k|].
    unfold unresolved. by rewrite Ht, Hi, Hterm, !String.eqb_refl.
  - destruct e; eexists; (split; [done|]); by intros v [= <-].
Qed.
(** *** Up to the claim *)
Context `{!Disjoint_tables T control_table ledger_table, !Disjoint_tables T control_table risk_table}.

(** What the steps before the claim leave alone. *)
Record same_authority j j' : Prop := {
  sm_proposals : proposals j' = proposals j;
  sm_controls : controls j' = controls j;
}.
#[local] Instance same_authority_preorder : PreOrder same_authority.
Proof. split; [by split|]. intros j1 j2 j3 [] []. split; congruence. Qed.

Lemma publish_step cmd key payload t j row :
  saga_at (command_id cmd) row j → uuid_fresh (st_uuid (stamps t)) j →
  ∃ o j', publish account_id clock stamps cmd key payload t j = (o, j') ∧
    saga_at (command_id cmd) row j' ∧ same_authority j j' ∧
    (∀ u, uuid_fresh u j → u ≠ st_uuid (stamps t) → uuid_fresh u j').
Proof.
  intros Hat Hu. unfold publish. rewrite bind_unfold.
  pose proof (publish_decision_run account_id (stamps t) key payload (Some (command_id cmd)) (clock t) j
    (ao_jwf _ (sa_authority _ _ _ Hat)) (proj2 Hu)) as Hrun. cbv zeta in Hrun. rewrite Hrun.
  destruct (risks j !! _) as [r|].
  - destruct (same_payload _ _); do 2 eexists; (split; [done|]); (split; [done|]); (split; [done|]); auto.
  - do 2 eexists. split; [done|]. split; [by apply saga_at_risk|]. split.
    + split; [apply proposals_set_risks|]. unfold controls. simpl. apply tget_tset_other.
    + intros u Hf Hne. apply uuid_fresh_appended; [done|apply Hu|done].
Qed.

Lemma transition_step cmd from to o c t j row :
  saga_at (command_id cmd) row j → l_state row = from → to ∉ passed from →
  let row' := set_command_state to o c (clock t) row in
  ∃ j', transition_command cmd from to o c t j = (Ok tt, j') ∧
    saga_at (command_id cmd) row' j' ∧ same_authority j j' ∧
    (∀ u, uuid_fresh u j → uuid_fresh u j').
Proof.
  intros Hat Hs Hto row'. destruct (transition_command_run cmd from to o c t j row Hat Hs Hto) as [Hrun Hat'].
  eexists. split; [exact Hrun|]. split; [exact Hat'|]. split.
  - split; [apply proposals_command|]. unfold controls. simpl. apply tget_tset_other.
  - intros u Hu. apply uuid_fresh_appended; [done| |].
    + apply (ca_fresh _ _ _ (sa_command _ _ _ Hat)). by rewrite Hs.
    + intros E. destruct Hu as [Hu _]. by rewrite E, command_event_id_colon in Hu.
Qed.

(** A refusal of the saga before the broker: the receipt and the row agree. *)
Definition refused_at cmd (rc : CommandReceipt) j : Prop :=
  rc_state rc = REJECTED ∧ rc_outcome rc = None ∧
  ∃ row, saga_at (command_id cmd) row j ∧ l_state row = REJECTED ∧ l_error_code row = rc_error_code rc.

(** What the claim found and did. *)
Record claimed_at cmd (r : ProposalRecord) (d : RiskDirection) (row : LedgerRow) j j' : Prop := {
  cl_row : proposals j !! p_id r = Some r;
  cl_pending : status r = PENDING;
  cl_version : expected_version cmd = Some (revision r);
  cl_account : p_account_id r = Some account_id;
  cl_unexpired : expired_by (clock at_claim) r = false;
  cl_gate : d = INCREASING → gate_open account_id j = true;
  cl_after : j' = paired cmd (linked (group_of cmd) (claimed_row (clock at_claim) r))
    (linked (group_of cmd) (from_row (claimed_row (clock at_claim) r))) row SUBMITTING None None
    at_claim_event at_submitting j;
}.

Lemma claim_phase_run cmd record d j row :
  saga_at (command_id cmd) row j → l_state row = VALIDATED → p_account_id record = Some account_id →
  ∃ o j', claim_phase float_repr account_id clock stamps cmd record (Some d) j = (Ok o, j') ∧
  match o with
  | inl claimed => ∃ r, p_id r = p_id record ∧ claimed_at cmd r d row j j' ∧
      claimed = linked (group_of cmd) (from_row (claimed_row (clock at_claim) r))
  | inr rc => refused_at cmd rc j'
  end.
Proof.
  intros Hat Hs Hacc. pose proof (claim_work_run cmd record (Some d) j row Hat Hs) as Hwork.
  cbv zeta in Hwork. unfold claim_phase. cbv zeta. rewrite bind_unfold. unfold try_except.
  rewrite (bind_unfold (mutate_batch_work _)).
  assert (∀ code retry row1 j1, saga_at (command_id cmd) row1 j1 → l_state row1 = VALIDATED → ∃ j',
    (transition_command cmd VALIDATED REJECTED None (Some code) at_claim_refused ;;
     mret (inr (receipt (command_id cmd) REJECTED (Some code) retry None))) j1 =
      (Ok (inr (receipt (command_id cmd) REJECTED (Some code) retry None) : ProposalRecord + CommandReceipt), j') ∧
    refused_at cmd (receipt (command_id cmd) REJECTED (Some code) retry None) j') as Hrefuse.
  { intros code retry row1 j1 Hat1 Hs1.
    destruct (transition_step cmd VALIDATED REJECTED None (Some code) at_claim_refused j1 row1 Hat1 Hs1
      ltac:(simpl; set_solver)) as (j' & Hrun & Hat' & _).
    exists j'. rewrite bind_unfold, Hrun. split; [done|].
    do 2 (split; [done|]). eexists. split; [exact Hat'|done]. }
  destruct (gated (Some d) (p_account_id record) j) eqn:Hgate.
  - destruct (proposals j !! p_id record) as [r|] eqn:Hr.
    + destruct (claimable (expected_version cmd) account_id r) eqn:Hcl.
      * destruct (ao_key _ (sa_authority _ _ _ Hat) _ _ Hr) as [Hk _].
        unfold claimable in Hcl. apply andb_true_iff in Hcl as [Hcl Hc3].
        apply andb_true_iff in Hcl as [Hc1 Hc2]. apply bool_decide_eq_true in Hc1, Hc2, Hc3.
        destruct (expired_by (clock at_claim) r) eqn:Hexp.
        -- rewrite Hwork, ret_run. cbn beta iota.
           match goal with |- ∃ o j', _ ?j1 = _ ∧ _ => destruct (Hrefuse "PROPOSAL_EXPIRED"%string false row j1) as (j' & Hrun & Href) end.
           { apply saga_at_proposal; [done..|]. simpl. unfold revision_of. by rewrite Hk, Hr. }
           { done. }
           by exists (inr (receipt (command_id cmd) REJECTED (Some "PROPOSAL_EXPIRED"%string) false None)), j'.
        -- rewrite Hwork, ret_run. cbn beta iota. do 2 eexists. split; [done|]. exists r.
           split; [done|]. split; [|done]. split; try done; [by rewrite Hk|].
           intros ->. unfold gated in Hgate. by rewrite Hacc in Hgate.
      * destruct (Hrefuse (claim_code (claim_miss account_id r)) false row j Hat Hs) as (j' & Hrun & Href).
        exists (inr (receipt (command_id cmd) REJECTED (Some (claim_code (claim_miss account_id r))) false None)), j'. split; [|exact Href]. rewrite Hwork. cbn beta iota. by rewrite bind_unfold, Hrun.
    + destruct (Hrefuse "PROPOSAL_NOT_FOUND"%string false row j Hat Hs) as (j' & Hrun & Href).
      exists (inr (receipt (command_id cmd) REJECTED (Some "PROPOSAL_NOT_FOUND"%string) false None)), j'. split; [|exact Href]. rewrite Hwork. cbn beta iota. by rewrite bind_unfold, Hrun.
  - destruct (Hrefuse "TRADING_PAUSED"%string true row j Hat Hs) as (j' & Hrun & Href).
    exists (inr (receipt (command_id cmd) REJECTED (Some "TRADING_PAUSED"%string) true None)), j'. split; [|exact Href].
    destruct Hwork as [Hwork|Hwork]; rewrite Hwork; cbn beta iota; by rewrite bind_unfold, Hrun.
Qed.
(** The last look: a permit, or a refusal that settles proposal and command. *)
Definition permitted (ports : Ports) cmd (ctx : ApprovalContext) : Prop :=
  ∀ revalidate, po_guard ports = Some revalidate →
    ∃ permit, revalidate at_permit ctx cmd (clock at_permit) = Ok permit.

Lemma permit_phase_run (ports : Ports) cmd id claimed ctx j row r :
  saga_at (command_id cmd) row j → l_state row = SUBMITTING →
  proposals j !! id = Some r → status r = APPROVED → revision r = revision claimed →
  uuid_fresh (st_uuid (stamps at_permit_decision)) j →
  ∃ o j', permit_phase float_repr account_id clock stamps ports cmd id claimed (Some ctx) j = (o, j') ∧
  match o with
  | Ok None => saga_at (command_id cmd) row j' ∧ proposals j' = proposals j ∧ permitted ports cmd ctx
  | Ok (Some rc) => refused_at cmd rc j'
  | Raise _ => True
  end.
Proof.
  intros Hat Hs Hr Hst Hrev Hu. unfold permit_phase, permitted.
  destruct (po_guard ports) as [revalidate|]; [|by exists (Ok None), j].
  destruct (revalidate _ ctx cmd _) as [permit|e] eqn:Hperm.
  - destruct (publish_step cmd (command_id cmd +:+ "/dispatch")%string (permit_decision permit id)
      at_permit_decision j row Hat Hu) as (o & j' & Hrun & Hat' & [Hps _] & _).
    destruct o as [[]|e]; [exists (Ok None), j'|exists (Raise e), j']; rewrite bind_unfold, Hrun; [|done].
    split; [done|]. split_and!; [done|done|]. intros rv [= <-]. by exists permit.
  - destruct e; try (by do 2 eexists; split; [reflexivity|]).
    destruct (publish_step cmd (command_id cmd +:+ "/dispatch")%string (reject_decision code id)
      at_permit_decision j row Hat Hu) as (o & j' & Hrun & Hat' & [Hps _] & _).
    destruct o as [[]|e]; [|exists (Raise e), j'; by rewrite bind_unfold, Hrun].
    do 2 eexists. rewrite bind_unfold, Hrun, bind_unfold.
    rewrite (fail_run _ _ _ _ _ row) by done. rewrite Hps, Hr.
    unfold in_state. rewrite bool_decide_eq_true_2, Hrev, Z.eqb_refl by done. split; [reflexivity|].
    split; [done|]. split; [done|].
    exists (set_command_state REJECTED None (Some code) (clock at_failed_command) row). split; [|done].
    destruct (ao_key _ (sa_authority _ _ _ Hat) _ _ Hr) as [Hk _].
    apply paired_at; [done|done| |rewrite Hs; simpl; set_solver].
    simpl. unfold revision_of. by rewrite Hps, Hk, Hr.
Qed.

Lemma uuid_fresh_paired cmd r pr row s o c t1 t2 j u :
  saga_at (command_id cmd) row j → revision r = revision_of j (p_id r) + 1 → s ∉ passed (l_state row) →
  uuid_fresh u j → uuid_fresh u (paired cmd r pr row s o c t1 t2 j).
Proof.
  intros Hat Hrev Hs Hu. assert (u ≠ proposal_event_id (p_id r) (revision r)) as Hne1.
  { intros E. destruct Hu as [Hu _]. by rewrite E, proposal_event_id_colon in Hu. }
  assert (u ≠ command_event_id (command_id cmd) s) as Hne2.
  { intros E. destruct Hu as [Hu _]. by rewrite E, command_event_id_colon in Hu. }
  assert (select_journal_row (proposal_event_id (p_id r) (revision r)) (jcore j) = None) as Hf.
  { apply proposal_event_fresh; [apply Hat|lia]. }
  apply uuid_fresh_appended; [by apply uuid_fresh_appended| |done].
  unfold jcore. simpl. rewrite select_appended by done.
  rewrite bool_decide_eq_false_2 by apply command_not_proposal.
  by apply (ca_fresh _ _ _ (sa_command _ _ _ Hat)).
Qed.

(** The proposal as the claim left it, and the command behind it. *)
Definition claimed_proposal cmd (r : ProposalRecord) : ProposalRecord :=
  linked (group_of cmd) (claimed_row (clock at_claim) r).
Definition validated_row row : LedgerRow :=
  set_command_state SUBMITTING None None (clock at_submitting)
    (set_command_state VALIDATED None None (clock at_validated) row).

End runs.

(** A SUBMITTED command answers its own retry as retryable, unlike the saga's
    receipt for the same outcome. *)
Lemma submitted_replay_is_retryable sha (T E : Type) `{HasTable T ledger_table, !NonceGate T, !AuditSink T}
    (w : world T E) reconciler actions r t1 t2 t3 row :
  is_Some (actions !! cr_action r) → command_ledger (w_journal w) !! command_id r = Some row →
  request_hash row = hash_of sha r → l_state row = SUBMITTED →
  ∃ rc, execute sha reconciler actions r t1 t2 t3 w = (Ok rc, w) ∧ retryable rc = true.
Proof.
  intros Hreg Hrow Hh Hs. eexists. split; [by apply execute_recorded|].
  unfold claim_answer. rewrite Hh, String.eqb_refl. unfold row_to_receipt. simpl. by rewrite Hs.
Qed.

(** A NaN price passes the guards of a paper account: every comparison with it
    is false. *)
Lemma nan_price_passes r side t feed session now outside reference limit :
  side = expected_side (action r) → reference_price r = Some reference → feq reference fzero = false →
  max_price_drift_bps r = Some limit →
  check_exposure_increasing_guards r (Some (mkQuote 1 side S754_nan t feed session)) now "paper" outside None
  = Ok None.
Proof.
  intros -> Href Hz Hlim. unfold check_exposure_increasing_guards. cbn [q_side q_price].
  rewrite String.eqb_refl. cbn [negb orb]. unfold check_drift. rewrite Href, Hlim. cbn [q_price].
  unfold drift_bps. rewrite Hz. by destruct limit, reference.
Qed.

(** ** Concrete runs *)
Definition ex_db : Type := control_table * (proposal_table * (ledger_table * (risk_table * unit))).
Definition ex_clock (t : reading) : Z :=
  seconds match t with
  | at_guards => 61 | at_context => 62 | at_preview => 63 | at_decision => 64 | at_validated => 65
  | at_claim => 66 | at_claim_event => 67 | at_submitting => 68 | at_claim_refused => 69
  | at_permit => 70 | at_permit_decision => 71 | at_failed => 72 | at_failed_event => 73
  | at_failed_command => 74 | at_ambiguous => 75 | at_schedule => 76 | at_submitted => 77
  | at_submitted_event => 78 | at_submitted_command => 79
  end.
Definition ex_stamps (t : reading) : stamp :=
  mkStamp (pretty (ex_clock t)) (ex_clock t).
Definition ex_cmd : CommandRequest :=
  mkRequest "c-7" "approve_proposal" (Some "DU1"%string) "proposal" "1" (Some 1)
    [("proposal_id", JInt 1)] "cli" None None None None None.
Definition ex_cmd_row : LedgerRow :=
  mkLedgerRow "c-7" "h" (Some "DU1"%string) "approve_proposal" "proposal" "1" (Some 1) RECEIVED None None "cli"
    (seconds 60) (seconds 60).
Definition ex_controls : control_table := {["DU1"%string := mkControl "DU1" false 1 0 "system" ""]}.
Definition ex_conn0 : pconn ex_db :=
  mkPconn ∅ (ex_controls, (∅, ({["c-7"%string := ex_cmd_row]}, (∅, tt)))).
Definition ex_received : DomainJournal ex_db :=
  proposal_written ex_proposal (mutation_for ex_repr ex_proposal (Some "cmd-1"%string)) 0
    (empty_journal ex_conn0).
Definition ex_w : world ex_db (list dispatch) := mkWorld ex_received [] [].
Definition ex_broker (answer : res (list Z)) : Ports (T := ex_db) :=
  mkPorts (Ok (mkSnapshot 3 9 (λ _, fzero))) (λ _ _, true)
    (λ _ side, Ok (Some (mkQuote 265598 side ex_price (Aware (seconds 60) 0) "live" "continuous")))
    None (λ d w, (answer, w)).
Definition ex_approve_run (answer : res (list Z)) : res CommandReceipt * world ex_db (list dispatch) :=
  approve ex_repr "DU1" "paper" false None (λ _ _, Ok tt) ex_clock ex_stamps (ex_broker answer) ex_cmd ex_w.

Lemma ex_received_at : saga_at "c-7" ex_cmd_row (w_journal ex_w).
Proof.
  assert (authority_ok ex_received) as Ha
    by (apply authority_ok_written; [by apply authority_ok_empty|reflexivity..]).
  split; [exact Ha|]. split; [apply Ha|reflexivity|]. by intros [].
Qed.

Lemma ex_port_law answer : port_law (ex_broker answer) ex_cmd.
Proof. by intros d w row Hat. Qed.


(** After the claim, a broker that rejects. *)
Definition ex_claimed : DomainJournal ex_db :=
  (claim_phase ex_repr "DU1" ex_clock ex_stamps ex_cmd (from_row ex_proposal) (Some INCREASING)
    (transition_command ex_clock ex_stamps ex_cmd RECEIVED VALIDATED None None at_validated ex_received).2).2.
Definition ex_ready : world ex_db (list dispatch) := set_journal ex_claimed ex_w.
Definition ex_ready_row : LedgerRow := validated_row ex_clock ex_cmd_row.

Lemma ex_ready_at : saga_at "c-7" ex_ready_row (w_journal ex_ready).
Proof.
  destruct (transition_command_run ex_clock ex_stamps ex_cmd RECEIVED VALIDATED None None at_validated
    ex_received ex_cmd_row ex_received_at eq_refl ltac:(simpl; set_solver)) as [_ Hat].
  cbv zeta in Hat. set (j1 := command_written _ _ _ _ _ ex_received) in Hat.
  assert (w_journal ex_ready = paired ex_repr ex_clock ex_stamps ex_cmd
    (claimed_proposal ex_clock ex_cmd ex_proposal)
    (linked (group_of ex_cmd) (from_row (claimed_row (ex_clock at_claim) ex_proposal)))
    (set_command_state VALIDATED None None (ex_clock at_validated) ex_cmd_row) SUBMITTING None None
    at_claim_event at_submitting j1) as -> by (vm_compute; reflexivity).
  apply (paired_at _ _ _ ex_cmd); [exact Hat|reflexivity|vm_compute; reflexivity|simpl; set_solver].
Qed.

