(* ===== verification/Ledger.v ===== *)
(** * The command ledger as a typed table ([trader/trading/command_coordinator.py])

    Every writer of [command_ledger] goes through the same two statements, so what
    the rows look like is an invariant of all of them: a row is stored under its own
    command id, and its outcome and error code are the ones its state has.  This
    file proves that the coordinator and the approval saga keep any such property
    of the database; the reconciler's part is in [Schedule]. *)
From stdpp Require Import base tactics gmap list strings pretty.
From Stdlib Require Import ZArith Lia.
From S2P Require Import Prelude Py Journal Store TradingControl Proposal Command Nonce Risk Approval.
Open Scope Z_scope.

(** ** What a row of each state holds *)
Definition state_typed (s : command_state) (outcome : option dict) (code : option string) : Prop :=
  match s with
  | RECEIVED | VALIDATED | SUBMITTING => outcome = None ∧ code = None
  | SUBMITTED | RESOLVED => is_Some outcome ∧ code = None
  | REJECTED | OUTCOME_UNKNOWN => is_Some code
  end.

Definition row_typed (id : string) (row : LedgerRow) : Prop :=
  l_command_id row = id ∧ state_typed (l_state row) (l_outcome row) (l_error_code row).
Definition ledger_typed (t : ledger_table) : Prop := map_Forall row_typed t.

Lemma row_typed_move id row s o c now :
  row_typed id row → state_typed s o c → row_typed id (set_command_state s o c now row).
Proof. by intros [Hid _] Hs. Qed.
Lemma row_typed_received r hash now : row_typed (command_id r) (received_row r hash now).
Proof. by split. Qed.

(** ** Properties of the database the authority keeps *)
Section keeps.
Context {T E : Type} `{HasTable T control_table, HasTable T proposal_table, HasTable T ledger_table,
  HasTable T risk_table}.
Context (Pc : core → Prop) (Pt : T → Prop).

(** What such a property must allow: more journal rows, a new RECEIVED row, a row
    in a state it is typed for, and any proposal and risk row. *)
Class Authority_property : Prop := {
  Pc_rows c c' : Pc c → (∃ l, journal c' = journal c ++ l) → Pc c';
  Pt_move id row s o c now t : Pt t → (tget t : ledger_table) !! id = Some row → state_typed s o c →
    Pt (tset (<[id := set_command_state s o c now row]> (tget t : ledger_table)) t);
  Pt_insert r hash now t : Pt t → (tget t : ledger_table) !! command_id r = None →
    Pt (tset (<[command_id r := received_row r hash now]> (tget t : ledger_table)) t);
  Pt_proposals (f : proposal_table → proposal_table) t : Pt t → Pt (tset (f (tget t)) t);
  Pt_risks (f : risk_table → risk_table) t : Pt t → Pt (tset (f (tget t)) t);
}.
Context `{!Authority_property}.
Notation kept := (kept Pc Pt).
Notation kept_tx := (kept_tx Pc Pt).
Notation kept_conn := (kept_conn Pt).

Lemma keeps_batch' {A} (w : M (tx T) A) : preserves kept_tx w → preserves kept (mutate_batch_work w).
Proof. apply keeps_batch, Pc_rows. Qed.

Lemma keeps_transition_in_tx id from to o c now :
  state_typed to o c → preserves kept_conn (transition_in_tx id from to o c now).
Proof.
  intros Hs p Hp. unfold final, transition_in_tx. rewrite bind_gets.
  destruct (ledger_of p !! id) as [row|] eqn:Hr; [|done]. case_bool_decide; [|done].
  rewrite bind_modify. by apply Pt_move.
Qed.
Lemma keeps_insert r hash now : preserves kept_conn (insert_received_in_tx r hash now).
Proof.
  intros p Hp. unfold final, insert_received_in_tx. rewrite bind_gets.
  destruct (ledger_of p !! command_id r) eqn:Hr; [done|]. rewrite bind_modify. by apply Pt_insert.
Qed.

Lemma keeps_new_mutation {S} (I : S → Prop) m : preserves I (new_mutation m).
Proof.
  unfold new_mutation. destruct (m_source_timestamp m); [apply preserves_raise|].
  destruct (m_operation m), (m_payload m); apply preserves_ret || apply preserves_raise.
Qed.
Lemma keeps_as_utc {S} (I : S → Prop) d : preserves I (as_utc_strict (S := S) d).
Proof. destruct d; [apply preserves_raise|apply preserves_ret]. Qed.

Lemma keeps_transition r from to o c tm :
  state_typed to o c → preserves kept (transition r from to o c tm).
Proof.
  intros Hs. unfold transition. apply preserves_bind; [apply keeps_as_utc|]. intros now.
  apply preserves_bind; [apply keeps_new_mutation|]. intros m.
  apply preserves_bind.
  - apply keeps_mutate_written; [apply Pc_rows|]. intros _. by apply keeps_transition_in_tx.
  - intros l. destruct l; [apply preserves_raise|apply preserves_ret].
Qed.

(** ** The coordinator *)
Section coordinator.
Context (sha256_hex : string → string) (hook : option (string → Z → res unit)).
Context `{!NonceGate T, !AuditSink T}.
Hypothesis keeps_gate : ∀ n r, preserves kept_conn (consume_in_tx n r).
Hypothesis keeps_audit : ∀ r c now, preserves kept_conn (write_audit r c now).
Notation world := (world T E).
Implicit Types reg : ActionRegistration (T := T) (E := E).

Lemma keeps_write_received reg r now rev : preserves kept_conn (write_received sha256_hex reg r now rev).
Proof.
  unfold write_received. apply preserves_bind.
  - destruct (needs_nonce reg); [|apply preserves_ret].
    apply preserves_bind; [apply keeps_gate|]. intros []; [apply preserves_ret|apply preserves_raise].
  - intros _. apply preserves_bind; [apply keeps_insert|]. intros row.
    apply preserves_bind; [apply keeps_audit|]. intros _. apply preserves_ret.
Qed.

Lemma keeps_losing r : preserves kept (losing_claim_receipt sha256_hex r).
Proof. intros j Hj. unfold final. by rewrite losing_run. Qed.

Lemma keeps_receive reg r tm : preserves kept (receive sha256_hex reg r tm).
Proof.
  unfold receive. apply preserves_bind; [apply keeps_as_utc|]. intros now.
  apply preserves_bind; [apply keeps_new_mutation|]. intros m.
  apply preserves_bind.
  - apply preserves_try.
    + apply preserves_bind; [|intros; apply preserves_ret].
      apply keeps_mutate_written; [apply Pc_rows|]. intros rev. apply keeps_write_received.
    + intros e k [= <-]. destruct e; try apply preserves_ret.
      apply preserves_bind; [apply keeps_losing|]. intros; apply preserves_ret.
  - intros [[|row l]|rc]; [|apply preserves_ret..].
    apply preserves_bind; [apply keeps_losing|]. intros; apply preserves_ret.
Qed.

Lemma keeps_get_row id : preserves kept (get_row (T := T) id).
Proof. apply preserves_gets. Qed.

End coordinator.

(** ** The approval saga *)
Section approval.
Context (float_repr : float → string) (account_id account_mode : string).
Context (outside : bool) (paper_max : option float).
Context (reconciler : string → Z → res unit) (clock : reading → Z) (stamps : reading → stamp).
Notation sworld := (world T (list dispatch)).
Notation Ports := (Ports (T := T)).

Lemma keeps_answer {S A} (I : S → Prop) (r : res A) : preserves I (answer r).
Proof. destruct r; [apply preserves_ret|apply preserves_raise]. Qed.
Lemma keeps_update_returning id where_ f : preserves kept_conn (update_returning (T := T) id where_ f).
Proof.
  intros p Hp. unfold final. rewrite update_returning_run. destruct (proposals_of p !! id) as [r|]; [|done].
  destruct (where_ r); [|done]. by apply Pt_proposals.
Qed.
Lemma keeps_tx_producer {A} (m : M (pconn T) A) : preserves kept_conn m → preserves kept_tx (in_producer m).
Proof. apply keeps_in_producer. Qed.
Lemma keeps_no_write st m eid : preserves kept_tx (append st m (λ _, mret tt) eid).
Proof. apply keeps_append; [apply Pc_rows|]. intros; apply preserves_ret. Qed.
Lemma keeps_append_proposal cmd id row t : preserves kept_tx (append_proposal float_repr stamps cmd id row t).
Proof.
  unfold append_proposal. apply preserves_bind; [apply keeps_new_mutation|]. intros m.
  apply preserves_bind; [|intros; apply preserves_ret].
  apply keeps_append; [apply Pc_rows|]. intros rev. apply preserves_require.
Qed.
Lemma keeps_append_command cmd st o c t : preserves kept_tx (append_command clock stamps cmd st o c t).
Proof.
  unfold append_command. apply preserves_bind; [apply keeps_new_mutation|]. intros m.
  apply preserves_bind; [apply keeps_no_write|]. intros; apply preserves_ret.
Qed.
Lemma keeps_move_in_tx id from to o c now :
  state_typed to o c → preserves kept_tx (in_producer (transition_in_tx id from to o c now)).
Proof. intros Hs. by apply keeps_tx_producer, keeps_transition_in_tx. Qed.
Lemma keeps_or_concurrent {S} (I : S → Prop) o : preserves I (or_concurrent (S := S) o).
Proof. destruct o; [apply preserves_ret|apply preserves_raise]. Qed.

Lemma keeps_transition_command cmd from to o c t :
  state_typed to o c → preserves kept (transition_command clock stamps cmd from to o c t).
Proof.
  intros Hs. unfold transition_command. apply preserves_bind; [apply preserves_ret|]. intros now.
  apply preserves_bind; [apply keeps_new_mutation|]. intros m.
  apply preserves_bind; [|intros; apply preserves_ret].
  apply keeps_mutate; [apply Pc_rows|]. intros _.
  apply preserves_bind; [by apply keeps_transition_in_tx|]. intros; apply preserves_ret.
Qed.

Lemma keeps_claim_in_tx id expected now :
  preserves kept_conn (claim_for_approval_in_tx id expected account_id now).
Proof.
  unfold claim_for_approval_in_tx. apply preserves_bind; [apply keeps_update_returning|].
  intros [r|]; [apply preserves_ret|]. apply preserves_bind; [apply preserves_gets|]. intros t.
  destruct (from_row <$> _); [|apply preserves_ret]. repeat case_match; apply preserves_ret.
Qed.

Lemma keeps_claim_work cmd record d :
  preserves kept_tx (claim_work float_repr account_id clock stamps cmd record d).
Proof.
  unfold claim_work. apply preserves_bind.
  - destruct (bool_decide _); [|apply preserves_ret]. unfold require_unpaused_in_tx.
    apply preserves_bind; [apply keeps_tx_producer, preserves_gets|].
    intros [st|]; [|apply preserves_raise]. destruct (new_exposure_paused st); [apply preserves_raise|apply preserves_ret].
  - intros _. apply preserves_bind; [apply keeps_tx_producer, keeps_claim_in_tx|].
    intros [c [row|]]; [|destruct c; apply preserves_raise].
    destruct c; try apply preserves_raise.
    + apply preserves_bind.
      { apply keeps_tx_producer. unfold link_order_group_in_tx.
        apply preserves_bind; [apply keeps_update_returning|]. intros; apply preserves_ret. }
      intros _. apply preserves_bind; [apply keeps_append_proposal|]. intros _.
      apply preserves_bind; [by apply keeps_move_in_tx|]. intros _.
      apply preserves_bind; [apply keeps_append_command|]. intros; apply preserves_ret.
    + apply preserves_bind; [apply keeps_append_proposal|]. intros; apply preserves_ret.
Qed.

(** A marked proposal and its command's move, in one transaction. *)
Lemma keeps_settle cmd id where_ f from to o c t1 t2 :
  state_typed to o c →
  preserves kept (mutate_batch_work (
    row ← in_producer (update_returning id where_ f);
    row ← or_concurrent row;
    append_proposal float_repr stamps cmd id row t1 ;;
    in_producer (transition_in_tx (command_id cmd) from to o c (clock t2)) ;;
    append_command clock stamps cmd to o c t2)).
Proof.
  intros Hs. apply keeps_batch'. apply preserves_bind; [apply keeps_tx_producer, keeps_update_returning|].
  intros row. apply preserves_bind; [apply keeps_or_concurrent|]. intros pr.
  apply preserves_bind; [apply keeps_append_proposal|]. intros _.
  apply preserves_bind; [by apply keeps_move_in_tx|]. intros _. apply keeps_append_command.
Qed.
Lemma keeps_fail cmd id rev reason code :
  preserves kept (fail_after_broker_rejection float_repr clock stamps cmd id rev reason code).
Proof. apply keeps_settle. simpl. eauto. Qed.
Lemma keeps_finish cmd id rev ids :
  preserves kept (mutate_batch_work (finish_work float_repr clock stamps cmd id rev ids)).
Proof. apply keeps_settle. simpl. eauto. Qed.

Lemma keeps_publish cmd key payload t : preserves kept (publish account_id clock stamps cmd key payload t).
Proof.
  unfold publish. apply preserves_bind; [|intros; apply preserves_ret]. apply keeps_batch'.
  apply preserves_bind; [apply keeps_tx_producer, preserves_gets|]. intros [row|].
  - destruct (same_payload _ _); [apply preserves_ret|apply preserves_raise].
  - unfold append_write. apply preserves_bind; [|intros; apply preserves_ret].
    apply keeps_append; [apply Pc_rows|]. intros rev p Hp. by apply Pt_risks.
Qed.

Lemma keeps_validate (ports : Ports) record cmd id :
  preserves kept (validate account_id account_mode outside paper_max clock ports record cmd id).
Proof.
  unfold validate. destruct record as [r|]; [|apply preserves_ret].
  apply preserves_bind; [apply preserves_gets|]. intros inflight.
  destruct (identity_problem _ _ _ _ _); [apply preserves_ret|].
  destruct (po_snapshot ports) as [snap|e]; [apply keeps_answer|].
  destruct e; apply preserves_ret.
Qed.

Lemma keeps_claim_phase cmd record d :
  preserves kept (claim_phase float_repr account_id clock stamps cmd record d).
Proof.
  unfold claim_phase.
  assert (∀ code (retry : bool), preserves kept (transition_command clock stamps cmd VALIDATED REJECTED None (Some code)
    at_claim_refused ;; (mret (inr (receipt (command_id cmd) REJECTED (Some code) retry None))
    : M (DomainJournal T) (ProposalRecord + CommandReceipt)))) as Hrefuse.
  { intros code retry. apply preserves_bind; [|intros; apply preserves_ret].
    apply keeps_transition_command. simpl. eauto. }
  apply preserves_bind.
  - apply preserves_try.
    + apply preserves_bind; [apply keeps_batch', keeps_claim_work|]. intros; apply preserves_ret.
    + intros e k Hk. destruct e; simplify_eq; (apply preserves_bind; [apply Hrefuse|intros; apply preserves_ret]).
  - intros [[row|]|rc]; [apply preserves_ret|apply Hrefuse|apply preserves_ret].
Qed.

Lemma keeps_permit_phase (ports : Ports) cmd id claimed ctx :
  preserves kept (permit_phase float_repr account_id clock stamps ports cmd id claimed ctx).
Proof.
  unfold permit_phase. destruct (po_guard ports) as [g|]; [|apply preserves_ret].
  destruct ctx as [ctx|]; [|apply preserves_ret].
  destruct (g _ _ _ _) as [permit|e].
  - apply preserves_bind; [apply keeps_publish|]. intros; apply preserves_ret.
  - destruct e; try apply preserves_raise.
    apply preserves_bind; [apply keeps_publish|]. intros _.
    apply preserves_bind; [apply keeps_fail|]. intros; apply preserves_ret.
Qed.

Lemma keeps_prepare (ports : Ports) cmd :
  preserves kept (prepare float_repr account_id account_mode outside paper_max clock stamps ports cmd).
Proof.
  unfold prepare. apply preserves_bind; [apply keeps_answer|]. intros id.
  apply preserves_bind; [apply preserves_bind; [apply preserves_gets|intros; apply preserves_ret]|]. intros record.
  apply preserves_bind; [apply keeps_validate|]. intros v.
  apply preserves_bind; [apply keeps_publish|]. intros _.
  destruct (v_problem v) as [p|].
  - apply preserves_bind; [apply keeps_transition_command; simpl; eauto|]. intros; apply preserves_ret.
  - destruct record as [r|]; [|apply preserves_raise].
    apply preserves_bind; [by apply keeps_transition_command|]. intros _.
    apply preserves_bind; [apply keeps_claim_phase|]. intros [row|rc]; [|apply preserves_ret].
    apply preserves_bind; [apply keeps_permit_phase|]. intros [rc|]; apply preserves_ret.
Qed.

End approval.
End keeps.

(** ** From one property of a state to another *)
Definition leads {S A} (J I : S → Prop) (m : M S A) : Prop := ∀ s, J s → I (final m s).

Lemma leads_bind {S A B} (J I : S → Prop) (m : M S A) (k : A → M S B) :
  leads J I m → (∀ a, preserves I (k a)) → leads J I (m ≫= k).
Proof.
  unfold leads, preserves, final. intros Hm Hk s Hs. rewrite bind_unfold. specialize (Hm s Hs).
  destruct (m s) as [[a|e] s']; [by apply Hk|done].
Qed.
Lemma leads_try {S A} (J I : S → Prop) (m : M S A) h :
  leads J I m → (∀ e k, h e = Some k → preserves I k) → leads J I (try_except m h).
Proof.
  unfold leads, preserves, final, try_except. intros Hm Hh s Hs. specialize (Hm s Hs).
  destruct (m s) as [[a|e] s']; [done|]. destruct (h e) as [k|] eqn:Ek; [by eapply Hh|done].
Qed.

(** ** Invariants of the whole trader, call by call *)
Section calls.
Context {T E : Type} `{HasTable T control_table, HasTable T proposal_table, HasTable T ledger_table,
  HasTable T risk_table}.
Context (Pt : T → Prop).

(** A call on the journal that keeps every property of its rows, and [Pt]. *)
Definition keeps_all {A} (m : M (DomainJournal T) A) : Prop :=
  ∀ Pc, Authority_property Pc Pt → preserves (kept Pc Pt) m.

(** An invariant of the trader that only asks that of its calls on the journal,
    and nothing of the reconciler's schedule. *)
Class World_invariant (I : world T E → Prop) : Prop := {
  wi_journal {A} (m : M (DomainJournal T) A) : keeps_all m → preserves I (on_journal m);
  wi_schedule id at_ w : I w → I (mkWorld (w_journal w) (scheduled w ++ [(id, at_)]) (w_env w));
}.

Global Instance kept_world Pc `{!Authority_property Pc Pt} : World_invariant (λ w, kept Pc Pt (w_journal w)).
Proof. split; [|done]. intros A m Hm. apply (preserves_zoom (kept Pc Pt)); [done|done|by apply Hm]. Qed.

Context (I : world T E → Prop) `{!World_invariant I}.

Lemma calls_schedule f id now : preserves I (call_schedule f id now).
Proof.
  unfold call_schedule. apply preserves_bind; [apply preserves_modify; intros w; apply wi_schedule|]. intros _.
  destruct (f id now); [apply preserves_ret|apply preserves_raise].
Qed.

(** *** The coordinator *)
Context (sha256_hex : string → string) (hook : option (string → Z → res unit)).
Context `{!NonceGate T, !AuditSink T}.
Hypothesis keeps_gate : ∀ n r, preserves (kept_conn Pt) (consume_in_tx n r).
Hypothesis keeps_audit : ∀ r c now, preserves (kept_conn Pt) (write_audit r c now).
Implicit Types reg : ActionRegistration (T := T) (E := E).

Lemma calls_schedule_reconcile id at_ : preserves I (schedule_reconcile hook id at_).
Proof.
  unfold schedule_reconcile. destruct hook as [f|]; [|apply preserves_ret].
  apply preserves_try; [|intros e k [= <-]; apply preserves_ret].
  apply preserves_bind; [apply keeps_as_utc|]. intros t. apply calls_schedule.
Qed.

(** A transition in a try of its own. *)
Lemma calls_transition r from to o c tm :
  state_typed to o c → preserves I (on_journal (transition r from to o c tm)).
Proof. intros Hs. apply wi_journal. intros Pc HPc. by apply keeps_transition. Qed.

Lemma calls_fallback r tm at_ : preserves I (fallback_outcome_unknown hook r tm at_).
Proof.
  unfold fallback_outcome_unknown. apply preserves_bind.
  - apply preserves_try; [|intros e k [= <-]; apply preserves_ret]. apply wi_journal. intros Pc HPc.
    apply preserves_bind; [apply preserves_gets|]. intros [row|]; [|apply preserves_ret].
    destruct (_ || _); [apply preserves_ret|].
    apply preserves_bind; [apply keeps_transition; simpl; eauto|]. intros; apply preserves_ret.
  - intros []; [apply calls_schedule_reconcile|apply preserves_ret].
Qed.

Lemma calls_park r tm at_ e :
  preserves I (parked ← swallow false (on_journal (
      transition r RECEIVED OUTCOME_UNKNOWN None (Some "INTERNAL_ERROR"%string) tm ;; mret true));
    (if (parked : bool) then schedule_reconcile hook (command_id r) at_ else mret tt) ;;
    (raise e : M (world T E) (dict + CommandReceipt))).
Proof.
  apply preserves_bind.
  - apply preserves_try; [|intros e' k [= <-]; apply preserves_ret]. apply wi_journal. intros Pc HPc.
    apply preserves_bind; [apply keeps_transition; simpl; eauto|]. intros; apply preserves_ret.
  - intros parked. apply preserves_bind; [|intros; apply preserves_raise].
    destruct parked; [apply calls_schedule_reconcile|apply preserves_ret].
Qed.

(** What a registered handler does to the trader. *)
Definition handled reg (r : CommandRequest) (w : world T E) : world T E :=
  match reg with single_step h _ => final (h r) w | saga h _ => final (h r) w end.

(** The step after the claim: from a world in [J], a handler that leads to [I]. *)
Lemma calls_run_handler (J : world T E → Prop) reg r tm at_ :
  (∀ w, J w → I (handled reg r w)) → leads J I (run_handler hook reg r tm at_).
Proof.
  intros Hreg. destruct reg as [h b|h b]; simpl in *.
  - apply leads_bind.
    + apply leads_try; [apply leads_bind; [exact Hreg|intros; apply preserves_ret]|].
      intros e k [= <-]. destruct e; try apply calls_park.
      apply preserves_bind; [apply calls_transition; simpl; eauto|]. intros; apply preserves_ret.
    + intros [d|rc]; [|apply preserves_ret].
      apply preserves_bind; [apply calls_transition; simpl; eauto|]. intros; apply preserves_ret.
  - apply leads_try; [exact Hreg|]. intros e k [= <-].
    apply preserves_bind; [apply calls_fallback|]. intros; apply preserves_raise.
Qed.

(** A caller that won the claim of [r] in a world of [I]. *)
Definition won reg (r : CommandRequest) (w : world T E) : Prop :=
  ∃ w0 tm j, I w0 ∧ receive sha256_hex reg r tm (w_journal w0) = (Ok None, j) ∧ w = set_journal j w0.

Lemma calls_receive reg r tm : preserves I (on_journal (receive sha256_hex reg r tm)).
Proof. apply wi_journal. intros Pc HPc. by apply keeps_receive. Qed.
Lemma won_holds reg r w : won reg r w → I w.
Proof.
  intros (w0 & tm & j & Hw & Hr & ->). pose proof (calls_receive reg r tm w0 Hw) as Hk.
  unfold final, on_journal, zoom in Hk. by rewrite Hr in Hk.
Qed.

Lemma calls_execute actions r t1 t2 t3 :
  (∀ a reg, actions !! a = Some reg → ∀ w, won reg r w → I (handled reg r w)) →
  preserves I (execute sha256_hex hook actions r t1 t2 t3).
Proof.
  intros Hreg w Hw. unfold execute. destruct (actions !! cr_action r) as [reg|] eqn:Ha; [|done].
  unfold final. rewrite bind_on_journal, claim_or_replay_run, set_journal_id.
  destruct (command_ledger (w_journal w) !! command_id r); [by destruct (String.eqb _ _)|].
  pose proof (calls_receive reg r t1 w Hw) as Hrc. unfold final, on_journal, zoom in Hrc.
  rewrite bind_on_journal. destruct (receive _ reg r t1 (w_journal w)) as [[[rc|]|e] j] eqn:Hr; [done| |done].
  eapply (calls_run_handler (won reg r) reg r t2 t3); [by apply (Hreg _ _ Ha)|].
  by exists w, t1, j.
Qed.
End calls.


(** *** The approval saga *)
Section approve.
Context {T : Type} `{HasTable T control_table, HasTable T proposal_table, HasTable T ledger_table,
  HasTable T risk_table}.
Context (Pt : T → Prop) (I : world T (list dispatch) → Prop) `{!World_invariant Pt I}.
Context (float_repr : float → string) (account_id account_mode : string).
Context (outside : bool) (paper_max : option float).
Context (reconciler : string → Z → res unit) (clock : reading → Z) (stamps : reading → stamp).
Notation Ports := (Ports (T := T)).

Lemma calls_park_order cmd o : preserves I (park (T := T) reconciler clock stamps cmd o).
Proof.
  unfold park. apply preserves_bind.
  - apply (wi_journal Pt). intros Pc HPc. apply (keeps_transition_command Pc Pt). simpl. eauto.
  - intros _. apply preserves_bind; [apply (calls_schedule Pt I)|]. intros; apply preserves_ret.
Qed.

(** The saga from a world in [J] that its preparation keeps: everything depends
    on the one broker call. *)
Lemma calls_approve (J : world T (list dispatch) → Prop) (ports : Ports) cmd :
  (∀ w, J w → I w) →
  preserves J (on_journal (prepare float_repr account_id account_mode outside paper_max clock stamps ports cmd)) →
  (∀ d w, J w → sent_order_group d = group_of cmd → I (final (submit ports d) w)) →
  leads J I (approve float_repr account_id account_mode outside paper_max reconciler clock stamps ports cmd).
Proof.
  intros HJ Hprep Hsub w Hw. specialize (Hprep w Hw). unfold approve, final in *. rewrite bind_unfold.
  destruct (on_journal _ w) as [[[[id claimed]|rc]|e] w1]; [|by apply HJ..]. simpl in Hprep.
  revert w1 Hprep. unfold dispatch_phase. apply leads_bind.
  - apply leads_try; [apply leads_bind; [|intros; apply preserves_ret]|].
    + intros w1 Hw1. by apply Hsub.
    + intros e k [= <-].
      destruct e; try (apply preserves_bind; [apply calls_park_order|intros; apply preserves_ret]).
      apply preserves_bind; [|intros; apply preserves_ret].
      apply (wi_journal Pt). intros Pc HPc. by apply (keeps_fail Pc Pt).
  - intros [ids|rc]; [|apply preserves_ret]. apply preserves_try.
    + apply preserves_bind; [|intros; apply preserves_ret].
      apply (wi_journal Pt). intros Pc HPc. by apply (keeps_finish Pc Pt).
    + intros e k [= <-]. apply calls_park_order.
Qed.
End approve.

(** ** The type of the ledger is such a property *)
Section typed.
Context {T : Type} `{HasTable T control_table, HasTable T proposal_table, HasTable T ledger_table,
  HasTable T risk_table}.
Context `{!Disjoint_tables T proposal_table ledger_table, !Disjoint_tables T ledger_table risk_table}.

Definition typed_tables (t : T) : Prop := ledger_typed (tget t).
Definition any_core (c : core) : Prop := True.

Global Instance typed_authority : Authority_property any_core typed_tables.
Proof.
  split; unfold typed_tables; [done|..].
  - intros id row s o c now t Ht Hr Hs. rewrite tget_tset. apply map_Forall_insert_2; [|done].
    apply row_typed_move; [by apply Ht|done].
  - intros r hash now t Ht _. rewrite tget_tset. apply map_Forall_insert_2; [|done]. apply row_typed_received.
  - intros f t Ht. by rewrite tget_tset_other_r.
  - intros f t Ht. by rewrite tget_tset_other.
Qed.
End typed.
