(* ===== verification/Reconciler.v ===== *)
(** * The outcome reconciler ([trader/trading/command_coordinator.py])

    A command whose outcome is not known stays SUBMITTING, SUBMITTED or
    OUTCOME_UNKNOWN until [OutcomeReconciler] finds positive evidence: the
    broker's orders, the order a cancel was for, the proposal or control row a
    command wrote, a strategy receipt, a close root, or a row the command's own
    transaction wrote.  The theorems: what moves a command and what never does,
    the attempt schedule and its alert, crash recovery, and the operator's
    settlement. *)
From stdpp Require Import base tactics gmap list strings pretty.
From Stdlib Require Import ZArith Lia Ascii.
From S2P Require Import Prelude Py Correlation Journal Store TradingControl Proposal Command Approval.
Open Scope Z_scope.

(** ** The schedule *)

(** [(0.0,) + (5.0,) * 12 + (30.0,) * 28], in microseconds *)
Definition RECONCILE_DELAYS : list Z := 0 :: replicate 12 (seconds 5) ++ replicate 28 (seconds 30).
Definition CRITICAL_AFTER : Z := seconds 900.

(** [itertools.accumulate] *)
Fixpoint accumulate (total : Z) (l : list Z) : list Z :=
  match l with [] => [] | x :: l' => (total + x) :: accumulate (total + x) l' end.
Definition RECONCILE_OFFSETS : list Z := accumulate 0 RECONCILE_DELAYS.

Record ReconcilePlan : Type := mkPlan {
  pl_command_id : string;
  started : Z;
  next_due : Z;
  attempt : nat;
  alerted : bool;
}.

Record ReconcileResult : Type := mkResult {
  rr_command_id : string;
  resolved : bool;
  critical : bool;
}.

(** ** Actions and codes *)
Definition SAGA_ACTIONS : list string :=
  ["approve_proposal"; "cancel_order"; "liquidate_account"; "enable_strategy"; "disable_strategy";
   "update_strategy_params"; "execute_automated_intent"; "publish_ai_risk_policy";
   "submit_ai_paper_decision"].
Definition SAGA_ACTIONS_IDLE_WHILE_RECEIVED : list string :=
  ["approve_proposal"; "cancel_order"; "enable_strategy"; "disable_strategy";
   "update_strategy_params"; "execute_automated_intent"; "submit_ai_paper_decision"].
Definition SAGA_ACTIONS_COMMITTING_WHILE_RECEIVED : list string :=
  ["publish_ai_risk_policy"; "liquidate_account"].
Definition RECEIVED_AT_RESTART : string := "RECEIVED_AT_RESTART".
Definition LIQUIDATION_NOT_STARTED : string := "LIQUIDATION_NOT_STARTED".
Definition CANCEL_FANOUT_NOT_STARTED : string := "CANCEL_FANOUT_NOT_STARTED".
Definition CLOSE_RESOLVED_ACTIONS : list string :=
  ["execute_automated_intent"; "liquidate_account"; "submit_ai_paper_decision"].
Definition AI_PAPER_ENTRY_ACTION : string := "submit_ai_paper_decision".
Definition ENTRY_UNPROVEN_FLATTENED : string := "ENTRY_UNPROVEN_FLATTENED".
Definition AI_DEPLOYMENT_REGISTER_ACTION : string := "register_ai_deployment".
Definition REGISTRATION_NOT_COMMITTED : string := "REGISTRATION_NOT_COMMITTED".
Definition AI_RISK_POLICY_PUBLISH_ACTION : string := "publish_ai_risk_policy".
Definition POLICY_NOT_COMMITTED : string := "POLICY_NOT_COMMITTED".
Definition AI_DEPLOYMENT_WITHDRAW_ACTION : string := "withdraw_ai_deployment".
Definition WITHDRAWAL_NOT_COMMITTED : string := "WITHDRAWAL_NOT_COMMITTED".
Definition EXPERIMENT_COMMAND_ACTIONS : list string :=
  ["start_experiment"; "pause_experiment"; "resume_experiment"; "stop_experiment"].
Definition EXPERIMENT_COMMAND_NOT_COMMITTED : string := "EXPERIMENT_COMMAND_NOT_COMMITTED".
Definition BREAKER_RESET_ACTION : string := "reset_circuit_breaker".
Definition BREAKER_RESET_NOT_COMMITTED : string := "BREAKER_RESET_NOT_COMMITTED".
Definition SETTLE_ACTION : string := "settle_unknown_command".
Definition OPERATOR_SETTLEABLE_ACTIONS : list string :=
  ["reject_proposal"; "pause_trading"; "resume_trading"; "activate_live_canary";
   "deactivate_live_canary"; "activate_allocation"; "suspend_allocation";
   "activate_paper_automation"; "deactivate_paper_automation";
   "register_discretionary_deployment"; "acceptance_mark_start"].
Definition OPERATOR_SETTLED : string := "OPERATOR_SETTLED".
Definition SETTLE_NOT_COMMITTED : string := "SETTLE_NOT_COMMITTED".

(** ** Order statuses *)
Definition ACTIVE_ORDER_STATUSES : list string :=
  ["PendingSubmit"; "ApiPending"; "PreSubmitted"; "Submitted"; "PendingCancel"].
Definition KNOWN_TERMINAL_ORDER_STATUSES : list string :=
  ["Filled"; "Cancelled"; "ApiCancelled"; "Inactive"].
Definition BROKER_ACCEPTED_ORDER_STATUSES : list string := ["Submitted"; "PreSubmitted"].

(** What a broker order answers to [getattr]: a missing attribute is [None], an
    empty list, or no fill. *)
Record FoundOrder : Type := mkFound {
  fo_order_ids : list Z;
  fo_leg : option string;
  fo_status : option string;
  fo_filled_quantity : float;
}.

(** [status in statuses] *)
Definition status_in (l : list string) (s : option string) : bool :=
  match s with Some s => bool_decide (s ∈ l) | None => false end.
Definition has_fill (o : FoundOrder) : bool := flt fzero (fo_filled_quantity o).

Definition entry_accepted (entries : list FoundOrder) : bool :=
  existsb (λ o, status_in BROKER_ACCEPTED_ORDER_STATUSES (fo_status o)
                || status_in ["Filled"%string] (fo_status o) || has_fill o) entries.
Definition is_entry (o : FoundOrder) : bool := bool_decide (fo_leg o = Some "entry"%string).

(** What the cancel saga and [_reconcile_cancel] read of a [BrokerOrderRow]. *)
Record OrderRow : Type := mkOrderRow {
  or_leg : option string;
  or_conid : Z;
  or_status : string;
  or_deleted : bool;
}.
Definition is_terminal_order (o : OrderRow) : bool :=
  or_deleted o || negb (bool_decide (or_status o ∈ ACTIVE_ORDER_STATUSES)).

Record StrategyCommandReceipt : Type := mkStrategyReceipt {
  s_strategy_name : string;
  s_action : string;
  s_state : string;
  s_control_revision : Z;
  s_state_revision : Z;
  s_error : option string;
  s_observable_state : option string;
  s_observable_payload : option dict;
}.

(** [liquidation_service.CloseResolution] *)
Record CloseResolution : Type := mkResolution {
  cl_root_id : string;
  cl_state : string;
  cl_success : bool;
  cl_outcome : dict;
  cl_error_code : option string;
}.

(** ** Ports *)

(** The readings of the reconciler's own clock, each for one command. *)
Inductive moment_of : Type := at_park | at_schedule_row | at_orphan | at_settle.
(** The appends that get a stamp of the journal. *)
Inductive stamped : Type := proposal_append | strategy_append | command_append.
(** The two places that ask a close root for its resolution. *)
Inductive asking : Type := from_close | from_flattened.

Record ClosePort : Type := mkCloses {
  root_for : string → res (option string);
  close_resolution : asking → string → res (option CloseResolution);
}.

(** What everything outside the journal answers during one call. *)
Record Ports : Type := mkPorts {
  p_clock : moment_of → string → Z;
  p_stamp : stamped → string → stamp;
  (* orders.find_by_order_ref, orders.enumeration_complete *)
  find_by_order_ref : option string → string → res (list FoundOrder);
  enumeration_complete : res bool;
  (* strategy.get_receipt *)
  get_receipt : string → res (option StrategyCommandReceipt);
  (* alerts.raise_alert *)
  alert_hook : string → string → res unit;
  (* orders_view.get_order, when wired *)
  get_order : option (string → res (option OrderRow));
  closes : option ClosePort;
  (* the committed_outcome readers, when wired *)
  registrations : option (string → res (option dict));
  withdrawals : option (string → res (option dict));
  policies : option (string → res (option dict));
  breaker_resets : option (string → res (option dict));
  experiments : option (string → string → res (option dict));
  (* SELECT 1 FROM automated_order_sagas WHERE command_id = ? *)
  saga_row : string → res bool;
  (* a journal read for the evidence of a command that fails *)
  read_fault : string → option exc;
}.

(** ** The reconciler *)
Record OutcomeReconciler (T : Type) : Type := mkReconciler {
  r_journal : DomainJournal T;
  plans : list (string * ReconcilePlan);
  alerts : list (string * string);
  unreadable_evidence : gset string;
  unreadable_sagas : gset string;
  child_collisions : gset string;
  received_at_start : list LedgerRow;
}.
Arguments mkReconciler {T} _ _ _ _ _ _ _.
Arguments r_journal {T} _.
Arguments plans {T} _.
Arguments alerts {T} _.
Arguments unreadable_evidence {T} _.
Arguments unreadable_sagas {T} _.
Arguments child_collisions {T} _.
Arguments received_at_start {T} _.

Section updates.
Context {T : Type}.
Implicit Types (s : OutcomeReconciler T).

Definition set_r_journal (j : DomainJournal T) s : OutcomeReconciler T :=
  mkReconciler j (plans s) (alerts s) (unreadable_evidence s) (unreadable_sagas s) (child_collisions s)
    (received_at_start s).
Definition set_plans (f : list (string * ReconcilePlan) → list (string * ReconcilePlan)) s
    : OutcomeReconciler T :=
  mkReconciler (r_journal s) (f (plans s)) (alerts s) (unreadable_evidence s) (unreadable_sagas s)
    (child_collisions s) (received_at_start s).
Definition add_alert (id detail : string) s : OutcomeReconciler T :=
  mkReconciler (r_journal s) (plans s) (alerts s ++ [(id, detail)]) (unreadable_evidence s)
    (unreadable_sagas s) (child_collisions s) (received_at_start s).
Definition set_unreadable (f : gset string → gset string) s : OutcomeReconciler T :=
  mkReconciler (r_journal s) (plans s) (alerts s) (f (unreadable_evidence s)) (unreadable_sagas s)
    (child_collisions s) (received_at_start s).
Definition set_unreadable_sagas (f : gset string → gset string) s : OutcomeReconciler T :=
  mkReconciler (r_journal s) (plans s) (alerts s) (unreadable_evidence s) (f (unreadable_sagas s))
    (child_collisions s) (received_at_start s).
Definition set_collisions (f : gset string → gset string) s : OutcomeReconciler T :=
  mkReconciler (r_journal s) (plans s) (alerts s) (unreadable_evidence s) (unreadable_sagas s)
    (f (child_collisions s)) (received_at_start s).
Definition set_received (l : list LedgerRow) s : OutcomeReconciler T :=
  mkReconciler (r_journal s) (plans s) (alerts s) (unreadable_evidence s) (unreadable_sagas s)
    (child_collisions s) l.
End updates.

Section reconciler.
Context {T : Type} `{HasTable T control_table, HasTable T proposal_table, HasTable T ledger_table,
  HasTable T audit_table}.
(** [repr] and [int] of a float, and whether a proposal repository is wired. *)
Context (float_repr : float → string) (int_of_float : string → res Z) (has_repo : bool).
Context (ports : Ports).
Notation reconciler := (OutcomeReconciler T).

Definition on_db {A} : M (DomainJournal T) A → M reconciler A := zoom r_journal set_r_journal.
Definition ask {A} (r : res A) : M reconciler A := answer r.
Definition raise_alert (id detail : string) : M reconciler unit :=
  modify (add_alert id detail) ;; ask (alert_hook ports id detail).
Definition drop_plan (id : string) : M reconciler unit := modify (set_plans (assoc_del id)).

(** [f"og-{row.command_id}"] *)
Definition og (row : LedgerRow) : string := ("og-" +:+ l_command_id row)%string.

(** [_command_mutation] *)
Definition row_mutation (row : LedgerRow) (to : command_state) (now : Z) (outcome : option dict)
    (code : option string) : DomainMutation :=
  mkMutation "command.updated" "command" (l_command_id row) op_upsert (l_account_id row)
    "trader_service" (Aware now 0) (Some (l_command_id row))
    (Some [("state", JStr (state_name to)); ("action", JStr (l_action row));
           ("target_type", JStr (l_target_type row)); ("target_id", JStr (l_target_id row));
           ("outcome", jopt JObj outcome); ("error_code", jopt JStr code)]).

(** The two statements every resolution ends with: the guarded update of the
    ledger row and its event. *)
Definition move_row (row : LedgerRow) (from to : command_state) (outcome : option dict)
    (code : option string) (now : Z) : M (tx T) unit :=
  in_producer (transition_in_tx (l_command_id row) from to outcome code now) ;;
  m ← new_mutation (row_mutation row to now outcome code);
  append (p_stamp ports command_append (l_command_id row)) m (λ _, mret tt)
    (Some (command_event_id (l_command_id row) to)) ;;
  mret tt.

(** [read_received_at_start], and [__init__]: nothing is scheduled yet *)
Definition read_received_at_start (fault : option exc) : M (DomainJournal T) (list LedgerRow) :=
  swallow [] (match fault with Some e => raise e | None => received end).
Definition new_reconciler (j : DomainJournal T) (snapshot : list LedgerRow) : reconciler :=
  mkReconciler j [] [] ∅ ∅ ∅ snapshot.

(** *** Scheduling *)
Definition schedule (id : string) (now : datetime) : M reconciler unit :=
  modify (set_plans (λ ps,
    match assoc id ps with
    | Some _ => ps
    | None => assoc_set id (mkPlan id (as_utc now) (as_utc now) 0 false) ps
    end)).

(** *** Crash recovery *)
Definition park_received (row : LedgerRow) : M (DomainJournal T) unit :=
  mutate_batch_work (move_row row RECEIVED OUTCOME_UNKNOWN None (Some RECEIVED_AT_RESTART)
                       (p_clock ports at_park (l_command_id row))).

(** [False] when its transaction failed *)
Definition terminalize_pre_dispatch_orphan (row : LedgerRow) : M reconciler bool :=
  try_except
    (on_db (mutate_batch_work (move_row row (l_state row) REJECTED None (Some "CRASH_ORPHANED"%string)
                                 (p_clock ports at_orphan (l_command_id row)))) ;;
     drop_plan (l_command_id row) ;; mret true)
    (λ _, Some (mret false)).

Definition park_received_row (row : LedgerRow) : M reconciler unit :=
  if bool_decide (l_action row ∈ SAGA_ACTIONS_IDLE_WHILE_RECEIVED)
  then terminalize_pre_dispatch_orphan row ;; mret tt
  else swallow tt (on_db (park_received row)).
Definition park_received_at_start : M reconciler unit :=
  snapshot ← gets received_at_start;
  modify (set_received []) ;;
  for_each snapshot park_received_row.

Definition rescan_on_startup : M reconciler (list string) :=
  park_received_at_start ;;
  rows ← on_db reconcilable;
  for_each rows (λ row, schedule (l_command_id row) (Aware (p_clock ports at_schedule_row (l_command_id row)) 0)) ;;
  orphans ← on_db pre_dispatch_orphans;
  rejected ← map_each orphans (λ row,
    done ← terminalize_pre_dispatch_orphan row; mret (if (done : bool) then [l_command_id row] else []));
  mret (map l_command_id rows ++ concat rejected).

(** *** Resolutions *)
Definition resolve_command_only (row : LedgerRow) (outcome : dict) (now : Z) : M reconciler unit :=
  on_db (mutate_batch_work (move_row row (l_state row) RESOLVED (Some outcome) None now)) ;;
  drop_plan (l_command_id row).

Definition reject_command_only (row : LedgerRow) (code : string) (outcome : dict) (now : Z)
    : M reconciler unit :=
  on_db (mutate_batch_work (move_row row (l_state row) REJECTED (Some outcome) (Some code) now)) ;;
  drop_plan (l_command_id row).

(** [int(value)] *)
Definition int_of_json (v : json) : res Z :=
  match v with
  | JInt n => Ok n
  | JBool b => Ok (if b then 1 else 0)
  | JStr s => match int_of_string s with Some n => Ok n | None => Raise ValueError end
  | JFloat r => int_of_float r
  | JNull | JArr _ | JObj _ => Raise TypeError
  end.

(** [if row.outcome and row.outcome.get("proposal_id") is not None] *)
Definition recorded_proposal_id (row : LedgerRow) : option json :=
  match assoc "proposal_id" (default [] (l_outcome row)) with
  | Some JNull | None => None
  | Some v => Some v
  end.
Definition associated_proposal_id (row : LedgerRow) : res (option Z) :=
  match recorded_proposal_id row with
  | Some v => Some <$> int_of_json v
  | None =>
      Ok (if String.eqb (l_target_type row) "proposal" && negb (String.eqb (l_target_id row) "")
          then int_of_string (l_target_id row) else None)
  end.

(** [append(repo.mutation_for(prow, ...), _assert_proposal_revision(...), ...)] *)
Definition append_marked (row : LedgerRow) (id : Z) (prow : ProposalRecord) : M (tx T) unit :=
  m ← new_mutation (mutation_for float_repr prow (Some (l_command_id row)));
  append (p_stamp ports proposal_append (l_command_id row)) m
    (λ rev, require (rev =? revision prow) ConcurrentProposalChange)
    (Some (proposal_event_id id (revision prow))) ;;
  mret tt.

(** [EXECUTED] with the order ids, or [FAILED]. *)
Inductive proposal_mark : Type := mark_executed (order_ids : list Z) | mark_failed.

Definition mark_proposal (row : LedgerRow) (proposal_id : option Z) (mark : proposal_mark) (now : Z)
    : M (tx T) unit :=
  match proposal_id with
  | None => mret tt
  | Some id =>
      if negb has_repo then mret tt
      else
      record ← gets (λ t, from_row <$> proposals_of (db_producer (tx_db t)) !! id);
      match record with
      | None => mret tt
      | Some record =>
          if negb (bool_decide (status record = APPROVED)) then mret tt
          else
          prow ← in_producer (match mark with
            | mark_executed ids => mark_order_submitted_in_tx id ids (revision record) now
            | mark_failed => mark_failed_in_tx id "reconciled: order never submitted" (revision record) now
            end);
          match (prow : option ProposalRecord) with
          | None => mret tt
          | Some prow => append_marked row id prow
          end
      end
  end.

Definition collect_order_ids (found : list FoundOrder) : list Z := concat (map fo_order_ids found).

(** [_resolve_order] and [_resolve_never_submitted]: the proposal's mark and the
    command's end in one transaction. *)
Definition resolve_marked (row : LedgerRow) (mark : proposal_mark) (outcome : dict) (now : Z)
    : M reconciler unit :=
  proposal_id ← ask (associated_proposal_id row);
  on_db (mutate_batch_work (
    mark_proposal row proposal_id mark now ;;
    move_row row (l_state row) RESOLVED (Some outcome) None now)) ;;
  drop_plan (l_command_id row).

Definition found_outcome (row : LedgerRow) (found : list FoundOrder) : dict :=
  [("order_ids", JArr (map JInt (collect_order_ids found))); ("order_group_id", JStr (og row))].
Definition resolve_order (row : LedgerRow) (found : list FoundOrder) (now : Z) : M reconciler unit :=
  resolve_marked row (mark_executed (collect_order_ids found)) (found_outcome row found) now.

Definition never_submitted_outcome : dict := [("submitted", JBool false)].
Definition resolve_never_submitted (row : LedgerRow) (now : Z) : M reconciler unit :=
  resolve_marked row mark_failed never_submitted_outcome now.

Definition strategy_payload (r : StrategyCommandReceipt) : dict :=
  [("strategy_name", JStr (s_strategy_name r)); ("action", JStr (s_action r));
   ("strategy_state", JStr (match s_observable_state r with
                            | Some s => if String.eqb s "" then s_state r else s
                            | None => s_state r end));
   ("receipt_state", JStr (s_state r)); ("control_revision", JInt (s_control_revision r));
   ("state_revision", JInt (s_state_revision r)); ("error", jopt JStr (s_error r));
   ("last_error", jopt JStr (s_error r))].

Definition strategy_mutation (row : LedgerRow) (r : StrategyCommandReceipt) (now : Z) : DomainMutation :=
  mkMutation "strategy.updated" "strategy" (s_strategy_name r) op_upsert (l_account_id row)
    "trader_service" (Aware now 0) (Some (l_command_id row)) (Some (strategy_payload r)).

Definition strategy_event_id (name id : string) : string :=
  ("strategy:" +:+ name +:+ ":reconcile:" +:+ id)%string.

Definition resolve_strategy (row : LedgerRow) (r : StrategyCommandReceipt) (now : Z) : M reconciler unit :=
  on_db (mutate_batch_work (
    m ← new_mutation (strategy_mutation row r now);
    append (p_stamp ports strategy_append (l_command_id row)) m (λ _, mret tt)
      (Some (strategy_event_id (s_strategy_name r) (l_command_id row))) ;;
    move_row row (l_state row) RESOLVED (Some (strategy_payload r)) None now)) ;;
  drop_plan (l_command_id row).

(** *** Evidence, action by action *)
Definition evidence_unreadable (row : LedgerRow) : M reconciler unit :=
  modify (set_unreadable (λ u, {[l_command_id row]} ∪ u)).

(** A command whose evidence read failed stays where it is. *)
Definition leave_unreadable (row : LedgerRow) : M reconciler bool := evidence_unreadable row ;; mret false.

(** A read of the journal's own tables, for the evidence of a command. *)
Definition read_evidence {A} (row : LedgerRow) (read : M (DomainJournal T) A) : M reconciler A :=
  match read_fault ports (l_command_id row) with
  | Some e => raise e
  | None => on_db read
  end.

Definition reconcile_approve (row : LedgerRow) (now : Z) : M reconciler bool :=
  found ← ask (find_by_order_ref ports (l_account_id row) (encode_order_ref (og row)));
  match found with
  | _ :: _ => resolve_order row found now ;; mret true
  | [] =>
      complete ← ask (enumeration_complete ports);
      if (complete : bool) then resolve_never_submitted row now ;; mret true else mret false
  end.

Definition settle_from_own_commit (row : LedgerRow) (now : Z)
    (committed_outcome : option (M reconciler (option dict)))
    (not_committed_code : string) (not_committed_outcome : dict) : M reconciler bool :=
  match committed_outcome with
  | None => mret false
  | Some read =>
      if negb (bool_decide (l_state row = OUTCOME_UNKNOWN)) then mret false
      else
      outcome ← try_except (o ← read; mret (Some o)) (λ _, Some (mret None));
      match (outcome : option (option dict)) with
      | None => leave_unreadable row
      | Some (Some outcome) => resolve_command_only row outcome now ;; mret true
      | Some None =>
          reject_command_only row not_committed_code
            (assoc_set "reconciled" (JStr "never_committed") not_committed_outcome) now ;;
          mret true
      end
  end.

Definition reader (port : option (string → res (option dict))) (row : LedgerRow)
    : option (M reconciler (option dict)) := (λ read, ask (read (l_command_id row))) <$> port.

Definition reconcile_registration (row : LedgerRow) (now : Z) : M reconciler bool :=
  settle_from_own_commit row now (reader (registrations ports) row) REGISTRATION_NOT_COMMITTED
    [("created", JBool false)].
Definition reconcile_withdrawal (row : LedgerRow) (now : Z) : M reconciler bool :=
  settle_from_own_commit row now (reader (withdrawals ports) row) WITHDRAWAL_NOT_COMMITTED
    [("withdrawn", JBool false)].
Definition reconcile_policy_publish (row : LedgerRow) (now : Z) : M reconciler bool :=
  settle_from_own_commit row now (reader (policies ports) row) POLICY_NOT_COMMITTED
    [("published", JBool false)].
Definition reconcile_breaker_reset (row : LedgerRow) (now : Z) : M reconciler bool :=
  settle_from_own_commit row now (reader (breaker_resets ports) row) BREAKER_RESET_NOT_COMMITTED
    [("reset", JBool false)].
Definition reconcile_experiment (row : LedgerRow) (now : Z) : M reconciler bool :=
  settle_from_own_commit row now
    ((λ read, ask (read (l_action row) (l_command_id row))) <$> experiments ports)
    EXPERIMENT_COMMAND_NOT_COMMITTED [("experiment_changed", JBool false)].

(** [settle_receipt]: the target as the operator left it *)
Definition settle_receipt (target : LedgerRow) : dict :=
  let outcome := default [] (l_outcome target) in
  [("command_id", JStr (l_command_id target)); ("action", JStr (l_action target));
   ("state", JStr (state_name (l_state target))); ("error_code", jopt JStr (l_error_code target));
   ("settled_by", default JNull (assoc "settled_by" outcome));
   ("reason", default JNull (assoc "reason" outcome))].

(** [outcome.get("settle_command_id") != settle.command_id] *)
Definition names_settle (id : string) (target : LedgerRow) : bool :=
  match assoc "settle_command_id" (default [] (l_outcome target)) with
  | Some (JStr s) => String.eqb s id
  | _ => false
  end.
Definition settled_by (settle : LedgerRow) : M (DomainJournal T) (option dict) :=
  target ← get_row (l_target_id settle);
  mret (match target with
        | Some t => if names_settle (l_command_id settle) t then Some (settle_receipt t) else None
        | None => None
        end).
Definition reconcile_settle (row : LedgerRow) (now : Z) : M reconciler bool :=
  settle_from_own_commit row now (Some (read_evidence row (settled_by row))) SETTLE_NOT_COMMITTED
    [("settled", JBool false)].

(** [settle_by_operator] *)
Definition settle_by_operator (target_id : string) (resolve : bool) (reason principal settle_id : string)
    (account : option string) : M reconciler dict :=
  target ← on_db (get_row target_id);
  match target with
  | None => raise (OperatorSettleRefused "SETTLE_UNKNOWN_COMMAND")
  | Some target =>
      require (bool_decide (l_account_id target = account)) (OperatorSettleRefused "SETTLE_UNKNOWN_COMMAND") ;;
      require (bool_decide (l_state target = OUTCOME_UNKNOWN)) (OperatorSettleRefused "SETTLE_NOT_UNKNOWN") ;;
      require (bool_decide (l_action target ∈ OPERATOR_SETTLEABLE_ACTIONS))
        (OperatorSettleRefused "SETTLE_ACTION_FORBIDDEN") ;;
      let outcome := [("settled_by", JStr principal); ("reason", JStr reason);
                      ("settle_command_id", JStr settle_id)] in
      let now := p_clock ports at_settle target_id in
      try_except
        (if resolve then resolve_command_only target outcome now
         else reject_command_only target OPERATOR_SETTLED outcome now)
        (λ e, match e with
              | IllegalCommandTransition _ _ _ => Some (raise (OperatorSettleRefused "SETTLE_NOT_UNKNOWN"))
              | _ => None end) ;;
      modify (set_unreadable (λ u, u ∖ {[target_id]})) ;;
      settled ← on_db (get_row target_id);
      match settled with
      | Some t => mret (settle_receipt t)
      | None => raise (OtherException "AttributeError")
      end
  end.

(** *** Closes *)
Definition close_alert (row : LedgerRow) (r : CloseResolution) : string :=
  (l_action row +:+ " ended " +:+ cl_state r +:+ " on close root " +:+ cl_root_id r +:+ " ("
   +:+ default "None"%string (cl_error_code r) +:+ "); operator check of the position required")%string.

(** [resolution.error_code or "CLOSE_FAILED"] *)
Definition close_code (r : CloseResolution) : string :=
  match cl_error_code r with
  | Some c => if String.eqb c "" then "CLOSE_FAILED" else c
  | None => "CLOSE_FAILED"
  end.

Definition reconcile_close (row : LedgerRow) (now : Z) : M reconciler bool :=
  match closes ports with
  | None => mret false
  | Some c =>
      resolution ← ask (close_resolution c from_close (l_command_id row));
      match resolution with
      | None => mret false
      | Some r =>
          if cl_success r then resolve_command_only row (cl_outcome r) now ;; mret true
          else
            reject_command_only row (close_code r) (cl_outcome r) now ;;
            raise_alert (l_command_id row) (close_alert row r) ;;
            mret true
      end
  end.

(** [row.state == "SUBMITTED" or outcome.get("order_group_id") == ...]; [None]
    when the saga table cannot be read. *)
Definition recorded_group (row : LedgerRow) : bool :=
  match assoc "order_group_id" (default [] (l_outcome row)) with
  | Some (JStr s) => String.eqb s (og row)
  | _ => false
  end.
Definition is_bracket_entry (row : LedgerRow) : M reconciler (option bool) :=
  if bool_decide (l_state row = SUBMITTED) || recorded_group row then mret (Some true)
  else match saga_row ports (l_command_id row) with
  | Ok found => mret (Some found)
  | Raise CatalogException => mret (Some false)
  | Raise _ => modify (set_unreadable_sagas (λ u, {[l_command_id row]} ∪ u)) ;; mret None
  end.

Definition status_json (o : FoundOrder) : json := jopt JStr (fo_status o).

Definition flattened_outcome (row : LedgerRow) (r : CloseResolution) (found : list FoundOrder) : dict :=
  assoc_merge (cl_outcome r)
    [("order_group_id", JStr (og row)); ("broker_statuses", JArr (map status_json found));
     ("broker_acknowledged", JBool false)].

Definition reconcile_flattened_entry (row : LedgerRow) (now : Z) : M reconciler bool :=
  match closes ports with
  | None => raise (OtherException "AttributeError")
  | Some c =>
      resolution ← ask (close_resolution c from_flattened (l_command_id row));
      match resolution with
      | None => reconcile_close row now
      | Some r =>
          if negb (cl_success r) then reconcile_close row now
          else
          found ← ask (find_by_order_ref ports (l_account_id row) (encode_order_ref (og row)));
          if entry_accepted (filter (λ o, is_entry o = true) found)
          then resolve_command_only row (cl_outcome r) now ;; mret true
          else if negb (forallb (λ o, status_in KNOWN_TERMINAL_ORDER_STATUSES (fo_status o)) found)
          then mret false
          else
          complete ← ask (enumeration_complete ports);
          if negb (complete : bool) then mret false
          else reject_command_only row ENTRY_UNPROVEN_FLATTENED (flattened_outcome row r found) now ;; mret true
      end
  end.

Definition entry_outcome (row : LedgerRow) (found : list FoundOrder) (acknowledged : bool) : dict :=
  assoc_set "broker_acknowledged" (JBool acknowledged)
    (assoc_merge (default [] (l_outcome row))
       [("order_group_id", JStr (og row)); ("broker_statuses", JArr (map status_json found))]).

Definition active_or_filled (found : list FoundOrder) : bool :=
  existsb (λ o, status_in ACTIVE_ORDER_STATUSES (fo_status o) || status_in ["Filled"%string] (fo_status o))
    found || existsb has_fill found.

Definition reconcile_automated_entry (row : LedgerRow) (now : Z) : M reconciler bool :=
  found ← ask (find_by_order_ref ports (l_account_id row) (encode_order_ref (og row)));
  match filter (λ o, is_entry o = true) found with
  | [] => mret false
  | entries =>
      if negb (forallb (λ o, status_in (ACTIVE_ORDER_STATUSES ++ KNOWN_TERMINAL_ORDER_STATUSES) (fo_status o))
                 found)
      then mret false
      else if entry_accepted entries
      then resolve_command_only row (entry_outcome row found true) now ;; mret true
      else if active_or_filled found then mret false
      else
        complete ← ask (enumeration_complete ports);
        if (complete : bool)
        then reject_command_only row "BROKER_REJECTED" (entry_outcome row found false) now ;; mret true
        else mret false
  end.

Definition has_close_root (id : string) : M reconciler bool :=
  match closes ports with
  | None => mret false
  | Some c => root ← ask (root_for c id); mret (bool_decide (is_Some root))
  end.

Definition reconcile_automated_intent (row : LedgerRow) (now : Z) : M reconciler bool :=
  rooted ← has_close_root (l_command_id row);
  if negb rooted then reconcile_automated_entry row now
  else
    bracket ← is_bracket_entry row;
    match bracket with
    | None => mret false
    | Some true => reconcile_flattened_entry row now
    | Some false => reconcile_close row now
    end.

Definition reconcile_liquidation_left_received (row : LedgerRow) (now : Z) : M reconciler bool :=
  match closes ports with
  | None => mret false
  | Some c =>
      match root_for c (l_command_id row) with
      | Raise _ => leave_unreadable row
      | Ok (Some _) => reconcile_close row now
      | Ok None =>
          reject_command_only row LIQUIDATION_NOT_STARTED [("reconciled", JStr "never_started")] now ;;
          mret true
      end
  end.

(** *** The journal's own rows *)

(** [_created_proposal_id]: the first proposal event a command caused. *)
Definition created_event (id : string) (j : DomainJournal T) : option journal_row :=
  head (order_by source_cursor (filter (λ r, entity_type r = "proposal"%string ∧
    correlation_id r = Some id) (journal (jcore j)))).
Definition created_proposal_id (id : string) : M (DomainJournal T) (option Z) :=
  found ← gets (created_event id);
  match found with
  | None => mret None
  | Some r => match int_of_string (entity_id r) with Some n => mret (Some n) | None => raise ValueError end
  end.

Definition created_outcome (id : Z) : dict := [("proposal_id", JInt id); ("created", JBool true)].
Definition rolled_back_codes : list string :=
  ["INTERNAL_ERROR"; "PROPOSAL_IDENTITY_CONFLICT"; RECEIVED_AT_RESTART].

Definition reconcile_create (row : LedgerRow) (now : Z) : M reconciler bool :=
  created ← try_except (o ← read_evidence row (created_proposal_id (l_command_id row)); mret (Some o))
    (λ _, Some (mret None));
  match (created : option (option Z)) with
  | None => leave_unreadable row
  | Some (Some id) => resolve_command_only row (created_outcome id) now ;; mret true
  | Some None =>
      match l_error_code row with
      | Some code =>
          if bool_decide (code ∈ rolled_back_codes)
          then reject_command_only row code
                 [("created", JBool false); ("reconciled", JStr "never_committed")] now ;; mret true
          else mret false
      | None => mret false
      end
  end.

Definition rejected_outcome (id : Z) : dict := [("proposal_id", JInt id); ("status", JStr "REJECTED")].
Definition reconcile_reject (row : LedgerRow) (now : Z) : M reconciler bool :=
  if negb has_repo || String.eqb (l_target_id row) "" then mret false
  else match int_of_string (l_target_id row) with
  | None => mret false
  | Some id =>
      record ← on_db (get_proposal id);
      match record with
      | Some r =>
          if bool_decide (status r = Proposal.REJECTED) then resolve_command_only row (rejected_outcome id) now ;; mret true
          else mret false
      | None => mret false
      end
  end.

Definition cancel_outcome (row : LedgerRow) (o : OrderRow) : dict :=
  [("order_entity_id", JStr (l_target_id row)); ("authoritative_status", JStr (or_status o))].
Definition reconcile_cancel (row : LedgerRow) (now : Z) : M reconciler bool :=
  match get_order ports with
  | None => mret false
  | Some view =>
      order ← ask (view (l_target_id row));
      match order with
      | None => mret false
      | Some o =>
          if is_terminal_order o then resolve_command_only row (cancel_outcome row o) now ;; mret true
          else mret false
      end
  end.

(** [_is_cancel_child_of] *)
Definition is_cancel_child_of (child : LedgerRow) (link : option string) (root : LedgerRow)
    (order_id : string) : bool :=
  bool_decide (link = Some (l_command_id root)) && String.eqb (l_action child) "cancel_order"
  && String.eqb (l_target_type child) "order" && String.eqb (l_target_id child) order_id
  && bool_decide (l_account_id child = l_account_id root).

(** [(body or {}).get("order_entity_ids") or []]; the request model makes it a
    list of strings. *)
Fixpoint strings_of (l : list json) : res (list string) :=
  match l with
  | [] => Ok []
  | JStr s :: l' => cons s <$> strings_of l'
  | _ :: _ => Raise TypeError
  end.
Definition requested_orders (body : option dict) : res (list string) :=
  match assoc "order_entity_ids" (default [] body) with
  | None => Ok []
  | Some (JArr l) => strings_of l
  | Some v => if truthy v then Raise TypeError else Ok []
  end.

(** One order of a [cancel_orders] request, its child row and the child's link. *)
Record fan_child : Type := mkFan {
  fc_order : string;
  fc_id : string;
  fc_child : option LedgerRow;
  fc_link : option string;
}.
Definition child_id (row : LedgerRow) (i : nat) : string :=
  (l_command_id row +:+ "-" +:+ pretty (Z.of_nat i))%string.

(** The ledger reads of [_reconcile_cancel_orders]. *)
Definition read_fan_out (row : LedgerRow) : M (DomainJournal T) (list fan_child) :=
  body ← audited_body (l_command_id row);
  order_ids ← answer (fromkeys [] <$> requested_orders body);
  map_each (imap pair order_ids) (λ io,
    child ← get_row (child_id row io.1);
    link ← match child with
           | None => mret None
           | Some c => audited_correlation_id (l_command_id c)
           end;
    mret (mkFan io.2 (child_id row io.1) child link)).

Definition is_foreign (row : LedgerRow) (f : fan_child) : bool :=
  match fc_child f with
  | Some c => negb (is_cancel_child_of c (fc_link f) row (fc_order f))
  | None => false
  end.
Definition child_pending (f : fan_child) : bool :=
  match fc_child f with Some c => negb (is_terminal (l_state c)) | None => true end.
Definition child_json (f : fan_child) : string * json :=
  (fc_order f,
   match fc_child f with
   | Some c => JObj [("command_id", JStr (l_command_id c)); ("state", JStr (state_name (l_state c)));
                     ("error_code", jopt JStr (l_error_code c))]
   | None => JNull
   end).
Definition child_failed (f : fan_child) : bool :=
  match fc_child f with Some c => negb (bool_decide (l_state c = RESOLVED)) | None => true end.
Definition fan_out_outcome (children : list fan_child) : dict :=
  [("child_command_ids", JArr (map (λ f, JStr (fc_id f)) children));
   ("children", JObj (map child_json children));
   ("partial_failure", JBool (existsb child_failed children));
   ("reconciled", JStr "children_settled")].

Definition reconcile_cancel_orders (row : LedgerRow) (now : Z) : M reconciler bool :=
  read ← try_except (l ← read_evidence row (read_fan_out row); mret (Some l)) (λ _, Some (mret None));
  match (read : option (list fan_child)) with
  | None => leave_unreadable row
  | Some [] => mret false
  | Some children =>
      if existsb (is_foreign row) children
      then modify (set_collisions (λ u, {[l_command_id row]} ∪ u)) ;; mret false
      else if forallb (λ f, bool_decide (fc_child f = None)) children
      then reject_command_only row CANCEL_FANOUT_NOT_STARTED
             [("child_command_ids", JArr []); ("reconciled", JStr "fan_out_not_started")] now ;; mret true
      else if existsb child_pending children then mret false
      else resolve_command_only row (fan_out_outcome children) now ;; mret true
  end.

Definition pause_state_for (account : string) (row : LedgerRow) : M reconciler (option TradingControlState) :=
  swallow None (read_evidence row (gets (λ j, controls j !! account))).
Definition pause_outcome (row : LedgerRow) (s : TradingControlState) : dict :=
  [("account_id", JStr (l_target_id row)); ("new_exposure_paused", JBool (new_exposure_paused s))].
Definition reconcile_pause (row : LedgerRow) (now : Z) : M reconciler bool :=
  state ← pause_state_for (l_target_id row) row;
  match state with
  | None => mret false
  | Some s =>
      if String.eqb (updated_by_command_id s) (l_command_id row)
      then resolve_command_only row (pause_outcome row s) now ;; mret true
      else mret false
  end.

Definition reconcile_strategy (row : LedgerRow) (now : Z) : M reconciler bool :=
  receipt ← ask (get_receipt ports (l_command_id row));
  match receipt with
  | Some r =>
      if bool_decide (s_state r ∈ ["COMMITTED"%string; "ROLLED_BACK"%string])
      then resolve_strategy row r now ;; mret true
      else mret false
  | None => mret false
  end.

(** *** One attempt *)
Definition try_resolve (row : LedgerRow) (now : Z) : M reconciler bool :=
  let action := l_action row in
  if String.eqb action "approve_proposal" then reconcile_approve row now
  else if String.eqb action "create_proposal" then reconcile_create row now
  else if String.eqb action "reject_proposal" then reconcile_reject row now
  else if String.eqb action "cancel_order" then reconcile_cancel row now
  else if String.eqb action "cancel_orders" then reconcile_cancel_orders row now
  else if bool_decide (action ∈ ["pause_trading"%string; "resume_trading"%string]) then reconcile_pause row now
  else if bool_decide (action ∈ ["enable_strategy"; "disable_strategy"; "update_strategy_params"]%string)
  then reconcile_strategy row now
  else if String.eqb action "execute_automated_intent" then reconcile_automated_intent row now
  else if String.eqb action AI_PAPER_ENTRY_ACTION then reconcile_automated_intent row now
  else if String.eqb action "liquidate_account" && bool_decide (l_error_code row = Some RECEIVED_AT_RESTART)
  then reconcile_liquidation_left_received row now
  else if bool_decide (action ∈ CLOSE_RESOLVED_ACTIONS) then reconcile_close row now
  else if String.eqb action AI_DEPLOYMENT_REGISTER_ACTION then reconcile_registration row now
  else if String.eqb action AI_DEPLOYMENT_WITHDRAW_ACTION then reconcile_withdrawal row now
  else if String.eqb action AI_RISK_POLICY_PUBLISH_ACTION then reconcile_policy_publish row now
  else if bool_decide (action ∈ EXPERIMENT_COMMAND_ACTIONS) then reconcile_experiment row now
  else if String.eqb action SETTLE_ACTION then reconcile_settle row now
  else if String.eqb action BREAKER_RESET_ACTION then reconcile_breaker_reset row now
  else mret false.

Definition in_flight (s : command_state) : bool :=
  match s with SUBMITTING | OUTCOME_UNKNOWN | SUBMITTED => true | _ => false end.

(** [self._plans.get(id)], or a new plan starting now *)
Definition plan_of (id : string) (now : Z) (ps : list (string * ReconcilePlan)) : ReconcilePlan :=
  default (mkPlan id now now 0 false) (assoc id ps).
Definition set_alerted (p : ReconcilePlan) : ReconcilePlan :=
  mkPlan (pl_command_id p) (started p) (next_due p) (attempt p) true.
(** [(now - plan.started).total_seconds() >= CRITICAL_AFTER_SECONDS], exactly *)
Definition past_critical (p : ReconcilePlan) (now : Z) : bool := CRITICAL_AFTER <=? now - started p.
Definition late_alert (row : LedgerRow) : string :=
  (l_action row +:+ " unresolved after 15 minutes -- operator reconciliation required")%string.

Definition escalate (row : LedgerRow) (id : string) (now : Z) : M reconciler ReconcileResult :=
  ps ← gets plans;
  let plan := plan_of id now ps in
  modify (set_plans (assoc_set id plan)) ;;
  if past_critical plan now && negb (alerted plan) then
    modify (set_plans (assoc_set id (set_alerted plan))) ;;
    raise_alert id (late_alert row) ;;
    mret (mkResult id false true)
  else mret (mkResult id false (alerted plan)).

Definition reconcile_once (id : string) (now : datetime) : M reconciler ReconcileResult :=
  row ← on_db (get_row id);
  match row with
  | None => drop_plan id ;; mret (mkResult id true false)
  | Some row =>
      if negb (in_flight (l_state row)) then drop_plan id ;; mret (mkResult id true false)
      else
        done ← try_resolve row (as_utc now);
        if (done : bool) then mret (mkResult id true false) else escalate row id (as_utc now)
  end.

(** *** The schedule's walk *)
Definition next_attempt (p : ReconcilePlan) (now : Z) : ReconcilePlan :=
  let n := S (attempt p) in
  mkPlan (pl_command_id p) (started p)
    (match RECONCILE_OFFSETS !! n with
     | Some offset => started p + offset
     | None => now + seconds 30
     end) n (alerted p).

Definition run_one (now : Z) (id : string) : M reconciler (list ReconcileResult) :=
  plan ← gets (λ s, assoc id (plans s));
  match plan with
  | None => mret []
  | Some plan =>
      if now <? next_due plan then mret []
      else
        result ← reconcile_once id (Aware now 0);
        plan ← gets (λ s, assoc id (plans s));
        match plan with
        | None => mret [result]
        | Some plan => modify (set_plans (assoc_set id (next_attempt plan now))) ;; mret [result]
        end
  end.

Definition run_due (now : datetime) : M reconciler (list ReconcileResult) :=
  ids ← gets (λ s, map fst (plans s));
  results ← map_each ids (run_one (as_utc now));
  mret (concat results).
End reconciler.

(** ** What counts as evidence

    The abstract specification of an attempt: one rule per way a command can
    end.  No rule mentions the time or the number of attempts. *)
Inductive verdict : Type :=
  | resolve_only (outcome : dict)
  | reject_only (code : string) (outcome : dict)
  | reject_close (r : CloseResolution)
  | resolve_proposal (mark : proposal_mark) (outcome : dict)
  | resolve_receipt (r : StrategyCommandReceipt).

Section evidence.
Context {T : Type} `{HasTable T control_table, HasTable T proposal_table, HasTable T ledger_table,
  HasTable T audit_table}.
Context (has_repo : bool) (ports : Ports).
Implicit Types (j : DomainJournal T) (row : LedgerRow).

(** The rows a command's own transaction would have written, and how a command
    whose transaction wrote none is rejected. *)
Definition own_evidence row j : option (res (option dict) * string * dict) :=
  let id := l_command_id row in
  let read port code absent :=
    (λ f : string → res (option dict), (f id, code, [(absent, JBool false)])) <$> port in
  if String.eqb (l_action row) AI_DEPLOYMENT_REGISTER_ACTION
  then read (registrations ports) REGISTRATION_NOT_COMMITTED "created"%string
  else if String.eqb (l_action row) AI_DEPLOYMENT_WITHDRAW_ACTION
  then read (withdrawals ports) WITHDRAWAL_NOT_COMMITTED "withdrawn"%string
  else if String.eqb (l_action row) AI_RISK_POLICY_PUBLISH_ACTION
  then read (policies ports) POLICY_NOT_COMMITTED "published"%string
  else if bool_decide (l_action row ∈ EXPERIMENT_COMMAND_ACTIONS)
  then read ((λ f, f (l_action row)) <$> experiments ports) EXPERIMENT_COMMAND_NOT_COMMITTED
         "experiment_changed"%string
  else if String.eqb (l_action row) SETTLE_ACTION
  then Some (match read_fault ports id with Some e => Raise e | None => outcome (settled_by row) j end,
             SETTLE_NOT_COMMITTED, [("settled"%string, JBool false)])
  else if String.eqb (l_action row) BREAKER_RESET_ACTION
  then read (breaker_resets ports) BREAKER_RESET_NOT_COMMITTED "reset"%string
  else None.

Definition automated (row : LedgerRow) : Prop :=
  l_action row = "execute_automated_intent"%string ∨ l_action row = AI_PAPER_ENTRY_ACTION.

(** Whether the command sent a bracket of its own; [None] when unknown. *)
Definition bracket_of row : option bool :=
  if bool_decide (l_state row = SUBMITTED) || recorded_group row then Some true
  else match saga_row ports (l_command_id row) with
       | Ok found => Some found
       | Raise CatalogException => Some false
       | Raise _ => None
       end.

Definition closes_at (a : asking) row (r : CloseResolution) : Prop :=
  ∃ c, closes ports = Some c ∧ close_resolution c a (l_command_id row) = Ok (Some r).
Definition rooted row : Prop :=
  ∃ c root, closes ports = Some c ∧ root_for c (l_command_id row) = Ok (Some root).
Definition unrooted row : Prop :=
  match closes ports with Some c => root_for c (l_command_id row) = Ok None | None => True end.
(** A close that asks its root directly: any liquidation with a root or that
    was not left RECEIVED, and an automated command that sent no bracket. *)
Definition asks_root row : Prop :=
  (l_action row = "liquidate_account"%string ∧ (l_error_code row = Some RECEIVED_AT_RESTART → rooted row))
  ∨ (automated row ∧ rooted row ∧ bracket_of row = Some false).
(** A bracket entry asks it too while its root has not met its goal. *)
Definition asks_root_again row : Prop :=
  automated row ∧ rooted row ∧ bracket_of row = Some true ∧
  ∀ r, closes_at from_flattened row r → cl_success r = false.
Definition group_orders row (found : list FoundOrder) : Prop :=
  find_by_order_ref ports (l_account_id row) (encode_order_ref (og row)) = Ok found.
Definition entries (found : list FoundOrder) : list FoundOrder := filter (λ o, is_entry o = true) found.
Definition all_in (l : list string) (found : list FoundOrder) : Prop :=
  forallb (λ o, status_in l (fo_status o)) found = true.

Inductive evidence row j : verdict → Prop :=
  (* an approval: its orders, or a complete enumeration without them *)
  | ev_orders_found found :
      l_action row = "approve_proposal"%string → group_orders row found → found ≠ [] →
      evidence row j (resolve_proposal (mark_executed (collect_order_ids found)) (found_outcome row found))
  | ev_never_submitted :
      l_action row = "approve_proposal"%string → group_orders row [] →
      enumeration_complete ports = Ok true →
      evidence row j (resolve_proposal mark_failed never_submitted_outcome)
  (* the row the command's own transaction wrote, or its absence *)
  | ev_committed o code absent :
      own_evidence row j = Some (Ok (Some o), code, absent) → l_state row = OUTCOME_UNKNOWN →
      evidence row j (resolve_only o)
  | ev_never_committed code absent :
      own_evidence row j = Some (Ok None, code, absent) → l_state row = OUTCOME_UNKNOWN →
      evidence row j (reject_only code (assoc_set "reconciled" (JStr "never_committed") absent))
  (* a close root's decision *)
  | ev_close_met r :
      asks_root row → closes_at from_close row r → cl_success r = true →
      evidence row j (resolve_only (cl_outcome r))
  (* a bracket whose root was still open when first asked, and done when asked
     again: the second answer decides, without a look at the entry order *)
  | ev_close_met_late r :
      asks_root_again row → closes_at from_close row r → cl_success r = true →
      evidence row j (resolve_only (cl_outcome r))
  | ev_close_failed r :
      asks_root row ∨ asks_root_again row → closes_at from_close row r → cl_success r = false → evidence row j (reject_close r)
  | ev_liquidation_not_started c :
      l_action row = "liquidate_account"%string → l_error_code row = Some RECEIVED_AT_RESTART →
      closes ports = Some c → root_for c (l_command_id row) = Ok None →
      evidence row j (reject_only LIQUIDATION_NOT_STARTED [("reconciled"%string, JStr "never_started")])
  (* a bracket that ended in a flatten: traded, or never proven and dead *)
  | ev_flattened_traded r found :
      automated row → rooted row → bracket_of row = Some true → closes_at from_flattened row r →
      cl_success r = true → group_orders row found → entry_accepted (entries found) = true →
      evidence row j (resolve_only (cl_outcome r))
  | ev_flattened_unproven r found :
      automated row → rooted row → bracket_of row = Some true → closes_at from_flattened row r →
      cl_success r = true → group_orders row found → entry_accepted (entries found) = false →
      all_in KNOWN_TERMINAL_ORDER_STATUSES found → enumeration_complete ports = Ok true →
      evidence row j (reject_only ENTRY_UNPROVEN_FLATTENED (flattened_outcome row r found))
  (* a bracket entry without a close root *)
  | ev_entry_accepted found :
      automated row → unrooted row → group_orders row found → entries found ≠ [] →
      all_in (ACTIVE_ORDER_STATUSES ++ KNOWN_TERMINAL_ORDER_STATUSES) found →
      entry_accepted (entries found) = true →
      evidence row j (resolve_only (entry_outcome row found true))
  | ev_entry_rejected found :
      automated row → unrooted row → group_orders row found → entries found ≠ [] →
      all_in (ACTIVE_ORDER_STATUSES ++ KNOWN_TERMINAL_ORDER_STATUSES) found →
      entry_accepted (entries found) = false → active_or_filled found = false →
      enumeration_complete ports = Ok true →
      evidence row j (reject_only "BROKER_REJECTED" (entry_outcome row found false))
  (* the proposal a creation committed, or its rollback *)
  | ev_created ev id :
      l_action row = "create_proposal"%string → read_fault ports (l_command_id row) = None →
      created_event (l_command_id row) j = Some ev → int_of_string (entity_id ev) = Some id →
      evidence row j (resolve_only (created_outcome id))
  | ev_create_rolled_back code :
      l_action row = "create_proposal"%string → read_fault ports (l_command_id row) = None →
      created_event (l_command_id row) j = None → l_error_code row = Some code →
      code ∈ rolled_back_codes →
      evidence row j (reject_only code
        [("created"%string, JBool false); ("reconciled"%string, JStr "never_committed")])
  | ev_rejected id r :
      l_action row = "reject_proposal"%string → has_repo = true → l_target_id row ≠ ""%string →
      int_of_string (l_target_id row) = Some id → proposals j !! id = Some r →
      status r = Proposal.REJECTED → evidence row j (resolve_only (rejected_outcome id))
  (* the order a cancel was for has ended *)
  | ev_cancelled view o :
      l_action row = "cancel_order"%string → get_order ports = Some view →
      view (l_target_id row) = Ok (Some o) → is_terminal_order o = true →
      evidence row j (resolve_only (cancel_outcome row o))
  (* every cancel of a fan-out has ended, or none was ever started *)
  | ev_fan_out children :
      l_action row = "cancel_orders"%string → read_fault ports (l_command_id row) = None →
      outcome (read_fan_out row) j = Ok children → children ≠ [] →
      (∀ f, f ∈ children → is_foreign row f = false ∧ child_pending f = false) →
      evidence row j (resolve_only (fan_out_outcome children))
  | ev_fan_out_not_started children :
      l_action row = "cancel_orders"%string → read_fault ports (l_command_id row) = None →
      outcome (read_fan_out row) j = Ok children → children ≠ [] →
      (∀ f, f ∈ children → fc_child f = None) →
      evidence row j (reject_only CANCEL_FANOUT_NOT_STARTED
        [("child_command_ids"%string, JArr []); ("reconciled"%string, JStr "fan_out_not_started")])
  (* the control row names this command as its last writer *)
  | ev_control s :
      l_action row ∈ ["pause_trading"; "resume_trading"]%string →
      read_fault ports (l_command_id row) = None → controls j !! l_target_id row = Some s →
      updated_by_command_id s = l_command_id row → evidence row j (resolve_only (pause_outcome row s))
  (* strategy_service's committed receipt *)
  | ev_receipt r :
      l_action row ∈ ["enable_strategy"; "disable_strategy"; "update_strategy_params"]%string →
      get_receipt ports (l_command_id row) = Ok (Some r) →
      s_state r ∈ ["COMMITTED"; "ROLLED_BACK"]%string → evidence row j (resolve_receipt r).

(** The ledger row, and the proposals, a verdict leaves. *)
Definition final_row (v : verdict) (now : Z) row : LedgerRow :=
  match v with
  | resolve_only o | resolve_proposal _ o => set_command_state RESOLVED (Some o) None now row
  | reject_only code o => set_command_state REJECTED (Some o) (Some code) now row
  | reject_close r => set_command_state REJECTED (Some (cl_outcome r)) (Some (close_code r)) now row
  | resolve_receipt r => set_command_state RESOLVED (Some (strategy_payload r)) None now row
  end.

Definition marked_row (mark : proposal_mark) (now : Z) (r : ProposalRecord) : ProposalRecord :=
  match mark with
  | mark_executed ids => moved EXECUTED (rejection_reason r) ids now (revision r + 1) r
  | mark_failed => moved FAILED "reconciled: order never submitted" (order_ids r) now (revision r + 1) r
  end.
(** The proposal of an approval is marked when it is still APPROVED. *)
Definition proposals_after (int_of_float : string → res Z) (v : verdict) (now : Z) row (ps : proposal_table)
    : proposal_table :=
  match v with
  | resolve_proposal mark _ =>
      match associated_proposal_id int_of_float row with
      | Ok (Some id) =>
          match ps !! id with
          | Some r => if has_repo && bool_decide (status r = APPROVED) then <[id := marked_row mark now r]> ps
                      else ps
          | None => ps
          end
      | _ => ps
      end
  | _ => ps
  end.
End evidence.

(** ** The writes, run *)
Section writes.
Context {T : Type} `{HasTable T control_table, HasTable T proposal_table, HasTable T ledger_table,
  HasTable T audit_table}.
Context `{!Disjoint_tables T proposal_table ledger_table}.
Context (float_repr : float → string) (int_of_float : string → res Z) (has_repo : bool) (ports : Ports).
Implicit Types (j : DomainJournal T) (row : LedgerRow) (s : OutcomeReconciler T).

(** The journal after a command moved; [row] is the row the reconciler read,
    [row0] the one the update finds. *)
Definition moved_journal row row0 (to : command_state) (o : option dict) (c : option string) (now : Z) j
    : DomainJournal T :=
  command_written (l_command_id row) (set_command_state to o c now row0) to (row_mutation row to now o c)
    (st_now (p_stamp ports command_append (l_command_id row))) j.

Lemma move_row_run row row0 from to o c now j evs :
  command_at (l_command_id row) row0 j → l_state row0 = from → to ∉ passed from →
  move_row ports row from to o c now (mkTx (jdb j) evs) =
    (Ok tt, mkTx (jdb (moved_journal row row0 to o c now j))
       (evs ++ [recorded_event (jcore j) (command_event_id (l_command_id row) to)
                  (row_mutation row to now o c) (st_now (p_stamp ports command_append (l_command_id row)))])).
Proof.
  intros Hat Hs Hto. unfold move_row. rewrite bind_in_producer. cbn [tx_db tx_events].
  rewrite (transition_in_tx_run _ _ _ _ _ _ _ row0) by (done || apply Hat).
  rewrite bind_new_mutation by done. rewrite bind_append by apply (ca_jwf _ _ _ Hat).
  unfold tx_core. cbn [tx_db db_core]. change (db_core (jdb j)) with (jcore j). subst from.
  by rewrite (ca_fresh _ _ _ Hat to) by done.
Qed.

Lemma move_row_lost row row0 from to o c now (t : tx T) :
  ledger_of (db_producer (tx_db t)) !! l_command_id row = Some row0 → l_state row0 ≠ from →
  move_row ports row from to o c now t =
    (Raise (IllegalCommandTransition (l_command_id row) (state_name from) (state_name to)), t).
Proof.
  intros Hr Hs. unfold move_row. rewrite bind_in_producer. unfold transition_in_tx. rewrite bind_gets, Hr.
  rewrite bool_decide_eq_false_2 by done. by destruct t as [[] ?].
Qed.

Lemma commit_moved row row0 from to o c now j :
  command_at (l_command_id row) row0 j → l_state row0 = from → to ∉ passed from →
  mutate_batch_work (move_row ports row from to o c now) j = (Ok tt, moved_journal row row0 to o c now j).
Proof.
  intros Hat Hs Hto. eapply commit_paired; [by apply move_row_run| |].
  - intros l. unfold signalled, recorded_event. simpl. unfold jcore. lia.
  - pose proof (seq_gt_latest j (ca_jwf _ _ _ Hat)). simpl. unfold jcore in *. lia.
Qed.

Lemma commit_lost row row0 from to o c now j :
  command_ledger j !! l_command_id row = Some row0 → l_state row0 ≠ from →
  mutate_batch_work (move_row ports row from to o c now) j =
    (Raise (IllegalCommandTransition (l_command_id row) (state_name from) (state_name to)), j).
Proof.
  intros Hr Hs. erewrite mutate_batch_work_run by (by apply (move_row_lost _ row0)). apply unchanged.
Qed.

Lemma moved_journal_at row row0 to o c now j :
  saga_at (l_command_id row) row0 j → to ∉ passed (l_state row0) →
  saga_at (l_command_id row) (set_command_state to o c now row0) (moved_journal row row0 to o c now j).
Proof. intros Hat Hto. by apply (saga_at_command _ row0). Qed.

Lemma bind_on_db {A B} (m : M (DomainJournal T) A) (k : A → M (OutcomeReconciler T) B) s :
  (on_db m ≫= k) s =
    match m (r_journal s) with
    | (Ok a, j) => k a (set_r_journal j s)
    | (Raise e, j) => (Raise e, set_r_journal j s)
    end.
Proof. rewrite bind_unfold. unfold on_db, zoom. by destruct (m _) as [[a|e] j]. Qed.
Lemma set_r_journal_id s : set_r_journal (r_journal s) s = s.
Proof. by destruct s. Qed.

Lemma bind_ask {A B} (r : res A) (k : A → M (OutcomeReconciler T) B) s :
  (ask r ≫= k) s = match r with Ok a => k a s | Raise e => (Raise e, s) end.
Proof. by destruct r. Qed.

(** *** An approval's two rows *)
Definition row_request (row : LedgerRow) : CommandRequest :=
  mkRequest (l_command_id row) (l_action row) (l_account_id row) (l_target_type row) (l_target_id row)
    None [] "" None None None None None.
(** The stamps of a marking transaction, as the approval saga numbers them. *)
Definition mark_stamps row (t : reading) : stamp :=
  p_stamp ports (match t with at_failed_event => proposal_append | _ => command_append end) (l_command_id row).

Definition marked_journal row (r : ProposalRecord) (mark : proposal_mark) (o : dict) (now : Z) j
    : DomainJournal T :=
  paired float_repr (λ _, now) (mark_stamps row) (row_request row) (marked_row mark now r)
    (from_row (marked_row mark now r)) row RESOLVED (Some o) None at_failed_event at_failed_command j.

Lemma mark_run row id mark now r (t : tx T) :
  proposals_of (db_producer (tx_db t)) !! id = Some r → status r = APPROVED → has_repo = true →
  mark_proposal float_repr has_repo ports row (Some id) mark now t =
    append_marked float_repr ports row id (from_row (marked_row mark now r))
      (mkTx (mkDb (db_core (tx_db t)) (set_proposals <[id := marked_row mark now r]> (db_producer (tx_db t))))
         (tx_events t)).
Proof.
  intros Hr Hs ->. unfold mark_proposal. cbn [negb]. rewrite bind_gets, Hr. cbn [fmap option_fmap option_map].
  rewrite bool_decide_eq_true_2 by done. cbn [negb]. rewrite bind_in_producer.
  assert (in_state APPROVED (revision (from_row r)) r = true) as Hin.
  { unfold in_state. rewrite bool_decide_eq_true_2 by done. apply Z.eqb_refl. }
  destruct mark; unfold mark_order_submitted_in_tx, mark_failed_in_tx;
    rewrite update_returning_run, Hr, Hin; done.
Qed.

Lemma mark_skip row id mark now (t : tx T) :
  has_repo && bool_decide (status <$> proposals_of (db_producer (tx_db t)) !! id = Some APPROVED) = false →
  mark_proposal float_repr has_repo ports row (Some id) mark now t = (Ok tt, t).
Proof.
  intros H'. unfold mark_proposal. destruct has_repo; [|done]. cbn [negb andb] in *. rewrite bind_gets.
  destruct (proposals_of _ !! id) as [r|]; [|done]. cbn [fmap option_fmap option_map].
  apply bool_decide_eq_false in H'. rewrite bool_decide_eq_false_2; [done|]. intros E. apply H'.
  simpl in *. by rewrite E.
Qed.

Lemma mutate_batch_work_ext {A} (w w' : M (tx T) A) j :
  w (mkTx (jdb j) []) = w' (mkTx (jdb j) []) → mutate_batch_work w j = mutate_batch_work w' j.
Proof. unfold mutate_batch_work. by intros ->. Qed.

(** The proposal a marking transaction finds to mark. *)
Definition proposal_to_mark (pid : option Z) (ps : proposal_table) : option ProposalRecord :=
  id ← pid; r ← ps !! id;
  if has_repo && bool_decide (status r = APPROVED) then Some r else None.

Lemma commit_marked row pid mark o now j :
  saga_at (l_command_id row) row j → RESOLVED ∉ passed (l_state row) →
  mutate_batch_work (
    mark_proposal float_repr has_repo ports row pid mark now ;;
    move_row ports row (l_state row) RESOLVED (Some o) None now) j =
  (Ok tt,
   match proposal_to_mark pid (proposals j) with
   | Some r => marked_journal row r mark o now j
   | None => moved_journal row row RESOLVED (Some o) None now j
   end).
Proof.
  intros Hat Hto. pose proof (sa_authority _ _ _ Hat) as Ha.
  assert (proposal_to_mark pid (proposals j) = None → mark_proposal float_repr has_repo ports row pid mark now
    (mkTx (jdb j) []) = (Ok tt, mkTx (jdb j) [])) as Hskip.
  { unfold proposal_to_mark. destruct pid as [id|]; [|done]. intros H'. apply mark_skip. simpl in *.
    change (proposals_of (db_producer (jdb j))) with (proposals j).
    destruct (proposals j !! id) as [r|]; simpl in *; [|by rewrite andb_false_r].
    destruct has_repo; [|done]. simpl in *. case_bool_decide; [done|].
    apply bool_decide_eq_false_2. congruence. }
  destruct (proposal_to_mark pid (proposals j)) as [r|] eqn:Hm.
  2: { rewrite <-(commit_moved row row (l_state row)) by (done || apply Hat).
       apply mutate_batch_work_ext. by rewrite bind_unfold, Hskip. }
  clear Hskip. unfold proposal_to_mark in Hm. destruct pid as [id|]; [|done]. simpl in Hm.
  destruct (proposals j !! id) as [r'|] eqn:Hr; [|done]. simpl in Hm.
  destruct (has_repo && _) eqn:Hg; [|done]. injection Hm as ->. apply andb_true_iff in Hg as [Hrepo Hs].
  apply bool_decide_eq_true in Hs. destruct (ao_key _ Ha _ _ Hr) as [Hk _].
  set (r1 := marked_row mark now r). assert (p_id r1 = id) as Hid by (unfold r1; by destruct mark).
  destruct (paired_run float_repr (λ _, now) (mark_stamps row) (row_request row) r1 (from_row r1) row
    (l_state row) RESOLVED (Some o) None at_failed_event at_failed_command j) as (evs & Hrun & Hsig);
    [done..| |done|done|].
  { unfold r1, revision_of. rewrite <-Hk in Hr. by destruct mark; simpl; rewrite Hr. }
  eapply commit_paired; [|exact Hsig|].
  - rewrite bind_unfold, (mark_run _ _ _ _ r) by done. cbn [tx_db tx_events]. fold r1.
    rewrite Hid in Hrun. exact Hrun.
  - pose proof (seq_gt_latest j (ao_jwf _ Ha)). unfold paired. simpl. unfold jcore in *. simpl. lia.
Qed.

(** ** What an attempt may leave *)
Record moved_by (v : verdict) (row : LedgerRow) (now : Z) j j' : Prop := {
  mv_saga : saga_at (l_command_id row) (final_row v now row) j';
  mv_ledger : command_ledger j' = <[l_command_id row := final_row v now row]> (command_ledger j);
  mv_proposals : proposals j' = proposals_after has_repo int_of_float v now row (proposals j);
  mv_event : ∃ ev, let final := final_row v now row in
    select_journal_row (command_event_id (l_command_id row) (l_state final)) (jcore j') = Some ev ∧
    payload ev = m_payload (row_mutation row (l_state final) now (l_outcome final) (l_error_code final));
}.

(** Nothing but the logged-once marks changed. *)
Definition quiet s s' : Prop :=
  r_journal s' = r_journal s ∧ plans s' = plans s ∧ alerts s' = alerts s ∧
  received_at_start s' = received_at_start s.

(** A failed close alerts the operator. *)
Definition alerts_of (v : verdict) (row : LedgerRow) : list (string * string) :=
  match v with reject_close r => [(l_command_id row, close_alert row r)] | _ => [] end.

Record settled (v : verdict) (row : LedgerRow) (now : Z) s s' : Prop := {
  st_moved : moved_by v row now (r_journal s) (r_journal s');
  st_plans : plans s' = assoc_del (l_command_id row) (plans s);
  st_alerts : alerts s' = alerts s ++ alerts_of v row;
  st_received : received_at_start s' = received_at_start s;
}.

Lemma command_written_event id row to m now j :
  select_journal_row (command_event_id id to) (jcore j) = None →
  select_journal_row (command_event_id id to) (jcore (command_written id row to m now j))
  = Some (appended_row (jcore j) (command_event_id id to) m now).
Proof.
  intros Hf. unfold command_written, jcore. simpl. rewrite select_appended by done.
  by rewrite bool_decide_eq_true_2.
Qed.

Lemma moved_journal_moved v row to o c now j :
  saga_at (l_command_id row) row j → to ∉ passed (l_state row) →
  final_row v now row = set_command_state to o c now row →
  proposals_after has_repo int_of_float v now row (proposals j) = proposals j →
  moved_by v row now j (moved_journal row row to o c now j).
Proof.
  intros Hat Hto Hv Hps. split; rewrite ?Hv, ?Hps.
  - by apply moved_journal_at.
  - apply command_ledger_written.
  - apply proposals_command.
  - eexists. split; [apply command_written_event|done].
    apply (ca_fresh _ _ _ (sa_command _ _ _ Hat)). done.
Qed.

Lemma in_flight_ahead st to : in_flight st = true → is_terminal to = true → to ∉ passed st.
Proof. destruct st, to; simpl; try done; intros _ _; set_solver. Qed.

Lemma resolve_only_run row o now s :
  saga_at (l_command_id row) row (r_journal s) → in_flight (l_state row) = true →
  ∃ s', resolve_command_only ports row o now s = (Ok tt, s') ∧ settled (resolve_only o) row now s s'.
Proof.
  intros Hat Hf. unfold resolve_command_only. rewrite bind_on_db.
  rewrite (commit_moved row row) by (apply Hat || done || by apply in_flight_ahead).
  eexists. split; [reflexivity|]. split; [|done|by rewrite app_nil_r|done].
  apply moved_journal_moved; [done|by apply in_flight_ahead|done|done].
Qed.

Lemma reject_only_run row code o now s :
  saga_at (l_command_id row) row (r_journal s) → in_flight (l_state row) = true →
  ∃ s', reject_command_only ports row code o now s = (Ok tt, s') ∧ settled (reject_only code o) row now s s'.
Proof.
  intros Hat Hf. unfold reject_command_only. rewrite bind_on_db.
  rewrite (commit_moved row row) by (apply Hat || done || by apply in_flight_ahead).
  eexists. split; [reflexivity|]. split; [|done|by rewrite app_nil_r|done].
  apply moved_journal_moved; [done|by apply in_flight_ahead|done|done].
Qed.

Lemma marked_journal_moved row r mark o now j id :
  saga_at (l_command_id row) row j → RESOLVED ∉ passed (l_state row) →
  associated_proposal_id int_of_float row = Ok (Some id) → proposals j !! id = Some r →
  has_repo && bool_decide (status r = APPROVED) = true →
  moved_by (resolve_proposal mark o) row now j (marked_journal row r mark o now j).
Proof.
  intros Hat Hto Hid Hr Hg. pose proof (sa_authority _ _ _ Hat) as Ha.
  destruct (ao_key _ Ha _ _ Hr) as [Hk _]. set (r1 := marked_row mark now r).
  assert (p_id r1 = id) as Hid1 by (unfold r1; by destruct mark).
  assert (revision r1 = revision_of j (p_id r1) + 1) as Hrev.
  { rewrite Hid1. unfold revision_of. rewrite Hr. by unfold r1; destruct mark. }
  destruct (paired_tables float_repr (λ _, now) (mark_stamps row) (row_request row) r1 (from_row r1) row
    RESOLVED (Some o) None at_failed_event at_failed_command j) as [Hps Hl].
  split.
  - apply (paired_at float_repr (λ _, now) (mark_stamps row) (row_request row)); [done|done|done|done].
  - exact Hl.
  - unfold marked_journal. fold r1. rewrite Hps, Hid1. simpl. by rewrite Hid, Hr, Hg.
  - eexists. split; [apply command_written_event|done].
    assert (select_journal_row (proposal_event_id (p_id r1) (revision r1)) (jcore j) = None) as Hf
      by (apply proposal_event_fresh; [done|lia]).
    unfold proposal_written, jcore. simpl. rewrite select_appended by done.
    rewrite bool_decide_eq_false_2 by apply command_not_proposal.
    by apply (ca_fresh _ _ _ (sa_command _ _ _ Hat)).
Qed.

Lemma resolve_marked_run row mark o now s :
  saga_at (l_command_id row) row (r_journal s) → in_flight (l_state row) = true →
  (∃ e, associated_proposal_id int_of_float row = Raise e ∧
     resolve_marked float_repr int_of_float has_repo ports row mark o now s = (Raise e, s)) ∨
  ∃ s', resolve_marked float_repr int_of_float has_repo ports row mark o now s = (Ok tt, s') ∧
    settled (resolve_proposal mark o) row now s s'.
Proof.
  intros Hat Hf. unfold resolve_marked. rewrite bind_ask.
  destruct (associated_proposal_id int_of_float row) as [pid|e] eqn:Hpid; [right|left; by exists e].
  assert (RESOLVED ∉ passed (l_state row)) as Hto by by apply in_flight_ahead.
  rewrite bind_on_db, commit_marked by done. eexists. split; [reflexivity|].
  split; [|done|by rewrite app_nil_r|done]. cbn [r_journal set_r_journal set_plans].
  unfold proposal_to_mark. destruct pid as [id|]; simpl.
  - destruct (proposals (r_journal s) !! id) as [r|] eqn:Hr; simpl.
    + destruct (has_repo && _) eqn:Hg; [by eapply marked_journal_moved|].
      apply moved_journal_moved; [done|done|done|]. simpl. by rewrite Hpid, Hr, Hg.
    + apply moved_journal_moved; [done|done|done|]. simpl. by rewrite Hpid, Hr.
  - apply moved_journal_moved; [done|done|done|]. simpl. by rewrite Hpid.
Qed.

(** *** A strategy's receipt *)
Definition strategy_journal row (r : StrategyCommandReceipt) (now : Z) j : DomainJournal T :=
  mkJournal (mkDb (append_core (jcore j) (strategy_event_id (s_strategy_name r) (l_command_id row))
                     (strategy_mutation row r now)
                     (st_now (p_stamp ports strategy_append (l_command_id row)))) (db_producer (jdb j)))
    (cursor_seq (jcore j)).

Lemma strategy_journal_at row row0 r now j :
  saga_at (l_command_id row) row0 j →
  select_journal_row (strategy_event_id (s_strategy_name r) (l_command_id row)) (jcore j) = None →
  saga_at (l_command_id row) row0 (strategy_journal row r now j).
Proof.
  intros [Ha Hc] Hf. split.
  - by apply authority_ok_other.
  - by apply command_at_other.
Qed.

Lemma moved_by_trans row v now j1 j2 j' :
  command_ledger j1 = command_ledger j2 → proposals j1 = proposals j2 →
  moved_by v row now j1 j' → moved_by v row now j2 j'.
Proof. intros Hl Hp []. by split; rewrite <-?Hl, <-?Hp. Qed.

Lemma resolve_strategy_run row r now s :
  saga_at (l_command_id row) row (r_journal s) → in_flight (l_state row) = true →
  (∃ id, resolve_strategy ports row r now s = (Raise (EventIdentityConflict id), s)) ∨
  ∃ s', resolve_strategy ports row r now s = (Ok tt, s') ∧ settled (resolve_receipt r) row now s s'.
Proof.
  intros Hat Hf. assert (RESOLVED ∉ passed (l_state row)) as Hto by by apply in_flight_ahead.
  pose proof (ca_jwf _ _ _ (sa_command _ _ _ Hat)) as Hj. set (j := r_journal s) in *.
  set (eid := strategy_event_id (s_strategy_name r) (l_command_id row)).
  assert (∀ J evs, saga_at (l_command_id row) row J → command_ledger J = command_ledger j →
    proposals J = proposals j → latest_committed_cursor j ≤ cursor_seq (jcore J) →
    (∀ l, signalled l evs ≤ Z.max l (cursor_seq (jcore J))) →
    (m ← new_mutation (strategy_mutation row r now);
     append (p_stamp ports strategy_append (l_command_id row)) m (λ _, mret tt) (Some eid) ;;
     move_row ports row (l_state row) RESOLVED (Some (strategy_payload r)) None now) (mkTx (jdb j) [])
    = move_row ports row (l_state row) RESOLVED (Some (strategy_payload r)) None now (mkTx (jdb J) evs) →
    ∃ s', resolve_strategy ports row r now s = (Ok tt, s') ∧ settled (resolve_receipt r) row now s s') as Hgo.
  { intros J evs HJ Hl Hp Hcur Hsig Hrun.
    rewrite (move_row_run _ row) in Hrun by (done || apply HJ).
    eexists. split.
    - unfold resolve_strategy. rewrite bind_on_db. fold j.
      erewrite commit_paired; [reflexivity|exact Hrun| |].
      + intros l. specialize (Hsig l). unfold signalled in *. cbn [latest_committed_cursor moved_journal command_written].
        revert Hsig. clear. induction evs as [|e evs IH]; simpl; [lia|].
        destruct (max_of e_source_cursor (evs ++ _)) eqn:E1; destruct (max_of e_source_cursor evs) eqn:E2; lia.
      + cbn [latest_committed_cursor moved_journal command_written]. lia.
    - split; [|done|by rewrite app_nil_r|done]. apply (moved_by_trans _ _ _ J); [done|done|].
      by apply moved_journal_moved. }
  destruct (select_journal_row eid (jcore j)) as [ev|] eqn:Hev.
  - destruct (matches ev (strategy_mutation row r now)) eqn:Hm.
    + right. apply (Hgo j [row_to_event ev]); try done.
      * pose proof (seq_gt_latest j Hj). lia.
      * intros l. unfold signalled. simpl. destruct (select_Some _ _ _ Hev) as [Hin _].
        pose proof (newest_ge _ _ Hin). pose proof (newest_lt_seq _ (jwf_core _ Hj)). lia.
      * rewrite bind_new_mutation by done. rewrite bind_append by apply Hj.
        unfold tx_core. cbn [tx_db db_core]. change (db_core (jdb j)) with (jcore j). by rewrite Hev, Hm.
    + left. exists eid. unfold resolve_strategy. rewrite bind_on_db. fold j.
      erewrite mutate_batch_work_run.
      2: { rewrite bind_new_mutation by done. rewrite bind_append by apply Hj.
           unfold tx_core. cbn [tx_db db_core]. change (db_core (jdb j)) with (jcore j).
           fold eid. rewrite Hev, Hm. reflexivity. }
      cbn [tx_db]. rewrite rollback_id.
      assert (mkJournal (jdb j) (latest_committed_cursor j) = j) as -> by by destruct j.
      unfold j. by rewrite set_r_journal_id.
  - right. apply (Hgo (strategy_journal row r now j) [recorded_event (jcore j) eid (strategy_mutation row r now)
      (st_now (p_stamp ports strategy_append (l_command_id row)))]).
    + by apply strategy_journal_at.
    + done.
    + done.
    + pose proof (seq_gt_latest j Hj). simpl. unfold jcore in *. simpl. lia.
    + intros l. unfold signalled, strategy_journal, jcore, recorded_event. simpl. unfold jcore. lia.
    + rewrite bind_new_mutation by done. rewrite bind_append by apply Hj.
      unfold tx_core. cbn [tx_db db_core]. change (db_core (jdb j)) with (jcore j). rewrite Hev. reflexivity.
Qed.
End writes.

(** ** Every attempt decides by the evidence *)
Section sound.
Context {T : Type} `{HasTable T control_table, HasTable T proposal_table, HasTable T ledger_table,
  HasTable T audit_table}.
Context `{!Disjoint_tables T proposal_table ledger_table}.
Context (float_repr : float → string) (int_of_float : string → res Z) (has_repo : bool) (ports : Ports).
Notation settled := (settled int_of_float has_repo (T := T)).
Notation evidence := (evidence has_repo ports).

(** One attempt on a row that is in flight. *)
Context (row : LedgerRow) (now : Z) (s : OutcomeReconciler T).
Hypothesis row_at : saga_at (l_command_id row) row (r_journal s).
Hypothesis row_in_flight : in_flight (l_state row) = true.

(** A [True] has its evidence, a [False] changed nothing, and so did an exception
    unless it is the alert's, after a failed close. *)
Definition sound (run : res bool * OutcomeReconciler T) : Prop :=
  match run with
  | (Ok true, s') => ∃ v, evidence row (r_journal s) v ∧ settled v row now s s'
  | (Ok false, s') => quiet s s'
  | (Raise e, s') =>
      quiet s s' ∨ ∃ r, evidence row (r_journal s) (reject_close r) ∧ settled (reject_close r) row now s s'
  end.

Lemma quiet_refl : quiet s s.
Proof. by split_and!. Qed.
Lemma sound_false : sound ((mret false : M (OutcomeReconciler T) bool) s).
Proof. apply quiet_refl. Qed.
Lemma sound_ask {A} (r : res A) k : (∀ a, r = Ok a → sound (k a s)) → sound ((ask r ≫= k) s).
Proof. intros Hk. rewrite bind_ask. destruct r; [by apply Hk|]. left. apply quiet_refl. Qed.
Lemma sound_unreadable : sound (leave_unreadable row s).
Proof. by split_and!. Qed.

Lemma sound_resolve o : evidence row (r_journal s) (resolve_only o) →
  sound ((resolve_command_only ports row o now ;; mret true) s).
Proof.
  intros Hev. destruct (resolve_only_run int_of_float has_repo ports row o now s row_at row_in_flight)
    as (s' & Hrun & Hs'). rewrite bind_unfold, Hrun. by exists (resolve_only o).
Qed.
Lemma sound_reject code o : evidence row (r_journal s) (reject_only code o) →
  sound ((reject_command_only ports row code o now ;; mret true) s).
Proof.
  intros Hev. destruct (reject_only_run int_of_float has_repo ports row code o now s row_at row_in_flight)
    as (s' & Hrun & Hs'). rewrite bind_unfold, Hrun. by exists (reject_only code o).
Qed.
Lemma sound_marked mark o : evidence row (r_journal s) (resolve_proposal mark o) →
  sound ((resolve_marked float_repr int_of_float has_repo ports row mark o now ;; mret true) s).
Proof.
  intros Hev. destruct (resolve_marked_run float_repr int_of_float has_repo ports row mark o now s row_at
    row_in_flight) as [(e & _ & Hrun)|(s' & Hrun & Hs')]; rewrite bind_unfold, Hrun.
  - left. apply quiet_refl.
  - by exists (resolve_proposal mark o).
Qed.
Lemma sound_receipt r : evidence row (r_journal s) (resolve_receipt r) →
  sound ((resolve_strategy ports row r now ;; mret true) s).
Proof.
  intros Hev. destruct (resolve_strategy_run int_of_float has_repo ports row r now s row_at row_in_flight)
    as [(e & Hrun)|(s' & Hrun & Hs')]; rewrite bind_unfold, Hrun.
  - left. apply quiet_refl.
  - by exists (resolve_receipt r).
Qed.

Lemma sound_approve : l_action row = "approve_proposal"%string →
  sound (reconcile_approve float_repr int_of_float has_repo ports row now s).
Proof.
  intros Ha. apply sound_ask. intros found Hfound. destruct found as [|o found].
  - apply sound_ask. intros [] Hc; [|apply sound_false]. apply sound_marked. by apply ev_never_submitted.
  - apply sound_marked. by apply ev_orders_found.
Qed.

Lemma sound_own (read : option (M (OutcomeReconciler T) (option dict))) code absent :
  (∀ m, read = Some m → ∃ r, m s = (r, s) ∧
    own_evidence ports row (r_journal s) = Some (r, code, absent)) →
  sound (settle_from_own_commit ports row now read code absent s).
Proof.
  intros Hread. unfold settle_from_own_commit. destruct read as [m|]; [|apply sound_false].
  destruct (Hread m eq_refl) as (r & Hm & Hown).
  case_bool_decide as Hs; [|apply sound_false]. cbn [negb].
  rewrite bind_unfold. unfold try_except at 1. rewrite bind_unfold, Hm.
  destruct r as [[o|]|e]; rewrite ?ret_run; cbn beta iota.
  - apply sound_resolve. by eapply ev_committed.
  - apply sound_reject. by eapply ev_never_committed.
  - apply sound_unreadable.
Qed.

Lemma sound_close :
  asks_root ports row ∨ asks_root_again ports row → sound (reconcile_close ports row now s).
Proof.
  intros Hroot. unfold reconcile_close. destruct (closes ports) as [c|] eqn:Hc; [|apply sound_false].
  apply sound_ask. intros [r|] Hr; [|apply sound_false].
  assert (closes_at ports from_close row r) as Hat by by exists c.
  destruct (cl_success r) eqn:Hok.
  - apply sound_resolve. destruct Hroot as [Hroot|Hroot];
      [by apply ev_close_met|by apply ev_close_met_late].
  - assert (evidence row (r_journal s) (reject_close r)) as Hev by (apply ev_close_failed; naive_solver).
    destruct (reject_only_run int_of_float has_repo ports row (close_code r) (cl_outcome r) now s row_at
      row_in_flight) as (s' & Hrun & [Hm Hp Hal Hrc]). rewrite bind_unfold, Hrun.
    assert (settled (reject_close r) row now s (add_alert (l_command_id row) (close_alert row r) s')) as Hst.
    { split; [by destruct Hm; split|done| |done]. simpl. by rewrite Hal, app_nil_r. }
    unfold raise_alert. rewrite bind_assoc, bind_modify, bind_ask.
    destruct (alert_hook ports _ _); simpl; eauto.
Qed.

Lemma sound_flattened : automated row → rooted ports row → bracket_of ports row = Some true →
  sound (reconcile_flattened_entry ports row now s).
Proof.
  intros Ha Hroot Hb. unfold reconcile_flattened_entry.
  destruct (closes ports) as [c|] eqn:Hc; [|left; apply quiet_refl].
  apply sound_ask. intros resolution Hr.
  assert (match resolution with Some r => cl_success r = false | None => True end →
    sound (reconcile_close ports row now s)) as Hclose.
  { intros Hno. apply sound_close. right. split_and!; [done..|]. intros r' (c' & Hc' & Hr').
    rewrite Hc in Hc'. injection Hc' as <-. rewrite Hr in Hr'. by destruct resolution; simplify_eq. }
  destruct resolution as [r|]; [|by apply Hclose].
  destruct (cl_success r) eqn:Hok; [|by apply Hclose]. cbn [negb].
  assert (closes_at ports from_flattened row r) as Hat by by exists c.
  apply sound_ask. intros found Hfound. fold (entries found).
  destruct (entry_accepted (entries found)) eqn:Hacc.
  { apply sound_resolve. by eapply ev_flattened_traded. }
  destruct (forallb _ found) eqn:Hterm; [|apply sound_false]. cbn [negb].
  apply sound_ask. intros [] Hcomp; [|apply sound_false]. cbn [negb].
  apply sound_reject. by eapply ev_flattened_unproven.
Qed.

Lemma sound_entry : automated row → unrooted ports row →
  sound (reconcile_automated_entry ports row now s).
Proof.
  intros Ha Hroot. apply sound_ask. intros found Hfound. fold (entries found).
  destruct (entries found) as [|o l] eqn:He; [apply sound_false|]. rewrite <-He.
  assert (entries found ≠ []) as Hne by (by rewrite He).
  destruct (forallb _ found) eqn:Hall; [|apply sound_false]. cbn [negb].
  destruct (entry_accepted (entries found)) eqn:Hacc.
  { apply sound_resolve. by apply ev_entry_accepted. }
  destruct (active_or_filled found) eqn:Hact; [apply sound_false|].
  apply sound_ask. intros [] Hcomp; [|apply sound_false].
  apply sound_reject. by apply ev_entry_rejected.
Qed.

Lemma is_bracket_entry_run : ∃ s1,
  is_bracket_entry ports row s = (Ok (bracket_of ports row), s1) ∧ quiet s s1 ∧
  (bracket_of ports row ≠ None → s1 = s).
Proof.
  unfold is_bracket_entry, bracket_of. destruct (_ || _); [by exists s|].
  destruct (saga_row ports _) as [b|e]; [by exists s|].
  destruct e; try (eexists; split; [reflexivity|by split_and!]).
Qed.

Lemma sound_intent : automated row → sound (reconcile_automated_intent ports row now s).
Proof.
  intros Ha. unfold reconcile_automated_intent, has_close_root.
  destruct (closes ports) as [c|] eqn:Hc.
  2: { rewrite bind_ret. apply sound_entry; [done|]. unfold unrooted. by rewrite Hc. }
  rewrite bind_assoc. apply sound_ask. intros root Hr. rewrite bind_ret.
  destruct root as [root|]; simpl.
  - assert (rooted ports row) as Hroot by by exists c, root.
    destruct is_bracket_entry_run as (s1 & Hrun & Hq & Hs1). rewrite bind_unfold, Hrun.
    destruct (bracket_of ports row) as [[]|] eqn:Hb; [rewrite Hs1 by done..|done].
    + by apply sound_flattened.
    + apply sound_close. left. right. done.
  - apply sound_entry; [done|]. unfold unrooted. by rewrite Hc.
Qed.

Lemma sound_left_received :
  l_action row = "liquidate_account"%string → l_error_code row = Some RECEIVED_AT_RESTART →
  sound (reconcile_liquidation_left_received ports row now s).
Proof.
  intros Ha He. unfold reconcile_liquidation_left_received.
  destruct (closes ports) as [c|] eqn:Hc; [|apply sound_false].
  destruct (root_for c _) as [[root|]|e] eqn:Hr; [| |apply sound_unreadable].
  - apply sound_close. left. left. split; [done|]. intros _. by exists c, root.
  - apply sound_reject. by eapply ev_liquidation_not_started.
Qed.

(** A read that changes nothing, behind the fault that may hit it. *)
Lemma read_evidence_run {A} (m : M (DomainJournal T) A) :
  final m (r_journal s) = r_journal s →
  read_evidence ports row m s =
    (match read_fault ports (l_command_id row) with Some e => Raise e | None => outcome m (r_journal s) end, s).
Proof.
  intros Hm. unfold read_evidence. destruct (read_fault ports _); [done|].
  unfold on_db, zoom, outcome, final in *. destruct (m _) as [r j]. simpl in *. subst j.
  by rewrite set_r_journal_id.
Qed.

Lemma created_run (j : DomainJournal T) : created_proposal_id (l_command_id row) j =
  (match created_event (l_command_id row) j with
   | None => Ok None
   | Some ev => match int_of_string (entity_id ev) with Some n => Ok (Some n) | None => Raise ValueError end
   end, j).
Proof.
  unfold created_proposal_id. run. destruct (created_event _ _) as [ev|]; [|done].
  by destruct (int_of_string _).
Qed.

Lemma sound_create : l_action row = "create_proposal"%string → sound (reconcile_create ports row now s).
Proof.
  intros Ha. unfold reconcile_create. rewrite bind_unfold. unfold try_except. rewrite bind_unfold.
  rewrite read_evidence_run by (unfold final; by rewrite created_run).
  unfold outcome. rewrite created_run. cbn [fst].
  destruct (read_fault ports _) eqn:Hrf; [apply sound_unreadable|].
  destruct (created_event _ _) as [ev|] eqn:Hev.
  - destruct (int_of_string _) as [n|] eqn:Hn; [|apply sound_unreadable].
    apply sound_resolve. by eapply ev_created.
  - rewrite ret_run. cbn beta iota. destruct (l_error_code row) as [code|] eqn:Hcode; [|apply sound_false].
    case_bool_decide; [|apply sound_false]. apply sound_reject. by eapply ev_create_rolled_back.
Qed.

Lemma sound_reject_proposal : l_action row = "reject_proposal"%string →
  sound (reconcile_reject has_repo ports row now s).
Proof.
  intros Ha. unfold reconcile_reject. destruct (negb has_repo || _) eqn:Hg; [apply sound_false|].
  to_prop. destruct (int_of_string _) as [id|] eqn:Hid; [|apply sound_false].
  rewrite bind_on_db. unfold get_proposal. rewrite bind_read_store, ret_run. rewrite set_r_journal_id.
  change (table_of (jdb (r_journal s))) with (proposals (r_journal s)).
  destruct (proposals (r_journal s) !! id) as [r|] eqn:Hr; simpl; [|apply sound_false].
  case_bool_decide as Hs; [|apply sound_false]. apply sound_resolve. by apply (ev_rejected _ _ _ _ id r).
Qed.

Lemma sound_cancel : l_action row = "cancel_order"%string → sound (reconcile_cancel ports row now s).
Proof.
  intros Ha. unfold reconcile_cancel. destruct (get_order ports) as [view|] eqn:Hv; [|apply sound_false].
  apply sound_ask. intros [o|] Ho; [|apply sound_false].
  destruct (is_terminal_order o) eqn:Ht; [|apply sound_false].
  apply sound_resolve. by eapply ev_cancelled.
Qed.

Lemma read_fan_out_final (j : DomainJournal T) : final (read_fan_out row) j = j.
Proof.
  assert (preserves (λ j', j' = j) (read_fan_out row)) as Hp; [|by apply Hp].
  unfold read_fan_out, audited_body, get_row, audited_correlation_id.
  apply preserves_bind; [apply preserves_gets|]. intros b.
  apply preserves_bind; [unfold answer; case_match; [apply preserves_ret|apply preserves_raise]|]. intros ids.
  apply preserves_map_each. intros io. apply preserves_bind; [apply preserves_gets|]. intros c.
  apply preserves_bind; [case_match; [apply preserves_gets|apply preserves_ret]|]. intros l. apply preserves_ret.
Qed.

Lemma sound_cancel_orders : l_action row = "cancel_orders"%string →
  sound (reconcile_cancel_orders ports row now s).
Proof.
  intros Ha. unfold reconcile_cancel_orders. rewrite bind_unfold. unfold try_except. rewrite bind_unfold.
  rewrite read_evidence_run by apply read_fan_out_final.
  destruct (read_fault ports _) eqn:Hrf; [apply sound_unreadable|].
  destruct (outcome (read_fan_out row) _) as [children|e] eqn:Hread; [|apply sound_unreadable].
  rewrite ret_run. cbn beta iota. destruct children as [|f l] eqn:Hl; [apply sound_false|]. rewrite <-Hl in *.
  assert (children ≠ []) as Hne by (by rewrite Hl).
  destruct (existsb _ children) eqn:Hfor; [by split_and!|].
  destruct (forallb _ children) eqn:Hnone.
  - apply sound_reject. apply (ev_fan_out_not_started _ _ _ _ children); try done.
    intros f' Hf'. rewrite forallb_forall in Hnone. apply list_elem_of_In, Hnone in Hf'. by to_prop.
  - destruct (existsb child_pending children) eqn:Hpend; [apply sound_false|].
    apply sound_resolve. apply (ev_fan_out _ _ _ _ children); try done.
    intros f' Hf'%list_elem_of_In. split; apply not_true_iff_false; intros E.
    + apply not_true_iff_false in Hfor. apply Hfor, existsb_exists. eauto.
    + apply not_true_iff_false in Hpend. apply Hpend, existsb_exists. eauto.
Qed.

Lemma sound_pause : l_action row ∈ ["pause_trading"; "resume_trading"]%string →
  sound (reconcile_pause ports row now s).
Proof.
  intros Ha. unfold reconcile_pause, pause_state_for, swallow. rewrite bind_unfold. unfold try_except.
  rewrite read_evidence_run by done. destruct (read_fault ports _) eqn:Hrf; [by apply quiet_refl|].
  unfold outcome, gets. cbn [fst]. destruct (controls _ !! _) as [c|] eqn:Hc; [|apply sound_false].
  destruct (String.eqb_spec (updated_by_command_id c) (l_command_id row)); [|apply sound_false].
  apply sound_resolve. by apply (ev_control _ _ _ _ c).
Qed.

Lemma sound_strategy :
  l_action row ∈ ["enable_strategy"; "disable_strategy"; "update_strategy_params"]%string →
  sound (reconcile_strategy ports row now s).
Proof.
  intros Ha. apply sound_ask. intros [r|] Hr; [|apply sound_false].
  case_bool_decide; [|apply sound_false]. apply sound_receipt. by apply ev_receipt.
Qed.

(** A reader of the command's own row, once its action is known. *)
Lemma sound_reader port code (absent : string) :
  own_evidence ports row (r_journal s) =
    (λ f : string → res (option dict), (f (l_command_id row), code, [(absent, JBool false)])) <$> port →
  sound (settle_from_own_commit ports row now ((λ f, ask (f (l_command_id row))) <$> port) code
           [(absent, JBool false)] s).
Proof.
  intros Hown. apply sound_own. destruct port as [f|]; [|done]. intros m [= <-].
  exists (f (l_command_id row)). split; [|done]. unfold ask, answer. by destruct (f _).
Qed.

Lemma settled_by_final (j : DomainJournal T) : final (settled_by row) j = j.
Proof. done. Qed.

Lemma sound_own_actions (m : M (OutcomeReconciler T) bool) :
  (own_evidence ports row (r_journal s) = None → sound (m s)) →
  sound ((if String.eqb (l_action row) AI_DEPLOYMENT_REGISTER_ACTION then reconcile_registration ports row now
   else if String.eqb (l_action row) AI_DEPLOYMENT_WITHDRAW_ACTION then reconcile_withdrawal ports row now
   else if String.eqb (l_action row) AI_RISK_POLICY_PUBLISH_ACTION then reconcile_policy_publish ports row now
   else if bool_decide (l_action row ∈ EXPERIMENT_COMMAND_ACTIONS) then reconcile_experiment ports row now
   else if String.eqb (l_action row) SETTLE_ACTION then reconcile_settle ports row now
   else if String.eqb (l_action row) BREAKER_RESET_ACTION then reconcile_breaker_reset ports row now
   else m) s).
Proof.
  intros Hm. assert (∀ x, own_evidence ports row (r_journal s) = x → own_evidence ports row (r_journal s) = x)
    as Hown by done. unfold own_evidence at 1 in Hown.
  destruct (String.eqb _ AI_DEPLOYMENT_REGISTER_ACTION); [by apply sound_reader, Hown|].
  destruct (String.eqb _ AI_DEPLOYMENT_WITHDRAW_ACTION); [by apply sound_reader, Hown|].
  destruct (String.eqb _ AI_RISK_POLICY_PUBLISH_ACTION); [by apply sound_reader, Hown|].
  destruct (bool_decide _).
  { unfold reconcile_experiment. specialize (Hown _ eq_refl). revert Hown.
    destruct (experiments ports) as [f|]; intros Hown;
      [by apply (sound_reader (Some (f (l_action row))))|by apply (sound_reader None)]. }
  destruct (String.eqb _ SETTLE_ACTION).
  { apply sound_own. intros m' [= <-]. eexists. split; [by apply read_evidence_run|by apply Hown]. }
  destruct (String.eqb _ BREAKER_RESET_ACTION); [by apply sound_reader, Hown|].
  by apply Hm, Hown.
Qed.

Lemma try_resolve_sound :
  sound (try_resolve float_repr int_of_float has_repo ports row now s).
Proof.
  unfold try_resolve.
  destruct (String.eqb_spec (l_action row) "approve_proposal"); [by apply sound_approve|].
  destruct (String.eqb_spec (l_action row) "create_proposal"); [by apply sound_create|].
  destruct (String.eqb_spec (l_action row) "reject_proposal"); [by apply sound_reject_proposal|].
  destruct (String.eqb_spec (l_action row) "cancel_order"); [by apply sound_cancel|].
  destruct (String.eqb_spec (l_action row) "cancel_orders"); [by apply sound_cancel_orders|].
  case_bool_decide; [by apply sound_pause|]. case_bool_decide; [by apply sound_strategy|].
  destruct (String.eqb_spec (l_action row) "execute_automated_intent"); [by apply sound_intent; left|].
  destruct (String.eqb_spec (l_action row) AI_PAPER_ENTRY_ACTION); [by apply sound_intent; right|].
  destruct (String.eqb_spec (l_action row) "liquidate_account") as [Hl|]; cbn [andb].
  - case_bool_decide; [by apply sound_left_received|].
    rewrite bool_decide_eq_true_2 by (rewrite Hl; set_solver). apply sound_close. left. by left.
  - rewrite bool_decide_eq_false_2 by set_solver. apply sound_own_actions. intros _. apply sound_false.
Qed.

(** *** Nothing is left undecided that has its evidence *)
Notation try_resolve := (try_resolve float_repr int_of_float has_repo ports row now).
Notation resolver := (M (OutcomeReconciler T) bool).

Lemma never_false (m : M (OutcomeReconciler T) unit) s1 : outcome (m ;; mret true) s1 ≠ Ok false.
Proof. unfold outcome. rewrite bind_unfold. by destruct (m s1) as [[]]. Qed.

Lemma automated_dispatch : automated row → try_resolve = reconcile_automated_intent ports row now.
Proof. unfold Reconciler.try_resolve. by intros [->| ->]. Qed.

Lemma own_dispatch r code absent :
  own_evidence ports row (r_journal s) = Some (r, code, absent) →
  ∃ m, m s = (r, s) ∧ try_resolve s = settle_from_own_commit ports row now (Some m) code absent s.
Proof.
  assert (∀ port (r' : res (option dict)) code' absent', (λ f : string → res (option dict),
      (f (l_command_id row), code', [(absent', JBool false)])) <$> port = Some (r, code, absent) →
    ∃ m, m s = (r, s) ∧ settle_from_own_commit ports row now ((λ f, ask (f (l_command_id row))) <$> port) code'
      [(absent', JBool false)] s = settle_from_own_commit ports row now (Some m) code absent s) as Hread.
  { intros [f|] r' code' absent'; [|done]. intros [= <- <- <-]. exists (ask (f (l_command_id row))).
    split; [|done]. unfold ask, answer. by destruct (f _). }
  unfold own_evidence, Reconciler.try_resolve.
  destruct (String.eqb_spec (l_action row) AI_DEPLOYMENT_REGISTER_ACTION) as [->|]; [by apply Hread|].
  destruct (String.eqb_spec (l_action row) AI_DEPLOYMENT_WITHDRAW_ACTION) as [->|]; [by apply Hread|].
  destruct (String.eqb_spec (l_action row) AI_RISK_POLICY_PUBLISH_ACTION) as [->|]; [by apply Hread|].
  case_bool_decide as Hex.
  { intros Hown.
    assert (∃ m, m s = (r, s) ∧ reconcile_experiment ports row now s
      = settle_from_own_commit ports row now (Some m) code absent s) as Hgoal.
    { unfold reconcile_experiment. destruct (experiments ports) as [f|]; [|done].
      by apply (Hread (Some (f (l_action row)))). }
    repeat (apply elem_of_cons in Hex as [Hex|Hex]); [rewrite Hex; exact Hgoal..|].
    by apply elem_of_nil in Hex. }
  destruct (String.eqb_spec (l_action row) SETTLE_ACTION) as [->|].
  { intros [= <- <- <-]. eexists. split; [by apply read_evidence_run|reflexivity]. }
  destruct (String.eqb_spec (l_action row) BREAKER_RESET_ACTION) as [->|]; [by apply Hread|done].
Qed.

Lemma close_decides r : closes_at ports from_close row r → outcome (reconcile_close ports row now) s ≠ Ok false.
Proof.
  intros (c & Hc & Hr). unfold reconcile_close, outcome. rewrite Hc, bind_ask, Hr.
  destruct (cl_success r); [apply never_false|].
  rewrite bind_unfold. destruct (reject_command_only _ _ _ _ _ s) as [[[]|] s1]; [|done]. apply never_false.
Qed.

Lemma left_received_rooted : rooted ports row →
  reconcile_liquidation_left_received ports row now = reconcile_close ports row now.
Proof.
  intros (c & root & Hc & Hr). unfold reconcile_liquidation_left_received. by rewrite Hc, Hr.
Qed.

Lemma intent_rooted b : rooted ports row → bracket_of ports row = Some b →
  reconcile_automated_intent ports row now s =
    (if b then reconcile_flattened_entry ports row now else reconcile_close ports row now) s.
Proof.
  intros (c & root & Hc & Hr) Hb. unfold reconcile_automated_intent, has_close_root.
  rewrite Hc, bind_assoc, bind_ask, Hr, bind_ret. cbn [negb bool_decide].
  destruct is_bracket_entry_run as (s1 & Hrun & _ & Hs1). rewrite Hs1 in Hrun by (by rewrite Hb).
  rewrite (bool_decide_eq_true_2 (is_Some _)) by done. cbn [negb].
  rewrite bind_unfold, Hrun, Hb. by destruct b.
Qed.

Lemma intent_unrooted : unrooted ports row →
  reconcile_automated_intent ports row now s = reconcile_automated_entry ports row now s.
Proof.
  intros Hr. unfold reconcile_automated_intent, has_close_root, unrooted in *.
  destruct (closes ports) as [c|]; [|by rewrite bind_ret]. by rewrite bind_assoc, bind_ask, Hr, bind_ret.
Qed.

Lemma asks_root_decides r : asks_root ports row → closes_at ports from_close row r →
  outcome try_resolve s ≠ Ok false.
Proof.
  intros [(Ha & Hroot)|(Ha & Hroot & Hb)] Hr.
  - destruct (decide (l_error_code row = Some RECEIVED_AT_RESTART)) as [He|He].
    + assert (try_resolve = reconcile_liquidation_left_received ports row now) as ->
        by (unfold Reconciler.try_resolve; by rewrite Ha, He).
      rewrite left_received_rooted by auto. by apply (close_decides r).
    + assert (try_resolve = reconcile_close ports row now) as ->; [|by apply (close_decides r)].
      unfold Reconciler.try_resolve. rewrite Ha. by rewrite (bool_decide_eq_false_2 _ He).
  - rewrite automated_dispatch by done. unfold outcome. rewrite (intent_rooted false) by done.
    by apply (close_decides r).
Qed.

Lemma asks_again_decides r : asks_root_again ports row → closes_at ports from_close row r →
  outcome try_resolve s ≠ Ok false.
Proof.
  intros (Ha & Hroot & Hb & Hno) Hr. rewrite automated_dispatch by done. unfold outcome.
  rewrite (intent_rooted true) by done. unfold reconcile_flattened_entry.
  pose proof Hr as (c & Hc & Hcr). rewrite Hc, bind_ask.
  destruct (close_resolution c from_flattened _) as [[r'|]|e] eqn:Hfl; [| |done].
  - rewrite (Hno r') by (by exists c). cbn [negb]. by apply (close_decides r).
  - by apply (close_decides r).
Qed.

Lemma journal_read_run {A} (m : M (DomainJournal T) A) (a : A) :
  final m (r_journal s) = r_journal s → read_fault ports (l_command_id row) = None →
  outcome m (r_journal s) = Ok a → read_evidence ports row m s = (Ok a, s).
Proof. intros Hm Hrf Ha. by rewrite read_evidence_run, Hrf, Ha. Qed.

Lemma fan_out_decides children :
  l_action row = "cancel_orders"%string → read_fault ports (l_command_id row) = None →
  outcome (read_fan_out row) (r_journal s) = Ok children → children ≠ [] →
  existsb (is_foreign row) children = false →
  (existsb child_pending children = false ∨ forallb (λ f, bool_decide (fc_child f = None)) children = true) →
  outcome try_resolve s ≠ Ok false.
Proof.
  intros Ha Hrf Hread Hne Hfor Hdone.
  assert (try_resolve = reconcile_cancel_orders ports row now) as -> by (unfold Reconciler.try_resolve; by rewrite Ha).
  unfold reconcile_cancel_orders, outcome. rewrite bind_unfold. unfold try_except. rewrite bind_unfold.
  rewrite (journal_read_run _ children) by (done || apply read_fan_out_final). rewrite ret_run. cbn beta iota.
  destruct children as [|f l]; [done|]. rewrite Hfor.
  destruct (forallb _ _); [apply never_false|]. destruct Hdone as [->|]; [apply never_false|done].
Qed.

Lemma entry_decides found :
  automated row → unrooted ports row → group_orders ports row found → entries found ≠ [] →
  all_in (ACTIVE_ORDER_STATUSES ++ KNOWN_TERMINAL_ORDER_STATUSES) found →
  (entry_accepted (entries found) = true ∨ active_or_filled found = false ∧ enumeration_complete ports = Ok true) →
  outcome try_resolve s ≠ Ok false.
Proof.
  intros Ha Hroot Hf Hne Hall Hdone. rewrite automated_dispatch by done. unfold outcome.
  rewrite intent_unrooted by done. unfold reconcile_automated_entry. rewrite bind_ask, Hf. fold (entries found).
  destruct (entries found) as [|o l] eqn:He; [done|]. rewrite Hall. cbn [negb].
  destruct (entry_accepted (o :: l)); [apply never_false|].
  destruct Hdone as [|[-> Hc]]; [done|]. rewrite bind_ask, Hc. apply never_false.
Qed.

Lemma flattened_decides r found :
  automated row → rooted ports row → bracket_of ports row = Some true → closes_at ports from_flattened row r →
  cl_success r = true → group_orders ports row found →
  (entry_accepted (entries found) = true ∨
   all_in KNOWN_TERMINAL_ORDER_STATUSES found ∧ enumeration_complete ports = Ok true) →
  outcome try_resolve s ≠ Ok false.
Proof.
  intros Ha Hroot Hb (c & Hc & Hr) Hok Hf Hdone. rewrite automated_dispatch by done. unfold outcome.
  rewrite (intent_rooted true) by done. unfold reconcile_flattened_entry. rewrite Hc, bind_ask, Hr, Hok.
  cbn [negb]. rewrite bind_ask, Hf. fold (entries found).
  destruct (entry_accepted (entries found)); [apply never_false|].
  destruct Hdone as [|[-> Hcomp]]; [done|]. cbn [negb]. rewrite bind_ask, Hcomp. apply never_false.
Qed.

Lemma own_decides r code absent :
  own_evidence ports row (r_journal s) = Some (Ok r, code, absent) → l_state row = OUTCOME_UNKNOWN →
  outcome try_resolve s ≠ Ok false.
Proof.
  intros Hown Hs. destruct (own_dispatch _ _ _ Hown) as (m & Hm & Hrun). unfold outcome. rewrite Hrun.
  unfold settle_from_own_commit. rewrite bool_decide_eq_true_2 by done. cbn [negb].
  rewrite bind_unfold. unfold try_except. rewrite bind_unfold, Hm, ret_run. cbn beta iota.
  destruct r; apply never_false.
Qed.

Lemma evidence_decides v : evidence row (r_journal s) v → outcome try_resolve s ≠ Ok false.
Proof.
  assert (∀ m, try_resolve = m → outcome m s ≠ Ok false → outcome try_resolve s ≠ Ok false) as Hgo
    by (by intros m ->).
  destruct 1 as [found Ha Hf Hne|Ha Hf Hc|o code absent Hown Hs|code absent Hown Hs|r Hask Hr _|r Hask Hr _
    |r [Hask|Hask] Hr _|c Ha He Hc Hr|r found Ha Hr Hb Hcl Hok Hf Hacc|r found Ha Hr Hb Hcl Hok Hf _ Hall Hc
    |found Ha Hr Hf Hne Hall Hacc|found Ha Hr Hf Hne Hall _ Hact Hc|ev id Ha Hrf Hev Hid
    |code Ha Hrf Hev Hcode Hin|id r Ha Hrepo Ht Hid Hr Hs|view o Ha Hv Ho Ht|children Ha Hrf Hread Hne Hall
    |children Ha Hrf Hread Hne Hall|c Ha Hrf Hc Hu|r Ha Hr Hin].
  - apply (Hgo (reconcile_approve float_repr int_of_float has_repo ports row now));
      [unfold Reconciler.try_resolve; by rewrite Ha|].
    unfold outcome, reconcile_approve. rewrite bind_ask, Hf. destruct found; [done|]. apply never_false.
  - apply (Hgo (reconcile_approve float_repr int_of_float has_repo ports row now));
      [unfold Reconciler.try_resolve; by rewrite Ha|].
    unfold outcome, reconcile_approve. rewrite bind_ask, Hf, bind_ask, Hc. apply never_false.
  - by eapply own_decides.
  - by eapply own_decides.
  - by eapply asks_root_decides.
  - by eapply asks_again_decides.
  - by eapply asks_root_decides.
  - by eapply asks_again_decides.
  - apply (Hgo (reconcile_liquidation_left_received ports row now));
      [unfold Reconciler.try_resolve; by rewrite Ha, He|].
    unfold outcome, reconcile_liquidation_left_received. rewrite Hc, Hr. apply never_false.
  - eapply flattened_decides; eauto.
  - eapply flattened_decides; eauto.
  - eapply entry_decides; eauto.
  - eapply entry_decides; eauto.
  - apply (Hgo (reconcile_create ports row now)); [unfold Reconciler.try_resolve; by rewrite Ha|].
    unfold outcome, reconcile_create. rewrite bind_unfold. unfold try_except. rewrite bind_unfold.
    rewrite (journal_read_run _ (Some id))
      by (done || (unfold final, outcome; by rewrite created_run, ?Hev, ?Hid)).
    apply never_false.
  - apply (Hgo (reconcile_create ports row now)); [unfold Reconciler.try_resolve; by rewrite Ha|].
    unfold outcome, reconcile_create. rewrite bind_unfold. unfold try_except. rewrite bind_unfold.
    rewrite (journal_read_run _ None) by (done || (unfold final, outcome; by rewrite created_run, ?Hev)).
    rewrite ret_run. cbn beta iota. rewrite Hcode, bool_decide_eq_true_2 by done. apply never_false.
  - apply (Hgo (reconcile_reject has_repo ports row now)); [unfold Reconciler.try_resolve; by rewrite Ha|].
    unfold outcome, reconcile_reject. apply String.eqb_neq in Ht. rewrite Hrepo, Ht, Hid. cbn [negb orb].
    rewrite bind_on_db. unfold get_proposal. rewrite bind_read_store, ret_run.
    change (table_of (jdb (r_journal s))) with (proposals (r_journal s)). rewrite Hr.
    cbn [fmap option_fmap option_map]. rewrite bool_decide_eq_true_2 by done. apply never_false.
  - apply (Hgo (reconcile_cancel ports row now)); [unfold Reconciler.try_resolve; by rewrite Ha|].
    unfold outcome, reconcile_cancel. rewrite Hv, bind_ask, Ho, Ht. apply never_false.
  - apply (fan_out_decides children); try done; [|left]; apply not_true_iff_false;
      intros (f & Hin%list_elem_of_In & Hf)%existsb_exists; destruct (Hall f Hin); congruence.
  - apply (fan_out_decides children); try done; [|right].
    + apply not_true_iff_false. intros (f & Hin%list_elem_of_In & Hf)%existsb_exists.
      unfold is_foreign in Hf. by rewrite (Hall f Hin) in Hf.
    + apply forallb_forall. intros f Hin%list_elem_of_In. apply bool_decide_eq_true_2. by apply Hall.
  - apply (Hgo (reconcile_pause ports row now)).
    { unfold Reconciler.try_resolve. repeat (apply elem_of_cons in Ha as [Ha|Ha]); [by rewrite Ha..|].
      by apply elem_of_nil in Ha. }
    unfold outcome, reconcile_pause, pause_state_for, swallow. rewrite bind_unfold. unfold try_except.
    rewrite (journal_read_run _ (Some c)) by (done || (unfold outcome, gets; by rewrite <-Hc)).
    rewrite Hu, String.eqb_refl. apply never_false.
  - apply (Hgo (reconcile_strategy ports row now)).
    { unfold Reconciler.try_resolve. repeat (apply elem_of_cons in Ha as [Ha|Ha]); [by rewrite Ha..|].
      by apply elem_of_nil in Ha. }
    unfold outcome, reconcile_strategy. rewrite bind_ask, Hr, bool_decide_eq_true_2 by done. apply never_false.
Qed.
End sound.

(** ** One attempt *)
Section attempts.
Context {T : Type} `{HasTable T control_table, HasTable T proposal_table, HasTable T ledger_table,
  HasTable T audit_table}.
Context `{!Disjoint_tables T proposal_table ledger_table}.
Context (float_repr : float → string) (int_of_float : string → res Z) (has_repo : bool).
Implicit Types (ports : Ports) (s : OutcomeReconciler T).
Notation reconcile_once := (reconcile_once float_repr int_of_float has_repo).

(** The alert of an attempt past the boundary, and the plan it leaves. *)
Definition is_late (p : ReconcilePlan) (now : Z) : bool := past_critical p now && negb (alerted p).
Definition seen (p : ReconcilePlan) (now : Z) : ReconcilePlan := if is_late p now then set_alerted p else p.

Lemma escalate_run ports row id now s :
  let p := plan_of id now (plans s) in
  escalate ports row id now s =
    (if is_late p now then
       match alert_hook ports id (late_alert row) with
       | Ok _ => Ok (mkResult id false true)
       | Raise e => Raise e
       end
     else Ok (mkResult id false (alerted p)),
     (if is_late p now then add_alert id (late_alert row) else λ s, s)
       (set_plans (assoc_set id (seen p now)) s)).
Proof.
  intros p. unfold escalate. rewrite bind_gets, bind_modify. fold p. unfold seen, is_late.
  destruct (past_critical p now && negb (alerted p)); [|done].
  rewrite bind_modify. unfold raise_alert. rewrite bind_assoc, bind_modify, bind_ask.
  assert (∀ q r (l : list (string * ReconcilePlan)), assoc_set id r (assoc_set id q l) = assoc_set id r l) as Htwice.
  { clear. intros q r l. induction l as [|[k v] l IH]; simpl; [by rewrite String.eqb_refl|].
    destruct (String.eqb id k) eqn:E; simpl; [by rewrite String.eqb_refl|by rewrite E, IH]. }
  unfold set_plans. simpl. rewrite Htwice. by destruct (alert_hook ports id (late_alert row)).
Qed.

(** C17. One attempt decides by the evidence and by nothing else.  It ends a command
    exactly when one of the rules has its evidence, whatever the time and however
    many attempts were made: the row, its event, the proposal of an approval and
    the alert of a failed close are then what the rule says, in one transaction,
    and the plan is dropped.  Without evidence nothing of the journal changes; past
    the fifteen minutes the operator is alerted, once.  An exception of a port
    changes nothing either, unless it is the alert's. *)
Theorem reconcile_once_spec ports id now row s :
  saga_at id row (r_journal s) → l_command_id row = id → in_flight (l_state row) = true →
  let u := as_utc now in
  let p := plan_of id u (plans s) in
  match reconcile_once ports id now s with
  | (Ok r, s') =>
      rr_command_id r = id ∧
      if resolved r
      then critical r = false ∧ ∃ v, evidence has_repo ports row (r_journal s) v ∧
        settled int_of_float has_repo v row u s s'
      else (∀ v, ¬ evidence has_repo ports row (r_journal s) v) ∧ r_journal s' = r_journal s ∧
        plans s' = assoc_set id (seen p u) (plans s) ∧ critical r = alerted (seen p u) ∧
        alerts s' = alerts s ++ (if is_late p u then [(id, late_alert row)] else [])
  | (Raise e, s') =>
      r_journal s' = r_journal s ∨
      ∃ r, evidence has_repo ports row (r_journal s) (reject_close r) ∧
        settled int_of_float has_repo (reject_close r) row u s s'
  end.
Proof.
  intros Hat <- Hf u p. unfold Reconciler.reconcile_once. rewrite bind_on_db. unfold get_row, gets.
  change (ledger_of (db_producer (jdb (r_journal s)))) with (command_ledger (r_journal s)).
  rewrite (ca_row _ _ _ (sa_command _ _ _ Hat)). rewrite set_r_journal_id, Hf. cbn [negb]. fold u.
  pose proof (try_resolve_sound float_repr int_of_float has_repo ports row u s Hat Hf) as Hsound.
  pose proof (evidence_decides float_repr int_of_float has_repo ports row u s) as Hdec.
  rewrite bind_unfold. unfold outcome in Hdec.
  destruct (try_resolve _ _ _ _ row u s) as [[[]|e] s1]; simpl in Hsound, Hdec.
  - rewrite ret_run. split; [done|]. by split.
  - destruct Hsound as (Hj & Hp & Hal & Hrc). rewrite escalate_run.
    assert (plan_of (l_command_id row) u (plans s1) = p) as -> by (unfold p; by rewrite Hp).
    assert (∀ v, ¬ evidence has_repo ports row (r_journal s) v) as Hno by (intros v Hv; by eapply Hdec).
    destruct (is_late p u) eqn:Hl.
    + assert (alerted (seen p u) = true) as Hseen by (unfold seen; by rewrite Hl).
      destruct (alert_hook ports _ _); simpl; [|by left].
      rewrite Hj, Hp, Hal, Hseen. by split_and!.
    + simpl. unfold seen. rewrite Hl, Hj, Hp, Hal, app_nil_r. by split_and!.
  - destruct Hsound as [(Hj & _)|Hr]; [by left|by right].
Qed.

(** ** The operator's settlement *)
Definition settle_verdict (resolve : bool) (reason principal settle_id : string) : verdict :=
  let outcome := [("settled_by", JStr principal); ("reason", JStr reason);
                  ("settle_command_id", JStr settle_id)] in
  if resolve then resolve_only outcome else reject_only OPERATOR_SETTLED outcome.

(** Why a settlement is refused. *)
Definition settle_refusal (target : option LedgerRow) (account : option string) : option string :=
  match target with
  | None => Some "SETTLE_UNKNOWN_COMMAND"%string
  | Some t =>
      if negb (bool_decide (l_account_id t = account)) then Some "SETTLE_UNKNOWN_COMMAND"%string
      else if negb (bool_decide (l_state t = OUTCOME_UNKNOWN)) then Some "SETTLE_NOT_UNKNOWN"%string
      else if negb (bool_decide (l_action t ∈ OPERATOR_SETTLEABLE_ACTIONS))
      then Some "SETTLE_ACTION_FORBIDDEN"%string else None
  end.

Lemma settle_refused ports target resolve reason principal settle_id account s code :
  settle_refusal (command_ledger (r_journal s) !! target) account = Some code →
  settle_by_operator ports target resolve reason principal settle_id account s
  = (Raise (OperatorSettleRefused code), s).
Proof.
  intros Hr. unfold settle_by_operator. rewrite bind_on_db. unfold get_row, gets.
  change (ledger_of (db_producer (jdb (r_journal s)))) with (command_ledger (r_journal s)).
  rewrite set_r_journal_id. destruct (command_ledger _ !! target) as [t|]; simpl in Hr; [|by injection Hr as <-].
  rewrite !bind_require. repeat case_bool_decide; simpl in Hr; by simplify_eq.
Qed.

(** An operator's word settles a command only when it is known on the
    operator's account, its outcome is unknown and its action writes nothing but
    the trader's own rows.  Then the row, its event and its leaving the schedule
    are one step, the answer is the receipt of the row as it now is, the settle
    command itself finds that receipt as its evidence, and no later settlement
    changes the row again; in every other case the refusal changes nothing. *)
Theorem settle_by_operator_spec ports target row resolve reason principal settle_id account s :
  saga_at target row (r_journal s) → l_command_id row = target →
  let run := settle_by_operator ports target resolve reason principal settle_id account s in
  match settle_refusal (Some row) account with
  | Some code => run = (Raise (OperatorSettleRefused code), s)
  | None =>
      let v := settle_verdict resolve reason principal settle_id in
      let now := p_clock ports at_settle target in
      let row' := final_row v now row in
      run.1 = Ok (settle_receipt row') ∧
      settled int_of_float has_repo v row now s run.2 ∧
      (∀ settle, l_target_id settle = target → l_command_id settle = settle_id →
         outcome (settled_by settle) (r_journal run.2) = Ok (Some (settle_receipt row'))) ∧
      ∀ ports2 resolve2 reason2 principal2 id2 account2, ∃ code,
        settle_by_operator ports2 target resolve2 reason2 principal2 id2 account2 run.2
        = (Raise (OperatorSettleRefused code), run.2)
  end.
Proof.
  intros Hat Hid run. pose proof (ca_row _ _ _ (sa_command _ _ _ Hat)) as Hrow.
  destruct (settle_refusal (Some row) account) as [code|] eqn:Href.
  { unfold run. apply settle_refused. by rewrite Hrow. }
  intros v now row'. simpl in Href. repeat (case_bool_decide; simpl in Href; [|done]).
  assert (∃ s1, (if resolve then resolve_command_only ports row
      [("settled_by"%string, JStr principal); ("reason"%string, JStr reason); ("settle_command_id"%string, JStr settle_id)] now
    else reject_command_only ports row OPERATOR_SETTLED
      [("settled_by"%string, JStr principal); ("reason"%string, JStr reason); ("settle_command_id"%string, JStr settle_id)] now) s
    = (Ok tt, s1) ∧ settled int_of_float has_repo v row now s s1) as (s1 & Hrun1 & Hst).
  { subst target. unfold v, settle_verdict. destruct resolve;
      [apply resolve_only_run|apply reject_only_run]; (done || by replace (l_state row) with OUTCOME_UNKNOWN). }
  assert (command_ledger (r_journal s1) !! target = Some row') as Hrow'.
  { rewrite (mv_ledger _ _ _ _ _ _ _ (st_moved _ _ _ _ _ _ _ Hst)), Hid. apply lookup_insert_eq. }
  assert (run = (Ok (settle_receipt row'), set_unreadable (λ u, u ∖ {[target]}) s1)) as ->.
  { unfold run, settle_by_operator. rewrite bind_on_db. unfold get_row at 1, gets at 1.
    change (ledger_of (db_producer (jdb (r_journal s)))) with (command_ledger (r_journal s)).
    rewrite Hrow, set_r_journal_id, !bind_require, !bool_decide_eq_true_2 by done. fold now.
    rewrite bind_unfold. unfold try_except. rewrite Hrun1, bind_modify, bind_on_db. unfold get_row, gets.
    change (ledger_of _) with (command_ledger (r_journal s1)). by rewrite Hrow', ret_run. }
  simpl. split_and!; [done| | |].
  - by destruct Hst; split.
  - intros settle Ht Hs. unfold outcome, settled_by, get_row. rewrite bind_gets, Ht.
    change (ledger_of _) with (command_ledger (r_journal s1)). rewrite Hrow'. simpl.
    assert (names_settle (l_command_id settle) row' = true) as ->; [|done].
    rewrite Hs. unfold row', v, settle_verdict. destruct resolve; apply String.eqb_refl.
  - intros ports2 resolve2 reason2 principal2 id2 account2.
    assert (is_Some (settle_refusal (Some row') account2)) as [code Hcode].
    { simpl. case_bool_decide; [|done]. rewrite bool_decide_eq_false_2; [done|].
      unfold row', v, settle_verdict. by destruct resolve. }
    exists code. apply settle_refused. simpl. by rewrite Hrow'.
Qed.
End attempts.

(** ** Concrete runs *)
Definition ex_rtables : Type := control_table * (proposal_table * (ledger_table * (audit_table * unit))).
Definition ex_unknown (action ttype tid : string) : LedgerRow :=
  mkLedgerRow "c-7" "h" (Some "DU1"%string) action ttype tid (Some 1) OUTCOME_UNKNOWN None
    (Some "DISPATCH_AMBIGUOUS"%string) "cli" (seconds 60) (seconds 75).
Definition ex_rconn (row : LedgerRow) : pconn ex_rtables :=
  mkPconn ∅ (∅, (∅, ({["c-7"%string := row]}, ([], tt)))).
(** A pending proposal, then its claim. *)
Definition ex_claimed_proposal : ProposalRecord := claimed_row (seconds 66) ex_proposal.
Definition ex_rjournal (row : LedgerRow) : DomainJournal ex_rtables :=
  proposal_written ex_claimed_proposal (mutation_for ex_repr ex_claimed_proposal (Some "c-7"%string)) 0
    (proposal_written ex_proposal (mutation_for ex_repr ex_proposal (Some "c-1"%string)) 0
       (empty_journal (ex_rconn row))).
Definition ex_reconciler (row : LedgerRow) : OutcomeReconciler ex_rtables := new_reconciler (ex_rjournal row) [].
(** The broker has the order of group og-c-7. *)
Definition ex_ports : Ports :=
  mkPorts (λ _ _, seconds 90) (λ _ _, mkStamp "u" (seconds 90))
    (λ _ ref, Ok (if String.eqb ref "mmr:og-c-7" then [mkFound [501] (Some "entry"%string) (Some "Submitted"%string) fzero]
                  else []))
    (Ok true) (λ _, Ok None) (λ _ _, Ok tt) None None None None None None None (λ _, Raise CatalogException)
    (λ _, None).

Lemma ex_unknown_at action ttype tid :
  saga_at "c-7" (ex_unknown action ttype tid) (ex_rjournal (ex_unknown action ttype tid)).
Proof.
  assert (authority_ok (ex_rjournal (ex_unknown action ttype tid))) as Ha.
  { apply authority_ok_written; [|reflexivity..].
    apply authority_ok_written; [by apply authority_ok_empty|reflexivity..]. }
  split; [exact Ha|]. split; [apply Ha|reflexivity|]. by intros [].
Qed.

Definition ex_approval : LedgerRow := ex_unknown "approve_proposal" "proposal" "1".
Definition ex_attempt : res ReconcileResult * OutcomeReconciler ex_rtables :=
  reconcile_once ex_repr (λ _, Raise ValueError) true ex_ports "c-7" (Aware (seconds 90) 0)
    (ex_reconciler ex_approval).

Lemma reconcile_once_spec_witness : ∃ v,
  evidence true ex_ports ex_approval (ex_rjournal ex_approval) v ∧
  settled (λ _, Raise ValueError) true v ex_approval (seconds 90) (ex_reconciler ex_approval) ex_attempt.2 ∧
  status <$> proposals (r_journal ex_attempt.2) !! 1 = Some EXECUTED.
Proof.
  pose proof (reconcile_once_spec ex_repr (λ _, Raise ValueError) true ex_ports "c-7" (Aware (seconds 90) 0)
    ex_approval (ex_reconciler ex_approval) (ex_unknown_at _ _ _) eq_refl eq_refl) as Hspec.
  cbv zeta in Hspec. fold ex_attempt in Hspec.
  assert (ex_attempt = (Ok (mkResult "c-7" true false), ex_attempt.2)) as Hrun by (vm_compute; reflexivity).
  rewrite Hrun in Hspec. destruct Hspec as (_ & _ & v & Hev & Hst). exists v.
  split; [exact Hev|]. split; [exact Hst|]. vm_compute. reflexivity.
Defined.

Definition ex_wedged : LedgerRow := ex_unknown "pause_trading" "account" "DU1".
Lemma settle_by_operator_spec_witness :
  (settle_by_operator ex_ports "c-7" true "checked" "ops" "s-1" (Some "DU1"%string) (ex_reconciler ex_wedged)).1
  = Ok (settle_receipt (set_command_state RESOLVED (Some [("settled_by", JStr "ops"); ("reason", JStr "checked");
      ("settle_command_id", JStr "s-1")]) None (seconds 90) ex_wedged)).
Proof.
  pose proof (settle_by_operator_spec (λ _, Raise ValueError) true ex_ports "c-7" ex_wedged true "checked" "ops" "s-1"
    (Some "DU1"%string) (ex_reconciler ex_wedged) (ex_unknown_at _ _ _) eq_refl) as Hspec.
  cbv zeta in Hspec.
  change (settle_refusal (Some ex_wedged) (Some "DU1"%string)) with (@None string) in Hspec.
  destruct Hspec as (Hrun & _). exact Hrun.
Defined.
