(* ===== verification/Schedule.v ===== *)
(** * The reconciler over time ([trader/trading/command_coordinator.py])

    What the calls of [OutcomeReconciler] may touch: their own command's row, plan
    and alerts.  From it: attempts follow their table however often the driver
    polls, an unresolved command alerts the operator once, at its first attempt
    after fifteen minutes, and nobody's clock is reset. *)
From stdpp Require Import base tactics gmap list strings pretty.
From Stdlib Require Import ZArith Lia.
From S2P Require Import Prelude Py Journal Store TradingControl Proposal Command Risk Approval Ledger Reconciler.
Open Scope Z_scope.

Lemma assoc_del_twice {A} id (l : list (string * A)) : assoc_del id (assoc_del id l) = assoc_del id l.
Proof. unfold assoc_del. rewrite list_filter_filter_l; [done|]. done. Qed.
Lemma assoc_assoc_del {A} id k (l : list (string * A)) :
  assoc k (assoc_del id l) = if bool_decide (k = id) then None else assoc k l.
Proof.
  unfold assoc_del. induction l as [|[k' v] l IH]; [by case_bool_decide|].
  rewrite filter_cons. destruct (decide _) as [Hk|Hk]; cbn [assoc fst] in *.
  - destruct (String.eqb_spec k k') as [->|]; [|done]. by rewrite bool_decide_eq_false_2.
  - apply dec_stable in Hk. subst k'. rewrite IH. case_bool_decide; [done|].
    by destruct (String.eqb_spec k id).
Qed.

(** ** What one call touches *)
Section touched.
Context {T : Type} `{HasTable T control_table, HasTable T proposal_table, HasTable T ledger_table,
  HasTable T audit_table, HasTable T risk_table}.
Context (Pc : core → Prop) (Pt : T → Prop) `{!Authority_property Pc Pt}.
Context (float_repr : float → string) (int_of_float : string → res Z) (has_repo : bool) (ports : Ports).
Notation kept := (kept Pc Pt).
Notation kept_tx := (kept_tx Pc Pt).
Implicit Types (s : OutcomeReconciler T).

(** Either the plans and alerts are as before, or the command's plan is gone and
    only alerts of this command were added. *)
Definition left_alone s0 s : Prop := plans s = plans s0 ∧ alerts s = alerts s0.
Definition dropped (id : string) s0 s : Prop :=
  plans s = assoc_del id (plans s0) ∧ ∃ l, alerts s = alerts s0 ++ l ∧ Forall (λ a, a.1 = id) l.
Definition touched (id : string) s0 s : Prop :=
  kept (r_journal s) ∧ received_at_start s = received_at_start s0 ∧ (left_alone s0 s ∨ dropped id s0 s).

Context (row : LedgerRow) (s0 : OutcomeReconciler T).
Notation I := (touched (l_command_id row) s0).

Lemma touched_same s s' : r_journal s' = r_journal s → plans s' = plans s → alerts s' = alerts s →
  received_at_start s' = received_at_start s → I s → I s'.
Proof. unfold touched, left_alone, dropped. by intros -> -> -> ->. Qed.
Lemma touched_journal s j : kept j → I s → I (set_r_journal j s).
Proof. by intros Hj (_ & Hrc & Hs). Qed.

Lemma touches_on_db {A} (m : M (DomainJournal T) A) : preserves kept m → preserves I (on_db m).
Proof. apply preserves_zoom; [by intros s (Hj & _)|by intros s j; intros; apply touched_journal]. Qed.
Lemma touches_ask {A} (r : res A) : preserves I (ask r).
Proof. apply keeps_answer. Qed.
Lemma touches_drop : preserves I (drop_plan (l_command_id row)).
Proof.
  intros s (Hj & Hrc & Hs). split; [done|]. split; [done|]. right. unfold dropped. simpl.
  destruct Hs as [[Hp Ha]|(Hp & l & Ha & Hl)]; rewrite Hp, Ha; rewrite ?assoc_del_twice;
    (split; [done|]); [exists []; by rewrite app_nil_r|by exists l].
Qed.

Lemma keeps_move_row (r : LedgerRow) from to o c now :
  state_typed to o c → preserves kept_tx (move_row ports r from to o c now).
Proof.
  intros Hs. unfold move_row. apply preserves_bind; [by apply (keeps_move_in_tx Pc Pt)|]. intros _.
  apply preserves_bind; [apply keeps_new_mutation|]. intros m.
  apply preserves_bind; [apply (keeps_no_write Pc Pt)|]. intros; apply preserves_ret.
Qed.
Lemma keeps_moved (r : LedgerRow) from to o c now :
  state_typed to o c → preserves kept (mutate_batch_work (move_row ports r from to o c now)).
Proof. intros Hs. by apply (keeps_batch' Pc Pt), keeps_move_row. Qed.

Lemma touches_resolve o now : preserves I (resolve_command_only ports row o now).
Proof.
  apply preserves_bind; [apply touches_on_db, keeps_moved; simpl; eauto|]. intros _. apply touches_drop.
Qed.
Lemma touches_reject code o now : preserves I (reject_command_only ports row code o now).
Proof.
  apply preserves_bind; [apply touches_on_db, keeps_moved; simpl; eauto|]. intros _. apply touches_drop.
Qed.
Lemma touches_resolved {A} o now (a : A) : preserves I (resolve_command_only ports row o now ;; mret a).
Proof. apply preserves_bind; [apply touches_resolve|]. intros; apply preserves_ret. Qed.
Lemma touches_rejected {A} code o now (a : A) : preserves I (reject_command_only ports row code o now ;; mret a).
Proof. apply preserves_bind; [apply touches_reject|]. intros; apply preserves_ret. Qed.

Lemma keeps_mark pid mark now : preserves kept_tx (mark_proposal float_repr has_repo ports row pid mark now).
Proof.
  unfold mark_proposal. destruct pid as [id|]; [|apply preserves_ret].
  destruct (negb has_repo); [apply preserves_ret|].
  apply preserves_bind; [apply preserves_gets|]. intros [r|]; [|apply preserves_ret].
  destruct (negb _); [apply preserves_ret|].
  apply preserves_bind.
  - apply (keeps_tx_producer Pc Pt). destruct mark; apply (keeps_update_returning Pc Pt).
  - intros [pr|]; [|apply preserves_ret]. unfold append_marked.
    apply preserves_bind; [apply keeps_new_mutation|]. intros m.
    apply preserves_bind; [|intros; apply preserves_ret].
    apply keeps_append; [apply (Pc_rows Pc Pt)|]. intros rev. apply preserves_require.
Qed.

Lemma touches_marked {A} mark o now (a : A) :
  preserves I (resolve_marked float_repr int_of_float has_repo ports row mark o now ;; mret a).
Proof.
  apply preserves_bind; [|intros; apply preserves_ret]. unfold resolve_marked.
  apply preserves_bind; [apply touches_ask|]. intros pid.
  apply preserves_bind; [|intros; apply touches_drop]. apply touches_on_db, (keeps_batch' Pc Pt).
  apply preserves_bind; [apply keeps_mark|]. intros _. apply keeps_move_row. simpl. eauto.
Qed.

Lemma touches_receipt {A} r now (a : A) : preserves I (resolve_strategy ports row r now ;; mret a).
Proof.
  apply preserves_bind; [|intros; apply preserves_ret]. unfold resolve_strategy.
  apply preserves_bind; [|intros; apply touches_drop]. apply touches_on_db, (keeps_batch' Pc Pt).
  apply preserves_bind; [apply keeps_new_mutation|]. intros m.
  apply preserves_bind; [apply (keeps_no_write Pc Pt)|]. intros _. apply keeps_move_row. simpl. eauto.
Qed.

Lemma touches_unreadable : preserves I (leave_unreadable row).
Proof. apply preserves_bind; [|intros; apply preserves_ret]. intros s Hs. by eapply touched_same. Qed.

(** A failed close: its alert follows the drop of its plan. *)
Lemma reject_drops code o now s : I s →
  match reject_command_only ports row code o now s with
  | (Ok _, s') => I s' ∧ dropped (l_command_id row) s0 s'
  | (Raise _, s') => I s'
  end.
Proof.
  intros Hs. unfold reject_command_only. rewrite bind_on_db.
  assert (kept (final (mutate_batch_work (move_row ports row (l_state row) REJECTED (Some o) (Some code) now))
    (r_journal s))) as Hj by (apply keeps_moved; [simpl; eauto|apply Hs]).
  unfold final in Hj. destruct (mutate_batch_work _ (r_journal s)) as [[[]|e] j]; simpl in Hj.
  - pose proof (touches_drop _ (touched_journal s j Hj Hs)) as Hd. split; [done|].
    destruct Hs as (_ & _ & [[Hp Ha]|(Hp & l & Ha & Hl)]); unfold dropped; simpl;
      rewrite Hp, Ha, ?assoc_del_twice; (split; [done|]); [exists []; by rewrite app_nil_r|by exists l].
  - by apply touched_journal.
Qed.
Lemma touches_alert d s : I s → dropped (l_command_id row) s0 s →
  I (final (raise_alert ports (l_command_id row) d ;; mret true) s).
Proof.
  intros (Hj & Hrc & _) (Hp & l & Ha & Hl).
  assert (I (add_alert (l_command_id row) d s)) as Hadd.
  { split; [done|]. split; [done|]. right. split; [done|].
    exists (l ++ [(l_command_id row, d)]). simpl. rewrite Ha, app_assoc. split; [done|].
    apply Forall_app. by split; [|repeat constructor]. }
  unfold final, raise_alert. run. unfold ask, answer. by destruct (alert_hook ports _ _).
Qed.
Lemma touches_close_failed r now :
  preserves I (reject_command_only ports row (close_code r) (cl_outcome r) now ;;
    raise_alert ports (l_command_id row) (close_alert row r) ;; mret true).
Proof.
  intros s Hs. pose proof (reject_drops (close_code r) (cl_outcome r) now s Hs) as Hr.
  unfold final. rewrite bind_unfold.
  destruct (reject_command_only _ _ _ _ _ s) as [[[]|e] s1]; [|done].
  destruct Hr. by apply touches_alert.
Qed.

Lemma touches_close now : preserves I (reconcile_close ports row now).
Proof.
  unfold reconcile_close. destruct (closes ports) as [c|]; [|apply preserves_ret].
  apply preserves_bind; [apply touches_ask|]. intros [r|]; [|apply preserves_ret].
  destruct (cl_success r); [apply touches_resolved|apply touches_close_failed].
Qed.

Lemma touches_read {A} (m : M (DomainJournal T) A) :
  preserves kept m → preserves I (read_evidence ports row m).
Proof. intros Hm. unfold read_evidence. destruct (read_fault ports _); [apply preserves_raise|by apply touches_on_db]. Qed.

Lemma touches_own read code absent now :
  (∀ m, read = Some m → preserves I m) →
  preserves I (settle_from_own_commit ports row now read code absent).
Proof.
  intros Hread. unfold settle_from_own_commit. destruct read as [m|]; [|apply preserves_ret].
  destruct (negb _); [apply preserves_ret|]. apply preserves_bind.
  - apply preserves_try; [|intros e k [= <-]; apply preserves_ret].
    apply preserves_bind; [by apply Hread|]. intros; apply preserves_ret.
  - intros [[o|]|]; [apply touches_resolved|apply touches_rejected|apply touches_unreadable].
Qed.

Lemma touches_note (f : OutcomeReconciler T → OutcomeReconciler T) :
  (∀ s, r_journal (f s) = r_journal s) → (∀ s, plans (f s) = plans s) → (∀ s, alerts (f s) = alerts s) →
  (∀ s, received_at_start (f s) = received_at_start s) → preserves I (modify f).
Proof. intros Hj Hp Ha Hr s Hs. by apply (touched_same s). Qed.

(** One step of a resolver: it asks, ends the command, or does nothing. *)
Ltac touch_step :=
  match goal with
  | |- preserves _ (ask _ ≫= _) => apply preserves_bind; [apply touches_ask|intros ?]
  | |- preserves _ (mret _) => apply preserves_ret
  | |- preserves _ (raise _) => apply preserves_raise
  | |- preserves _ (resolve_command_only _ _ _ _ ;; _) => apply touches_resolved
  | |- preserves _ (reject_command_only _ _ _ _ _ ;; _) => apply touches_rejected
  | |- preserves _ (leave_unreadable _) => apply touches_unreadable
  | |- preserves _ (reconcile_close _ _ _) => apply touches_close
  | |- preserves _ (resolve_order _ _ _ _ _ _ _ ;; _) => apply touches_marked
  | |- preserves _ (resolve_never_submitted _ _ _ _ _ _ ;; _) => apply touches_marked
  | |- preserves _ (resolve_strategy _ _ _ _ ;; _) => apply touches_receipt
  | |- preserves _ (modify _ ;; _) =>
      apply preserves_bind; [by apply touches_note|intros _]
  | |- preserves _ (match ?x with _ => _ end) => destruct x
  end.
Ltac touch := repeat touch_step.

Lemma touches_approve now : preserves I (reconcile_approve float_repr int_of_float has_repo ports row now).
Proof. unfold reconcile_approve. touch. Qed.
Lemma touches_flattened now : preserves I (reconcile_flattened_entry ports row now).
Proof. unfold reconcile_flattened_entry. touch. Qed.
Lemma touches_entry now : preserves I (reconcile_automated_entry ports row now).
Proof. unfold reconcile_automated_entry. touch. Qed.
Lemma touches_rooted id : preserves I (has_close_root ports id).
Proof. unfold has_close_root. touch. Qed.
Lemma touches_bracket : preserves I (is_bracket_entry ports row).
Proof. unfold is_bracket_entry. touch. Qed.
Lemma touches_intent now : preserves I (reconcile_automated_intent ports row now).
Proof.
  apply preserves_bind; [apply touches_rooted|]. intros [|]; simpl; [|apply touches_entry].
  apply preserves_bind; [apply touches_bracket|]. intros [[|]|]; [apply touches_flattened|..]; touch.
Qed.
Lemma touches_left_received now : preserves I (reconcile_liquidation_left_received ports row now).
Proof. unfold reconcile_liquidation_left_received. touch. Qed.

(** The reads of the journal's own tables keep anything. *)
Lemma touches_fetched {A B} (m : M (DomainJournal T) A) (k : option A → M (OutcomeReconciler T) B) :
  preserves kept m → (∀ o, preserves I (k o)) →
  preserves I (try_except (o ← read_evidence ports row m; mret (Some o)) (λ _, Some (mret None)) ≫= k).
Proof.
  intros Hm Hk. apply preserves_bind; [|done]. apply preserves_try; [|intros e h [= <-]; touch].
  apply preserves_bind; [by apply touches_read|]. intros; apply preserves_ret.
Qed.
Lemma keeps_final {A} (m : M (DomainJournal T) A) : (∀ j, final m j = j) → preserves kept m.
Proof. intros Hm j Hj. by rewrite Hm. Qed.
Lemma touches_create now : preserves I (reconcile_create ports row now).
Proof.
  apply touches_fetched.
  - apply preserves_bind; [apply preserves_gets|]. intros [r|]; touch.
  - intros [[]|]; touch.
Qed.
Lemma touches_reject_proposal now : preserves I (reconcile_reject has_repo ports row now).
Proof.
  unfold reconcile_reject. destruct (_ || _); [touch|]. destruct (int_of_string _); [|touch].
  apply preserves_bind; [|intros [r|]; touch].
  apply touches_on_db, preserves_bind; [apply preserves_gets|intros; apply preserves_ret].
Qed.
Lemma touches_cancel now : preserves I (reconcile_cancel ports row now).
Proof. unfold reconcile_cancel. touch. Qed.
Lemma touches_cancel_orders now : preserves I (reconcile_cancel_orders ports row now).
Proof.
  apply touches_fetched; [apply keeps_final, read_fan_out_final|]. intros [[|f l]|]; touch.
Qed.
Lemma touches_pause now : preserves I (reconcile_pause ports row now).
Proof.
  apply preserves_bind; [|intros [p|]; touch]. apply preserves_try; [|intros e h [= <-]; touch].
  apply touches_read, preserves_gets.
Qed.
Lemma touches_strategy now : preserves I (reconcile_strategy ports row now).
Proof. unfold reconcile_strategy. touch. Qed.
Lemma touches_reader port code absent now :
  preserves I (settle_from_own_commit ports row now (reader port row) code absent).
Proof.
  apply touches_own. intros m. destruct port; simpl; [|done]. intros [= <-]. apply touches_ask.
Qed.
Lemma touches_experiment now : preserves I (reconcile_experiment ports row now).
Proof.
  apply touches_own. intros m. destruct (experiments ports); simpl; [|done]. intros [= <-]. apply touches_ask.
Qed.
Lemma touches_settle now : preserves I (reconcile_settle ports row now).
Proof.
  apply touches_own. intros m [= <-]. apply touches_read, keeps_final, settled_by_final.
Qed.

Lemma touches_try_resolve now : preserves I (try_resolve float_repr int_of_float has_repo ports row now).
Proof.
  unfold try_resolve. repeat match goal with |- preserves _ (if ?b then _ else _) => destruct b end;
    eauto using touches_approve, touches_create, touches_reject_proposal, touches_cancel, touches_cancel_orders,
      touches_pause, touches_strategy, touches_intent, touches_left_received, touches_close, touches_experiment,
      touches_settle, touches_reader, preserves_ret.
  all: apply touches_reader.
Qed.
End touched.

(** *** Every call of the reconciler keeps such a property of the journal *)
Section keeps_reconciler.
Context {T : Type} `{HasTable T control_table, HasTable T proposal_table, HasTable T ledger_table,
  HasTable T audit_table, HasTable T risk_table}.
Context (Pc : core → Prop) (Pt : T → Prop) `{!Authority_property Pc Pt}.
Context (float_repr : float → string) (int_of_float : string → res Z) (has_repo : bool).
Implicit Types (ports : Ports) (s : OutcomeReconciler T).

Definition rkept s : Prop := kept Pc Pt (r_journal s).

Lemma rkept_on_db {A} (m : M (DomainJournal T) A) : preserves (kept Pc Pt) m → preserves rkept (on_db m).
Proof. by apply preserves_zoom. Qed.
Lemma rkept_touched {A} id (m : M (OutcomeReconciler T) A) :
  (∀ s, preserves (touched Pc Pt id s) m) → preserves rkept m.
Proof. intros Hm s Hs. apply (Hm s s). split; [done|]. split; [done|by left]. Qed.
Lemma rkept_drop id : preserves rkept (drop_plan id).
Proof. by apply preserves_modify. Qed.

Lemma rkept_once ports id now : preserves rkept (reconcile_once float_repr int_of_float has_repo ports id now).
Proof.
  unfold reconcile_once. apply preserves_bind; [apply rkept_on_db, preserves_gets|]. intros [row|];
    [|apply preserves_bind; [apply rkept_drop|intros; apply preserves_ret]].
  destruct (negb _); [apply preserves_bind; [apply rkept_drop|intros; apply preserves_ret]|].
  apply preserves_bind; [eapply rkept_touched; intros s0; by apply touches_try_resolve|].
  intros []; [apply preserves_ret|]. intros s Hs. unfold final. rewrite escalate_run. simpl. by destruct (is_late _ _).
Qed.
Lemma rkept_run_one ports now id : preserves rkept (run_one float_repr int_of_float has_repo ports now id).
Proof.
  unfold run_one. apply preserves_bind; [apply preserves_gets|]. intros [p|]; [|apply preserves_ret].
  destruct (now <? next_due p); [apply preserves_ret|]. apply preserves_bind; [apply rkept_once|]. intros r.
  apply preserves_bind; [apply preserves_gets|]. intros [p'|]; [|apply preserves_ret].
  apply preserves_bind; [by apply preserves_modify|]. intros; apply preserves_ret.
Qed.
Lemma rkept_run_due ports now : preserves rkept (run_due float_repr int_of_float has_repo ports now).
Proof.
  unfold run_due. apply preserves_bind; [apply preserves_gets|]. intros ids.
  apply preserves_bind; [apply preserves_map_each; intros id; apply rkept_run_one|]. intros; apply preserves_ret.
Qed.

Lemma rkept_orphan ports row : preserves rkept (terminalize_pre_dispatch_orphan ports row).
Proof.
  unfold terminalize_pre_dispatch_orphan. apply preserves_try; [|intros e k [= <-]; apply preserves_ret].
  apply preserves_bind; [|intros _; apply preserves_bind; [apply rkept_drop|intros; apply preserves_ret]].
  apply rkept_on_db, (keeps_batch' Pc Pt), (keeps_move_row Pc Pt). simpl. eauto.
Qed.
Lemma rkept_rescan ports : preserves rkept (rescan_on_startup ports).
Proof.
  unfold rescan_on_startup. apply preserves_bind.
  { unfold park_received_at_start. apply preserves_bind; [apply preserves_gets|]. intros l.
    apply preserves_bind; [by apply preserves_modify|]. intros _. apply preserves_for_each. intros row _.
    unfold park_received_row. destruct (bool_decide _).
    - apply preserves_bind; [apply rkept_orphan|]. intros; apply preserves_ret.
    - apply preserves_try; [|intros e k [= <-]; apply preserves_ret].
      apply rkept_on_db, (keeps_batch' Pc Pt), (keeps_move_row Pc Pt). simpl. eauto. }
  intros _. apply preserves_bind; [apply rkept_on_db, preserves_gets|]. intros rows.
  apply preserves_bind; [apply preserves_for_each; intros row _; by apply preserves_modify|]. intros _.
  apply preserves_bind; [apply rkept_on_db, preserves_gets|]. intros orphans.
  apply preserves_bind; [|intros; apply preserves_ret]. apply preserves_map_each. intros row.
  apply preserves_bind; [apply rkept_orphan|]. intros; apply preserves_ret.
Qed.
Lemma rkept_settle ports target resolve reason principal settle_id account :
  preserves rkept (settle_by_operator ports target resolve reason principal settle_id account).
Proof.
  unfold settle_by_operator. apply preserves_bind; [apply rkept_on_db, preserves_gets|].
  intros [row|]; [|apply preserves_raise].
  repeat (apply preserves_bind; [apply preserves_require|intros _]).
  apply preserves_bind.
  { apply preserves_try.
    - eapply rkept_touched. intros s0. destruct resolve; [by apply (touches_resolve Pc Pt)|by apply (touches_reject Pc Pt)].
    - intros [] ?; try done. intros [= <-]. apply preserves_raise. }
  intros _. apply preserves_bind; [by apply preserves_modify|]. intros _.
  apply preserves_bind; [apply rkept_on_db, preserves_gets|].
  intros [t|]; [apply preserves_ret|apply preserves_raise].
Qed.
End keeps_reconciler.

(** ** An attempt that decides nothing leaves the plans and the alerts, one that
    ends the command leaves no plan of it *)
Section silent.
Context {T : Type} `{HasTable T control_table, HasTable T proposal_table, HasTable T ledger_table,
  HasTable T audit_table}.
Context (float_repr : float → string) (int_of_float : string → res Z) (has_repo : bool) (ports : Ports).
Context (row : LedgerRow).
Notation recon := (M (OutcomeReconciler T)).
Implicit Types (s : OutcomeReconciler T).

Definition mute {A} (m : recon A) : Prop :=
  ∀ ps al, preserves (λ s, plans s = ps ∧ alerts s = al) m.
Definition silent (m : recon bool) : Prop := ∀ s,
  match m s with
  | (Ok true, s') => assoc (l_command_id row) (plans s') = None
  | (Ok false, s') => plans s' = plans s ∧ alerts s' = alerts s
  | (Raise _, _) => True
  end.
Definition forgets (m : recon unit) : Prop := ∀ s,
  match m s with (Ok _, s') => assoc (l_command_id row) (plans s') = None | (Raise _, _) => True end.

Lemma mute_ask {A} (r : res A) : mute (ask r).
Proof. intros ps al. apply keeps_answer. Qed.
Lemma mute_on_db {A} (m : M (DomainJournal T) A) : mute (on_db m).
Proof. intros ps al. apply (preserves_zoom (λ _, True)); by try intros ? ?. Qed.
Lemma mute_read {A} (m : M (DomainJournal T) A) : mute (read_evidence ports row m).
Proof. intros ps al. unfold read_evidence. destruct (read_fault _ _); [apply preserves_raise|apply mute_on_db]. Qed.
Lemma mute_fetched {A} (m : M (DomainJournal T) A) :
  mute (try_except (o ← read_evidence ports row m; mret (Some o)) (λ _, Some (mret None))).
Proof.
  intros ps al. apply preserves_try; [|intros e h [= <-]; apply preserves_ret].
  apply preserves_bind; [apply mute_read|]. intros; apply preserves_ret.
Qed.
Lemma silent_bind {A} (m : recon A) k : mute m → (∀ a, silent (k a)) → silent (m ≫= k).
Proof.
  intros Hm Hk s. rewrite bind_unfold. specialize (Hm (plans s) (alerts s) s). unfold final in Hm.
  destruct (m s) as [[a|e] s1]; [|done]. destruct Hm as [Hp Ha]; [done|].
  simpl in Hp, Ha. rewrite <-Hp, <-Ha. apply (Hk a s1).
Qed.
Lemma silent_ret : silent (mret false).
Proof. done. Qed.
Lemma silent_raise e : silent (raise e).
Proof. done. Qed.
Lemma silent_forgets m : forgets m → silent (m ;; mret true).
Proof.
  intros Hm s. rewrite bind_unfold. specialize (Hm s). by destruct (m s) as [[[]|e] s1].
Qed.
Lemma forgets_bind {A} (m : recon A) k : (∀ a, forgets (k a)) → forgets (m ≫= k).
Proof. intros Hk s. rewrite bind_unfold. destruct (m s) as [[a|e] s1]; [apply Hk|done]. Qed.
Lemma forgets_drop : forgets (drop_plan (l_command_id row)).
Proof. intros s. simpl. rewrite assoc_assoc_del. by rewrite bool_decide_eq_true_2. Qed.
Lemma forgets_then_alert (m : recon unit) d :
  forgets m → forgets (m ;; raise_alert ports (l_command_id row) d).
Proof.
  intros Hm s. rewrite bind_unfold. specialize (Hm s). destruct (m s) as [[[]|e] s1]; [|done].
  unfold raise_alert, ask, answer. rewrite bind_modify. by destruct (alert_hook ports _ _).
Qed.
Lemma forgets_resolve o now : forgets (resolve_command_only ports row o now).
Proof. apply forgets_bind. intros _. apply forgets_drop. Qed.
Lemma forgets_reject code o now : forgets (reject_command_only ports row code o now).
Proof. apply forgets_bind. intros _. apply forgets_drop. Qed.
Lemma forgets_marked mark o now : forgets (resolve_marked float_repr int_of_float has_repo ports row mark o now).
Proof. apply forgets_bind. intros pid. apply forgets_bind. intros _. apply forgets_drop. Qed.
Lemma forgets_strategy r now : forgets (resolve_strategy ports row r now).
Proof. apply forgets_bind. intros _. apply forgets_drop. Qed.
Lemma silent_close_failed code o d now :
  silent (reject_command_only ports row code o now ;;
    raise_alert ports (l_command_id row) d ;; mret true).
Proof.
  intros s. pose proof (silent_forgets _ (forgets_then_alert _ d (forgets_reject code o now)) s) as Hs.
  by rewrite bind_assoc in Hs.
Qed.
Lemma silent_note (f : OutcomeReconciler T → OutcomeReconciler T) :
  (∀ s, plans (f s) = plans s) → (∀ s, alerts (f s) = alerts s) → silent (modify f ;; mret false).
Proof.
  intros Hp Ha. apply silent_bind; [|intros; apply silent_ret].
  intros ps al. apply preserves_modify. intros s [<- <-]. by rewrite Hp, Ha.
Qed.

Ltac hush_step :=
  match goal with
  | |- silent (ask _ ≫= _) => apply silent_bind; [apply mute_ask|intros ?]
  | |- silent (try_except _ _ ≫= _) => apply silent_bind; [apply mute_fetched|intros ?]
  | |- silent (mret _) => apply silent_ret
  | |- silent (raise _) => apply silent_raise
  | |- silent (leave_unreadable _) => by apply silent_note
  | |- silent (modify _ ;; mret _) => by apply silent_note
  | |- silent (resolve_command_only _ _ _ _ ;; _) => apply silent_forgets, forgets_resolve
  | |- silent (reject_command_only _ _ _ _ _ ;; raise_alert _ _ _ ;; _) => apply silent_close_failed
  | |- silent (reject_command_only _ _ _ _ _ ;; _) => apply silent_forgets, forgets_reject
  | |- silent (resolve_order _ _ _ _ _ _ _ ;; _) => apply silent_forgets, forgets_marked
  | |- silent (resolve_never_submitted _ _ _ _ _ _ ;; _) => apply silent_forgets, forgets_marked
  | |- silent (resolve_strategy _ _ _ _ ;; _) => apply silent_forgets, forgets_strategy
  | |- silent (match ?x with _ => _ end) => destruct x
  end.
Ltac hush := repeat hush_step.

Lemma silent_close now : silent (reconcile_close ports row now).
Proof. unfold reconcile_close. hush. Qed.
Lemma silent_own now read code absent :
  (∀ m, read = Some m → mute m) → silent (settle_from_own_commit ports row now read code absent).
Proof.
  intros Hread. unfold settle_from_own_commit. destruct read as [m|]; [|hush].
  destruct (negb _); [hush|]. apply silent_bind; [|intros [[o|]|]; hush].
  intros ps al. apply preserves_try; [|intros e k [= <-]; apply preserves_ret].
  apply preserves_bind; [by apply Hread|]. intros; apply preserves_ret.
Qed.
Lemma silent_port {A} (port : option A) (f : A → res (option dict)) code absent now :
  silent (settle_from_own_commit ports row now ((λ a, ask (f a)) <$> port) code absent).
Proof. apply silent_own. destruct port; simpl; [|done]. intros m [= <-]. apply mute_ask. Qed.
Lemma silent_flattened now : silent (reconcile_flattened_entry ports row now).
Proof. unfold reconcile_flattened_entry. destruct (closes ports); hush; apply silent_close. Qed.
Lemma mute_rooted : mute (has_close_root ports (l_command_id row)).
Proof.
  intros ps al. unfold has_close_root. destruct (closes ports); [|apply preserves_ret].
  apply preserves_bind; [apply mute_ask|]. intros; apply preserves_ret.
Qed.
Lemma mute_bracket : mute (is_bracket_entry ports row).
Proof.
  intros ps al. unfold is_bracket_entry. destruct (_ || _); [apply preserves_ret|].
  destruct (saga_row _ _) as [b|[]]; try apply preserves_ret;
    (apply preserves_bind; [by apply preserves_modify|intros; apply preserves_ret]).
Qed.
Lemma silent_intent now : silent (reconcile_automated_intent ports row now).
Proof.
  apply silent_bind; [apply mute_rooted|]. intros [|]; simpl.
  - apply silent_bind; [apply mute_bracket|]. intros [[|]|]; [apply silent_flattened|apply silent_close|hush].
  - unfold reconcile_automated_entry. hush.
Qed.
Lemma silent_reject_proposal now : silent (reconcile_reject has_repo ports row now).
Proof.
  unfold reconcile_reject. destruct (_ || _); [hush|]. destruct (int_of_string _); [|hush].
  apply silent_bind; [apply mute_on_db|]. intros [r|]; hush.
Qed.
Lemma silent_pause now : silent (reconcile_pause ports row now).
Proof.
  apply silent_bind; [|intros [p|]; hush].
  intros ps al. apply preserves_try; [apply mute_read|intros e k [= <-]; apply preserves_ret].
Qed.

Lemma silent_try_resolve now : silent (try_resolve float_repr int_of_float has_repo ports row now).
Proof.
  unfold try_resolve. repeat match goal with |- silent (if ?b then _ else _) => destruct b end;
    try apply silent_port; auto using silent_close, silent_intent, silent_reject_proposal, silent_pause, silent_ret.
  - unfold reconcile_approve. hush.
  - unfold reconcile_create. hush.
  - unfold reconcile_cancel. hush.
  - unfold reconcile_cancel_orders. hush.
  - unfold reconcile_strategy. hush.
  - unfold reconcile_liquidation_left_received. destruct (closes ports); hush. apply silent_close.
  - apply silent_own. intros m [= <-]. apply mute_read.
Qed.
End silent.

(** ** One attempt, and the plans of the others *)
Section attempt.
Context {T : Type} `{HasTable T control_table, HasTable T proposal_table, HasTable T ledger_table,
  HasTable T audit_table, HasTable T risk_table}.
Context `{!Disjoint_tables T proposal_table ledger_table, !Disjoint_tables T ledger_table risk_table}.
Context (float_repr : float → string) (int_of_float : string → res Z) (has_repo : bool).
Notation reconcile_once := (reconcile_once float_repr int_of_float has_repo).
Implicit Types (ports : Ports) (s : OutcomeReconciler T).

(** Every row of the journal's ledger is under its own id. *)
Definition typed s : Prop := kept any_core typed_tables (r_journal s).
Definition alerts_for (id : string) s : nat := length (filter (λ a, a.1 = id) (alerts s)).

(** What a call about one command leaves of another. *)
Record elsewhere (id : string) s s' : Prop := {
  el_typed : typed s';
  el_plans k : k ≠ id → assoc k (plans s') = assoc k (plans s);
  el_alerts k : k ≠ id → alerts_for k s' = alerts_for k s;
}.

Lemma elsewhere_refl id s : typed s → elsewhere id s s.
Proof. by split. Qed.
Lemma elsewhere_trans id s1 s2 s3 : elsewhere id s1 s2 → elsewhere id s2 s3 → elsewhere id s1 s3.
Proof.
  intros H12 H23. split; [apply H23|..]; intros k Hk.
  - by rewrite (el_plans _ _ _ H23), (el_plans _ _ _ H12).
  - by rewrite (el_alerts _ _ _ H23), (el_alerts _ _ _ H12).
Qed.
Lemma alerts_for_app id k l s s' :
  alerts s' = alerts s ++ l → Forall (λ a, a.1 = id) l →
  alerts_for k s' = (alerts_for k s + if bool_decide (k = id) then length l else 0)%nat.
Proof.
  unfold alerts_for. intros -> Hl. rewrite filter_app, length_app. f_equal.
  induction Hl as [|a l Ha Hl IH]; [by case_bool_decide|]. rewrite filter_cons.
  case_bool_decide as Hk; case_decide; simpl; congruence || lia.
Qed.
Lemma elsewhere_touched id s s' : touched any_core typed_tables id s s' → elsewhere id s s'.
Proof.
  intros (Hj & _ & Hs). split; [done|..]; intros k Hk.
  - destruct Hs as [[-> _]|[-> _]]; [done|]. rewrite assoc_assoc_del. by rewrite bool_decide_eq_false_2.
  - destruct Hs as [[_ Ha]|(_ & l & Ha & Hl)]; [by unfold alerts_for; rewrite Ha|].
    rewrite (alerts_for_app id k l s s') by done. rewrite bool_decide_eq_false_2 by done. lia.
Qed.
Lemma elsewhere_set id p s : typed s → elsewhere id s (set_plans (assoc_set id p) s).
Proof. split; [done| |done]. intros k Hk. simpl. by apply assoc_set_ne. Qed.
Lemma elsewhere_drop id s : typed s → elsewhere id s (set_plans (assoc_del id) s).
Proof. split; [done| |done]. intros k Hk. simpl. rewrite assoc_assoc_del. by rewrite bool_decide_eq_false_2. Qed.
Lemma elsewhere_alert id d s : typed s → elsewhere id s (add_alert id d s).
Proof.
  split; [done|done|]. intros k Hk. rewrite (alerts_for_app id k [(id, d)] s) by (done || by repeat constructor).
  rewrite bool_decide_eq_false_2 by done. lia.
Qed.

(** The plan after an attempt that started from plan [p]: gone, or looked at, or
    as it was when a port raised. *)
Definition attempted (id : string) (p : ReconcilePlan) (now : Z) s (run : res ReconcileResult * OutcomeReconciler T)
    : Prop :=
  let s' := run.2 in
  assoc id (plans s') = None
  ∨ (assoc id (plans s') = Some (seen p now)
     ∧ alerts_for id s' = (alerts_for id s + if is_late p now then 1 else 0)%nat)
  ∨ (assoc id (plans s') = Some p ∧ alerts_for id s' = alerts_for id s ∧ ∃ e, run.1 = Raise e).

Lemma escalate_attempted ports row id now p s :
  typed s → assoc id (plans s) = Some p →
  let run := escalate ports row id now s in elsewhere id s run.2 ∧ attempted id p now s run.
Proof.
  intros Ht Hp run. unfold run, attempted. rewrite escalate_run.
  assert (plan_of id now (plans s) = p) as -> by (unfold plan_of; by rewrite Hp).
  pose proof (elsewhere_set id (seen p now) s Ht) as Hset. destruct (is_late p now) eqn:Hl; cbn [snd].
  - split; [eapply elsewhere_trans; [exact Hset|by apply elsewhere_alert]|]. right. left.
    split; [simpl; apply assoc_set_eq|].
    rewrite (alerts_for_app id id [(id, late_alert row)] s) by (done || by repeat constructor).
    by rewrite bool_decide_eq_true_2.
  - split; [done|]. right. left. split; [simpl; apply assoc_set_eq|]. unfold alerts_for. simpl. lia.
Qed.

Lemma attempted_from id p now s s1 run :
  assoc id (plans s1) = assoc id (plans s) → alerts_for id s1 = alerts_for id s →
  attempted id p now s1 run → attempted id p now s run.
Proof. unfold attempted. by intros _ ->. Qed.

Lemma once_attempted ports id now p s :
  typed s → assoc id (plans s) = Some p →
  let run := reconcile_once ports id now s in elsewhere id s run.2 ∧ attempted id p (as_utc now) s run.
Proof.
  intros Ht Hp run. unfold run, Reconciler.reconcile_once. rewrite bind_on_db. unfold get_row, gets.
  rewrite set_r_journal_id.
  assert (elsewhere id s (set_plans (assoc_del id) s)) as Hdrop by by apply elsewhere_drop.
  assert (assoc id (plans (set_plans (assoc_del id) s)) = None) as Hgone.
  { simpl. rewrite assoc_assoc_del. by rewrite bool_decide_eq_true_2. }
  destruct (ledger_of _ !! id) as [row|] eqn:Hr; [|split; [done|by left]].
  destruct (negb (in_flight (l_state row))); [split; [done|by left]|].
  assert (l_command_id row = id) as Hid by by apply (proj2 Ht id row).
  pose proof (touches_try_resolve any_core typed_tables float_repr int_of_float has_repo ports row s (as_utc now) s)
    as Htouch. pose proof (silent_try_resolve float_repr int_of_float has_repo ports row (as_utc now) s) as Hsil.
  rewrite Hid in Htouch, Hsil. unfold final in Htouch. rewrite bind_unfold.
  destruct (try_resolve _ _ _ _ row _ s) as [r s1]; simpl in Htouch, Hsil.
  assert (touched any_core typed_tables id s s1) as Hs1.
  { apply Htouch. split; [apply Ht|]. split; [done|by left]. }
  pose proof (elsewhere_touched _ _ _ Hs1) as Hel. destruct r as [[]|e].
  - split; [done|by left].
  - destruct Hsil as [Hps Hal]. destruct (escalate_attempted ports row id (as_utc now) p s1) as [He Ha];
      [apply Hs1|by rewrite Hps|]. split; [by eapply elsewhere_trans|].
    eapply attempted_from; [by rewrite Hps|by unfold alerts_for; rewrite Hal|done].
  - split; [done|]. destruct Hs1 as (_ & _ & [[Hps Hal]|[Hps _]]).
    + right. right. unfold alerts_for. cbn [fst snd]. rewrite Hps, Hal. eauto.
    + left. cbn [fst snd]. rewrite Hps, assoc_assoc_del. by rewrite bool_decide_eq_true_2.
Qed.
End attempt.

(** ** The attempts of one command, over any run of the reconciler *)

(** The offset of the [k]-th attempt: [RECONCILE_OFFSETS] in closed form, and the
    thirty-second cadence after it. *)
Definition due_offset (k : nat) : Z :=
  if bool_decide (k ≤ 12)%nat then seconds 5 * Z.of_nat k else seconds 30 * Z.of_nat k - seconds 300.
Lemma offsets_closed : RECONCILE_OFFSETS = map due_offset (seq 0 41).
Proof. reflexivity. Qed.
Lemma offset_due k : RECONCILE_OFFSETS !! k = if bool_decide (k < 41)%nat then Some (due_offset k) else None.
Proof.
  rewrite offsets_closed. change (map due_offset) with (fmap (M := list) due_offset). rewrite list_lookup_fmap.
  case_bool_decide; [by rewrite lookup_seq_lt|]. by rewrite lookup_seq_ge by lia.
Qed.
Lemma due_offset_later k : (12 ≤ k)%nat → due_offset (S k) = due_offset k + seconds 30.
Proof. unfold due_offset, seconds. intros. repeat case_bool_decide; lia. Qed.

(** The attempts made so far: when, and whether it completed or a port raised. *)
Definition completed (ts : list (Z * bool)) : nat := length (filter (λ a, a.2 = true) ts).
Definition in_time (t0 : Z) (ts : list (Z * bool)) : Prop :=
  ∀ a t ok b, ts = a ++ (t, ok) :: b → t0 + due_offset (completed a) ≤ t.

Lemma completed_snoc ts t ok : completed (ts ++ [(t, ok)]) = (completed ts + if ok then 1 else 0)%nat.
Proof. unfold completed. rewrite filter_app, length_app. by destruct ok. Qed.
Lemma in_time_snoc t0 ts t ok :
  in_time t0 ts → t0 + due_offset (completed ts) ≤ t → in_time t0 (ts ++ [(t, ok)]).
Proof.
  intros Hts Ht a t' ok' b. destruct b as [|x b _] using rev_ind.
  - intros [-> [= -> ->]]%app_inj_tail. done.
  - rewrite app_comm_cons, app_assoc. intros [E _]%app_inj_tail. by eapply Hts.
Qed.

Section tracked.
Context {T : Type} `{HasTable T control_table, HasTable T proposal_table, HasTable T ledger_table,
  HasTable T audit_table, HasTable T risk_table}.
Context `{!Disjoint_tables T proposal_table ledger_table, !Disjoint_tables T ledger_table risk_table}.
Context (float_repr : float → string) (int_of_float : string → res Z) (has_repo : bool).
Notation run_one := (run_one float_repr int_of_float has_repo).
Notation run_due := (run_due float_repr int_of_float has_repo).
Implicit Types (ports : Ports) (s : OutcomeReconciler T).

Definition attempts_of (now : Z) (run : res (list ReconcileResult) * OutcomeReconciler T) : list (Z * bool) :=
  match run.1 with Ok [] => [] | Ok _ => [(now, true)] | Raise _ => [(now, false)] end.

(** What happens to a reconciler while a command is followed: its walk looks at
    one command after the other, further commands are scheduled, an operator
    settles one, and the rest of the service writes to the journal. *)
Inductive tracked (id : string) (s0 : OutcomeReconciler T) : list (Z * bool) → OutcomeReconciler T → Prop :=
  | tracked_here : tracked id s0 [] s0
  | tracked_own ts s ports now :
      tracked id s0 ts s →
      tracked id s0 (ts ++ attempts_of now (run_one ports now id s)) (final (run_one ports now id) s)
  | tracked_other ts s ports now k :
      tracked id s0 ts s → k ≠ id → tracked id s0 ts (final (run_one ports now k) s)
  | tracked_schedule ts s k now :
      tracked id s0 ts s → (k = id → is_Some (assoc id (plans s))) → tracked id s0 ts (final (schedule k now) s)
  | tracked_settle ts s ports target resolve reason principal settle_id account :
      tracked id s0 ts s →
      tracked id s0 ts (final (settle_by_operator ports target resolve reason principal settle_id account) s)
  | tracked_journal ts s j :
      tracked id s0 ts s → typed_tables (tables (db_producer (jdb j))) → tracked id s0 ts (set_r_journal j s).

Record on_schedule (id : string) (t0 : Z) (n0 : nat) (ts : list (Z * bool)) s (p : ReconcilePlan) : Prop := {
  os_started : started p = t0;
  os_attempt : attempt p = completed ts;
  os_next : if bool_decide (completed ts < 41)%nat then next_due p = t0 + due_offset (completed ts)
            else t0 + due_offset (completed ts) ≤ next_due p;
  os_alerts : alerts_for id s = (n0 + if alerted p then 1 else 0)%nat;
  os_alerted : alerted p = true → ∃ t ok, (t, ok) ∈ ts ∧ CRITICAL_AFTER ≤ t - t0;
  os_late t : (t, true) ∈ ts → CRITICAL_AFTER ≤ t - t0 → alerted p = true;
}.
Definition followed (id : string) (t0 : Z) (n0 : nat) (ts : list (Z * bool)) s : Prop :=
  typed s ∧ in_time t0 ts ∧ ∀ p, assoc id (plans s) = Some p → on_schedule id t0 n0 ts s p.

Lemma followed_elsewhere id t0 n0 ts s s' k : k ≠ id → elsewhere k s s' → followed id t0 n0 ts s → followed id t0 n0 ts s'.
Proof.
  intros Hk [Ht Hps Hal] (_ & Hts & Hp). split; [done|]. split; [done|]. intros p.
  rewrite Hps by done. intros E. destruct (Hp p E). split; try done. by rewrite Hal.
Qed.

Lemma due_now id t0 n0 ts s p : on_schedule id t0 n0 ts s p → t0 + due_offset (completed ts) ≤ next_due p.
Proof. intros [_ _ Hn _ _ _]. case_bool_decide; lia. Qed.

(** The walk's turn of a command that has no plan, or none due, does nothing. *)
Lemma run_one_idle ports now id s :
  (∀ p, assoc id (plans s) = Some p → now < next_due p) → run_one ports now id s = (Ok [], s).
Proof.
  intros Hp. unfold Reconciler.run_one. rewrite bind_gets. destruct (assoc id (plans s)) as [p|] eqn:E; [|done].
  specialize (Hp p eq_refl). by destruct (Z.ltb_spec now (next_due p)); [|lia].
Qed.
Lemma run_one_due ports now id s p :
  assoc id (plans s) = Some p → next_due p ≤ now →
  run_one ports now id s =
    match Reconciler.reconcile_once float_repr int_of_float has_repo ports id (Aware now 0) s with
    | (Ok r, s') =>
        (Ok [r], match assoc id (plans s') with
                 | Some p' => set_plans (assoc_set id (next_attempt p' now)) s'
                 | None => s'
                 end)
    | (Raise e, s') => (Raise e, s')
    end.
Proof.
  intros E Hd. unfold Reconciler.run_one. rewrite bind_gets, E. destruct (Z.ltb_spec now (next_due p)); [lia|].
  rewrite bind_unfold. destruct (Reconciler.reconcile_once _ _ _ _ _ _ s) as [[r|e] s']; [|done].
  rewrite bind_gets. by destruct (assoc id (plans s')).
Qed.

Lemma seen_alerted p now : alerted (seen p now) = alerted p || past_critical p now.
Proof. unfold seen, is_late. destruct (alerted p) eqn:E, (past_critical p now) eqn:E2; simpl; by rewrite ?E. Qed.
Lemma seen_same p now : started (seen p now) = started p ∧ attempt (seen p now) = attempt p ∧
  next_due (seen p now) = next_due p.
Proof. unfold seen. by destruct (is_late p now). Qed.

(** The plan after an attempt looked at it, the alert counted. *)
Lemma on_schedule_seen id t0 n0 ts s s' p now ok :
  on_schedule id t0 n0 ts s p →
  alerts_for id s' = (alerts_for id s + if is_late p now then 1 else 0)%nat →
  alerts_for id s' = (n0 + if alerted (seen p now) then 1 else 0)%nat ∧
  (alerted (seen p now) = true → ∃ t ok', (t, ok') ∈ ts ++ [(now, ok)] ∧ CRITICAL_AFTER ≤ t - t0) ∧
  (∀ t, (t, true) ∈ ts ++ [(now, ok)] → CRITICAL_AFTER ≤ t - t0 → alerted (seen p now) = true).
Proof.
  intros [Hs _ _ Hal Hy Hl] Hc. rewrite seen_alerted. unfold is_late, past_critical in *. rewrite Hs in *. split_and!.
  - rewrite Hc, Hal. destruct (alerted p), (CRITICAL_AFTER <=? now - t0); simpl; lia.
  - intros [Ha|Ha]%orb_true_iff.
    + destruct (Hy Ha) as (t & k & Hin & Ht). exists t, k. split; [|done]. apply elem_of_app. by left.
    + exists now, ok. split; [apply elem_of_app; right; apply list_elem_of_here|lia].
  - intros t [Hin|Hin]%elem_of_app Ht; [by rewrite (Hl t)|]. apply list_elem_of_singleton in Hin as [= -> _].
    apply orb_true_iff. right. lia.
Qed.

Lemma on_schedule_next id t0 n0 ts s s' p now :
  on_schedule id t0 n0 ts s p → next_due p ≤ now →
  alerts_for id s' = (alerts_for id s + if is_late p now then 1 else 0)%nat →
  on_schedule id t0 n0 (ts ++ [(now, true)]) s' (next_attempt (seen p now) now).
Proof.
  intros Hp Hd Hc. destruct (on_schedule_seen _ _ _ _ _ s' _ now true Hp Hc) as (H1' & H2' & H3').
  destruct (seen_same p now) as (Hst & Hat & _). pose proof (due_now _ _ _ _ _ _ Hp) as Hdue.
  assert (S (completed ts) = completed (ts ++ [(now, true)])) as Hn by (rewrite completed_snoc; lia).
  split; try done; unfold next_attempt; cbn [started attempt next_due alerted]; rewrite ?Hst, ?Hat, ?(os_started _ _ _ _ _ _ Hp), ?(os_attempt _ _ _ _ _ _ Hp); [done..|].
  rewrite <-Hn, offset_due. case_bool_decide; [done|]. rewrite due_offset_later by lia. lia.
Qed.
Lemma on_schedule_raised id t0 n0 ts s s' p now :
  on_schedule id t0 n0 ts s p →
  alerts_for id s' = (alerts_for id s + if is_late p now then 1 else 0)%nat →
  on_schedule id t0 n0 (ts ++ [(now, false)]) s' (seen p now).
Proof.
  intros Hp Hc. destruct (on_schedule_seen _ _ _ _ _ s' _ now false Hp Hc) as (H1' & H2' & H3').
  destruct (seen_same p now) as (Hst & Hat & Hnx).
  split; try done; rewrite ?completed_snoc, ?Nat.add_0_r, ?Hst, ?Hat, ?Hnx; apply Hp.
Qed.
Lemma on_schedule_untouched id t0 n0 ts s s' p now :
  on_schedule id t0 n0 ts s p → alerts_for id s' = alerts_for id s →
  on_schedule id t0 n0 (ts ++ [(now, false)]) s' p.
Proof.
  intros [] Hal. split; rewrite ?completed_snoc, ?Nat.add_0_r; try done.
  - congruence.
  - intros Ha. destruct os_alerted0 as (t & k & Hin & Ht); [done|]. exists t, k.
    split; [|done]. apply elem_of_app. by left.
  - intros t [Hin|Hin]%elem_of_app Ht; [by eapply os_late0|]. by apply list_elem_of_singleton in Hin.
Qed.

Lemma followed_own id t0 n0 ts s ports now :
  followed id t0 n0 ts s →
  followed id t0 n0 (ts ++ attempts_of now (run_one ports now id s)) (final (run_one ports now id) s).
Proof.
  intros (Ht & Hts & Hp). unfold final.
  destruct (assoc id (plans s)) as [p|] eqn:E; [|rewrite run_one_idle by (by rewrite E); simpl;
    rewrite app_nil_r; split_and!; by rewrite ?E].
  specialize (Hp p eq_refl). destruct (Z.lt_ge_cases now (next_due p)) as [Hd|Hd].
  { rewrite run_one_idle by (rewrite E; by intros ? [= <-]). simpl. rewrite app_nil_r.
    split_and!; [done..|]. rewrite E. by intros ? [= <-]. }
  rewrite (run_one_due _ _ _ _ p) by done. pose proof (due_now _ _ _ _ _ _ Hp) as Hdue.
  destruct (once_attempted float_repr int_of_float has_repo ports id (Aware now 0) p s Ht E) as [Hel Ha].
  destruct (Reconciler.reconcile_once _ _ _ _ _ _ s) as [r s'].
  assert (as_utc (Aware now 0) = now) as Hnow by (simpl; lia). rewrite Hnow in Ha. unfold attempted in Ha. cbn [fst snd] in Hel, Ha.
  assert (in_time t0 (ts ++ [(now, if r then true else false)])) as Htime by (apply in_time_snoc; [done|lia]).
  destruct r as [r|e]; unfold attempts_of; cbn [fst snd].
  - destruct Ha as [Ha|[[Ha Hc]|(_ & _ & e & He)]]; [..|done]; rewrite Ha; (split; [apply Hel|]); (split; [done|]).
    + by rewrite Ha.
    + simpl. rewrite assoc_set_eq. intros ? [= <-]. by eapply on_schedule_next.
  - split; [apply Hel|]. split; [done|].
    destruct Ha as [Ha|[[Ha Hc]|(Ha & Hc & _)]]; rewrite Ha; [done|intros ? [= <-]..].
    + by eapply on_schedule_raised.
    + by eapply on_schedule_untouched.
Qed.

Lemma run_one_elsewhere ports now k s : typed s → elsewhere k s (final (run_one ports now k) s).
Proof.
  intros Ht. unfold final. destruct (assoc k (plans s)) as [p|] eqn:E;
    [|rewrite run_one_idle by (by rewrite E); by apply elsewhere_refl].
  destruct (Z.lt_ge_cases now (next_due p)) as [Hd|Hd].
  { rewrite run_one_idle by (rewrite E; by intros ? [= <-]). by apply elsewhere_refl. }
  rewrite (run_one_due _ _ _ _ p) by done.
  destruct (once_attempted float_repr int_of_float has_repo ports k (Aware now 0) p s Ht E) as [Hel _].
  destruct (Reconciler.reconcile_once _ _ _ _ _ _ s) as [[r|e] s']; [|done]. cbn [snd] in *.
  destruct (assoc k (plans s')); [|done]. eapply elsewhere_trans; [done|]. apply elsewhere_set, Hel.
Qed.

(** A settlement of a command touches its own plan only. *)
Lemma settle_touches ports target resolve reason principal settle_id account s :
  typed s →
  touched any_core typed_tables target s
    (final (settle_by_operator ports target resolve reason principal settle_id account) s).
Proof.
  intros Ht. assert (touched any_core typed_tables target s s) as Hs by (split; [done|]; split; [done|]; by left).
  unfold settle_by_operator, final. rewrite bind_on_db. unfold get_row at 1, gets at 1. rewrite set_r_journal_id.
  destruct (ledger_of _ !! target) as [row|] eqn:Hr; [|done].
  assert (l_command_id row = target) as <- by by apply (proj2 Ht target row).
  refine ((_ : preserves (touched any_core typed_tables (l_command_id row) s) _) s Hs).
  repeat (apply preserves_bind; [apply preserves_require|intros _]).
  apply preserves_bind.
  { apply preserves_try; [destruct resolve; [apply (touches_resolve any_core typed_tables)|apply (touches_reject any_core typed_tables)]|].
    intros [] ?; try done. intros [= <-]. apply preserves_raise. }
  intros _. apply preserves_bind; [by apply touches_note|]. intros _.
  apply preserves_bind; [by apply touches_on_db, keeps_get_row|].
  intros [t|]; [apply preserves_ret|apply preserves_raise].
Qed.

Lemma followed_settle id t0 n0 ts s ports target resolve reason principal settle_id account :
  followed id t0 n0 ts s →
  followed id t0 n0 ts (final (settle_by_operator ports target resolve reason principal settle_id account) s).
Proof.
  intros Hf. pose proof (settle_touches ports target resolve reason principal settle_id account s (proj1 Hf)) as Ht.
  destruct (decide (target = id)) as [->|Hne]; [|by eapply followed_elsewhere, Hf; [|by apply elsewhere_touched]].
  destruct Hf as (_ & Hts & Hp), Ht as (Hj & _ & Hs). split; [done|]. split; [done|].
  destruct Hs as [[-> Hal]|[-> _]].
  - intros p E. destruct (Hp p E). split; try done. unfold alerts_for in *. by rewrite Hal.
  - rewrite assoc_assoc_del. by rewrite bool_decide_eq_true_2.
Qed.

Lemma followed_schedule id t0 n0 ts s k now :
  (k = id → is_Some (assoc id (plans s))) → followed id t0 n0 ts s → followed id t0 n0 ts (final (schedule k now) s).
Proof.
  intros Hk (Ht & Hts & Hp). split; [done|]. split; [done|]. intros p. unfold final, schedule, modify. simpl.
  intros E. assert (assoc id (plans s) = Some p) as E'.
  { destruct (assoc k (plans s)) eqn:Ek; [done|]. destruct (decide (k = id)) as [->|].
    - destruct (Hk eq_refl). congruence.
    - by rewrite assoc_set_ne in E. }
  by destruct (Hp p E').
Qed.

Lemma followed_tracked id t0 n0 s0 ts s : tracked id s0 ts s → followed id t0 n0 [] s0 → followed id t0 n0 ts s.
Proof.
  intros Htr H0'. induction Htr as [|ts s ports now|ts s ports now k _ IH Hk|ts s k now _ IH Hk
    |ts s ports target resolve reason principal settle_id account _ IH|ts s j _ IH Hj].
  - done.
  - by apply followed_own.
  - eapply followed_elsewhere; [exact Hk|apply run_one_elsewhere, IH|done].
  - by apply followed_schedule, IH.
  - by apply followed_settle, IH.
  - destruct IH as (_ & Hts & Hp). split; [done|]. split; [done|]. intros p E. by destruct (Hp p E).
Qed.

(** A whole poll is such a walk. *)
Lemma walk_tracked id s0 ports now ids ts s :
  tracked id s0 ts s → ∃ ts', tracked id s0 (ts ++ ts') (final (map_each ids (run_one ports now)) s).
Proof.
  revert ts s. induction ids as [|k ids IH]; intros ts s Htr; [exists []; by rewrite app_nil_r|].
  assert (∃ ts', tracked id s0 (ts ++ ts') (final (run_one ports now k) s)) as [ts1 H1'].
  { destruct (decide (k = id)) as [->|]; [by eexists; apply tracked_own|]. exists []. rewrite app_nil_r. by apply tracked_other. }
  destruct (IH _ _ H1') as [ts2 H2']. unfold final in *. cbn [map_each]. rewrite bind_unfold.
  destruct (run_one ports now k s) as [[r|e] s1]; [|by eexists]. simpl in H2'. rewrite bind_unfold.
  exists (ts1 ++ ts2). rewrite app_assoc. by destruct (map_each _ _ s1) as [[]].
Qed.
Lemma poll_tracked id s0 ports now ts s :
  tracked id s0 ts s → ∃ ts', tracked id s0 (ts ++ ts') (final (run_due ports now) s).
Proof.
  intros Htr. destruct (walk_tracked id s0 ports (as_utc now) (map fst (plans s)) ts s Htr) as [ts' Hw].
  exists ts'. unfold final, Reconciler.run_due in *. rewrite bind_gets, bind_unfold.
  by destruct (map_each _ _ s) as [[]].
Qed.

Lemma followed_scheduled id now s :
  typed s → assoc id (plans s) = None →
  followed id (as_utc now) (alerts_for id s) [] (final (schedule id now) s).
Proof.
  intros Ht E. split; [done|]. split; [by intros [] ? ? ?|]. unfold final, schedule, modify. simpl. rewrite E, assoc_set_eq.
  intros ? [= <-]. split; try done; cbn [next_due alerted].
  - change (bool_decide (completed [] < 41)%nat) with true. change (due_offset (completed [])) with 0. cbv iota. lia.
  - intros t Hin. by apply not_elem_of_nil in Hin.
Qed.

(** C18. A command keeps one schedule from the moment it is scheduled until its plan
    is dropped, whatever else the reconciler does: scheduling it again, polling
    early or often, other commands' attempts and settlements change none of it.
    Its start is never reset and its attempt counter counts its completed
    attempts; no attempt, not even one that fails, is made before the table's
    offset for it (0 s, every 5 s up to one minute, then every 30 s), and the
    next one is due exactly at that offset while the table lasts.  The operator is
    alerted at most once: never before an attempt at fifteen minutes, and at the
    latest by the first completed one. *)
Theorem attempts_follow_the_table id now s0 ts s :
  typed s0 → assoc id (plans s0) = None → tracked id (final (schedule id now) s0) ts s →
  let t0 := as_utc now in
  in_time t0 ts ∧
  (∀ p, assoc id (plans s) = Some p →
    started p = t0 ∧ attempt p = completed ts ∧
    ((completed ts < 41)%nat → next_due p = t0 + due_offset (completed ts)) ∧
    t0 + due_offset (completed ts) ≤ next_due p ∧
    alerts_for id s = (alerts_for id s0 + if alerted p then 1 else 0)%nat ∧
    (alerted p = true → ∃ t ok, (t, ok) ∈ ts ∧ CRITICAL_AFTER ≤ t - t0) ∧
    (∀ t, (t, true) ∈ ts → CRITICAL_AFTER ≤ t - t0 → alerted p = true)) ∧
  ∀ ports u, ∃ ts', tracked id (final (schedule id now) s0) (ts ++ ts') (final (run_due ports u) s).
Proof.
  intros Ht E Htr t0. pose proof (followed_scheduled id now s0 Ht E) as H0'.
  destruct (followed_tracked _ _ _ _ _ _ Htr H0') as (_ & Hts & Hp). split_and!; [done| |intros; by apply poll_tracked].
  intros p Ep. specialize (Hp p Ep). pose proof (due_now _ _ _ _ _ _ Hp) as Hd.
  destruct Hp as [Hs Ha Hn Hal Hy Hl]. split_and!; try done. intros Hlt. by rewrite bool_decide_eq_true_2 in Hn by lia.
Qed.
End tracked.

(** ** A concrete run: polled at 0 s, too early at 3 s, at 5 s, and after 15 minutes *)
Definition ex_stables : Type := control_table * (proposal_table * (ledger_table * (audit_table * risk_table))).
Definition ex_sconn (row : LedgerRow) : pconn ex_stables := mkPconn ∅ (∅, (∅, ({["c-7"%string := row]}, ([], ∅)))).
Definition ex_waiting : OutcomeReconciler ex_stables :=
  new_reconciler (empty_journal (ex_sconn (ex_unknown "enable_strategy" "strategy" "s-1"))) [].
Definition ex_poll (at_ : Z) : M (OutcomeReconciler ex_stables) (list ReconcileResult) :=
  run_one ex_repr (λ _, Raise ValueError) true ex_ports (seconds at_) "c-7".
Definition ex_s1 : OutcomeReconciler ex_stables := final (schedule "c-7" (Aware (seconds 90) 0)) ex_waiting.
Definition ex_s2 : OutcomeReconciler ex_stables := final (ex_poll 90) ex_s1.
Definition ex_s3 : OutcomeReconciler ex_stables := final (ex_poll 93) ex_s2.
Definition ex_s4 : OutcomeReconciler ex_stables := final (ex_poll 95) ex_s3.
Definition ex_s5 : OutcomeReconciler ex_stables := final (ex_poll 990) ex_s4.

Lemma ex_polls : tracked ex_repr (λ _, Raise ValueError) true "c-7" ex_s1
  [(seconds 90, true); (seconds 95, true); (seconds 990, true)] ex_s5.
Proof.
  assert (∀ ts s at_ now, tracked ex_repr (λ _, Raise ValueError) true "c-7" ex_s1 ts s → now = seconds at_ →
    tracked ex_repr (λ _, Raise ValueError) true "c-7" ex_s1 (ts ++ attempts_of now (ex_poll at_ s)) (final (ex_poll at_) s)) as Hpoll.
  { intros ts s at_ now Hs ->. by apply tracked_own. }
  exact (Hpoll _ _ 990 _ (Hpoll _ _ 95 _ (Hpoll _ _ 93 _ (Hpoll _ _ 90 _ (tracked_here _ _ _ _ _) eq_refl) eq_refl) eq_refl) eq_refl).
Qed.

Lemma attempts_follow_the_table_witness : ∃ p,
  assoc "c-7"%string (plans ex_s5) = Some p ∧ attempt p = 3%nat ∧ started p = seconds 90 ∧
  next_due p = seconds 105 ∧ alerted p = true ∧ alerts_for "c-7" ex_s5 = 1%nat.
Proof.
  assert (typed ex_waiting) as Ht.
  { split; [done|]. apply map_Forall_singleton. split; [done|]. simpl. eauto. }
  destruct (attempts_follow_the_table ex_repr (λ _, Raise ValueError) true "c-7" (Aware (seconds 90) 0) ex_waiting _ _ Ht eq_refl ex_polls)
    as (_ & Hp & _).
  assert (∃ p, assoc "c-7"%string (plans ex_s5) = Some p) as [p E] by (eexists; vm_compute; reflexivity).
  exists p. destruct (Hp p E) as (Hs & Ha & Hn & _ & Hc & _ & Hl).
  assert (alerted p = true) as Hal.
  { apply (Hl (seconds 990)); [do 2 right; left|vm_compute; discriminate]. }
  split; [exact E|]. split; [exact Ha|]. split; [exact Hs|]. split; [rewrite Hn; [reflexivity|vm_compute; lia]|]. split; [exact Hal|].
  rewrite Hc, Hal. reflexivity.
Defined.
