(* ===== verification/Authority.v ===== *)
(** * The trader's authority as one system

    Commands executed by any number of callers, the approval saga with its broker
    call, the reconciler's polls, settlements and restarts, the daily purge and
    the other stores' transactions, as one step relation over the trader's world.
    Two promises that need all of them: the command ledger stays typed, and an
    approval command sends at most one order however often it is submitted and
    whatever happens while the broker call runs. *)
From stdpp Require Import base tactics gmap list strings.
From Stdlib Require Import ZArith Lia.
From S2P Require Import Prelude Py Journal Store TradingControl Proposal Command Nonce Risk Approval Ledger Reconciler Schedule.
Open Scope Z_scope.

(** ** A recorded event stays *)
Definition recorded (eid : string) (c : core) : Prop := is_Some (select_journal_row eid c).

Lemma recorded_rows eid c c' : recorded eid c → (∃ l, journal c' = journal c ++ l) → recorded eid c'.
Proof.
  unfold recorded, select_journal_row. intros [r Hr] [l ->]. rewrite filter_app.
  destruct (filter _ (journal c)); [done|]. by eexists.
Qed.

Lemma append_recorded {T} st m write eid (t : tx T) e t' :
  append st m write (Some eid) t = (Ok e, t') → recorded eid (db_core (tx_db t')).
Proof.
  unfold append. rewrite bind_gets. simpl default.
  destruct (select_journal_row eid (db_core (tx_db t))) as [row|] eqn:Hs; intros Hrun.
  - apply bind_ok in Hrun as (ev & t1 & H1 & H2). rewrite bind_modify in H2. injection H2 as _ <-.
    destruct (negb _); [done|]. injection H1 as _ <-. by eexists.
  - apply bind_ok in Hrun as (ev & t1 & H1 & H2). rewrite bind_modify in H2. injection H2 as _ <-. simpl.
    apply bind_ok in H1 as (rev & t2 & _ & H1). apply bind_ok in H1 as ([] & t3 & _ & H1).
    apply bind_ok in H1 as ([] & t4 & _ & H1). revert H1. unfold in_core, zoom, insert_journal_row.
    destruct (existsb _ _); [done|]. intros [= _ <-]. unfold recorded, select_journal_row. simpl.
    rewrite filter_app, filter_cons_True by done. destruct (filter _ (journal _)); by eexists.
Qed.

Lemma mutate_recorded {T} st m write eid (j : DomainJournal T) e j' :
  mutate st m write (Some eid) j = (Ok e, j') → recorded eid (jcore j').
Proof.
  rewrite mutate_unfold. destruct (append st m write (Some eid) (mkTx (jdb j) [])) as [[ev|ex] t] eqn:Ha; [|done].
  intros [= _ <-]. assert (recorded eid (db_core (tx_db t))) as Hr by by eapply append_recorded.
  unfold final. rewrite mutate_batch_work_spec. unfold outcome, final. by rewrite Ha.
Qed.

(** A won claim is the first record of its command. *)
Lemma receive_new {T E} `{HasTable T ledger_table} `{!NonceGate T, !AuditSink T} sha256_hex
    (reg : ActionRegistration (T := T) (E := E)) r tm (j j' : DomainJournal T) :
  receive sha256_hex reg r tm j = (Ok None, j') →
  ¬ recorded (command_event_id (command_id r) RECEIVED) (jcore j) ∧
  recorded (command_event_id (command_id r) RECEIVED) (jcore j').
Proof.
  unfold receive. intros Hrun. apply bind_ok in Hrun as (u & j1 & H1 & Hrun).
  assert (j1 = j) as -> by (destruct (mo_now tm); [done|by injection H1]).
  rewrite bind_new_mutation in Hrun by done.
  apply bind_ok in Hrun as (claimed & j2 & Hc & Hrun). destruct claimed as [[|row l]|rc].
  - apply bind_ok in Hrun as (? & ? & _ & [=]).
  - injection Hrun as <-. unfold try_except in Hc.
    match type of Hc with match ?m j with _ => _ end = _ => destruct (m j) as [[x|e] jx] eqn:Hm end.
    + injection Hc as -> ->. apply bind_ok in Hm as (ins & j3 & Hw & Hm). injection Hm as -> ->.
      unfold mutate_written in Hw. destruct (mutate _ _ _ _ j) as [[ev|e] j4] eqn:Hmut; [|done].
      injection Hw as Hl ->. split; [|by eapply mutate_recorded].
      unfold recorded. intros [r' Hr']. change (db_core (jdb j)) with (jcore j) in Hl. by rewrite Hr' in Hl.
    + destruct e; try done. apply bind_ok in Hc as (? & ? & _ & [=]).
  - done.
Qed.

Section authority.
Context {T : Type} `{HasTable T control_table, HasTable T proposal_table, HasTable T ledger_table,
  HasTable T audit_table, HasTable T risk_table}.
Context `{!Disjoint_tables T proposal_table ledger_table, !Disjoint_tables T ledger_table risk_table}.
Context (float_repr : float → string) (int_of_float : string → res Z) (sha256_hex : string → string).
Context (has_repo : bool).
Notation world := (world T (list dispatch)).
Notation Ports := (Approval.Ports (T := T)).
Implicit Types (w : world) (j : DomainJournal T) (env : list dispatch).

(** ** The system *)

(** What the approval service is wired with. *)
Record approval_service : Type := mkService {
  as_account : string;
  as_mode : string;
  as_outside_session : bool;
  as_paper_max : option float;
  as_clock : reading → Z;
  as_stamps : reading → stamp;
}.
Definition approve_with (sv : approval_service) (hook : string → Z → res unit) (ports : Ports)
    : CommandRequest → M world CommandReceipt :=
  approve float_repr (as_account sv) (as_mode sv) (as_outside_session sv) (as_paper_max sv) hook
    (as_clock sv) (as_stamps sv) ports.

(** [rows' = rows + new ones], and the ledger as it was: a transaction of any
    other store. *)
Definition elsewhere_written j j' : Prop :=
  (∃ l, journal (jcore j') = journal (jcore j) ++ l) ∧ command_ledger j' = command_ledger j.

(** One or more things that happen to the trader.  While a broker call runs, and
    inside any other handler, further steps may happen, also the same command
    submitted again. *)
Inductive steps : world → world → Prop :=
  | steps_none w : steps w w
  | steps_more w1 w2 w3 : steps w1 w2 → steps w2 w3 → steps w1 w3
  | step_command (gate : NonceGate T) (sink : AuditSink T) sv hook ports others r t1 t2 t3 w :
      (∀ d w1, steps w1 (final (po_submit ports d) w1)) →
      (∀ a reg, others !! a = Some reg → ∀ r' w1, steps w1 (handled reg r' w1)) →
      steps w (final (execute (NonceGate0 := gate) (AuditSink0 := sink) sha256_hex (Some hook)
        (register_action "approve_proposal" (saga (approve_with sv hook ports) true) others) r t1 t2 t3) w)
  | step_poll (s : OutcomeReconciler T) rports now w :
      r_journal s = w_journal w →
      steps w (set_journal (r_journal (final (run_due float_repr int_of_float has_repo rports now) s)) w)
  | step_settle (s : OutcomeReconciler T) rports target resolve reason principal settle_id account w :
      r_journal s = w_journal w →
      steps w (set_journal (r_journal (final
        (settle_by_operator rports target resolve reason principal settle_id account) s)) w)
  | step_restart (s : OutcomeReconciler T) rports w :
      r_journal s = w_journal w → steps w (set_journal (r_journal (final (rescan_on_startup rports) s)) w)
  | step_purge now w : steps w (set_journal (final (purge_expired now) (w_journal w)) w)
  | step_elsewhere j w : elsewhere_written (w_journal w) j → steps w (set_journal j w).

(** ** The invariant *)

(** The orders sent for a command's group. *)
Definition sent (id : string) env : nat := length (filter (λ d, sent_order_group d = ("og-" +:+ id)%string) env).
Definition received_at (id : string) (c : core) : Prop := recorded (command_event_id id RECEIVED) c.
(** Every command that sent an order has its RECEIVED event. *)
Definition logged env (c : core) : Prop := ∀ id, sent id env ≠ 0%nat → received_at id c.

Lemma rows_typed (Pc : core → Prop) :
  (∀ c c', Pc c → (∃ l, journal c' = journal c ++ l) → Pc c') → Authority_property (T := T) Pc typed_tables.
Proof. intros Hc. destruct typed_authority. by split. Qed.
Global Instance logged_property env : Authority_property (T := T) (logged env) typed_tables.
Proof. apply rows_typed. intros c c' Hc Hl id Hs. by eapply recorded_rows; [apply Hc|]. Qed.
Definition ready_rows id env (c : core) : Prop := logged env c ∧ received_at id c.
Global Instance ready_property id env : Authority_property (T := T) (ready_rows id env) typed_tables.
Proof.
  apply rows_typed. intros c c' [Hc Hr] Hl. split; [|by eapply recorded_rows].
  intros id' Hs. by eapply recorded_rows; [apply Hc|].
Qed.

Definition intact w : Prop :=
  kept (logged (w_env w)) typed_tables (w_journal w) ∧ ∀ id, (sent id (w_env w) ≤ 1)%nat.
(** A command that is recorded and has sent nothing yet. *)
Definition ready id w : Prop :=
  kept (ready_rows id (w_env w)) typed_tables (w_journal w) ∧
  (∀ id', (sent id' (w_env w) ≤ 1)%nat) ∧ sent id (w_env w) = 0%nat.

Lemma ready_intact id w : ready id w → intact w.
Proof. by intros ([[] ?] & ? & _). Qed.

(** An invariant of the journal that the log of orders selects. *)
Lemma env_invariant (Pc : list dispatch → core → Prop) (Q : list dispatch → Prop) :
  (∀ env, Authority_property (T := T) (Pc env) typed_tables) →
  World_invariant typed_tables (λ w, kept (Pc (w_env w)) typed_tables (w_journal w) ∧ Q (w_env w)).
Proof.
  intros HPc. split; [|done]. intros A m Hm w [Hk HQ]. specialize (Hm _ (HPc (w_env w)) _ Hk).
  unfold final, on_journal, zoom in *. by destruct (m (w_journal w)).
Qed.
Global Instance intact_invariant : World_invariant typed_tables intact.
Proof. apply (env_invariant logged (λ env, ∀ id, (sent id env ≤ 1)%nat)). apply _. Qed.
Global Instance ready_invariant id : World_invariant typed_tables (ready id).
Proof.
  apply (env_invariant (ready_rows id) (λ env, (∀ id', (sent id' env ≤ 1)%nat) ∧ sent id env = 0%nat)). apply _.
Qed.

(** ** What any number of steps keeps *)
Lemma gate_keeps (gate : NonceGate T) n r : preserves (kept_conn typed_tables) (consume_in_tx n r).
Proof. intros p Hp. unfold kept_conn, typed_tables. change (tget (tables ?q)) with (ledger_of q). by rewrite consume_keeps_ledger. Qed.
Lemma sink_keeps (sink : AuditSink T) r c now : preserves (kept_conn typed_tables) (write_audit r c now).
Proof. intros p Hp. unfold kept_conn, typed_tables. change (tget (tables ?q)) with (ledger_of q). by rewrite audit_keeps_ledger. Qed.
Lemma purge_keeps Pc now : Authority_property (T := T) Pc typed_tables →
  preserves (kept Pc typed_tables) (purge_expired now).
Proof.
  intros HPc. apply keeps_plain; [apply (Pc_rows Pc typed_tables)|]. apply keeps_in_producer. intros p Hp.
  unfold final. rewrite bind_gets, bind_modify. unfold kept_conn, typed_tables in *. simpl. rewrite tget_tset.
  intros id row [Hr _]%map_lookup_filter_Some. by apply Hp.
Qed.

(** Every step other than a command is a change of the journal of this kind. *)
Definition journal_step j j' : Prop :=
  ∀ Pc, Authority_property (T := T) Pc typed_tables → kept Pc typed_tables j → kept Pc typed_tables j'.

Lemma elsewhere_step j j' : elsewhere_written j j' → journal_step j j'.
Proof.
  intros [Hl Hrow] Pc HPc [Hc Ht]. split; [by eapply (Pc_rows Pc typed_tables)|].
  unfold typed_tables in *. change (tget (tables (db_producer (jdb j')))) with (command_ledger j').
  by rewrite Hrow.
Qed.

Section invariant.
Context (I : world → Prop) (J : CommandRequest → world → Prop).
Context `{!World_invariant typed_tables I} `{!∀ r, World_invariant typed_tables (J r)}.
Hypothesis I_step : ∀ w j, journal_step (w_journal w) j → I w → I (set_journal j w).
Hypothesis won_ready : ∀ (gate : NonceGate T) (sink : AuditSink T) reg r w,
  won I sha256_hex reg r w → J r w.
Hypothesis ready_holds : ∀ r w, J r w → I w.
Hypothesis sending : ∀ r w d, J r w → sent_order_group d = group_of r →
  I (mkWorld (w_journal w) (scheduled w) (w_env w ++ [d])).

Lemma steps_keep w w' : steps w w' → I w → I w'.
Proof.
  induction 1 as [| |gate sink sv hook ports others r t1 t2 t3 w Hport IHport Hothers IHothers| | | | |]; intros Hw.
  - done.
  - auto.
  - refine (calls_execute typed_tables I sha256_hex (Some hook) _ _ _ r t1 t2 t3 _ w Hw);
      [apply gate_keeps|apply sink_keeps|].
    intros a reg Ha w1 Hwon. unfold register_action in Ha.
    destruct (decide (a = "approve_proposal"%string)) as [->|Hne].
    + rewrite lookup_insert_eq in Ha. injection Ha as <-. simpl.
      refine (calls_approve typed_tables I float_repr _ _ _ _ hook _ _ (J r) ports r (ready_holds r) _ _ w1 _);
        [| |by apply (won_ready gate sink _ r w1 Hwon)].
      * apply (wi_journal typed_tables). intros Pc HPc. by apply (keeps_prepare Pc typed_tables).
      * intros d w2 Hw2 Hd. unfold submit, final. rewrite bind_modify. apply IHport. by eapply sending.
    + rewrite lookup_insert_ne in Ha by done. eapply IHothers; [exact Ha|].
      eapply (won_holds typed_tables I); [apply gate_keeps|apply sink_keeps|exact Hwon].
  - apply I_step; [|done]. intros Pc HPc Hk. refine (rkept_run_due Pc typed_tables float_repr int_of_float has_repo rports now s _).
    unfold rkept. by replace (r_journal s) with (w_journal w).
  - apply I_step; [|done]. intros Pc HPc Hk. refine (rkept_settle Pc typed_tables rports _ _ _ _ _ _ s _).
    unfold rkept. by replace (r_journal s) with (w_journal w).
  - apply I_step; [|done]. intros Pc HPc Hk. refine (rkept_rescan Pc typed_tables rports s _).
    unfold rkept. by replace (r_journal s) with (w_journal w).
  - apply I_step; [|done]. intros Pc HPc Hk. by apply purge_keeps.
  - apply I_step; [|done]. by apply elsewhere_step.
Qed.
End invariant.


Lemma sent_snoc id env d :
  sent id (env ++ [d]) = (sent id env + if bool_decide (sent_order_group d = "og-" +:+ id)%string then 1 else 0)%nat.
Proof.
  unfold sent. rewrite filter_app, length_app, filter_cons, filter_nil. f_equal.
  case_bool_decide; by case_decide.
Qed.

Lemma won_is_ready (gate : NonceGate T) (sink : AuditSink T) reg r w :
  won intact sha256_hex reg r w → ready (command_id r) w.
Proof.
  intros Hwon. assert (intact w) as [[Hl Ht] Hone]
    by (refine (won_holds typed_tables intact sha256_hex _ _ reg r w Hwon); [apply gate_keeps|apply sink_keeps]).
  destruct Hwon as (w0 & tm & j & [[Hl0 _] _] & Hr & ->). apply receive_new in Hr as [Hold Hnew].
  split; [by split|]. split; [done|]. destruct (decide (sent (command_id r) (w_env w0) = 0%nat)) as [|Hs]; [done|].
  by destruct Hold; apply Hl0.
Qed.

Lemma ready_sends r w d : ready (command_id r) w → sent_order_group d = group_of r →
  intact (mkWorld (w_journal w) (scheduled w) (w_env w ++ [d])).
Proof.
  intros ([[Hl Hr] Ht] & Hone & Hs) Hd. unfold group_of in Hd.
  assert (∀ id, sent id (w_env w ++ [d]) =
    (sent id (w_env w) + if bool_decide (command_id r = id) then 1 else 0)%nat) as Hc.
  { intros id. rewrite sent_snoc, Hd. f_equal. repeat case_bool_decide; try done; [|congruence].
    by match goal with E : ("og-" +:+ _)%string = _ |- _ => apply string_app_cancel in E end. }
  split; [split; [|done]|]; intros id; simpl; rewrite Hc; case_bool_decide as E.
  - intros _. by subst id.
  - rewrite Nat.add_0_r. apply Hl.
  - subst id. rewrite Hs. lia.
  - rewrite Nat.add_0_r. apply Hone.
Qed.

(** C19. An approval command sends at most one order.  Start with no order sent and
    let anything happen: any commands in any order, the same command again while
    its broker call is still running or after it ended in any way, a nonce or an
    audit record refused, attempts of the reconciler, settlements, restarts, the
    purge of its row.  No order group is ever handed to the broker twice, and one
    that was belongs to a command whose RECEIVED event is in the journal. *)
Theorem one_order_per_approval w w' id :
  w_env w = [] → ledger_typed (command_ledger (w_journal w)) → steps w w' →
  (sent id (w_env w') ≤ 1)%nat ∧ (sent id (w_env w') ≠ 0%nat → received_at id (jcore (w_journal w'))).
Proof.
  intros Henv Ht Hs. assert (intact w) as Hw.
  { split; [split; [|exact Ht]|]; rewrite Henv; [by intros ? []|intros; simpl; unfold sent; simpl; lia]. }
  assert (intact w') as [[Hl _] Hone]; [|by split; [apply Hone|apply Hl]].
  refine (steps_keep intact (λ r, ready (command_id r)) _ _ _ _ w w' Hs Hw).
  - intros w1 j Hj [Hk Hone]. split; [|done]. by apply Hj; [apply _|].
  - intros gate sink reg r w1. apply won_is_ready.
  - intros r w1. apply ready_intact.
  - intros r w1 d. apply ready_sends.
Qed.
End authority.

(** ** A concrete run: an approval submitted twice *)
Definition ex_adb : Type := control_table * (proposal_table * (ledger_table * (audit_table * risk_table))).
(** A gate that lets every nonce pass. *)
Definition ex_gate : NonceGate ex_adb.
Proof. by refine {| consume_in_tx := λ _ _, mret true |}. Defined.
Definition ex_ajournal : DomainJournal ex_adb :=
  proposal_written ex_proposal (mutation_for ex_repr ex_proposal (Some "cmd-1"%string)) 0
    (empty_journal (mkPconn ∅ (ex_controls, (∅, (∅, ([], ∅)))))).
Definition ex_start : world ex_adb (list dispatch) := mkWorld ex_ajournal [] [].
Definition ex_aports : Approval.Ports (T := ex_adb) :=
  Approval.mkPorts (Ok (mkSnapshot 3 9 (λ _, fzero))) (λ _ _, true)
    (λ _ side, Ok (Some (mkQuote 265598 side ex_price (Aware (seconds 60) 0) "live" "continuous")))
    None (λ d w, (Ok [501], w)).
Definition ex_service : approval_service := mkService "DU1" "paper" false None ex_clock ex_stamps.
Definition ex_hook (id : string) (at_ : Z) : res unit := Ok tt.
Definition ex_submit : M (world ex_adb (list dispatch)) CommandReceipt :=
  execute (NonceGate0 := ex_gate) (AuditSink0 := command_audit_sink ex_adb) ex_hash (Some ex_hook)
    (register_action "approve_proposal" (saga (approve_with ex_repr ex_service ex_hook ex_aports) true) ∅) ex_cmd
    (mkMoment (Aware (seconds 60) 0) (mkStamp "u" (seconds 60)))
    (mkMoment (Aware (seconds 80) 0) (mkStamp "v" (seconds 80))) (Aware (seconds 80) 0).
Definition ex_end : world ex_adb (list dispatch) := final ex_submit (final ex_submit ex_start).

Lemma ex_submitted_twice : steps ex_repr (λ _, Raise ValueError) ex_hash true ex_start ex_end.
Proof.
  assert (∀ w, steps ex_repr (λ _, Raise ValueError) ex_hash true w (final ex_submit w)) as Hone.
  { intros w. refine (step_command _ _ _ _ ex_gate (command_audit_sink ex_adb) ex_service ex_hook ex_aports ∅ ex_cmd
      _ _ _ w _ _); [intros d w1; apply steps_none|by intros a reg]. }
  eapply steps_more; apply Hone.
Qed.


Lemma one_order_per_approval_witness :
  sent "c-7" (w_env ex_end) = 1%nat ∧ received_at "c-7" (jcore (w_journal ex_end)).
Proof.
  assert (sent "c-7" (w_env ex_end) = 1%nat) as Hs by (vm_compute; reflexivity). split; [exact Hs|].
  apply (one_order_per_approval ex_repr (λ _, Raise ValueError) ex_hash true ex_start ex_end "c-7");
    [reflexivity|apply map_Forall_empty|exact ex_submitted_twice|by rewrite Hs].
Defined.
