(* ===== verification/Saga.v ===== *)
(** * Steps the command sagas share ([trader/trading/command_coordinator.py])

    The cancel and the strategy-control services move a command through its
    ledger states the same way: the row and the [command.updated] event in one
    transaction, alone or with other writes, and an ambiguous dispatch is parked
    as OUTCOME_UNKNOWN for the reconciler.  Each service has its own clock
    readings, the parameter [R] here. *)
From stdpp Require Import base tactics gmap list strings.
From Stdlib Require Import ZArith Lia.
From S2P Require Import Prelude Py Journal Store Command Approval.
Open Scope Z_scope.

Section steps.
Context {T E R : Type} `{HasTable T ledger_table}.
Context (reconciler : string → Z → res unit) (clock : R → Z) (stamps : R → stamp).
Notation world := (world T E).

(** [_transition_command] *)
Definition move_command (cmd : CommandRequest) (from to : command_state) (outcome : option dict)
    (code : option string) (t : R) : M (DomainJournal T) unit :=
  m ← new_mutation (command_updated_mutation cmd to (clock t) outcome code);
  mutate (stamps t) m
    (λ _, transition_in_tx (command_id cmd) from to outcome code (clock t) ;; mret tt)
    (Some (command_event_id (command_id cmd) to)) ;;
  mret tt.

(** The command's update and its event, inside a transaction. *)
Definition move_in_work (cmd : CommandRequest) (from to : command_state) (outcome : option dict)
    (t t_event : R) : M (tx T) unit :=
  in_producer (transition_in_tx (command_id cmd) from to outcome None (clock t)) ;;
  m ← new_mutation (command_updated_mutation cmd to (clock t_event) outcome None);
  append (stamps t_event) m (λ _, mret tt) (Some (command_event_id (command_id cmd) to)) ;;
  mret tt.

Definition ambiguous : option string := Some "DISPATCH_AMBIGUOUS"%string.

(** An ambiguous dispatch: the reconciler finds out what became of it. *)
Definition park_unknown (cmd : CommandRequest) (outcome : option dict) (t t_schedule : R) : M world CommandReceipt :=
  on_journal (move_command cmd SUBMITTING OUTCOME_UNKNOWN outcome ambiguous t) ;;
  call_schedule reconciler (command_id cmd) (clock t_schedule) ;;
  mret (receipt (command_id cmd) OUTCOME_UNKNOWN ambiguous false outcome).
End steps.

(** ** The steps, run *)
Lemma bind_answer {S A B} (r : res A) (k : A → M S B) s :
  (answer r ≫= k) s = match r with Ok a => k a s | Raise e => (Raise e, s) end.
Proof. by destruct r. Qed.

Section journal.
Context {T : Type} `{HasTable T ledger_table}.
Implicit Types (j : DomainJournal T) (p : pconn T).

(** The same journal over another connection state. *)
Definition with_producer p j : DomainJournal T := mkJournal (mkDb (jcore j) p) (latest_committed_cursor j).

Lemma command_at_producer id row p j :
  command_at id row j → ledger_of p = command_ledger j → command_at id row (with_producer p j).
Proof. intros [[] Hr Hf] Hp. split; [by split|by unfold command_ledger; simpl; rewrite Hp|done]. Qed.

Lemma db_eta j : mkDb (jcore j) (db_producer (jdb j)) = jdb j.
Proof. unfold jcore. by destruct (jdb j). Qed.

Lemma with_producer_id j : with_producer (db_producer (jdb j)) j = j.
Proof. unfold with_producer. rewrite db_eta. by destruct j. Qed.

Lemma refused_run {A} (w : M (tx T) A) j e p' evs :
  w (mkTx (jdb j) []) = (Raise e, mkTx (mkDb (jcore j) p') evs) →
  mutate_batch_work w j = (Raise e, with_producer (mkPconn (seqs p') (tables (db_producer (jdb j)))) j).
Proof.
  intros Hw. rewrite (mutate_batch_work_run _ _ _ _ Hw). unfold with_producer, jcore, rollback. simpl.
  by destruct (db_core (jdb j)).
Qed.
End journal.

Section runs.
Context {T E R : Type} `{HasTable T ledger_table}.
Context (reconciler : string → Z → res unit) (clock : R → Z) (stamps : R → stamp).
Notation world := (world T E).
Implicit Types (j : DomainJournal T) (p : pconn T) (cmd : CommandRequest) (w : world).

(** The command's row after its move to [to], and the journal with it. *)
Definition moved_row (to : command_state) (o : option dict) (c : option string) (t : R)
    (row : LedgerRow) : LedgerRow := set_command_state to o c (clock t) row.
Definition moved_journal cmd (to : command_state) (o : option dict) (c : option string)
    (t te : R) (row : LedgerRow) j : DomainJournal T :=
  command_written (command_id cmd) (moved_row to o c t row) to (command_updated_mutation cmd to (clock te) o c)
    (st_now (stamps te)) j.

Lemma moved_at cmd to o c t te row j :
  command_at (command_id cmd) row j → to ∉ passed (l_state row) →
  command_at (command_id cmd) (moved_row to o c t row) (moved_journal cmd to o c t te row j).
Proof. intros Hat Hto. by apply (command_at_written _ row). Qed.

Lemma move_command_run cmd from to o c t j row :
  command_at (command_id cmd) row j → l_state row = from → to ∉ passed from →
  move_command clock stamps cmd from to o c t j = (Ok tt, moved_journal cmd to o c t t row j).
Proof.
  intros [Hj Hr Hf] <- Hto. unfold move_command. rewrite bind_new_mutation by done.
  rewrite bind_unfold, mutate_spec by done. simpl. rewrite Hf by done.
  by rewrite bind_unfold, (transition_in_tx_run _ _ _ _ _ _ _ row).
Qed.

Lemma on_move_command {A} cmd from to o c t w row (k : unit → M world A) :
  command_at (command_id cmd) row (w_journal w) → l_state row = from → to ∉ passed from →
  (on_journal (move_command clock stamps cmd from to o c t) ≫= k) w =
    k tt (set_journal (moved_journal cmd to o c t t row (w_journal w)) w).
Proof. intros Hat Hs Hto. by rewrite bind_on_journal, (move_command_run _ _ _ _ _ _ _ row). Qed.

Lemma move_in_work_run cmd from to o t te p j row :
  command_at (command_id cmd) row j → ledger_of p = command_ledger j → l_state row = from → to ∉ passed from →
  ∃ ev, move_in_work clock stamps cmd from to o t te (mkTx (mkDb (jcore j) p) []) =
    (Ok tt, mkTx (jdb (moved_journal cmd to o None t te row (with_producer p j))) [ev]) ∧
    signalled (latest_committed_cursor j) [ev] = cursor_seq (jcore j).
Proof.
  intros Hat Hp <- Hto. pose proof Hat as [Hj Hr Hf]. eexists. split.
  - unfold move_in_work. rewrite bind_in_producer. cbn [tx_db db_producer db_core tx_events].
    rewrite (transition_in_tx_run _ _ _ _ _ _ _ row); [|by rewrite Hp|done].
    rewrite bind_new_mutation by done. rewrite bind_append by apply Hj.
    unfold tx_core. simpl. rewrite Hf by done. reflexivity.
  - by apply signalled_fresh.
Qed.

Lemma park_unknown_run cmd o t t_schedule w row :
  command_at (command_id cmd) row (w_journal w) → l_state row = SUBMITTING →
  park_unknown reconciler clock stamps cmd o t t_schedule w =
    (match reconciler (command_id cmd) (clock t_schedule) with
     | Ok _ => Ok (receipt (command_id cmd) OUTCOME_UNKNOWN ambiguous false o)
     | Raise e => Raise e
     end,
     mkWorld (moved_journal cmd OUTCOME_UNKNOWN o ambiguous t t row (w_journal w))
       (scheduled w ++ [(command_id cmd, clock t_schedule)]) (w_env w)).
Proof.
  intros Hat Hs. unfold park_unknown.
  rewrite (on_move_command _ _ _ _ _ _ _ row) by (done || (simpl; set_solver)).
  unfold call_schedule. rewrite bind_assoc, bind_modify. by destruct (reconciler _ _).
Qed.

(** The command ended in [s], with nothing sent and nothing scheduled. *)
Record ended cmd (row : LedgerRow) (s : command_state) (o : option dict) (c : option string) (retry : bool) (t : R)
    w (run : res CommandReceipt * world) : Prop := {
  en_receipt : run.1 = Ok (receipt (command_id cmd) s c retry o);
  en_row : command_at (command_id cmd) (moved_row s o c t row) (w_journal run.2);
  en_env : w_env run.2 = w_env w;
  en_scheduled : scheduled run.2 = scheduled w;
}.

Lemma end_command_run cmd from to o c retry t w row :
  command_at (command_id cmd) row (w_journal w) → l_state row = from → to ∉ passed from →
  ended cmd row to o c retry t w
    ((on_journal (move_command clock stamps cmd from to o c t) ;; mret (receipt (command_id cmd) to c retry o)) w).
Proof.
  intros Hat <- Hto. rewrite (on_move_command _ _ _ _ _ _ _ row) by done.
  split; [done|by apply moved_at|done|done].
Qed.

(** The command waits for the reconciler, which is told. *)
Record parked cmd (row : LedgerRow) (o : option dict) (t t_schedule : R) w (run : res CommandReceipt * world) : Prop := {
  pk_receipt r : run.1 = Ok r → r = receipt (command_id cmd) OUTCOME_UNKNOWN ambiguous false o;
  pk_row : command_at (command_id cmd) (moved_row OUTCOME_UNKNOWN o ambiguous t row) (w_journal run.2);
  pk_env : w_env run.2 = w_env w;
  pk_scheduled : scheduled run.2 = scheduled w ++ [(command_id cmd, clock t_schedule)];
}.

Lemma park_unknown_parked cmd o t t_schedule w row :
  command_at (command_id cmd) row (w_journal w) → l_state row = SUBMITTING →
  parked cmd row o t t_schedule w (park_unknown reconciler clock stamps cmd o t t_schedule w).
Proof.
  intros Hat Hs. rewrite (park_unknown_run _ _ _ _ _ row) by done. split; [|by apply moved_at; [|rewrite Hs; simpl; set_solver]|done..].
  destruct (reconciler _ _); [by intros r [= <-]|done].
Qed.
End runs.
