(* ===== verification/Cancel.v ===== *)
(** * The cancel sagas ([trader/trading/command_coordinator.py])

    [CancelCommandService]: cancelling one working order, with the preflight
    ceremony its classification asks for, and cancelling many under one ceremony
    as child commands of the same coordinator.  The theorems: the broker is asked
    once, only with the ceremony and the SUBMITTING state committed, and what it
    answers is what the ledger and the receipt say; a batch cancels every distinct
    order once, in order, whatever happens to the others. *)
From stdpp Require Import base tactics gmap list strings pretty.
From Stdlib Require Import ZArith Lia Ascii.
From S2P Require Import Prelude Py Journal Store TradingControl Proposal Command Risk Approval Reconciler Saga.
Open Scope Z_scope.

Definition direction_text (d : RiskDirection) : string :=
  match d with INCREASING => "INCREASING" | REDUCING => "REDUCING" end.

Definition classify_cancel (order : option OrderRow) : RiskDirection :=
  match order with
  | Some o => if bool_decide (or_leg o = Some "entry"%string) then REDUCING else INCREASING
  | None => INCREASING
  end.

(** The readings of the service's clock for one command. *)
Inductive cancel_reading : Type :=
  | c_decision | c_validated | c_submitting | c_submitting_event | c_ended | c_ambiguous
  | c_submitted | c_submitted_event | c_schedule.

(** The cancels handed to the broker: [order_entity_id] and [order_ref]. *)
Notation cancels := (list (string * string)).

Section service.
Context {T : Type} `{HasTable T ledger_table, HasTable T risk_table} `{!NonceGate T}.
Context (account_id : string) (reconciler : string → Z → res unit).
Context (clock : cancel_reading → Z) (stamps : cancel_reading → stamp).
Notation world := (world T cancels).

Record CancelPorts : Type := mkCancelPorts {
  (* orders_view.get_order *)
  view_order : string → res (option OrderRow);
  (* dispatch.cancel: it runs for a while *)
  broker_cancel : string → string → M world unit;
}.

(** [cmd.body["order_entity_id"]]; the request model makes it a string. *)
Definition order_id_of (cmd : CommandRequest) : res string :=
  match assoc "order_entity_id" (body cmd) with
  | Some (JStr s) => Ok s
  | Some _ => Raise TypeError
  | None => Raise KeyError
  end.

(** [if not self._nonces.consume_in_tx(...): raise ...] *)
Definition consume_or_refuse (cmd : CommandRequest) : M (tx T) unit :=
  ok ← in_producer (consume_in_tx (preflight_nonce cmd) cmd);
  if (ok : bool) then mret tt
  else raise (CommandValidationError "PREFLIGHT_REQUIRED"
                "missing, expired, or already-consumed preflight nonce").

(** A child of a batch is covered by the batch's ceremony. *)
Definition needs_ceremony (cmd : CommandRequest) (d : RiskDirection) : bool :=
  bool_decide (d = INCREASING) && bool_decide (parent_command_id cmd = None).

Definition submitting_work (cmd : CommandRequest) (d : RiskDirection) : M (tx T) unit :=
  (if needs_ceremony cmd d then consume_or_refuse cmd else mret tt) ;;
  move_in_work clock stamps cmd VALIDATED SUBMITTING None c_submitting c_submitting_event.

Definition cancel_decision (d : RiskDirection) (oid : string) : dict :=
  [("decision", JStr "cancel"); ("direction", JStr (direction_text d)); ("order_entity_id", JStr oid)].
Definition cancel_outcome (o : OrderRow) (d : RiskDirection) (oid : string) : dict :=
  ("order_entity_id", JStr oid) ::
  (if bool_decide (d = INCREASING) then [("unprotected_conid", JInt (or_conid o))] else []).
Definition noop_outcome (o : OrderRow) : dict :=
  [("noop", JBool true); ("authoritative_status", JStr (or_status o))].

(** The transaction before the broker: [Some receipt] when the ceremony fails. *)
Definition submitting_phase (cmd : CommandRequest) (d : RiskDirection)
    : M (DomainJournal T) (option CommandReceipt) :=
  try_except (mutate_batch_work (submitting_work cmd d) ;; mret None)
    (λ e, match e with
      | CommandValidationError code _ =>
          Some (move_command clock stamps cmd VALIDATED REJECTED None (Some code) c_ended ;;
                mret (Some (receipt (command_id cmd) REJECTED (Some code) true None)))
      | _ => None
      end).

(** [self._dispatch.cancel(...)] *)
Definition send_cancel (ports : CancelPorts) (oid ref : string) : M world unit :=
  modify (λ w, mkWorld (w_journal w) (scheduled w) (w_env w ++ [(oid, ref)])) ;;
  broker_cancel ports oid ref.

(** From the irreversible boundary on. *)
Definition cancel_phase (ports : CancelPorts) (cmd : CommandRequest) (oid : string) (outcome : dict)
    : M world CommandReceipt :=
  sent ← try_except (send_cancel ports oid (command_id cmd) ;; mret None)
    (λ _, Some (r ← park_unknown reconciler clock stamps cmd None c_ambiguous c_schedule; mret (Some r)));
  match (sent : option CommandReceipt) with
  | Some r => mret r
  | None =>
      try_except
        (on_journal (mutate_batch_work (
           move_in_work clock stamps cmd SUBMITTING SUBMITTED (Some outcome) c_submitted c_submitted_event)) ;;
         mret (receipt (command_id cmd) SUBMITTED None false (Some outcome)))
        (λ _, Some (park_unknown reconciler clock stamps cmd (Some outcome) c_ambiguous c_schedule))
  end.

Definition cancel_order (ports : CancelPorts) (cmd : CommandRequest) : M world CommandReceipt :=
  oid ← answer (order_id_of cmd);
  order ← answer (view_order ports oid);
  match order with
  | None =>
      on_journal (move_command clock stamps cmd RECEIVED REJECTED None (Some "ORDER_NOT_FOUND"%string) c_ended) ;;
      mret (receipt (command_id cmd) REJECTED (Some "ORDER_NOT_FOUND"%string) true None)
  | Some o =>
      if is_terminal_order o then
        on_journal (move_command clock stamps cmd RECEIVED RESOLVED (Some (noop_outcome o)) None c_ended) ;;
        mret (receipt (command_id cmd) RESOLVED None false (Some (noop_outcome o)))
      else
      let d := classify_cancel (Some o) in
      on_journal (publish_decision account_id (stamps c_decision) (command_id cmd) (cancel_decision d oid)
        (Some (request_correlation_id cmd)) (clock c_decision)) ;;
      on_journal (move_command clock stamps cmd RECEIVED VALIDATED None None c_validated) ;;
      refused ← on_journal (submitting_phase cmd d);
      match (refused : option CommandReceipt) with
      | Some r => mret r
      | None => cancel_phase ports cmd oid (cancel_outcome o d oid)
      end
  end.

(** *** [cancel_orders] *)

(** [{id: classify_cancel(get_order(id)).value for id in ids}] *)
Fixpoint classify_all (view : string → res (option OrderRow)) (ids : list string)
    : res (list (string * RiskDirection)) :=
  match ids with
  | [] => Ok []
  | id :: ids' =>
      match view id with
      | Raise e => Raise e
      | Ok o => cons (id, classify_cancel o) <$> classify_all view ids'
      end
  end.

(** The child command of the [i]-th order. *)
Definition cancel_child (cmd : CommandRequest) (i : nat) (oid : string) : CommandRequest :=
  mkRequest (command_id cmd +:+ "-" +:+ pretty (Z.of_nat i))%string "cancel_order" (cr_account_id cmd)
    "order" oid None [("order_entity_id", JStr oid)] (cr_source cmd) (preflight_nonce cmd)
    (Some (command_id cmd)) None None None.

(** What a child leaves in the root's outcome. *)
Record child_result : Type := mkChild {
  ch_order : string;
  ch_id : string;
  ch_state : string;
  ch_code : option string;
  ch_class : RiskDirection;
}.
Definition child_entry (c : child_result) : string * json :=
  (ch_order c, JObj [("command_id", JStr (ch_id c)); ("state", JStr (ch_state c));
                     ("error_code", jopt JStr (ch_code c));
                     ("classification", JStr (direction_text (ch_class c)))]).
Definition batch_outcome (cs : list child_result) : dict :=
  [("child_command_ids", JArr (map (λ c, JStr (ch_id c)) cs));
   ("children", JObj (map child_entry cs));
   ("partial_failure", JBool (existsb (λ c, negb (String.eqb (ch_state c) "SUBMITTED")) cs))].

(** One turn of the fan-out; [run_child] is [coordinator.execute].  A child that
    raises is recorded and the next one still runs. *)
Definition fan_one (run_child : CommandRequest → M world CommandReceipt) (cmd : CommandRequest) (i : nat)
    (oid : string) (d : RiskDirection) : M world child_result :=
  child ← new_request (cancel_child cmd i oid);
  try_except
    (r ← run_child child;
     mret (mkChild oid (command_id child) (state_name (rc_state r)) (rc_error_code r) d))
    (λ _, Some (mret (mkChild oid (command_id child) "FAILED" (Some "CHILD_EXECUTE_FAILED"%string) d))).

Fixpoint fan_out (run_child : CommandRequest → M world CommandReceipt) (cmd : CommandRequest) (i : nat)
    (orders : list (string * RiskDirection)) : M world (list child_result) :=
  match orders with
  | [] => mret []
  | (oid, d) :: orders' =>
      c ← fan_one run_child cmd i oid d;
      cs ← fan_out run_child cmd (S i) orders';
      mret (c :: cs)
  end.

Definition cancel_orders (ports : CancelPorts) (run_child : CommandRequest → M world CommandReceipt)
    (cmd : CommandRequest) : M world dict :=
  ids ← answer (requested_orders (Some (body cmd)));
  match ids with
  | [] => raise (CommandValidationError "ORDER_ENTITY_IDS_REQUIRED" "order_entity_ids must be a non-empty list")
  | _ =>
      orders ← answer (classify_all (view_order ports) (fromkeys [] ids));
      (if existsb (λ o, bool_decide (o.2 = INCREASING)) orders
       then on_journal (mutate_batch_work (consume_or_refuse cmd)) else mret tt) ;;
      cs ← fan_out run_child cmd 0 orders;
      mret (batch_outcome cs)
  end.
End service.

(** ** The writes of the saga, run *)
Section runs.
Context {T : Type} `{HasTable T ledger_table, HasTable T risk_table} `{!NonceGate T}.
Context `{!Disjoint_tables T ledger_table risk_table}.
Context (account_id : string) (reconciler : string → Z → res unit).
Context (clock : cancel_reading → Z) (stamps : cancel_reading → stamp).
Notation world := (world T cancels).
Implicit Types (j : DomainJournal T) (p : pconn T) (cmd : CommandRequest).

Notation cancel_row := (moved_row clock).
Notation cancel_moved := (moved_journal clock stamps).

(** What the transaction before the broker does. *)
Lemma submitting_run cmd d j row :
  command_at (command_id cmd) row j → l_state row = VALIDATED →
  let p := db_producer (jdb j) in
  let submitted p' := cancel_moved cmd SUBMITTING None None c_submitting c_submitting_event row (with_producer p' j) in
  if needs_ceremony cmd d then
    match consume_in_tx (preflight_nonce cmd) cmd p with
    | (Ok true, p') => mutate_batch_work (submitting_work clock stamps cmd d) j = (Ok tt, submitted p')
    | (Ok false, p') =>
        ∃ m, mutate_batch_work (submitting_work clock stamps cmd d) j =
          (Raise (CommandValidationError "PREFLIGHT_REQUIRED" m),
           with_producer (mkPconn (seqs p') (tables p)) j)
    | (Raise e, p') =>
        mutate_batch_work (submitting_work clock stamps cmd d) j =
          (Raise e, with_producer (mkPconn (seqs p') (tables p)) j)
    end
  else mutate_batch_work (submitting_work clock stamps cmd d) j = (Ok tt, submitted p).
Proof.
  intros Hat Hs p submitted. unfold submitting_work. destruct (needs_ceremony cmd d).
  - pose proof (consume_keeps_ledger (preflight_nonce cmd) cmd p) as Hk. unfold final in Hk.
    destruct (consume_in_tx _ cmd p) as [[[]|e] p'] eqn:Hc; simpl in Hk.
    + destruct (move_in_work_run clock stamps cmd VALIDATED SUBMITTING None c_submitting c_submitting_event p' j row)
        as (ev & Hrun & Hsig); [done|done|done|rewrite <-Hs; rewrite Hs; simpl; set_solver|].
      erewrite mutate_batch_work_run.
      2: { rewrite bind_unfold. unfold consume_or_refuse. rewrite bind_in_producer. cbn [tx_db].
           fold p. rewrite Hc. exact Hrun. }
      cbn [tx_db tx_events]. by rewrite Hsig.
    + eexists. eapply refused_run. rewrite bind_unfold. unfold consume_or_refuse. rewrite bind_in_producer.
      cbn [tx_db]. fold p. rewrite Hc. reflexivity.
    + eapply refused_run. rewrite bind_unfold. unfold consume_or_refuse. rewrite bind_in_producer.
      cbn [tx_db]. fold p. rewrite Hc. reflexivity.
  - destruct (move_in_work_run clock stamps cmd VALIDATED SUBMITTING None c_submitting c_submitting_event p j row)
      as (ev & Hrun & Hsig); [done|done|done|simpl; set_solver|].
    erewrite mutate_batch_work_run.
    2: { rewrite bind_ret. unfold p in Hrun. rewrite db_eta in Hrun. exact Hrun. }
    cbn [tx_db tx_events]. by rewrite Hsig.
Qed.

(** *** From the broker call on *)
Notation Ports := (CancelPorts (T := T)).

(** The rest of the service may write while the broker is asked, but not this
    command's row. *)
Definition cancel_law (ports : Ports) cmd : Prop := ∀ oid (w : world) row,
  command_at (command_id cmd) row (w_journal w) →
  command_at (command_id cmd) row (w_journal (final (broker_cancel ports oid (command_id cmd)) w)).

(** The world the broker is asked in. *)
Definition asked cmd (oid : string) (w : world) : world :=
  mkWorld (w_journal w) (scheduled w) (w_env w ++ [(oid, command_id cmd)]).

(** What the broker's answer leaves. *)
Definition answered cmd (outcome : dict) (row : LedgerRow) (answer : res unit) (w3 : world)
    (run : res CommandReceipt * world) : Prop :=
  let id := command_id cmd in
  w_env run.2 = w_env w3 ∧
  match answer with
  | Ok _ =>
      run.1 = Ok (receipt id SUBMITTED None false (Some outcome)) ∧ scheduled run.2 = scheduled w3 ∧
      command_at id (cancel_row SUBMITTED (Some outcome) None c_submitted row) (w_journal run.2)
  | Raise _ =>
      (∀ r, run.1 = Ok r → r = receipt id OUTCOME_UNKNOWN ambiguous false None) ∧
      scheduled run.2 = scheduled w3 ++ [(id, clock c_schedule)] ∧
      command_at id (cancel_row OUTCOME_UNKNOWN None ambiguous c_ambiguous row) (w_journal run.2)
  end.

Lemma cancel_phase_answered (ports : Ports) cmd oid o (w : world) row :
  cancel_law ports cmd → command_at (command_id cmd) row (w_journal w) → l_state row = SUBMITTING →
  let ask := broker_cancel ports oid (command_id cmd) in
  answered cmd o row (outcome ask (asked cmd oid w)) (final ask (asked cmd oid w))
    (cancel_phase reconciler clock stamps ports cmd oid o w).
Proof.
  intros Hlaw Hat Hs ask. pose proof (Hlaw oid (asked cmd oid w) row Hat) as Hat3. fold ask in Hat3.
  unfold cancel_phase. rewrite bind_unfold. unfold try_except at 1. rewrite bind_unfold. unfold send_cancel.
  rewrite bind_modify. fold (asked cmd oid w). fold ask. unfold answered, outcome, final in *.
  destruct (ask (asked cmd oid w)) as [[[]|e] w3]; cbn [fst snd] in *.
  - rewrite ret_run. cbv beta iota. unfold try_except. rewrite bind_on_journal.
    destruct (move_in_work_run clock stamps cmd SUBMITTING SUBMITTED (Some o) c_submitted c_submitted_event
      (db_producer (jdb (w_journal w3))) (w_journal w3) row) as (ev & Hrun & Hsig); [done|done|done|simpl; set_solver|].
    rewrite db_eta, with_producer_id in Hrun. rewrite (mutate_batch_work_run _ _ _ _ Hrun). cbn [tx_db tx_events]. rewrite Hsig.
    split; [done|]. split; [done|]. split; [done|]. by apply (command_at_written _ row); [|rewrite Hs; simpl; set_solver|].
  - cbv beta iota. rewrite bind_unfold, (park_unknown_run reconciler clock stamps cmd None c_ambiguous c_schedule w3 row) by done.
    destruct (reconciler _ _); cbn [fst snd]; (split; [done|]); (split; [by intros ? [= <-]|]); (split; [done|]);
      apply moved_at; (done || (rewrite Hs; simpl; set_solver)).
Qed.

(** *** The whole saga *)

(** The risk decision of the cancel is on record. *)
Definition decided cmd (d : RiskDirection) (oid : string) p : Prop :=
  ∃ r, risks_of p !! risk_decision_entity_id (command_id cmd) = Some r ∧
    (same_payload (risk_payload r) (cancel_decision d oid) = true ∨
     risk_payload r = dict_sorted (cancel_decision d oid)).

Definition decided_otherwise cmd (d : RiskDirection) (oid : string) j : Prop :=
  ∃ r, risks j !! risk_decision_entity_id (command_id cmd) = Some r ∧
    same_payload (risk_payload r) (cancel_decision d oid) = false.

Definition validated (row : LedgerRow) : LedgerRow := cancel_row VALIDATED None None c_validated row.

(** The world in which the broker may be asked: one transaction spent the nonce,
    where one is needed, and made the command SUBMITTING. *)
Record cleared cmd (d : RiskDirection) (oid : string) (row : LedgerRow) (w w2 : world) : Prop := {
  cr_row : command_at (command_id cmd) (cancel_row SUBMITTING None None c_submitting (validated row)) (w_journal w2);
  cr_env : w_env w2 = w_env w;
  cr_scheduled : scheduled w2 = scheduled w;
  cr_ceremony : ∃ p p', decided cmd d oid p ∧
    (if needs_ceremony cmd d then consume_in_tx (preflight_nonce cmd) cmd p = (Ok true, p') else p' = p) ∧
    db_producer (jdb (w_journal w2)) = set_ledger
      <[command_id cmd := cancel_row SUBMITTING None None c_submitting (validated row)]> p';
}.

(** Why the nonce was not accepted, as the saga's code. *)
Definition refusal (answer : res bool) : option string :=
  match answer with
  | Ok false => Some "PREFLIGHT_REQUIRED"%string
  | Raise (CommandValidationError code _) => Some code
  | _ => None
  end.

Lemma risks_set_ledger f p : risks_of (set_ledger f p) = risks_of p.
Proof. unfold risks_of, set_ledger. simpl. apply tget_tset_other_r. Qed.

Lemma decide_step cmd d oid row j :
  command_at (command_id cmd) row j → select_journal_row (st_uuid (stamps c_decision)) (jcore j) = None →
  no_char ":" (st_uuid (stamps c_decision)) = true →
  let publish := publish_decision account_id (stamps c_decision) (command_id cmd) (cancel_decision d oid)
    (Some (request_correlation_id cmd)) (clock c_decision) in
  (publish j = (Raise (RiskDecisionImmutable (command_id cmd)), j) ∧ decided_otherwise cmd d oid j)
  ∨ ∃ o j', publish j = (Ok o, j') ∧ command_at (command_id cmd) row j' ∧ decided cmd d oid (db_producer (jdb j')).
Proof.
  intros Hat Hu Hc publish. pose proof (publish_decision_run account_id (stamps c_decision) (command_id cmd)
    (cancel_decision d oid) (Some (request_correlation_id cmd)) (clock c_decision) j (ca_jwf _ _ _ Hat) Hu) as Hrun.
  cbv zeta in Hrun. unfold publish. rewrite Hrun. clear Hrun.
  destruct (risks j !! _) as [r|] eqn:Hr.
  - destruct (same_payload _ _) eqn:Hs; [right|left; by split; [|exists r]].
    do 2 eexists. split; [done|]. split; [done|]. exists r. split; [exact Hr|by left].
  - right. do 2 eexists. split; [done|]. split.
    + apply command_at_other; [done|done| |unfold ledger_of, set_risks; simpl; apply tget_tset_other].
      intros s E. by rewrite E, command_event_id_colon in Hc.
    + eexists. split; [|right].
      * unfold risk_written, risks_of, set_risks. simpl. rewrite tget_tset. apply lookup_insert_eq.
      * done.
Qed.

(** The transaction before the broker, and its refusals. *)
Lemma submitting_phase_run cmd d oid row (w : world) :
  command_at (command_id cmd) (validated row) (w_journal w) → decided cmd d oid (db_producer (jdb (w_journal w))) →
  let run := submitting_phase clock stamps cmd d (w_journal w) in
  (∃ p answer, decided cmd d oid p ∧ needs_ceremony cmd d = true ∧
     outcome (consume_in_tx (preflight_nonce cmd) cmd) p = answer ∧
     match refusal answer with
     | Some code => run.1 = Ok (Some (receipt (command_id cmd) REJECTED (Some code) true None)) ∧
         command_at (command_id cmd) (cancel_row REJECTED None (Some code) c_ended (validated row)) run.2
     | None => ∃ e, answer = Raise e ∧ run.1 = Raise e ∧ command_at (command_id cmd) (validated row) run.2
     end)
  ∨ run.1 = Ok None ∧ cleared cmd d oid row w (set_journal run.2 w).
Proof.
  set (j := w_journal w). intros Hat Hd run. pose proof (submitting_run cmd d j (validated row) Hat eq_refl) as Hrun.
  cbv zeta in Hrun. unfold run, submitting_phase, try_except. rewrite bind_unfold.
  assert (∀ p', ledger_of p' = command_ledger j → (decided cmd d oid (db_producer (jdb j)) ∧
    (if needs_ceremony cmd d then consume_in_tx (preflight_nonce cmd) cmd (db_producer (jdb j)) = (Ok true, p')
     else p' = db_producer (jdb j))) →
    cleared cmd d oid row w (set_journal (cancel_moved cmd SUBMITTING None None c_submitting c_submitting_event
      (validated row) (with_producer p' j)) w)) as Hclear.
  { intros p' Hp [Hd' Hc]. split; [|done|done|by exists (db_producer (jdb j)), p'].
    apply moved_at; [by apply command_at_producer|simpl; set_solver]. }
  destruct (needs_ceremony cmd d) eqn:Hn; [|right; rewrite Hrun; split; [done|]; by apply Hclear].
  pose proof (consume_keeps_ledger (preflight_nonce cmd) cmd (db_producer (jdb j))) as Hk. unfold final in Hk.
  assert (∀ p', command_at (command_id cmd) (validated row) (with_producer (mkPconn (seqs p') (tables (db_producer (jdb j)))) j))
    as Hburnt by (intros p'; by apply command_at_producer).
  destruct (consume_in_tx _ cmd _) as [[[]|e] p'] eqn:Hc; cbn [snd] in Hk.
  - right. rewrite Hrun. split; [done|]. by apply Hclear.
  - left. exists (db_producer (jdb j)), (Ok false). unfold outcome. rewrite Hc. destruct Hrun as [m ->].
    split_and!; [done..|]. cbn [refusal fst snd].
    rewrite bind_unfold, (move_command_run clock stamps _ _ _ _ _ _ _ (validated row)) by (done || (simpl; set_solver)).
    split; [done|]. by apply moved_at; [|simpl; set_solver].
  - left. exists (db_producer (jdb j)), (Raise e). unfold outcome. rewrite Hc, Hrun. split_and!; [done..|].
    destruct e; try (eexists; split_and!; [done|done|by apply Hburnt]). cbn [refusal].
    rewrite bind_unfold, (move_command_run clock stamps _ _ _ _ _ _ _ (validated row)) by (done || (simpl; set_solver)).
    split; [done|]. by apply moved_at; [|simpl; set_solver].
Qed.

(** Every branch of cancelling one order.  A missing order is refused and one
    that is over already is a no-op; otherwise the risk decision is recorded and
    the command VALIDATED.  The broker is asked exactly once, for this order,
    and only in a world where the command is SUBMITTING and, for a cancel that
    takes protection away and is not the child of a batch, the same transaction
    has spent its nonce.  A nonce that is not accepted rejects the command and
    nothing is sent.  What the broker answers is what the ledger, the receipt
    and the reconciler's schedule say; any exception leaves the outcome unknown
    and not retryable. *)
Theorem cancel_order_spec (ports : Ports) cmd oid row (w : world) :
  command_at (command_id cmd) row (w_journal w) → l_state row = RECEIVED → order_id_of cmd = Ok oid →
  select_journal_row (st_uuid (stamps c_decision)) (jcore (w_journal w)) = None →
  no_char ":" (st_uuid (stamps c_decision)) = true → cancel_law ports cmd →
  let run := cancel_order account_id reconciler clock stamps ports cmd w in
  match view_order ports oid with
  | Raise e => run = (Raise e, w)
  | Ok None => ended clock cmd row REJECTED None (Some "ORDER_NOT_FOUND"%string) true c_ended w run
  | Ok (Some o) =>
      if is_terminal_order o then ended clock cmd row RESOLVED (Some (noop_outcome o)) None false c_ended w run
      else
      let d := classify_cancel (Some o) in
      (run = (Raise (RiskDecisionImmutable (command_id cmd)), w) ∧ decided_otherwise cmd d oid (w_journal w))
      ∨ (∃ p answer, decided cmd d oid p ∧ needs_ceremony cmd d = true ∧
          outcome (consume_in_tx (preflight_nonce cmd) cmd) p = answer ∧
          match refusal answer with
          | Some code => ended clock cmd (validated row) REJECTED None (Some code) true c_ended w run
          | None => ∃ e, answer = Raise e ∧ run.1 = Raise e ∧ w_env run.2 = w_env w ∧
              command_at (command_id cmd) (validated row) (w_journal run.2)
          end)
      ∨ ∃ w2, cleared cmd d oid row w w2 ∧
          let ask := broker_cancel ports oid (command_id cmd) in
          answered cmd (cancel_outcome o d oid) (cancel_row SUBMITTING None None c_submitting (validated row))
            (outcome ask (asked cmd oid w2)) (final ask (asked cmd oid w2)) run
  end.
Proof.
  intros Hat Hs Hoid Hu Hc Hlaw run. unfold run, cancel_order. rewrite Hoid, !bind_answer.
  destruct (view_order ports oid) as [[o|]|e]; [| |done].
  2: { by apply end_command_run; [..|simpl; set_solver]. }
  destruct (is_terminal_order o).
  { by apply end_command_run; [..|simpl; set_solver]. }
  set (d := classify_cancel (Some o)). rewrite bind_on_journal.
  destruct (decide_step cmd d oid row (w_journal w) Hat Hu Hc) as [[-> Hno]|(x & j1 & -> & Hat1 & Hd1)];
    [left; by rewrite set_journal_id|right].
  rewrite (on_move_command clock stamps _ _ _ _ _ _ _ row) by (done || (simpl; set_solver)).
  set (w1 := set_journal _ (set_journal j1 w)).
  assert (command_at (command_id cmd) (validated row) (w_journal w1)) as Hat2
    by (apply moved_at; [done|rewrite Hs; simpl; set_solver]).
  assert (decided cmd d oid (db_producer (jdb (w_journal w1)))) as Hd2.
  { destruct Hd1 as (r & Hr & Hp). exists r. split; [|done].
    change (db_producer (jdb (w_journal w1))) with
      (set_ledger <[command_id cmd := validated row]> (db_producer (jdb j1))). by rewrite risks_set_ledger. }
  rewrite bind_on_journal. destruct (submitting_phase_run cmd d oid row w1 Hat2 Hd2)
    as [(p & ans & Hdp & Hn & Hans & Href)|[Hrun Hcl]];
    destruct (submitting_phase clock stamps cmd d (w_journal w1)) as [r j3]; cbn [fst snd] in *.
  - left. exists p, ans. split_and!; [done..|]. destruct (refusal ans).
    + destruct Href as [-> Hrow]. by split.
    + destruct Href as (e & -> & -> & Hrow). by exists e.
  - right. subst r. exists (set_journal j3 w1). split; [by destruct Hcl; split|].
    apply cancel_phase_answered; [done|apply Hcl|done].
Qed.
End runs.

(** ** A batch *)
Lemma fromkeys_spec l seen :
  NoDup (fromkeys seen l) ∧ (∀ x, x ∈ fromkeys seen l ↔ x ∈ l ∧ x ∉ seen) ∧ sublist (fromkeys seen l) l.
Proof.
  revert seen. induction l as [|y l IH]; intros seen; simpl.
  - split; [constructor|]. split; [set_solver|constructor].
  - case_bool_decide as Hy.
    + destruct (IH seen) as (Hnd & Hin & Hsub). split; [done|]. split; [|by apply sublist_cons].
      intros x. rewrite Hin. set_solver.
    + destruct (IH (y :: seen)) as (Hnd & Hin & Hsub). split; [constructor; [|done]|split].
      * rewrite Hin. set_solver.
      * intros x. rewrite elem_of_cons, Hin. destruct (decide (x = y)) as [->|]; set_solver.
      * by apply sublist_skip.
Qed.

Section batch.
Context {T : Type} `{HasTable T ledger_table, HasTable T risk_table} `{!NonceGate T}.
Notation world := (world T cancels).
Implicit Types (cmd : CommandRequest) (w : world).
Context (run_child : CommandRequest → M world CommandReceipt).

(** Commands run one after the other, each from the world the one before left,
    an exception as much as a receipt. *)
Inductive ran : list CommandRequest → world → list (res CommandReceipt) → world → Prop :=
  | ran_none w : ran [] w [] w
  | ran_one c cs w rs w' :
      ran cs (final (run_child c) w) rs w' → ran (c :: cs) w (outcome (run_child c) w :: rs) w'.

Definition children_from cmd (i : nat) (orders : list (string * RiskDirection)) : list CommandRequest :=
  imap (λ k o, cancel_child cmd (i + k) o.1) orders.
Definition result_of (c : CommandRequest) (o : string * RiskDirection) (r : res CommandReceipt) : child_result :=
  match r with
  | Ok r => mkChild o.1 (command_id c) (state_name (rc_state r)) (rc_error_code r) o.2
  | Raise _ => mkChild o.1 (command_id c) "FAILED" (Some "CHILD_EXECUTE_FAILED"%string) o.2
  end.
Fixpoint results_of (cs : list CommandRequest) (os : list (string * RiskDirection)) (rs : list (res CommandReceipt))
    : list child_result :=
  match cs, os, rs with
  | c :: cs, o :: os, r :: rs => result_of c o r :: results_of cs os rs
  | _, _, _ => []
  end.

Lemma child_id_plain cmd i : no_char ":" (command_id cmd) = true →
  no_char ":" (command_id cmd +:+ "-" +:+ pretty (Z.of_nat i))%string = true.
Proof. intros Hc. by rewrite !no_char_app, Hc, pretty_Z_no_colon. Qed.

Lemma fan_one_run cmd i oid d w :
  no_char ":" (command_id cmd) = true →
  let c := cancel_child cmd i oid in
  fan_one run_child cmd i oid d w = (Ok (result_of c (oid, d) (outcome (run_child c) w)), final (run_child c) w).
Proof.
  intros Hc c. unfold fan_one, new_request. rewrite bind_assoc, bind_require. simpl command_id at 1.
  rewrite child_id_plain by done. rewrite bind_ret. fold c. unfold try_except, outcome, final. rewrite bind_unfold.
  by destruct (run_child c w) as [[r|e] w'].
Qed.

Lemma fan_out_run cmd i orders w :
  no_char ":" (command_id cmd) = true →
  ∃ rs w', ran (children_from cmd i orders) w rs w' ∧
    fan_out run_child cmd i orders w = (Ok (results_of (children_from cmd i orders) orders rs), w') ∧
    length rs = length orders.
Proof.
  intros Hc. revert i w. induction orders as [|[oid d] orders IH]; intros i w.
  { exists [], w. split; [constructor|done]. }
  destruct (IH (S i) (final (run_child (cancel_child cmd i oid)) w)) as (rs & w' & Hran & Hrun & Hlen).
  exists (outcome (run_child (cancel_child cmd i oid)) w :: rs), w'.
  assert (children_from cmd i ((oid, d) :: orders) = cancel_child cmd i oid :: children_from cmd (S i) orders) as ->.
  { unfold children_from. simpl. rewrite Nat.add_0_r. f_equal. apply imap_ext. intros k o _. simpl. by rewrite Nat.add_succ_r. }
  split; [by constructor|]. split; [|simpl; by rewrite Hlen].
  cbn [fan_out]. rewrite bind_unfold, fan_one_run by done. rewrite bind_unfold, Hrun. done.
Qed.

Lemma classify_all_spec (view : string → res (option OrderRow)) ids orders :
  classify_all view ids = Ok orders →
  map fst orders = ids ∧ Forall (λ o, ∃ row, view o.1 = Ok row ∧ o.2 = classify_cancel row) orders.
Proof.
  revert orders. induction ids as [|id ids IH]; simpl; intros orders; [by intros [= <-]|].
  destruct (view id) as [o|e] eqn:Hv; [|done]. destruct (classify_all view ids) as [l|e]; [|done].
  intros [= <-]. destruct (IH l eq_refl) as [Hl Hf]. simpl. rewrite Hl. split; [done|].
  constructor; [by exists o|done].
Qed.

Lemma children_distinct cmd i orders : NoDup (map command_id (children_from cmd i orders)).
Proof.
  unfold children_from. revert i. induction orders as [|o orders IH]; intros i; [constructor|]. simpl.
  constructor; [|erewrite imap_ext; [apply (IH (S i))|intros k x _; simpl; by rewrite Nat.add_succ_r]].
  intros Hin. apply list_elem_of_fmap in Hin as (c & Hid & Hin). apply elem_of_lookup_imap in Hin as (k & x & -> & _).
  simpl in Hid. do 2 apply string_app_cancel in Hid. apply (inj pretty) in Hid. lia.
Qed.

Lemma batch_gate_run cmd (j : DomainJournal T) :
  let p := db_producer (jdb j) in
  match consume_in_tx (preflight_nonce cmd) cmd p with
  | (Ok true, p') => mutate_batch_work (consume_or_refuse cmd) j = (Ok tt, with_producer p' j)
  | (Ok false, p') => ∃ m, mutate_batch_work (consume_or_refuse cmd) j =
      (Raise (CommandValidationError "PREFLIGHT_REQUIRED" m), with_producer (mkPconn (seqs p') (tables p)) j)
  | (Raise e, p') => mutate_batch_work (consume_or_refuse cmd) j =
      (Raise e, with_producer (mkPconn (seqs p') (tables p)) j)
  end.
Proof.
  intros p. destruct (consume_in_tx _ cmd p) as [[[]|e] p'] eqn:Hc.
  - erewrite mutate_batch_work_run; [|unfold consume_or_refuse; rewrite bind_in_producer; cbn [tx_db]; fold p;
      rewrite Hc; reflexivity]. done.
  - eexists. eapply refused_run. unfold consume_or_refuse. rewrite bind_in_producer. cbn [tx_db]. fold p. by rewrite Hc.
  - eapply refused_run. unfold consume_or_refuse. rewrite bind_in_producer. cbn [tx_db]. fold p. by rewrite Hc.
Qed.

Definition submitted_by (r : res CommandReceipt) : Prop := ∃ rc, r = Ok rc ∧ rc_state rc = SUBMITTED.

Lemma no_partial_failure cmd i orders rs : length rs = length orders →
  existsb (λ c, negb (String.eqb (ch_state c) "SUBMITTED")) (results_of (children_from cmd i orders) orders rs) = false
  ↔ Forall submitted_by rs.
Proof.
  unfold children_from. revert i rs. induction orders as [|o orders IH]; intros i [|r rs] Hlen; simpl in *; try done.
  rewrite orb_false_iff, Forall_cons.
  erewrite imap_ext; [rewrite (IH (S i)) by lia|intros k x _; simpl; by rewrite Nat.add_succ_r].
  assert (negb (String.eqb (ch_state (result_of (cancel_child cmd (i + 0) o.1) o r)) "SUBMITTED") = false
    ↔ submitted_by r) as ->; [|done].
  unfold submitted_by. destruct r as [rc|e]; simpl; [|by split; [|intros (? & ? & _)]].
  split; [|by intros (? & [= <-] & ->)]. intros E. exists rc. split; [done|]. by destruct (rc_state rc).
Qed.

(** A batch of cancels.  Every distinct order, in first-seen order, becomes one
    child command with an id of its own.  When any of them takes protection away,
    the batch's nonce is spent first, once and in a transaction of its own, and if
    it is not accepted no child runs.  Then each child runs exactly once from the
    world its predecessor left, also after one that raised, and the outcome lists
    every child with what it was answered; [partial_failure] is false exactly when
    all of them were submitted. *)
Theorem cancel_orders_spec (ports : CancelPorts (T := T)) cmd ids w :
  no_char ":" (command_id cmd) = true → requested_orders (Some (body cmd)) = Ok ids → ids ≠ [] →
  let distinct := fromkeys [] ids in
  let run := cancel_orders ports run_child cmd w in
  (NoDup distinct ∧ (∀ x, x ∈ distinct ↔ x ∈ ids) ∧ sublist distinct ids) ∧
  match classify_all (view_order ports) distinct with
  | Raise e => run = (Raise e, w)
  | Ok orders =>
      let cs := children_from cmd 0 orders in
      let needs := existsb (λ o, bool_decide (o.2 = INCREASING)) orders in
      let spend := consume_in_tx (preflight_nonce cmd) cmd (db_producer (jdb (w_journal w))) in
      map fst orders = distinct ∧ NoDup (map command_id cs) ∧
      (needs = true → spend.1 ≠ Ok true → ∃ e p, run = (Raise e, set_journal (with_producer p (w_journal w)) w) ∧
         tables p = tables (db_producer (jdb (w_journal w))) ∧ (∀ e', spend.1 = Raise e' → e = e')) ∧
      ((needs = true → spend.1 = Ok true) →
       ∃ rs w', ran cs (if needs then set_journal (with_producer spend.2 (w_journal w)) w else w) rs w' ∧
         run = (Ok (batch_outcome (results_of cs orders rs)), w') ∧ length rs = length cs ∧
         (assoc "partial_failure"%string (batch_outcome (results_of cs orders rs)) = Some (JBool false)
          ↔ Forall submitted_by rs))
  end.
Proof.
  intros Hc Hids Hne distinct run. destruct (fromkeys_spec ids []) as (Hnd & Hin & Hsub).
  split; [split; [done|split; [intros x; unfold distinct; rewrite Hin; set_solver|done]]|].
  unfold run, cancel_orders. rewrite Hids, bind_answer. destruct ids as [|id ids']; [done|].
  fold distinct. rewrite bind_answer. destruct (classify_all _ distinct) as [orders|e] eqn:Hcl; [|done].
  set (cs := children_from cmd 0 orders). set (needs := existsb _ orders).
  set (spend := consume_in_tx (preflight_nonce cmd) cmd (db_producer (jdb (w_journal w)))).
  destruct (classify_all_spec _ _ _ Hcl) as [Hmap _].
  split; [done|]. split; [apply children_distinct|]. pose proof (batch_gate_run cmd (w_journal w)) as Hgate.
  cbv zeta in Hgate. fold spend in Hgate. rewrite bind_if. fold needs. split.
  - intros -> Hno. rewrite bind_on_journal. destruct spend as [[[]|e] p'].
    + by destruct Hno.
    + destruct Hgate as [m ->]. by do 2 eexists.
    + rewrite Hgate. do 2 eexists. split; [done|]. split; [done|]. by intros e' [= <-].
  - intros Hyes. assert (∀ w0, ∃ rs w', ran cs w0 rs w' ∧
      (cs0 ← fan_out run_child cmd 0 orders; mret (batch_outcome cs0)) w0 = (Ok (batch_outcome (results_of cs orders rs)), w') ∧
      length rs = length cs ∧ (assoc "partial_failure"%string (batch_outcome (results_of cs orders rs)) = Some (JBool false)
        ↔ Forall submitted_by rs)) as Hfan.
    { intros w0. destruct (fan_out_run cmd 0 orders w0 Hc) as (rs & w' & Hran & Hrun & Hlen). exists rs, w'.
      split; [done|]. split; [by rewrite bind_unfold, Hrun|].
      split; [unfold cs, children_from; by rewrite length_imap|].
      rewrite <-(no_partial_failure cmd 0 orders rs Hlen). simpl. fold cs. split; [by intros [= ->]|by intros ->]. }
    destruct needs; [|rewrite bind_ret; apply Hfan]. specialize (Hyes eq_refl). rewrite bind_on_journal.
    destruct spend as [o p']. simpl in Hyes. subst o. rewrite Hgate. apply Hfan.
Qed.
End batch.

(** ** Concrete runs: a protective stop is cancelled, and a batch of two with a repeat *)
Definition ex_ctables : Type := ledger_table * (risk_table * unit).
Definition ex_cgate : NonceGate ex_ctables.
Proof. by refine {| consume_in_tx := λ n _, mret (bool_decide (n = Some "n-1"%string)) |}. Defined.
Definition ex_cclock (t : cancel_reading) : Z := seconds 70.
Definition ex_cstamps (t : cancel_reading) : stamp := mkStamp "u" (seconds 70).
Definition ex_cancel (action : string) (b : dict) : CommandRequest :=
  mkRequest "c-9" action (Some "DU1"%string) "order" "o-1" None b "cli" (Some "n-1"%string) None None None None.
Definition ex_crow : LedgerRow :=
  mkLedgerRow "c-9" "h" (Some "DU1"%string) "cancel_order" "order" "o-1" None RECEIVED None None "cli"
    (seconds 60) (seconds 60).
Definition ex_cworld : world ex_ctables cancels :=
  mkWorld (empty_journal (mkPconn ∅ ({["c-9"%string := ex_crow]}, (∅, tt)))) [] [].
Definition ex_cports : CancelPorts (T := ex_ctables) :=
  mkCancelPorts (λ _, Ok (Some (mkOrderRow (Some "stop"%string) 265598 "Submitted" false))) (λ _ _, mret tt).
Definition ex_one : CommandRequest := ex_cancel "cancel_order" [("order_entity_id"%string, JStr "o-1")].
Definition ex_cancelled : res CommandReceipt * world ex_ctables cancels :=
  cancel_order (NonceGate0 := ex_cgate) "DU1" (λ _ _, Ok tt) ex_cclock ex_cstamps ex_cports ex_one ex_cworld.

Lemma cancel_order_spec_witness : ∃ w2,
  cleared (NonceGate0 := ex_cgate) ex_cclock ex_one INCREASING "o-1" ex_crow ex_cworld w2 ∧
  w_env ex_cancelled.2 = [("o-1"%string, "c-9"%string)] ∧
  ex_cancelled.1 = Ok (receipt "c-9" SUBMITTED None false
    (Some [("order_entity_id"%string, JStr "o-1"); ("unprotected_conid"%string, JInt 265598)])).
Proof.
  assert (command_at "c-9" ex_crow (w_journal ex_cworld)) as Hat.
  { split; [apply jwf_empty|reflexivity|done]. }
  pose proof (cancel_order_spec (NonceGate0 := ex_cgate) "DU1" (λ _ _, Ok tt) ex_cclock ex_cstamps ex_cports ex_one
    "o-1" ex_crow ex_cworld Hat eq_refl eq_refl eq_refl eq_refl (λ _ _ _ H, H)) as Hspec.
  cbv zeta in Hspec. fold ex_cancelled in Hspec.
  assert (ex_cancelled.1 = Ok (receipt "c-9" SUBMITTED None false
    (Some [("order_entity_id"%string, JStr "o-1"); ("unprotected_conid"%string, JInt 265598)]))) as Hrun
    by (vm_compute; reflexivity).
  destruct Hspec as [[E _]|[(p & a & _ & _ & _ & Ha)|(w2 & Hc & _)]].
  - change (ex_cancelled = (Raise (RiskDecisionImmutable "c-9"), ex_cworld)) in E. rewrite E in Hrun. discriminate Hrun.
  - exfalso. destruct (refusal a) as [code|].
    + destruct Ha as [Ha _ _ _].
      change (ex_cancelled.1 = Ok (receipt "c-9" REJECTED (Some code) true None)) in Ha.
      rewrite Ha in Hrun. discriminate Hrun.
    + destruct Ha as (e & _ & Ha & _). change (ex_cancelled.1 = Raise e) in Ha. rewrite Ha in Hrun. discriminate Hrun.
  - assert (classify_cancel (Some (mkOrderRow (Some "stop"%string) 265598 "Submitted" false)) = INCREASING) as Hcl
      by (vm_compute; reflexivity).
    rewrite Hcl in Hc. exists w2. split; [exact Hc|]. split; [vm_compute; reflexivity|exact Hrun].
Defined.

Definition ex_batch : CommandRequest :=
  ex_cancel "cancel_orders" [("order_entity_ids"%string, JArr [JStr "o-1"; JStr "o-2"; JStr "o-1"])].
(** The coordinator answers the first child, the second raises. *)
Definition ex_run_child (c : CommandRequest) : M (world ex_ctables cancels) CommandReceipt :=
  if String.eqb (target_id c) "o-1" then mret (receipt (command_id c) SUBMITTED None false None) else raise KeyError.

Lemma cancel_orders_spec_witness : ∃ rs w',
  ran ex_run_child [cancel_child ex_batch 0 "o-1"; cancel_child ex_batch 1 "o-2"] ex_cworld rs w' ∧ length rs = 2%nat ∧
  ¬ Forall submitted_by rs.
Proof.
  destruct (cancel_orders_spec (NonceGate0 := ex_cgate) ex_run_child ex_cports ex_batch ["o-1"; "o-2"; "o-1"]%string
    ex_cworld eq_refl eq_refl ltac:(done)) as [_ Hspec].
  destruct Hspec as (_ & _ & _ & Hok).
  destruct (Hok (λ _, eq_refl)) as (rs & w' & Hran & Hrun & Hlen & Hpf). exists rs, w'.
  split; [exact Hran|]. split; [exact Hlen|]. rewrite <-Hpf. intros E.
  assert (outcome (cancel_orders (NonceGate0 := ex_cgate) ex_cports ex_run_child ex_batch) ex_cworld =
    Ok [("child_command_ids"%string, JArr [JStr "c-9-0"; JStr "c-9-1"]);
        ("children"%string, JObj (map child_entry [mkChild "o-1" "c-9-0" "SUBMITTED" None INCREASING;
           mkChild "o-2" "c-9-1" "FAILED" (Some "CHILD_EXECUTE_FAILED"%string) INCREASING]));
        ("partial_failure"%string, JBool true)]) as Hout by (vm_compute; reflexivity).
  unfold outcome in Hout. rewrite Hrun in Hout. cbn [fst] in Hout.
  assert (∀ a b : dict, Ok a = Ok b → a = b) as Hinj by congruence. apply Hinj in Hout.
  rewrite Hout in E. discriminate E.
Defined.
