(* ===== verification/StrategyControl.v ===== *)
(** * The strategy-control saga ([trader/trading/command_coordinator.py])

    [StrategyControlCommandService]: enable, disable and re-parameterise a
    strategy by forwarding the command to the strategy service, and
    [acknowledge_strategy_state], which journals a state the strategy service
    announces.  The theorems: a state revision is acknowledged once, whatever is
    announced for it afterwards; and the command ends as the strategy service
    answered, or waits for the reconciler when there was no answer. *)
From stdpp Require Import base tactics gmap list strings pretty.
From Stdlib Require Import ZArith Lia.
From S2P Require Import Prelude Py Journal Store Command Approval Reconciler Saga.
Open Scope Z_scope.

(** ** Acknowledging a state *)
Section acknowledge.
Context {T : Type}.

(** [f"strategy:{name}:state:{state_revision}"] *)
Definition strategy_state_event_id (name : string) (state_revision : Z) : string :=
  ("strategy:" +:+ name +:+ ":state:" +:+ pretty state_revision)%string.

Definition strategy_ack_mutation (name : string) (payload : dict) (correlation : string)
    (account : option string) (now : Z) : DomainMutation :=
  mkMutation "strategy.updated" "strategy" name op_upsert account "trader_service" (Aware now 0)
    (Some correlation) (Some payload).

(** [_strategy_ack_write]: a revision that drifted is only logged. *)
Definition strategy_ack_write (expected_state_revision : Z) : @WriteMaterialized T := λ _, mret tt.

Definition acknowledge_strategy_state (st : stamp) (name : string) (state_revision control_revision : Z)
    (payload : dict) (correlation : string) (account : option string) (now : Z) : M (DomainJournal T) Z :=
  m ← new_mutation (strategy_ack_mutation name payload correlation account now);
  try_except
    (event ← mutate st m (strategy_ack_write state_revision) (Some (strategy_state_event_id name state_revision));
     mret (e_entity_revision event))
    (λ e, match e with
      | EventIdentityConflict _ => Some (
          entity ← gets (λ j, get_entity "strategy" name (jcore j));
          match entity with
          | Some row => mret (mat_revision row)
          | None => raise e
          end)
      | _ => None
      end).
End acknowledge.

(** ** The saga *)

(** The readings of the service's clock for one command. *)
Inductive control_reading : Type :=
  | k_ended | k_validated | k_submitting | k_remote_rejected | k_ambiguous | k_schedule | k_acknowledged | k_resolved.

(** The commands handed to the strategy service. *)
Notation forwards := (list CommandRequest).

Section service.
Context {T : Type} `{HasTable T ledger_table}.
Context (reconciler : string → Z → res unit).
Context (clock : control_reading → Z) (stamps : control_reading → stamp).
Notation world := (world T forwards).

Record ControlPorts : Type := mkControlPorts {
  (* snapshot.exists *)
  strategy_exists : json → res bool;
  (* ownership.remaining_owner_resolved, when it is supplied *)
  owner_resolved : option (json → res bool);
  (* port.forward: it runs for a while *)
  forward_port : CommandRequest → M world StrategyCommandReceipt;
}.

(** [cmd.body.get("strategy_name")] *)
Definition strategy_name_of (cmd : CommandRequest) : json := default JNull (assoc "strategy_name" (body cmd)).

(** [dict(receipt.observable_payload or {})], then [update] *)
Definition control_payload (r : StrategyCommandReceipt) : dict :=
  assoc_merge (default [] (s_observable_payload r)) (strategy_payload r).
Definition control_outcome (r : StrategyCommandReceipt) (entity_revision : option Z) : dict :=
  assoc_set "entity_revision" (jopt JInt entity_revision) (control_payload r).

(** [self._port.forward(cmd)] *)
Definition send_forward (ports : ControlPorts) (cmd : CommandRequest) : M world StrategyCommandReceipt :=
  modify (λ w, mkWorld (w_journal w) (scheduled w) (w_env w ++ [cmd])) ;;
  forward_port ports cmd.

Definition end_control (cmd : CommandRequest) (from to : command_state) (outcome : option dict)
    (code : option string) (retry : bool) (t : control_reading) : M world CommandReceipt :=
  on_journal (move_command clock stamps cmd from to outcome code t) ;;
  mret (receipt (command_id cmd) to code retry outcome).

(** The strategy service answered with its receipt. *)
Definition resolve_control (cmd : CommandRequest) (r : StrategyCommandReceipt) : M world CommandReceipt :=
  entity_revision ←
    (if String.eqb (s_state r) "COMMITTED" then
       n ← on_journal (acknowledge_strategy_state (stamps k_acknowledged) (s_strategy_name r) (s_state_revision r)
             (s_control_revision r) (control_payload r) (request_correlation_id cmd) (cr_account_id cmd)
             (clock k_acknowledged));
       mret (Some n)
     else mret None);
  end_control cmd SUBMITTING RESOLVED (Some (control_outcome r entity_revision)) None false k_resolved.

(** [disable_strategy] must not orphan the exposure of the strategy. *)
Definition owner_guard (ports : ControlPorts) (cmd : CommandRequest) : M world bool :=
  match (if String.eqb (cr_action cmd) "disable_strategy" then owner_resolved ports else None) with
  | Some resolved => answer (resolved (strategy_name_of cmd))
  | None => mret true
  end.

(** [name and self._snapshot.exists(name)] *)
Definition known_strategy (ports : ControlPorts) (cmd : CommandRequest) : M world bool :=
  if truthy (strategy_name_of cmd) then answer (strategy_exists ports (strategy_name_of cmd)) else mret false.

(** [port.forward] raised: a problem the strategy service answered is a clean
    rejection, anything else is ambiguous. *)
Definition no_receipt (cmd : CommandRequest) (e : exc) : M world CommandReceipt :=
  match e with
  | TypedRpcRemoteError code => end_control cmd SUBMITTING REJECTED None (Some code) true k_remote_rejected
  | _ => park_unknown reconciler clock stamps cmd None k_ambiguous k_schedule
  end.

(** Forwarding itself, and what its answer means. *)
Definition forward_phase (ports : ControlPorts) (cmd : CommandRequest) : M world CommandReceipt :=
  answered ← try_except (r ← send_forward ports cmd; mret (inl r))
    (λ e, Some (r ← no_receipt cmd e; mret (inr r)));
  match (answered : StrategyCommandReceipt + CommandReceipt) with
  | inr r => mret r
  | inl r => resolve_control cmd r
  end.

(** [_forward], the handler of the three actions *)
Definition forward (ports : ControlPorts) (cmd : CommandRequest) : M world CommandReceipt :=
  known ← known_strategy ports cmd;
  if negb known then end_control cmd RECEIVED REJECTED None (Some "STRATEGY_NOT_FOUND"%string) false k_ended else
  owned ← owner_guard ports cmd;
  if negb owned then
    end_control cmd RECEIVED REJECTED None (Some "EXPOSURE_OWNERSHIP_UNRESOLVED"%string) true k_ended
  else
  on_journal (move_command clock stamps cmd RECEIVED VALIDATED None None k_validated) ;;
  on_journal (move_command clock stamps cmd VALIDATED SUBMITTING None None k_submitting) ;;
  forward_phase ports cmd.
End service.

(** ** Facts *)
Section ack_facts.
Context {T : Type}.
Implicit Types (j : DomainJournal T).

(** The journal an acknowledgement leaves. *)
Definition ack_recorded (st : stamp) (name : string) (rev : Z) (payload : dict) (correlation : string)
    (account : option string) (now : Z) j : DomainJournal T :=
  mkJournal (mkDb (append_core (jcore j) (strategy_state_event_id name rev)
                     (strategy_ack_mutation name payload correlation account now) (st_now st))
               (db_producer (jdb j))) (cursor_seq (jcore j)).

Lemma acknowledge_run st name rev crev payload correlation account now j :
  jwf j →
  let m := strategy_ack_mutation name payload correlation account now in
  acknowledge_strategy_state st name rev crev payload correlation account now j =
    match select_journal_row (strategy_state_event_id name rev) (jcore j) with
    | None => (Ok (read_current_revision "strategy" name (jcore j) + 1),
               ack_recorded st name rev payload correlation account now j)
    | Some r =>
        if matches r m
        then (Ok (entity_revision r), mkJournal (jdb j) (Z.max (latest_committed_cursor j) (source_cursor r)))
        else (match get_entity "strategy" name (jcore j) with
              | Some row => Ok (mat_revision row)
              | None => Raise (EventIdentityConflict (strategy_state_event_id name rev))
              end, j)
    end.
Proof.
  intros Hj m. unfold acknowledge_strategy_state. rewrite bind_new_mutation by done.
  unfold try_except. rewrite bind_unfold, mutate_spec by done. cbn [default].
  destruct (select_journal_row _ _) as [r|]; [|done].
  fold m. destruct (matches r m); [done|]. rewrite bind_gets. by destruct (get_entity _ _ _).
Qed.

Lemma strategy_event_not_command name rev id s : strategy_state_event_id name rev ≠ command_event_id id s.
Proof. intros E. discriminate E. Qed.

Lemma command_at_ack `{HasTable T ledger_table} st name rev crev payload correlation account now id row j :
  command_at id row j →
  command_at id row (final (acknowledge_strategy_state st name rev crev payload correlation account now) j).
Proof.
  intros Hat. unfold final. rewrite acknowledge_run by apply Hat.
  destruct (select_journal_row _ _) as [r|] eqn:Hr; cbn [snd].
  - destruct (matches _ _); [|done]. apply select_Some in Hr as [Hr _].
    destruct Hat as [[W HL] Hrow Hf]. split; [split; [done|]|done|done]. apply Z.max_lub; [done|by apply newest_ge].
  - apply command_at_other; [done|done|intros s; apply strategy_event_not_command|done].
Qed.

Lemma jwf_ack st name rev crev payload correlation account now j :
  jwf j → jwf (final (acknowledge_strategy_state st name rev crev payload correlation account now) j).
Proof.
  intros Hj. unfold final. rewrite acknowledge_run by done.
  destruct (select_journal_row _ _) as [r|] eqn:Hr; cbn [snd]; [|by apply jwf_appended].
  destruct (matches _ _); [|done]. apply select_Some in Hr as [Hr _]. destruct Hj as [W HL].
  split; [done|]. apply Z.max_lub; [done|by apply newest_ge].
Qed.
End ack_facts.

(** *** Any sequence of announcements *)
Section announcements.
Context {T : Type}.
Implicit Types (j : DomainJournal T).

(** One call of [acknowledge_strategy_state]. *)
Record announcement : Type := mkAnnouncement {
  an_stamp : stamp;
  an_name : string;
  an_state_revision : Z;
  an_control_revision : Z;
  an_payload : dict;
  an_correlation : string;
  an_account : option string;
  an_now : Z;
}.
Definition acknowledge (a : announcement) : M (DomainJournal T) Z :=
  acknowledge_strategy_state (an_stamp a) (an_name a) (an_state_revision a) (an_control_revision a) (an_payload a)
    (an_correlation a) (an_account a) (an_now a).
Definition announced_id (a : announcement) : string := strategy_state_event_id (an_name a) (an_state_revision a).

(** The calls one after the other, the failed ones too. *)
Definition announce (l : list announcement) j : DomainJournal T := fold_left (λ j a, final (acknowledge a) j) l j.

(** The first announcement of every revision. *)
Fixpoint first_announcements (seen : list string) (l : list announcement) : list announcement :=
  match l with
  | [] => []
  | a :: l' => if decide (announced_id a ∈ seen) then first_announcements seen l'
               else a :: first_announcements (announced_id a :: seen) l'
  end.

Definition acknowledged (eid : string) j : Prop := is_Some (select_journal_row eid (jcore j)).

Lemma acknowledge_final a j : jwf j →
  (acknowledged (announced_id a) j ∧ jdb (final (acknowledge a) j) = jdb j)
  ∨ (select_journal_row (announced_id a) (jcore j) = None ∧
     final (acknowledge a) j = ack_recorded (an_stamp a) (an_name a) (an_state_revision a) (an_payload a)
       (an_correlation a) (an_account a) (an_now a) j).
Proof.
  intros Hj. unfold final, acknowledge, acknowledged, announced_id. rewrite acknowledge_run by done.
  destruct (select_journal_row _ _) as [r|]; [left|by right]. split; [done|]. by destruct (matches _ _).
Qed.

Lemma ack_recorded_fresh a j eid :
  select_journal_row (announced_id a) (jcore j) = None → jwf j →
  select_journal_row eid (jcore (ack_recorded (an_stamp a) (an_name a) (an_state_revision a) (an_payload a)
    (an_correlation a) (an_account a) (an_now a) j)) = None ↔
  eid ≠ announced_id a ∧ select_journal_row eid (jcore j) = None.
Proof.
  intros Hf Hj. unfold ack_recorded, jcore at 1. simpl. rewrite select_appended by done. fold (announced_id a).
  case_bool_decide; [split; [done|by intros [? _]]|by split; [|intros [_ ?]]].
Qed.

Lemma acknowledge_keeps a eid j : jwf j → acknowledged eid j → acknowledged eid (final (acknowledge a) j).
Proof.
  intros Hj Ha. destruct (acknowledge_final a j Hj) as [[_ E]|[Hf ->]].
  - unfold acknowledged, jcore. by rewrite E.
  - apply not_eq_None_Some. rewrite ack_recorded_fresh by done. intros [_ E]. destruct Ha. congruence.
Qed.

Lemma acknowledge_there a j : jwf j → acknowledged (announced_id a) (final (acknowledge a) j).
Proof.
  intros Hj. destruct (acknowledge_final a j Hj) as [[Ha E]|[Hf ->]].
  - unfold acknowledged, jcore. by rewrite E.
  - apply not_eq_None_Some. rewrite ack_recorded_fresh by done. by intros [? _].
Qed.

Lemma jwf_acknowledge a j : jwf j → jwf (final (acknowledge a) j).
Proof. unfold acknowledge. apply (jwf_ack (an_stamp a)). Qed.
Local Hint Resolve jwf_acknowledge acknowledge_there acknowledge_keeps : core.

Lemma jdb_acknowledge a j1 j2 :
  jwf j1 → jwf j2 → jdb j1 = jdb j2 → jdb (final (acknowledge a) j1) = jdb (final (acknowledge a) j2).
Proof.
  intros H1 H2 E. assert (jcore j1 = jcore j2) as Ec by (unfold jcore; by rewrite E).
  destruct (acknowledge_final a j1 H1) as [[Ha1 E1]|[Hf1 ->]], (acknowledge_final a j2 H2) as [[Ha2 E2]|[Hf2 ->]].
  - congruence.
  - unfold acknowledged in Ha1. rewrite Ec, Hf2 in Ha1. by destruct Ha1.
  - unfold acknowledged in Ha2. rewrite <-Ec, Hf1 in Ha2. by destruct Ha2.
  - unfold ack_recorded. by rewrite Ec, E.
Qed.

Lemma jdb_announce l j1 j2 : jwf j1 → jwf j2 → jdb j1 = jdb j2 → jdb (announce l j1) = jdb (announce l j2).
Proof.
  revert j1 j2. induction l as [|a l IH]; intros j1 j2 H1 H2 E; [done|]. simpl. apply IH; auto.
  by apply jdb_acknowledge.
Qed.

Lemma announce_firsts l seen j :
  jwf j → (∀ eid, eid ∈ seen → acknowledged eid j) →
  jdb (announce l j) = jdb (announce (first_announcements seen l) j).
Proof.
  revert seen j. induction l as [|a l IH]; intros seen j Hj Hs; [done|]. simpl. destruct (decide _) as [Hin|Hin].
  - destruct (acknowledge_final a j Hj) as [[_ E]|[Hf _]].
    + rewrite <-(IH seen j Hj Hs). by apply jdb_announce; auto.
    + destruct (Hs _ Hin) as [r Hr]. congruence.
  - simpl. apply IH; [auto|]. intros eid [->|He]%elem_of_cons; auto.
Qed.

Lemma first_announcements_fresh seen l b : b ∈ first_announcements seen l → announced_id b ∉ seen.
Proof.
  revert seen. induction l as [|a l IH]; intros seen; simpl; [by intros ?%elem_of_nil|].
  destruct (decide _) as [Hin|Hin]; [apply IH|]. intros [->|Hb%IH]%elem_of_cons; set_solver.
Qed.

(** The rows a list of first announcements adds. *)
Lemma announce_rows l seen j :
  jwf j → (∀ eid, eid ∈ seen → acknowledged eid j) →
  let firsts := first_announcements seen l in
  ∃ rows, journal (jcore (announce firsts j)) = journal (jcore j) ++ rows ∧
    map (λ r, (event_id r, payload r)) rows =
      map (λ a, (announced_id a, Some (an_payload a)))
        (filter (λ a, select_journal_row (announced_id a) (jcore j) = None) firsts).
Proof.
  cbv zeta. revert seen j. induction l as [|a l IH]; intros seen j Hj Hs; [exists []; by rewrite app_nil_r|].
  cbn [first_announcements]. destruct (decide _) as [Hin|Hin]; [by apply IH|].
  assert (∀ eid, eid ∈ announced_id a :: seen → acknowledged eid (final (acknowledge a) j)) as Hs'
    by (intros eid [->|He]%elem_of_cons; auto).
  destruct (IH (announced_id a :: seen) (final (acknowledge a) j) (jwf_acknowledge _ _ Hj) Hs') as (rows & Hj' & Hrows).
  cbn [announce fold_left]. fold (announce (first_announcements (announced_id a :: seen) l) (final (acknowledge a) j)).
  rewrite Hj', filter_cons. clear Hj' IH. destruct (acknowledge_final a j Hj) as [[[r Ha] E]|[Hf E]].
  - assert (jcore (final (acknowledge a) j) = jcore j) as Ec by (unfold jcore; by rewrite E). rewrite Ec in *.
    exists rows. split; [done|]. rewrite decide_False by (rewrite Ha; done). done.
  - rewrite decide_True by done. rewrite E in *. cbn [map]. simpl journal at 1. rewrite <-app_assoc. eexists. split; [reflexivity|].
    cbn [map app]. f_equal. rewrite Hrows. f_equal. apply filter_ext_in. intros b Hb.
    apply first_announcements_fresh, not_elem_of_cons in Hb as [Hb _].
    rewrite ack_recorded_fresh by done. split; [by intros [_ ?]|done].
Qed.

(** C22. Announcing a strategy's states is idempotent by revision.  Any sequence of
    announcements, with repeats, late retries and even contradictory payloads for one
    revision, leaves the database that the first announcement of every revision alone
    leaves; and those first ones add exactly one journal row each, in order, with the
    payload announced first, skipping the revisions that were on record before. *)
Theorem announcements_are_idempotent l j :
  jwf j →
  let firsts := first_announcements [] l in
  jdb (announce l j) = jdb (announce firsts j) ∧
  ∃ rows, journal (jcore (announce l j)) = journal (jcore j) ++ rows ∧
    map (λ r, (event_id r, payload r)) rows =
      map (λ a, (announced_id a, Some (an_payload a)))
        (filter (λ a, select_journal_row (announced_id a) (jcore j) = None) firsts).
Proof.
  intros Hj firsts. assert (∀ eid, eid ∈ @nil string → acknowledged eid j) as Hnil by (by intros eid ?%elem_of_nil).
  pose proof (announce_firsts l [] j Hj Hnil) as E. split; [exact E|].
  destruct (announce_rows l [] j Hj Hnil) as (rows & Hr & Hm). exists rows. split; [|exact Hm].
  unfold jcore at 1. rewrite E. exact Hr.
Qed.
End announcements.

(** *** The saga, run *)
Section runs.
Context {T : Type} `{HasTable T ledger_table}.
Context (reconciler : string → Z → res unit).
Context (clock : control_reading → Z) (stamps : control_reading → stamp).
Notation world := (world T forwards).
Notation Ports := (ControlPorts (T := T)).
Notation control_row := (moved_row clock).
Notation control_moved := (moved_journal clock stamps).
Implicit Types (cmd : CommandRequest) (w : world) (j : DomainJournal T) (ports : Ports).

(** The rest of the service may write while the strategy service works, but not
    this command's row. *)
Definition forward_law ports cmd : Prop := ∀ w row,
  command_at (command_id cmd) row (w_journal w) →
  command_at (command_id cmd) row (w_journal (final (forward_port ports cmd) w)).

(** The command in SUBMITTING, and the world its forwarding starts in. *)
Definition submitting_row (row : LedgerRow) : LedgerRow :=
  control_row SUBMITTING None None k_submitting (control_row VALIDATED None None k_validated row).
Definition submitting_world cmd (row : LedgerRow) w : world :=
  mkWorld (control_moved cmd SUBMITTING None None k_submitting k_submitting (control_row VALIDATED None None k_validated row)
             (control_moved cmd VALIDATED None None k_validated k_validated row (w_journal w)))
    (scheduled w) (w_env w ++ [cmd]).

(** What is acknowledged for a receipt: a state only when it was committed. *)
Definition acknowledge_receipt cmd (r : StrategyCommandReceipt) : M (DomainJournal T) (option Z) :=
  if String.eqb (s_state r) "COMMITTED" then
    n ← acknowledge_strategy_state (stamps k_acknowledged) (s_strategy_name r) (s_state_revision r)
          (s_control_revision r) (control_payload r) (request_correlation_id cmd) (cr_account_id cmd)
          (clock k_acknowledged);
    mret (Some n)
  else mret None.

Lemma acknowledge_receipt_at cmd r id row j :
  command_at id row j → command_at id row (final (acknowledge_receipt cmd r) j).
Proof.
  intros Hat. unfold acknowledge_receipt. destruct (String.eqb _ _); [|done].
  pose proof (command_at_ack (stamps k_acknowledged) (s_strategy_name r) (s_state_revision r)
    (s_control_revision r) (control_payload r) (request_correlation_id cmd) (cr_account_id cmd)
    (clock k_acknowledged) id row j Hat) as H1. unfold final in *. rewrite bind_unfold.
  by destruct (acknowledge_strategy_state _ _ _ _ _ _ _ _ j) as [[n|e] j'].
Qed.

Lemma acknowledge_receipt_kept cmd r j n j' :
  jwf j → acknowledge_receipt cmd r j = (Ok n, j') →
  if String.eqb (s_state r) "COMMITTED"
  then is_Some n ∧ acknowledged (strategy_state_event_id (s_strategy_name r) (s_state_revision r)) j'
  else n = None ∧ j' = j.
Proof.
  intros Hj. unfold acknowledge_receipt. destruct (String.eqb _ _); [|by intros [= <- <-]].
  pose proof (acknowledge_there (mkAnnouncement (stamps k_acknowledged) (s_strategy_name r) (s_state_revision r)
    (s_control_revision r) (control_payload r) (request_correlation_id cmd) (cr_account_id cmd)
    (clock k_acknowledged)) j Hj) as Hthere. unfold final, acknowledge, announced_id in Hthere.
  cbn [an_stamp an_name an_state_revision an_control_revision an_payload an_correlation an_account an_now] in Hthere.
  rewrite bind_unfold. destruct (acknowledge_strategy_state _ _ _ _ _ _ _ _ j) as [[k|e] j1]; [|done].
  intros [= <- <-]. by split; [eexists|].
Qed.

Lemma resolve_control_run cmd r w row :
  command_at (command_id cmd) row (w_journal w) → l_state row = SUBMITTING →
  resolve_control clock stamps cmd r w =
    match acknowledge_receipt cmd r (w_journal w) with
    | (Raise e, j) => (Raise e, set_journal j w)
    | (Ok n, j) => end_control clock stamps cmd SUBMITTING RESOLVED (Some (control_outcome r n)) None false k_resolved
                     (set_journal j w)
    end.
Proof.
  intros Hat Hs. unfold resolve_control, acknowledge_receipt. rewrite bind_unfold.
  destruct (String.eqb _ _).
  - rewrite bind_on_journal, bind_unfold. by destruct (acknowledge_strategy_state _ _ _ _ _ _ _ _ _) as [[n|e] j].
  - rewrite !ret_run. by rewrite set_journal_id.
Qed.

Lemma submitting_world_at cmd row w :
  command_at (command_id cmd) row (w_journal w) → l_state row = RECEIVED →
  command_at (command_id cmd) (submitting_row row) (w_journal (submitting_world cmd row w)).
Proof.
  intros Hat Hs. apply (moved_at clock stamps cmd SUBMITTING _ _ _ _ (control_row VALIDATED None None k_validated row));
    [|simpl; set_solver].
  apply (moved_at clock stamps cmd VALIDATED _ _ _ _ row); [done|rewrite Hs; simpl; set_solver].
Qed.

(** From the strategy service's answer on. *)
Definition forwarded cmd (row : LedgerRow) (answer : res StrategyCommandReceipt) w3 (run : res CommandReceipt * world)
    : Prop :=
  match answer with
  | Ok r =>
      match acknowledge_receipt cmd r (w_journal w3) with
      | (Ok n, j) =>
          ended clock cmd row RESOLVED (Some (control_outcome r n)) None false k_resolved (set_journal j w3) run ∧
          (if String.eqb (s_state r) "COMMITTED"
           then is_Some n ∧ acknowledged (strategy_state_event_id (s_strategy_name r) (s_state_revision r)) j
           else n = None ∧ j = w_journal w3)
      | (Raise e, j) => run = (Raise e, set_journal j w3) ∧ command_at (command_id cmd) row j
      end
  | Raise (TypedRpcRemoteError code) => ended clock cmd row REJECTED None (Some code) true k_remote_rejected w3 run
  | Raise _ => parked clock cmd row None k_ambiguous k_schedule w3 run
  end.

Lemma forward_phase_run ports cmd row w :
  let w2 := mkWorld (w_journal w) (scheduled w) (w_env w ++ [cmd]) in
  forward_law ports cmd → command_at (command_id cmd) row (w_journal w2) → l_state row = SUBMITTING →
  forwarded cmd row (outcome (forward_port ports cmd) w2) (final (forward_port ports cmd) w2)
    (forward_phase reconciler clock stamps ports cmd w).
Proof.
  intros w2 Hlaw Hat Hs. pose proof (Hlaw w2 row Hat) as Hat3. unfold forwarded, outcome, final, forward_phase in *.
  rewrite bind_unfold. unfold try_except, send_forward. rewrite bind_unfold, bind_modify. fold w2. destruct (forward_port ports cmd w2) as [[r|e] w3]; cbn [fst snd] in *.
  - rewrite ret_run. cbv beta iota. rewrite (resolve_control_run _ _ _ row) by done.
    pose proof (acknowledge_receipt_at cmd r _ row _ Hat3) as Hj. unfold final in Hj.
    destruct (acknowledge_receipt cmd r (w_journal w3)) as [[n|e] j] eqn:Hack; [|done]. cbn [snd] in Hj.
    split; [by apply end_command_run; [done|done|simpl; set_solver]|].
    by apply (acknowledge_receipt_kept cmd r (w_journal w3)); [apply Hat3|].
  - cbv beta iota. rewrite bind_unfold.
    assert (match e with
      | TypedRpcRemoteError code => ended clock cmd row REJECTED None (Some code) true k_remote_rejected w3
      | _ => parked clock cmd row None k_ambiguous k_schedule w3
      end (no_receipt reconciler clock stamps cmd e w3)) as Hend
      by (destruct e; (by apply park_unknown_parked) || (by apply end_command_run; [..|simpl; set_solver])).
    destruct (no_receipt reconciler clock stamps cmd e w3) as [[rc|e'] w4]; by destruct e.
Qed.

(** The command is SUBMITTING on record, and the strategy service's answer ends it. *)
Definition sent ports cmd (row : LedgerRow) w (run : res CommandReceipt * world) : Prop :=
  let w2 := submitting_world cmd row w in
  command_at (command_id cmd) (submitting_row row) (w_journal w2) ∧
  forwarded cmd (submitting_row row) (outcome (forward_port ports cmd) w2) (final (forward_port ports cmd) w2) run.

Lemma sent_run ports cmd row w :
  command_at (command_id cmd) row (w_journal w) → l_state row = RECEIVED → forward_law ports cmd →
  sent ports cmd row w
    ((on_journal (move_command clock stamps cmd RECEIVED VALIDATED None None k_validated) ;;
      on_journal (move_command clock stamps cmd VALIDATED SUBMITTING None None k_submitting) ;;
      forward_phase reconciler clock stamps ports cmd) w).
Proof.
  intros Hat Hs Hlaw. pose proof (submitting_world_at cmd row w Hat Hs) as Hat2. split; [done|].
  rewrite (on_move_command clock stamps _ _ _ _ _ _ _ row) by (done || (simpl; set_solver)).
  rewrite (on_move_command clock stamps _ _ _ _ _ _ _ (control_row VALIDATED None None k_validated row)).
  - exact (forward_phase_run ports cmd (submitting_row row)
      (set_journal (w_journal (submitting_world cmd row w)) (set_journal
        (control_moved cmd VALIDATED None None k_validated k_validated row (w_journal w)) w)) Hlaw Hat2 eq_refl).
  - apply (moved_at clock stamps cmd VALIDATED _ _ _ _ row); [done|rewrite Hs; simpl; set_solver].
  - done.
  - simpl; set_solver.
Qed.

(** C21. Every branch of forwarding a strategy command.  An unknown strategy, or one
    whose exposure would be orphaned, is refused with nothing sent.  Otherwise the
    command is SUBMITTING on record before the strategy service is asked, once.  Its
    receipt ends the command RESOLVED with the receipt's fields, a committed state
    acknowledged first; a problem it answers rejects the command with its code; no
    answer leaves the command OUTCOME_UNKNOWN with the reconciler told.  Only an
    acknowledgement that raises leaves it SUBMITTING. *)
Theorem forward_spec ports cmd row w :
  command_at (command_id cmd) row (w_journal w) → l_state row = RECEIVED → forward_law ports cmd →
  let name := strategy_name_of cmd in
  let run := forward reconciler clock stamps ports cmd w in
  match (if truthy name then strategy_exists ports name else Ok false) with
  | Raise e => run = (Raise e, w)
  | Ok false => ended clock cmd row REJECTED None (Some "STRATEGY_NOT_FOUND"%string) false k_ended w run
  | Ok true =>
      match (if String.eqb (cr_action cmd) "disable_strategy" then owner_resolved ports else None) with
      | Some resolved =>
          match resolved name with
          | Raise e => run = (Raise e, w)
          | Ok false =>
              ended clock cmd row REJECTED None (Some "EXPOSURE_OWNERSHIP_UNRESOLVED"%string) true k_ended w run
          | Ok true => sent ports cmd row w run
          end
      | None => sent ports cmd row w run
      end
  end.
Proof.
  intros Hat Hs Hlaw name run.
  assert (∀ known, (if truthy name then strategy_exists ports name else Ok false) = known →
    known_strategy ports cmd w = (known, w)) as Hknown.
  { intros known <-. unfold known_strategy. fold name. destruct (truthy name); [|done]. unfold answer. by destruct (strategy_exists _ _). }
  destruct (if truthy name then _ else _) as [[]|e] eqn:Hk; unfold run, forward; rewrite bind_unfold, (Hknown _ eq_refl);
    [|by apply end_command_run; [..|simpl; set_solver]|done].
  cbn [negb]. unfold owner_guard. fold name. destruct (if String.eqb _ _ then _ else _) as [resolved|].
  - rewrite bind_answer. destruct (resolved name) as [[]|e]; [|by apply end_command_run; [..|simpl; set_solver]|done].
    by apply sent_run.
  - rewrite bind_ret. by apply sent_run.
Qed.
End runs.

(** ** Concrete runs: an announcement repeated with another payload, and an enable that commits *)
Definition ex_announcement (t : Z) (state : string) : announcement :=
  mkAnnouncement (mkStamp "u" (seconds t)) "orb" 4 2 [("strategy_state"%string, JStr state)] "c-1" None (seconds t).

Lemma announcements_are_idempotent_witness :
  let l := [ex_announcement 1 "RUNNING"; ex_announcement 2 "RUNNING"; ex_announcement 3 "DISABLED"] in
  jdb (announce l (empty_journal (mkPconn ∅ tt))) = jdb (announce [ex_announcement 1 "RUNNING"] (empty_journal (mkPconn ∅ tt))) ∧
  length (journal (jcore (announce l (empty_journal (mkPconn ∅ tt))))) = 1%nat.
Proof.
  intros l. destruct (announcements_are_idempotent l (empty_journal (mkPconn ∅ tt)) (jwf_empty (mkPconn ∅ tt))) as [E (rows & Hr & Hm)].
  assert (first_announcements [] l = [ex_announcement 1 "RUNNING"]) as Hf by (vm_compute; reflexivity).
  rewrite Hf in E, Hm. split; [exact E|]. rewrite Hr. apply (f_equal length) in Hm. rewrite !length_map in Hm.
  exact Hm.
Defined.

Definition ex_ktables : Type := ledger_table * unit.
Definition ex_kclock (t : control_reading) : Z := seconds 80.
Definition ex_kstamps (t : control_reading) : stamp := mkStamp "u" (seconds 80).
Definition ex_enable : CommandRequest :=
  mkRequest "c-5" "enable_strategy" (Some "DU1"%string) "strategy" "orb" None [("strategy_name"%string, JStr "orb")]
    "cli" None None None None None.
Definition ex_krow : LedgerRow :=
  mkLedgerRow "c-5" "h" (Some "DU1"%string) "enable_strategy" "strategy" "orb" None RECEIVED None None "cli"
    (seconds 60) (seconds 60).
Definition ex_kworld : world ex_ktables forwards :=
  mkWorld (empty_journal (mkPconn ∅ ({["c-5"%string := ex_krow]}, tt))) [] [].
Definition ex_kreceipt : StrategyCommandReceipt :=
  mkStrategyReceipt "orb" "enable_strategy" "COMMITTED" 3 7 None (Some "RUNNING"%string)
    (Some [("bar_size"%string, JStr "1 min")]).
Definition ex_kports : ControlPorts (T := ex_ktables) :=
  mkControlPorts (λ _, Ok true) (Some (λ _, Ok false)) (λ _, mret ex_kreceipt).
Definition ex_forwarded : res CommandReceipt * world ex_ktables forwards :=
  forward (λ _ _, Ok tt) ex_kclock ex_kstamps ex_kports ex_enable ex_kworld.

Lemma forward_spec_witness :
  ex_forwarded.1 = Ok (receipt "c-5" RESOLVED None false (Some (control_outcome ex_kreceipt (Some 1)))) ∧
  w_env ex_forwarded.2 = [ex_enable] ∧ scheduled ex_forwarded.2 = [].
Proof.
  assert (command_at "c-5" ex_krow (w_journal ex_kworld)) as Hat by (split; [apply jwf_empty|reflexivity|done]).
  pose proof (forward_spec (λ _ _, Ok tt) ex_kclock ex_kstamps ex_kports ex_enable ex_krow ex_kworld Hat eq_refl
    (λ _ _ H, H)) as [_ Hspec].
  change (forwarded ex_kclock ex_kstamps ex_enable (submitting_row ex_kclock ex_krow) (Ok ex_kreceipt)
    (submitting_world ex_kclock ex_kstamps ex_enable ex_krow ex_kworld) ex_forwarded) in Hspec.
  unfold forwarded in Hspec.
  assert (outcome (acknowledge_receipt ex_kclock ex_kstamps ex_enable ex_kreceipt)
    (w_journal (submitting_world ex_kclock ex_kstamps ex_enable ex_krow ex_kworld)) = Ok (Some 1)) as Hn
    by (vm_compute; reflexivity).
  unfold outcome in Hn. destruct (acknowledge_receipt _ _ _ _ _) as [r j]. cbn [fst] in Hn. subst r.
  destruct Hspec as [[Hr _ Henv Hsch] _]. split; [exact Hr|]. split; [exact Henv|exact Hsch].
Defined.
