(* ===== verification/StrategyStore.v ===== *)
(** * The strategy service's store ([trader/strategy/strategy_revisions.py])

    [StrategyRevisionStore]: per strategy a control revision, which guards the next
    forwarded command, and a state revision, bumped with every observable state; the
    receipts of the commands; the outbox of states the trader has to hear of; and
    the staged configuration swaps.  Every write of the service, to this database or
    to the configuration file, is [durable] and may fail, or be the one the process
    dies before. *)
From stdpp Require Import base tactics gmap list strings.
From Stdlib Require Import ZArith Lia.
From S2P Require Import Prelude Py Reconciler.
Open Scope Z_scope.

(** ** Rows *)

(** [strategy_ack_outbox]; [created_at] is read by nobody. *)
Record OutboxRow : Type := mkOutbox {
  ob_ack_id : Z;
  ob_name : string;
  ob_state_revision : Z;
  ob_control_revision : Z;
  ob_payload : dict;
  ob_acknowledged : bool;
}.

Inductive config_state : Type := PREPARED | CONFIG_COMMITTED | CONFIG_ROLLED_BACK.
Global Instance config_state_eq_dec : EqDecision config_state.
Proof. solve_decision. Defined.

(** [strategy_config_revisions] *)
Record ConfigRow : Type := mkConfig {
  cf_revision_id : Z;
  cf_name : string;
  cf_expected : Z;
  cf_prior : dict;
  cf_proposed : dict;
  cf_state : config_state;
  cf_command_id : string;
}.

(** The database: [strategy_revisions] holds [(state_revision, control_revision)]. *)
Record store : Type := mkStore {
  revisions : gmap string (Z * Z);
  receipts : gmap string StrategyCommandReceipt;
  outbox : list OutboxRow;
  configs : list ConfigRow;
  ack_seq : Z;
  config_seq : Z;
}.

Definition set_revisions f (s : store) : store :=
  mkStore (f (revisions s)) (receipts s) (outbox s) (configs s) (ack_seq s) (config_seq s).
Definition set_receipts f (s : store) : store :=
  mkStore (revisions s) (f (receipts s)) (outbox s) (configs s) (ack_seq s) (config_seq s).
Definition set_outbox f (s : store) : store :=
  mkStore (revisions s) (receipts s) (f (outbox s)) (configs s) (ack_seq s) (config_seq s).
Definition set_configs f (s : store) : store :=
  mkStore (revisions s) (receipts s) (outbox s) (f (configs s)) (ack_seq s) (config_seq s).

Definition empty_store : store := mkStore ∅ ∅ [] [] 1 1.

(** ** Statements, inside a transaction *)
Definition ensure_row_in_tx (name : string) : M store (Z * Z) :=
  row ← gets (λ s, revisions s !! name);
  match row with
  | Some r => mret r
  | None => modify (set_revisions <[name := (0, 0)]>) ;; mret (0, 0)
  end.

Definition bump_control_revision_in_tx (name : string) : M store Z :=
  r ← ensure_row_in_tx name;
  let new_control := r.2 + 1 in
  modify (set_revisions (alter (λ x, (x.1, new_control)) name)) ;;
  mret new_control.

(** [nextval] of the outbox sequence *)
Definition next_ack : M store Z := λ s,
  (Ok (ack_seq s), mkStore (revisions s) (receipts s) (outbox s) (configs s) (ack_seq s + 1) (config_seq s)).
Definition next_config : M store Z := λ s,
  (Ok (config_seq s), mkStore (revisions s) (receipts s) (outbox s) (configs s) (ack_seq s) (config_seq s + 1)).

(** A new state revision, and the row that tells the trader of it. *)
Definition bump_state_revision_in_tx (name : string) (payload : dict) : M store Z :=
  r ← ensure_row_in_tx name;
  let new_state := r.1 + 1 in
  modify (set_revisions (alter (λ x, (new_state, x.2)) name)) ;;
  ack_id ← next_ack;
  modify (set_outbox (λ l, l ++ [mkOutbox ack_id name new_state r.2 payload false])) ;;
  mret new_state.

(** [INSERT], the command id being the primary key.  The wire-only fields are not
    stored. *)
Definition record_receipt_in_tx (command_id name action state : string) (control_revision state_revision : Z)
    (error : option string) : M store StrategyCommandReceipt :=
  taken ← gets (λ s, receipts s !! command_id);
  match taken with
  | Some _ => raise (ConstraintException "strategy_command_receipts")
  | None =>
      let r := mkStrategyReceipt name action state control_revision state_revision error None None in
      modify (set_receipts <[command_id := r]>) ;;
      mret r
  end.

Definition insert_config (name : string) (expected : Z) (prior proposed : dict) (command_id : string) : M store Z :=
  id ← next_config;
  modify (set_configs (λ l, l ++ [mkConfig id name expected prior proposed PREPARED command_id])) ;;
  mret id.

(** [UPDATE strategy_config_revisions SET state = ... WHERE revision_id = ...] *)
Definition set_config_state (revision_id : Z) (state : config_state) (l : list ConfigRow) : list ConfigRow :=
  map (λ c, if cf_revision_id c =? revision_id
            then mkConfig (cf_revision_id c) (cf_name c) (cf_expected c) (cf_prior c) (cf_proposed c) state (cf_command_id c)
            else c) l.
Definition mark_config (revision_id : Z) (state : config_state) : M store unit :=
  modify (set_configs (set_config_state revision_id state)).

Definition set_acknowledged (ack_id : Z) (l : list OutboxRow) : list OutboxRow :=
  map (λ r, if ob_ack_id r =? ack_id
            then mkOutbox (ob_ack_id r) (ob_name r) (ob_state_revision r) (ob_control_revision r) (ob_payload r) true
            else r) l.
Definition mark_acknowledged_row (ack_id : Z) : M store unit := modify (set_outbox (set_acknowledged ack_id)).

(** ** Reads *)
Definition get_config_revision (revision_id : Z) (s : store) : option ConfigRow :=
  head (filter (λ c, cf_revision_id c = revision_id) (configs s)).
(** Ascending: ids are handed out in the order of the rows. *)
Definition prepared_config_revision_ids (s : store) : list Z :=
  map cf_revision_id (filter (λ c, cf_state c = PREPARED) (configs s)).
Definition config_revision_states (name : string) (s : store) : list config_state :=
  map cf_state (filter (λ c, cf_name c = name) (configs s)).
(** The eager recovery: every prepared row is closed, the files untouched. *)
Definition recover_on_startup : M store (list Z) :=
  ids ← gets prepared_config_revision_ids;
  for_each ids (λ id, mark_config id CONFIG_ROLLED_BACK) ;;
  mret ids.
Definition unacknowledged_outbox (limit : nat) (s : store) : list OutboxRow :=
  take limit (filter (λ r, ob_acknowledged r = false) (outbox s)).

(** ** The statements, run *)
Definition revisions_of (d : store) (name : string) : Z * Z := default (0, 0) (revisions d !! name).
Notation state_of d name := (revisions_of d name).1.
Notation control_of d name := (revisions_of d name).2.

Lemma ensure_row_run name d :
  ensure_row_in_tx name d = (Ok (revisions_of d name), set_revisions <[name := revisions_of d name]> d).
Proof.
  unfold ensure_row_in_tx, revisions_of, set_revisions. rewrite bind_gets. destruct (revisions d !! name) as [r|] eqn:Hr; [|done].
  simpl. rewrite insert_id by done. by destruct d.
Qed.

Lemma bump_control_run name d :
  bump_control_revision_in_tx name d =
    (Ok (control_of d name + 1), set_revisions <[name := (state_of d name, control_of d name + 1)]> d).
Proof.
  unfold bump_control_revision_in_tx. rewrite bind_unfold, ensure_row_run. rewrite bind_modify, ret_run. f_equal.
  unfold set_revisions. simpl. by rewrite alter_insert_eq.
Qed.

Definition state_bumped (name : string) (payload : dict) (d : store) : store :=
  let n := state_of d name + 1 in
  mkStore (<[name := (n, control_of d name)]> (revisions d)) (receipts d)
    (outbox d ++ [mkOutbox (ack_seq d) name n (control_of d name) payload false]) (configs d) (ack_seq d + 1) (config_seq d).
Lemma bump_state_run name payload d :
  bump_state_revision_in_tx name payload d = (Ok (state_of d name + 1), state_bumped name payload d).
Proof.
  unfold bump_state_revision_in_tx. rewrite bind_unfold, ensure_row_run. rewrite bind_modify, bind_unfold. simpl. f_equal.
  unfold set_revisions, set_outbox, state_bumped. simpl. by rewrite alter_insert_eq.
Qed.

Lemma seqZ_snoc n : 0 ≤ n → seqZ 1 (n + 1) = seqZ 1 n ++ [n + 1].
Proof.
  intros Hn. rewrite seqZ_app by lia. f_equal. unfold seqZ. change (Z.to_nat 1) with 1%nat. simpl seq.
  cbn [fmap list_fmap]. f_equal. lia.
Qed.

(** ** The store's invariant *)
Definition committed (cid : string) (r : StrategyCommandReceipt) (d : store) : Prop :=
  receipts d !! cid = Some r ∧ s_state r = "COMMITTED"%string.

(** Every state revision of a strategy has its outbox row, in order and once; the
    control revisions are the committed receipts, one each. *)
Record lockstep (d : store) : Prop := {
  ls_nonneg name : 0 ≤ state_of d name ∧ 0 ≤ control_of d name;
  ls_outbox name : map ob_state_revision (filter (λ o, ob_name o = name) (outbox d)) = seqZ 1 (state_of d name);
  ls_range cid r : committed cid r d →
    1 ≤ s_control_revision r ≤ control_of d (s_strategy_name r) ∧ 1 ≤ s_state_revision r ≤ state_of d (s_strategy_name r);
  ls_once c1 r1 c2 r2 : committed c1 r1 d → committed c2 r2 d → s_strategy_name r1 = s_strategy_name r2 →
    s_control_revision r1 = s_control_revision r2 → c1 = c2;
  ls_all name k : 1 ≤ k ≤ control_of d name →
    ∃ cid r, committed cid r d ∧ s_strategy_name r = name ∧ s_control_revision r = k;
}.

Lemma lockstep_empty : lockstep empty_store.
Proof.
  split; unfold revisions_of; simpl; intros; rewrite ?lookup_empty; simpl in *; try lia; try done.
  - by destruct H.
  - by destruct H.
  - rewrite lookup_empty in H. simpl in H. lia.
Qed.

(** Nothing else of the store matters to it. *)
Lemma lockstep_same d d' :
  lockstep d → (∀ name, revisions_of d' name = revisions_of d name) → receipts d' = receipts d →
  map (λ o, (ob_name o, ob_state_revision o)) (outbox d') = map (λ o, (ob_name o, ob_state_revision o)) (outbox d) →
  lockstep d'.
Proof.
  intros [Hn Ho Hr Hc Ha] Hrev Hrec Hout. unfold committed in *.
  split; unfold committed; intros; rewrite ?Hrev, ?Hrec in *; eauto.
  rewrite <-Ho. clear -Hout. revert Hout. generalize (outbox d) as l. induction (outbox d') as [|o l' IH]; intros [|o' l]; try done.
  simpl. intros [= E1 E2 E]. rewrite !filter_cons, E1. specialize (IH l E). case_decide; simpl; congruence.
Qed.

Lemma revisions_insert name x d k :
  revisions_of (set_revisions <[name := x]> d) k = if decide (name = k) then x else revisions_of d k.
Proof.
  unfold revisions_of, set_revisions. simpl. case_decide as E; [subst; by rewrite lookup_insert_eq|by rewrite lookup_insert_ne].
Qed.

Lemma lockstep_ensured name d : lockstep d → lockstep (set_revisions <[name := revisions_of d name]> d).
Proof.
  intros Hd. apply (lockstep_same d); [done| |done|done]. intros k. rewrite revisions_insert. by case_decide as E; subst.
Qed.

Lemma outbox_bumped name payload d k :
  lockstep d →
  map ob_state_revision (filter (λ o, ob_name o = k) (outbox (state_bumped name payload d))) =
    seqZ 1 (if decide (name = k) then state_of d name + 1 else state_of d k).
Proof.
  intros Hd. unfold state_bumped. simpl. rewrite filter_app, map_app, (ls_outbox _ Hd), filter_cons, filter_nil. simpl.
  case_decide as E; simpl; [|by rewrite app_nil_r]. subst k.
  by rewrite seqZ_snoc by apply Hd.
Qed.

Lemma revisions_bumped name payload d k :
  revisions_of (state_bumped name payload d) k =
    if decide (name = k) then (state_of d name + 1, control_of d name) else revisions_of d k.
Proof. apply (revisions_insert name _ d). Qed.

Lemma lockstep_bump_state name payload d : lockstep d → lockstep (state_bumped name payload d).
Proof.
  intros Hd. pose proof (revisions_bumped name payload d) as Hrev.
  pose proof Hd as [Hn Ho Hr Hc Ha]. split; intros; rewrite ?Hrev in *.
  - pose proof (Hn name). pose proof (Hn name0). case_decide; simpl; lia.
  - rewrite outbox_bumped by done. by case_decide.
  - pose proof (Hr cid r ltac:(done)). case_decide as E; simpl; [rewrite <-E in *; lia|done].
  - by eapply Hc.
  - apply Ha. case_decide as E; simpl in *; [by rewrite <-E|done].
Qed.

(** What the closing transaction of a command leaves. *)
Definition commit_receipt (name action : string) (d : store) : StrategyCommandReceipt :=
  mkStrategyReceipt name action "COMMITTED" (control_of d name + 1) (state_of d name + 1) None None None.
Definition store_committed (cid name action : string) (payload : dict) (d : store) : store :=
  set_receipts <[cid := commit_receipt name action d]>
    (state_bumped name payload (set_revisions <[name := (state_of d name, control_of d name + 1)]> d)).

Lemma lockstep_committed cid name action payload d :
  receipts d !! cid = None → lockstep d → lockstep (store_committed cid name action payload d).
Proof.
  intros Hf Hd. set (d1 := set_revisions <[name := (state_of d name, control_of d name + 1)]> d).
  assert (∀ k, revisions_of (store_committed cid name action payload d) k =
    if decide (name = k) then (state_of d name + 1, control_of d name + 1) else revisions_of d k) as Hrev.
  { intros k. unfold store_committed. fold d1. trans (revisions_of (state_bumped name payload d1) k); [done|].
    rewrite revisions_bumped. unfold d1. rewrite !revisions_insert, (decide_True (P := name = name)) by done. by case_decide. }
  assert (∀ c r, committed c r (store_committed cid name action payload d) ↔
    (c = cid ∧ r = commit_receipt name action d) ∨ (c ≠ cid ∧ committed c r d)) as Hcom.
  { intros c r. unfold committed, store_committed. simpl. destruct (decide (c = cid)) as [->|Hc].
    - rewrite lookup_insert_eq. split; [by intros [[= <-] _]; left|by intros [[_ ->]|[? _]]].
    - rewrite lookup_insert_ne by done. split; [by right|by intros [[? _]|[_ ?]]]. }
  destruct Hd as [Hn Ho Hr Hc Ha]. pose proof (Hn name) as Hn0. split.
  - intros k. rewrite Hrev. specialize (Hn k). case_decide; simpl; lia.
  - intros k. unfold store_committed, state_bumped. simpl. rewrite filter_app, map_app, Ho, filter_cons, filter_nil, Hrev.
    destruct (decide (name = k)) as [<-|E]; [rewrite ?decide_True by done|by rewrite ?decide_False, app_nil_r by done].
    cbn [fst]. rewrite seqZ_snoc by lia. cbn [ob_state_revision]. by rewrite revisions_insert, decide_True by done.
  - intros c r [[-> ->]|[Hne Hcm]]%Hcom; rewrite Hrev; simpl; [rewrite decide_True by done; simpl; lia|].
    specialize (Hr _ _ Hcm). case_decide as E; simpl; [rewrite <-E in *; lia|done].
  - intros c1 r1 c2 r2 [[-> ->]|[H1 Hm1]]%Hcom [[-> ->]|[H2 Hm2]]%Hcom; simpl; intros En Ek; [done| | |by eapply Hc].
    + specialize (Hr _ _ Hm2). rewrite <-En in Hr. lia.
    + specialize (Hr _ _ Hm1). rewrite En in Hr. lia.
  - intros k n. rewrite Hrev. case_decide as E; simpl; intros Hk.
    + subst k. destruct (decide (n = control_of d name + 1)) as [->|Hne].
      * exists cid, (commit_receipt name action d). split; [by rewrite Hcom; left|done].
      * destruct (Ha name n) as (c & r & Hcm & Hnm & Hcr); [lia|]. exists c, r. split; [|done]. rewrite Hcom. right.
        split; [|done]. intros ->. destruct Hcm as [Hcm _]. congruence.
    + destruct (Ha k n Hk) as (c & r & Hcm & Hnm & Hcr). exists c, r. split; [|done]. rewrite Hcom. right.
      split; [|done]. intros ->. destruct Hcm as [Hcm _]. congruence.
Qed.
