(* ===== verification/StrategyService.v ===== *)
(** * The strategy service's control side ([trader/strategy/strategy_runtime.py])

    What the strategy service does with a forwarded command: the runtime change, the
    staged swap of the configuration file, and one transaction for the receipt, the
    revisions and the outbox row; the announcement of states; the recovery of a swap
    the process died in; and the drain of the outbox into the trader's journal.
    Strategy code itself (loading, [enable], [disable]) is an argument. *)
From stdpp Require Import base tactics gmap list strings.
From Stdlib Require Import ZArith Lia.
From S2P Require Import Prelude Py Reconciler StrategyStore.
Open Scope Z_scope.

Inductive StrategyState : Type :=
  | NOT_INSTALLED | INSTALLED | WAITING_HISTORICAL_DATA | RUNNING | DISABLED | ERROR.
Global Instance StrategyState_eq_dec : EqDecision StrategyState.
Proof. solve_decision. Defined.
Definition state_text (s : StrategyState) : string :=
  match s with
  | NOT_INSTALLED => "NOT_INSTALLED" | INSTALLED => "INSTALLED" | WAITING_HISTORICAL_DATA => "WAITING_HISTORICAL_DATA"
  | RUNNING => "RUNNING" | DISABLED => "DISABLED" | ERROR => "ERROR"
  end.

(** A loaded strategy, as far as its state payload shows it. *)
Record strategy : Type := mkStrategy {
  lo_name : string;
  lo_state : StrategyState;
  lo_bar_size : option string;
  lo_class_name : option string;
  lo_conids : list Z;
  lo_universe : option string;
  lo_last_error : option string;
  lo_params : dict;
}.

(** The process over its database and its configuration file (the entries of
    [strategies], and the staged [.tmp] file).  [sv_writes] counts the durable
    writes. *)
Record service : Type := mkService {
  sv_store : store;
  sv_yaml : list dict;
  sv_staged : option (list dict);
  sv_loaded : list strategy;
  sv_announced : gmap string string;
  sv_writes : nat;
}.
Definition set_store (d : store) (s : service) : service :=
  mkService d (sv_yaml s) (sv_staged s) (sv_loaded s) (sv_announced s) (sv_writes s).
Definition set_files (yaml : list dict) (staged : option (list dict)) (s : service) : service :=
  mkService (sv_store s) yaml staged (sv_loaded s) (sv_announced s) (sv_writes s).
Definition set_loaded (l : list strategy) (s : service) : service :=
  mkService (sv_store s) (sv_yaml s) (sv_staged s) l (sv_announced s) (sv_writes s).
Definition set_announced f (s : service) : service :=
  mkService (sv_store s) (sv_yaml s) (sv_staged s) (sv_loaded s) (f (sv_announced s)) (sv_writes s).
Definition count_write (s : service) : service :=
  mkService (sv_store s) (sv_yaml s) (sv_staged s) (sv_loaded s) (sv_announced s) (S (sv_writes s)).

(** Strategy code. *)
Record StrategyCode : Type := mkCode {
  (* load_strategy: the instance it appends; a load that fails is swallowed there *)
  load_strategy : dict → res (option strategy);
  enable_instance : strategy → res strategy;
  disable_instance : strategy → res strategy;
}.

(** ** Entries of the configuration file *)
Definition entry_name (e : dict) : option string :=
  match assoc "name" e with Some (JStr s) => Some s | _ => None end.
(** [[proposed_entry if e.get('name') == name else e for e in entries]] *)
Definition with_entry (entry : dict) (entries : list dict) : list dict :=
  map (λ e, if decide (entry_name e = entry_name entry) then entry else e) entries.

Section values.
Context (float_of_text : string → option string).

Definition coerce_param_value (v : json) : json :=
  match v with
  | JStr s =>
      let text := strip s in
      if String.eqb (lower text) "true" then JBool true
      else if String.eqb (lower text) "false" then JBool false
      else match int_of_string text with
      | Some n => JInt n
      | None => match float_of_text text with Some r => JFloat r | None => JStr text end
      end
  | _ => v
  end.

Definition merge_param (merged : dict) (kv : string * json) : dict :=
  if String.eqb kv.1 "" then merged
  else match kv.2 with
  | JStr s => if String.eqb (strip s) "" then assoc_del kv.1 merged
              else assoc_set kv.1 (coerce_param_value kv.2) merged
  | _ => assoc_set kv.1 (coerce_param_value kv.2) merged
  end.

(** [dict(entry.get('params') or {})] *)
Definition entry_params (entry : dict) : res dict :=
  match assoc "params" entry with
  | Some v => if truthy v then match v with JObj d => Ok d | _ => Raise TypeError end else Ok []
  | None => Ok []
  end.

Definition proposed_entry (entry params : dict) : res dict :=
  match entry_params entry with
  | Raise e => Raise e
  | Ok own =>
      Ok (match fold_left merge_param params own with
          | [] => assoc_del "params" entry
          | merged => assoc_set "params" (JObj merged) entry
          end)
  end.

(** [_config_entries]: the strategy's entry, and a copy with the parameters merged. *)
Definition config_entries (name : string) (params : dict) (entries : list dict) : res (dict * dict) :=
  match head (filter (λ e, entry_name e = Some name) entries) with
  | None => Raise ValueError
  | Some prior => (λ p, (prior, p)) <$> proposed_entry prior params
  end.
End values.

(** ** The runtime's instances *)
Definition get_strategy (name : string) (l : list strategy) : option strategy :=
  head (filter (λ x, lo_name x = name) l).
Fixpoint remove_strategy (name : string) (l : list strategy) : list strategy :=
  match l with
  | [] => []
  | x :: l' => if String.eqb (lo_name x) name then l' else x :: remove_strategy name l'
  end.
Fixpoint replace_strategy (x : strategy) (l : list strategy) : list strategy :=
  match l with
  | [] => []
  | y :: l' => if String.eqb (lo_name y) (lo_name x) then x :: l' else y :: replace_strategy x l'
  end.

(** [_state_payload] *)
Definition some_text (k : string) (v : option string) : dict :=
  match v with Some s => if String.eqb s "" then [] else [(k, JStr s)] | None => [] end.
Definition state_payload (x : option strategy) (name : string) (control_revision : Z) : dict :=
  let state := match x with Some x => state_text (lo_state x) | None => "UNKNOWN"%string end in
  [("strategy_name", JStr name); ("strategy_state", JStr state); ("state", JStr state);
   ("control_revision", JInt control_revision)] ++
  match x with
  | None => []
  | Some x =>
      match lo_bar_size x with Some b => [("bar_size", JStr b)] | None => [] end ++
      some_text "class_name" (lo_class_name x) ++
      match lo_conids x with [] => [] | l => [("conids", JArr (map JInt l))] end ++
      some_text "universe" (lo_universe x) ++ some_text "last_error" (lo_last_error x) ++
      [("params", JObj (lo_params x))]
  end.

(** ** Durable writes and what they may raise *)
Section service.
(** What the [n]-th durable write raises instead of happening: an I/O error, or the
    death of the process. *)
Context (fault : nat → option exc).
Context (code : StrategyCode) (exc_text : exc → string) (float_of_text : string → option string).

Definition durable {A} (m : M service A) : M service A := λ s,
  match fault (sv_writes s) with
  | Some e => (Raise e, count_write s)
  | None => m (count_write s)
  end.

(** [db.transaction(fn)]: the values the sequences handed out stay burnt. *)
Definition rollback_store (before after : store) : store :=
  mkStore (revisions before) (receipts before) (outbox before) (configs before) (ack_seq after) (config_seq after).
Definition in_store {A} (m : M store A) : M service A := λ s,
  match m (sv_store s) with
  | (Ok a, d) => (Ok a, set_store d s)
  | (Raise e, d) => (Raise e, set_store (rollback_store (sv_store s) d) s)
  end.
Definition db_transaction {A} (m : M store A) : M service A := durable (in_store m).

Definition control_revision (name : string) : M service Z :=
  db_transaction (r ← ensure_row_in_tx name; mret r.2).
Definition state_revision (name : string) : M service Z :=
  db_transaction (r ← ensure_row_in_tx name; mret r.1).
Definition prepare_config_revision (name : string) (expected : Z) (prior proposed : dict) (command_id : string)
    : M service Z := db_transaction (insert_config name expected prior proposed command_id).
Definition mark_committed (revision_id : Z) : M service unit :=
  db_transaction (mark_config revision_id CONFIG_COMMITTED).
Definition mark_rolled_back (revision_id : Z) : M service unit :=
  db_transaction (mark_config revision_id CONFIG_ROLLED_BACK).
Definition mark_acknowledged (ack_id : Z) : M service unit := db_transaction (mark_acknowledged_row ack_id).

(** The staged copy of the file, its rename onto the live file, its removal. *)
Definition stage_yaml (entry : dict) : M service unit :=
  durable (modify (λ s, set_files (sv_yaml s) (Some (with_entry entry (sv_yaml s))) s)).
Definition replace_yaml : M service unit := durable (λ s,
  match sv_staged s with
  | Some entries => (Ok tt, set_files entries None s)
  | None => (Raise (OtherException "FileNotFoundError"), s)
  end).
Definition unstage_yaml : M service unit :=
  except (durable (modify (λ s, set_files (sv_yaml s) None s))) (λ _, mret tt).

(** ** Announcing states *)
Definition announce_one (x : strategy) : M service unit :=
  told ← gets (λ s, sv_announced s !! lo_name x);
  if bool_decide (told = Some (state_text (lo_state x))) then mret tt else
  control ← control_revision (lo_name x);
  payload ← gets (λ s, state_payload (get_strategy (lo_name x) (sv_loaded s)) (lo_name x) control);
  db_transaction (bump_state_revision_in_tx (lo_name x) payload) ;;
  modify (set_announced <[lo_name x := state_text (lo_state x)]>).
(** [_announce_strategy_states] *)
Definition announce_strategy_states : M service unit :=
  loaded ← gets sv_loaded; for_each loaded announce_one.
(** [_announce_and_drain] *)
Definition announce_and_drain : M service unit := except announce_strategy_states (λ _, mret tt).

(** ** Enable and disable *)
Definition change_instance (change : strategy → res strategy) (name : string) : M service unit :=
  found ← gets (λ s, get_strategy name (sv_loaded s));
  match found with
  | None => mret tt
  | Some x =>
      match change x with
      | Raise e => raise e
      | Ok x' =>
          modify (λ s, set_loaded (replace_strategy (mkStrategy (lo_name x) (lo_state x') (lo_bar_size x')
            (lo_class_name x') (lo_conids x') (lo_universe x') (lo_last_error x') (lo_params x')) (sv_loaded s)) s) ;;
          announce_and_drain
      end
  end.
Definition enable_strategy : string → M service unit := change_instance (enable_instance code).
Definition disable_strategy : string → M service unit := change_instance (disable_instance code).

(** ** The configuration swap *)

(** [_swap_runtime] *)
Definition swap_runtime (name : string) (entry : dict) : M service unit :=
  modify (λ s, set_loaded (remove_strategy name (sv_loaded s)) s) ;;
  match load_strategy code entry with
  | Raise e => raise e
  | Ok None => mret tt
  | Ok (Some x) => modify (λ s, set_loaded (sv_loaded s ++ [x]) s)
  end ;;
  new ← gets (λ s, get_strategy name (sv_loaded s));
  match new with
  | Some _ => mret tt
  | None => raise (RuntimeError "failed to reload with the proposed configuration")
  end.

(** [_restore_runtime] *)
Definition restore_runtime (name : string) (prior : dict) : M service (option string) :=
  except (swap_runtime name prior ;; mret None) (λ e, mret (Some (exc_text e))).

(** [_record], outside the shared commit *)
Definition record (command_id name action state : string) (control_revision : Z) (error : option string)
    : M service StrategyCommandReceipt :=
  current_state ← state_revision name;
  db_transaction (record_receipt_in_tx command_id name action state control_revision current_state error).

Definition rollback_failed_text (e : exc) (restore_error : option string) : string :=
  ("swap failed: " +:+ exc_text e +:+ "; restore failed: " +:+ default "None"%string restore_error +:+
   "; strategy left unloaded")%string.

(** The swap did not go through: back to the prior configuration. *)
Definition roll_back_swap (command_id name action : string) (current revision_id : Z) (prior : dict) (e : exc)
    : M service StrategyCommandReceipt :=
  restore_error ← restore_runtime name prior;
  unstage_yaml ;;
  mark_rolled_back revision_id ;;
  still ← gets (λ s, get_strategy name (sv_loaded s));
  match still with
  | None => record command_id name action "ROLLBACK_FAILED" current (Some (rollback_failed_text e restore_error))
  | Some _ => record command_id name action "ROLLED_BACK" current (Some (exc_text e))
  end.

(** The [update_strategy_params] branch: [Some receipt] when it was rolled back. *)
Definition swap_config (command_id name action : string) (current : Z) (params : dict)
    : M service (option StrategyCommandReceipt) :=
  entries ← gets sv_yaml;
  match config_entries float_of_text name params entries with
  | Raise e => raise e
  | Ok (prior, proposed) =>
      revision_id ← prepare_config_revision name current prior proposed command_id;
      undone ← except (stage_yaml proposed ;; swap_runtime name proposed ;; replace_yaml ;; mret None)
        (λ e, r ← roll_back_swap command_id name action current revision_id prior e; mret (Some r));
      match (undone : option StrategyCommandReceipt) with
      | Some r => mret (Some r)
      | None => mark_committed revision_id ;; mret None
      end
  end.

(** ** [apply_control_command] *)

(** [payload.get('strategy_state') or payload.get('state')] *)
Definition payload_state (payload : dict) : option string :=
  let text k := match assoc k payload with
    | Some (JStr s) => if String.eqb s "" then None else Some s | _ => None end in
  match text "strategy_state"%string with Some s => Some s | None => text "state"%string end.

Definition with_payload (r : StrategyCommandReceipt) (payload : dict) : StrategyCommandReceipt :=
  mkStrategyReceipt (s_strategy_name r) (s_action r) (s_state r) (s_control_revision r) (s_state_revision r)
    (s_error r) (payload_state payload) (Some payload).

(** [_receipt_with_observable_state]; the receipt comes from the table, so it has
    no observable fields of its own. *)
Definition receipt_with_observable_state (r : StrategyCommandReceipt) (s : service) : StrategyCommandReceipt :=
  if s_state_revision r <=? 0 then r else
  let row := head (filter (λ o, ob_name o = s_strategy_name r ∧ ob_state_revision o = s_state_revision r)
               (outbox (sv_store s))) in
  let payload := match row with
    | Some o => ob_payload o
    | None => []
    end in
  let payload := match payload with
    | [] => if String.eqb (s_state r) "COMMITTED"
            then state_payload (get_strategy (s_strategy_name r) (sv_loaded s)) (s_strategy_name r) (s_control_revision r)
            else []
    | _ => payload
    end in
  match payload with [] => r | _ => with_payload r payload end.

(** The closing transaction: both revisions, the outbox row and the receipt. *)
Definition commit_in_tx (command_id name action : string) (x : option strategy) : M store StrategyCommandReceipt :=
  control ← bump_control_revision_in_tx name;
  let payload := state_payload x name control in
  state ← bump_state_revision_in_tx name payload;
  r ← record_receipt_in_tx command_id name action "COMMITTED" control state None;
  mret (with_payload r payload).

Definition apply_control_command (command_id name action : string) (expected : Z) (params : dict)
    : M service StrategyCommandReceipt :=
  require (bool_decide (action ∈ ["enable_strategy"; "disable_strategy"; "update_strategy_params"]%string)) ValueError ;;
  existing ← gets (λ s, receipts (sv_store s) !! command_id);
  match existing with
  | Some r => gets (receipt_with_observable_state r)
  | None =>
      current ← control_revision name;
      require (expected =? current) (ControlRevisionConflict name current) ;;
      undone ←
        (if String.eqb action "update_strategy_params" then swap_config command_id name action current params
         else
           known ← gets (λ s, get_strategy name (sv_loaded s));
           require (match known with Some _ => true | None => false end) ValueError ;;
           (if String.eqb action "enable_strategy" then enable_strategy name else disable_strategy name) ;;
           mret None);
      match (undone : option StrategyCommandReceipt) with
      | Some r => mret r
      | None =>
          x ← gets (λ s, get_strategy name (sv_loaded s));
          r ← db_transaction (commit_in_tx command_id name action x);
          (match s_observable_state r with
           | Some state => modify (set_announced <[name := state]>)
           | None => mret tt
           end) ;;
          mret r
      end
  end.

(** ** Recovery at startup *)

(** Back to the prior entry, and only then the row is closed: the revisions that
    were recovered and those that were not. *)
Definition recover_one (revision_id : Z) : M service (list Z * list Z) :=
  row ← gets (λ s, get_config_revision revision_id (sv_store s));
  match row with
  | None => mret ([], [])
  | Some c =>
      restored ← except (stage_yaml (cf_prior c) ;; replace_yaml ;; mret true) (λ _, unstage_yaml ;; mret false);
      if (restored : bool) then mark_rolled_back revision_id ;; mret ([revision_id], []) else mret ([], [revision_id])
  end.
(** [recover_startup_config] *)
Definition recover_startup_config : M service (list Z) :=
  ids ← gets (λ s, prepared_config_revision_ids (sv_store s));
  done ← map_each ids recover_one;
  match done ≫= snd with
  | [] => mret (done ≫= fst)
  | failures => raise (StartupConfigRecoveryError failures)
  end.
End service.

(** The next process: the files and the database are what the last one left, the
    memory is new. *)
Definition restart (loaded : list strategy) (s : service) : service :=
  mkService (sv_store s) (sv_yaml s) (sv_staged s) loaded ∅ 0.

(** ** What every operation keeps of the store *)

(** A property of the store that each statement of the service keeps. *)
Class Store_property (P : store → Prop) : Prop := {
  sp_seqs d a c : P d → ack_seq d ≤ a → P (mkStore (revisions d) (receipts d) (outbox d) (configs d) a c);
  sp_configs d f : P d → P (set_configs f d);
  sp_row d name : P d → P (set_revisions <[name := revisions_of d name]> d);
  sp_state d name payload : P d → P (state_bumped name payload d);
  sp_receipt d cid r : P d → receipts d !! cid = None → s_state r ≠ "COMMITTED"%string →
    P (set_receipts <[cid := r]> d);
  sp_commit d cid name action payload : P d → receipts d !! cid = None →
    P (store_committed cid name action payload d);
}.

Lemma commit_run cid name action x d :
  receipts d !! cid = None →
  let payload := state_payload x name ((revisions_of d name).2 + 1) in
  commit_in_tx cid name action x d =
    (Ok (with_payload (commit_receipt name action d) payload), store_committed cid name action payload d).
Proof.
  intros Hn payload. unfold commit_in_tx. rewrite bind_unfold, bump_control_run. rewrite bind_unfold, bump_state_run.
  unfold record_receipt_in_tx. rewrite bind_assoc, bind_gets.
  change (receipts (state_bumped _ _ _)) with (receipts d). rewrite Hn, bind_assoc, bind_modify.
  unfold commit_receipt, store_committed, commit_receipt. by rewrite !(revisions_insert name), !decide_True by done.
Qed.

Section kept.
Context (P : store → Prop) `{!Store_property P}.
Context (fault : nat → option exc).
Context (code : StrategyCode) (exc_text : exc → string) (float_of_text : string → option string).

Notation kept m := (preserves (λ s, P (sv_store s)) m).

Lemma kept_modify f : (∀ s, sv_store (f s) = sv_store s) → kept (modify f).
Proof. intros Hf. apply preserves_modify. intros s. by rewrite Hf. Qed.

Lemma kept_except {A} (m : M service A) h : kept m → (∀ e, kept (h e)) → kept (except m h).
Proof. intros Hm Hh. apply preserves_try; [done|]. intros e k. by destruct e; intros [= <-]. Qed.

Lemma kept_durable {A} (m : M service A) : kept m → kept (durable fault m).
Proof. intros Hm s Hs. unfold final, durable. destruct (fault _); [done|]. by apply Hm. Qed.

Lemma kept_tx {A} (m : M store A) :
  (∀ d, P d → match m d with (Ok _, d') => P d' | (Raise _, d') => ack_seq d ≤ ack_seq d' end) →
  kept (db_transaction fault m).
Proof.
  intros Hm. apply kept_durable. intros s Hs. unfold final, in_store. specialize (Hm _ Hs).
  destruct (m (sv_store s)) as [[a|e] d']; [done|]. by apply sp_seqs.
Qed.

Lemma kept_revision {A} (k : Z * Z → A) name : kept (db_transaction fault (r ← ensure_row_in_tx name; mret (k r))).
Proof. apply kept_tx. intros d Hd. rewrite bind_unfold, ensure_row_run. by apply sp_row. Qed.

Lemma kept_config f : kept (db_transaction fault (modify (set_configs f))).
Proof. apply kept_tx. intros d Hd. by apply sp_configs. Qed.

Lemma kept_stage entry : kept (stage_yaml fault entry).
Proof. apply kept_durable, kept_modify. done. Qed.
Lemma kept_replace : kept (replace_yaml fault).
Proof. apply kept_durable. intros s Hs. unfold final. by destruct (sv_staged s). Qed.
Lemma kept_unstage : kept (unstage_yaml fault).
Proof. apply kept_except; [apply kept_durable, kept_modify; done|]. intros e. apply preserves_ret. Qed.

Lemma kept_announce_one x : kept (announce_one fault x).
Proof.
  apply preserves_bind; [apply preserves_gets|]. intros told. destruct (bool_decide _); [apply preserves_ret|].
  apply preserves_bind; [apply kept_revision|]. intros control.
  apply preserves_bind; [apply preserves_gets|]. intros payload.
  apply preserves_bind; [|intros _; by apply kept_modify].
  apply kept_tx. intros d Hd. rewrite bump_state_run. by apply sp_state.
Qed.
Lemma kept_announce : kept (announce_strategy_states fault).
Proof.
  apply preserves_bind; [apply preserves_gets|]. intros l. apply preserves_for_each. intros x _. apply kept_announce_one.
Qed.

Lemma kept_change change name : kept (change_instance fault change name).
Proof.
  apply preserves_bind; [apply preserves_gets|]. intros [x|]; [|apply preserves_ret].
  destruct (change x); [|apply preserves_raise]. apply preserves_bind; [by apply kept_modify|]. intros _.
  apply kept_except; [apply kept_announce|]. intros e. apply preserves_ret.
Qed.

Lemma kept_swap_runtime name entry : kept (swap_runtime code name entry).
Proof.
  apply preserves_bind; [by apply kept_modify|]. intros _.
  apply preserves_bind; [destruct (load_strategy code entry) as [[x|]|e];
    [by apply kept_modify|apply preserves_ret|apply preserves_raise]|]. intros _.
  apply preserves_bind; [apply preserves_gets|]. intros [x|]; [apply preserves_ret|apply preserves_raise].
Qed.

Lemma kept_record cid name action state control error :
  state ≠ "COMMITTED"%string → kept (record fault cid name action state control error).
Proof.
  intros Hs. apply preserves_bind; [apply kept_revision|]. intros n. apply kept_tx. intros d Hd.
  unfold record_receipt_in_tx. rewrite bind_gets. destruct (receipts d !! cid) eqn:Hc; [cbn; lia|].
  rewrite bind_modify. by apply sp_receipt.
Qed.

Lemma kept_roll_back cid name action current rid prior e :
  kept (roll_back_swap fault code exc_text cid name action current rid prior e).
Proof.
  apply preserves_bind.
  { apply kept_except; [|intros; apply preserves_ret]. apply preserves_bind; [apply kept_swap_runtime|]. intros. apply preserves_ret. }
  intros r. apply preserves_bind; [apply kept_unstage|]. intros _. apply preserves_bind; [apply kept_config|]. intros _.
  apply preserves_bind; [apply preserves_gets|]. by intros [x|]; apply kept_record.
Qed.

Lemma kept_swap_config cid name action current params :
  kept (swap_config fault code exc_text float_of_text cid name action current params).
Proof.
  apply preserves_bind; [apply preserves_gets|]. intros entries. destruct (config_entries _ _ _ _) as [[prior proposed]|e];
    [|apply preserves_raise].
  apply preserves_bind.
  { apply kept_tx. intros d Hd. unfold insert_config, next_config. rewrite bind_unfold, bind_modify. cbn [fst snd].
    apply (sp_seqs (set_configs _ d)); [by apply sp_configs|simpl; lia]. }
  intros rid. apply preserves_bind.
  { apply kept_except; [|intros e; apply preserves_bind; [apply kept_roll_back|intros r; apply preserves_ret]].
    apply preserves_bind; [apply kept_stage|]. intros _. apply preserves_bind; [apply kept_swap_runtime|]. intros _.
    apply preserves_bind; [apply kept_replace|]. intros _. apply preserves_ret. }
  intros [r|]; [apply preserves_ret|]. apply preserves_bind; [apply kept_config|]. intros _. apply preserves_ret.
Qed.

Lemma kept_apply cid name action expected params :
  kept (apply_control_command fault code exc_text float_of_text cid name action expected params).
Proof.
  apply preserves_bind; [apply preserves_require|]. intros _. apply preserves_bind; [apply preserves_gets|].
  intros [r|]; [apply preserves_gets|]. apply preserves_bind; [apply kept_revision|]. intros current.
  apply preserves_bind; [apply preserves_require|]. intros _. apply preserves_bind.
  { destruct (String.eqb _ _); [apply kept_swap_config|]. apply preserves_bind; [apply preserves_gets|]. intros known.
    apply preserves_bind; [apply preserves_require|]. intros _.
    apply preserves_bind; [destruct (String.eqb _ _); apply kept_change|]. intros _. apply preserves_ret. }
  intros [r|]; [apply preserves_ret|]. apply preserves_bind; [apply preserves_gets|]. intros x.
  apply preserves_bind; [|intros r; apply preserves_bind; [destruct (s_observable_state r); [by apply kept_modify|apply preserves_ret]|
    intros _; apply preserves_ret]].
  apply kept_tx. intros d Hd. destruct (receipts d !! cid) as [r|] eqn:Hc.
  - unfold commit_in_tx. rewrite bind_unfold, bump_control_run. rewrite bind_unfold, bump_state_run.
    unfold record_receipt_in_tx. rewrite bind_assoc, bind_gets. change (receipts (state_bumped _ _ _)) with (receipts d).
    rewrite Hc. change (ack_seq d ≤ ack_seq d + 1). lia.
  - rewrite commit_run by done. by apply sp_commit.
Qed.

Lemma kept_recover : kept (recover_startup_config fault).
Proof.
  apply preserves_bind; [apply preserves_gets|]. intros ids. apply preserves_bind; [apply preserves_map_each|].
  - intros rid. apply preserves_bind; [apply preserves_gets|]. intros [c|]; [|apply preserves_ret].
    apply preserves_bind.
    { apply kept_except; [|intros e; apply preserves_bind; [apply kept_unstage|intros _; apply preserves_ret]].
      apply preserves_bind; [apply kept_stage|]. intros _. apply preserves_bind; [apply kept_replace|]. intros _. apply preserves_ret. }
    intros []; [|apply preserves_ret]. apply preserves_bind; [apply kept_config|]. intros _. apply preserves_ret.
  - intros done. destruct (done ≫= snd); [apply preserves_ret|apply preserves_raise].
Qed.
End kept.

Global Instance lockstep_property : Store_property lockstep.
Proof.
  split.
  - intros d a c Hd _. by apply (lockstep_same d).
  - intros d f Hd. by apply (lockstep_same d).
  - intros d name. apply lockstep_ensured.
  - intros d name payload. apply lockstep_bump_state.
  - intros d cid r Hd Hf Hs. assert (∀ c q, committed c q (set_receipts <[cid := r]> d) ↔ committed c q d) as Hcom.
    { intros c q. unfold committed, set_receipts. simpl. destruct (decide (c = cid)) as [->|Hc].
      - rewrite lookup_insert_eq, Hf. split; [by intros [[= <-] ?]|by intros [? _]].
      - by rewrite lookup_insert_ne. }
    destruct Hd as [Hn Ho Hr Hc Ha]. split; [exact Hn|exact Ho| | |].
    + intros c q. rewrite Hcom. apply Hr.
    + intros c1 r1 c2 r2. rewrite !Hcom. apply Hc.
    + intros name k Hk. destruct (Ha name k Hk) as (c & q & Hq & H1). exists c, q. by rewrite Hcom.
  - intros d cid name action payload Hd Hf. by apply lockstep_committed.
Qed.

Global Instance receipt_property cid r : Store_property (λ d, receipts d !! cid = Some r).
Proof.
  split; try done.
  - intros d c q Hd Hf _. simpl. rewrite lookup_insert_ne; [done|]. intros ->. congruence.
  - intros d c name action payload Hd Hf. simpl. rewrite lookup_insert_ne; [done|]. intros ->. congruence.
Qed.

(** The outbox ids are fresh ones. *)
Definition fresh_acks (d : store) : Prop :=
  NoDup (map ob_ack_id (outbox d)) ∧ ∀ o, o ∈ outbox d → ob_ack_id o < ack_seq d.

Lemma fresh_acks_snoc l a n s c p f r1 r2 cf k : n ∉ map ob_ack_id l → NoDup (map ob_ack_id l) →
  (∀ o, o ∈ l → ob_ack_id o < n) →
  fresh_acks (mkStore r1 r2 (l ++ [mkOutbox n a s c p f]) cf (n + 1) k).
Proof.
  intros Hn Hnd Hlt. split; simpl.
  - rewrite map_app. apply NoDup_app. split; [done|]. split; [|apply NoDup_singleton]. simpl.
    intros x Hx ->%list_elem_of_singleton. done.
  - intros o [Ho| ->%list_elem_of_singleton]%elem_of_app; [|simpl; lia]. specialize (Hlt o Ho). lia.
Qed.

Global Instance fresh_acks_property : Store_property fresh_acks.
Proof.
  assert (∀ d, fresh_acks d → ack_seq d ∉ map ob_ack_id (outbox d)) as Hnew.
  { intros d [_ Hlt] Hin. apply list_elem_of_fmap in Hin as (o & E & Ho). specialize (Hlt o Ho). lia. }
  split.
  - intros d a c [Hnd Hlt] Ha. split; [done|]. intros o Ho. specialize (Hlt o Ho). simpl. lia.
  - by intros d f.
  - by intros d name.
  - intros d name payload Hd. pose proof (Hnew d Hd). destruct Hd. by apply fresh_acks_snoc.
  - by intros d cid r.
  - intros d cid name action payload Hd _. pose proof (Hnew d Hd). destruct Hd. by apply fresh_acks_snoc.
Qed.

(** *** Everything the service does *)

(** All of it but marking outbox rows, which the drain does. *)
Inductive service_op : service → service → Prop :=
  | op_apply fault code text flt cid name action expected params s :
      service_op s (final (apply_control_command fault code text flt cid name action expected params) s)
  | op_announce fault s : service_op s (final (announce_strategy_states fault) s)
  | op_recover fault s : service_op s (final (recover_startup_config fault) s)
  (* the instances run and change; the file is edited; the process is started again *)
  | op_instances l s : service_op s (set_loaded l s)
  | op_edit yaml staged s : service_op s (set_files yaml staged s)
  | op_restart l s : service_op s (restart l s).

Inductive service_step : service → service → Prop :=
  | step_op s s' : service_op s s' → service_step s s'
  | step_acknowledged fault ack_id s : service_step s (final (mark_acknowledged fault ack_id) s).

Lemma op_keeps P `{!Store_property P} s s' : service_op s s' → P (sv_store s) → P (sv_store s').
Proof.
  destruct 1; try done; intros Hs; [by apply (kept_apply P)|by apply (kept_announce P)|by apply (kept_recover P)].
Qed.

Lemma service_steps_keep P `{!Store_property P} s s' :
  (∀ fault ack_id s, P (sv_store s) → P (sv_store (final (mark_acknowledged fault ack_id) s))) →
  rtc service_step s s' → P (sv_store s) → P (sv_store s').
Proof.
  intros Hack. induction 1 as [|s1 s2 s3 Hstep _ IH]; [done|]. intros Hs. apply IH.
  destruct Hstep as [s1 s2 Hop|]; [by eapply (op_keeps P)|by apply Hack].
Qed.

Lemma acknowledged_store fault ack_id s :
  let d := sv_store (final (mark_acknowledged fault ack_id) s) in
  d = sv_store s ∨ d = set_outbox (set_acknowledged ack_id) (sv_store s).
Proof. unfold final, mark_acknowledged, db_transaction, durable. destruct (fault _); [by left|by right]. Qed.

Lemma lockstep_acknowledged fault ack_id s :
  lockstep (sv_store s) → lockstep (sv_store (final (mark_acknowledged fault ack_id) s)).
Proof.
  intros H1. destruct (acknowledged_store fault ack_id s) as [->| ->]; [done|].
  apply (lockstep_same (sv_store s)); [done|done|done|]. simpl. unfold set_acknowledged. rewrite map_map.
  apply map_ext. intros o. by destruct (ob_ack_id o =? ack_id).
Qed.

(** C23. Over anything the service does, with writes that fail and a process that dies
    at any write and starts again: a strategy's state revisions 1, 2, ... each have
    exactly one outbox row, in order, so none is ever lost to the trader; and its
    control revisions 1, 2, ... are exactly its committed receipts, so a control
    revision is given to one command only. *)
Theorem revisions_in_lockstep s s' :
  sv_store s = empty_store → rtc service_step s s' → lockstep (sv_store s').
Proof.
  intros Hs Hrun. eapply (service_steps_keep lockstep); [|exact Hrun|rewrite Hs; apply lockstep_empty]. apply lockstep_acknowledged.
Qed.

(** A command is applied once.  From the moment its receipt is on record, through
    anything the service does, failures and restarts included, the receipt stays as
    it is, and submitting the command id again, with whatever arguments, writes
    nothing and answers that receipt. *)
Theorem receipt_is_final s s' cid r :
  receipts (sv_store s) !! cid = Some r → rtc service_step s s' →
  receipts (sv_store s') !! cid = Some r ∧
  ∀ fault code text flt name action expected params,
    action ∈ ["enable_strategy"; "disable_strategy"; "update_strategy_params"]%string →
    apply_control_command fault code text flt cid name action expected params s' =
      (Ok (receipt_with_observable_state r s'), s').
Proof.
  intros Hr Hrun. assert (receipts (sv_store s') !! cid = Some r) as Hr'.
  { eapply (service_steps_keep (λ d, receipts d !! cid = Some r)); [|exact Hrun|done].
    intros fault ack_id s1 H1. by destruct (acknowledged_store fault ack_id s1) as [->| ->]. }
  split; [done|]. intros fault code text flt name action expected params Ha. unfold apply_control_command.
  rewrite bind_require, bool_decide_eq_true_2 by done. by rewrite bind_gets, Hr'.
Qed.

(** ** The swap of the configuration file, whatever fails *)

Section post.
Context (fault : nat → option exc).

Lemma post_durable {A} (m : M service A) s (Q : res A → service → Prop) :
  (∀ e, Q (Raise e) (count_write s)) → post m (count_write s) Q → post (durable fault m) s Q.
Proof. unfold post, outcome, final, durable. intros He Hm. destruct (fault _); [apply He|apply Hm]. Qed.
End post.

(** The entries after the swap, and back. *)
Definition distinct_names (entries : list dict) : Prop := NoDup (omap entry_name entries).

Lemma named_once name entries prior :
  distinct_names entries → head (filter (λ e, entry_name e = Some name) entries) = Some prior →
  entry_name prior = Some name ∧ ∀ e, e ∈ entries → entry_name e = Some name → e = prior.
Proof.
  unfold distinct_names. induction entries as [|x l IH]; [done|]. rewrite filter_cons. intros Hnd Hh.
  case_decide as Hx.
  - injection Hh as ->. split; [done|]. intros e [->|He]%elem_of_cons Hen; [done|]. simpl in Hnd. rewrite Hx in Hnd.
    apply NoDup_cons in Hnd as [Hni _]. exfalso. apply Hni. apply list_elem_of_omap. by exists e.
  - assert (NoDup (omap entry_name l)) as Hl by (simpl in Hnd; destruct (entry_name x); [by apply NoDup_cons in Hnd as []|done]).
    destruct (IH Hl Hh) as [Hp Hu]. split; [done|]. intros e [->|He]%elem_of_cons Hen; [done|by apply Hu].
Qed.

Lemma proposed_entry_name flt entry params p : proposed_entry flt entry params = Ok p → entry_name p = entry_name entry.
Proof.
  unfold proposed_entry. destruct (entry_params entry) as [own|e]; [|done]. intros [= <-]. unfold entry_name.
  destruct (fold_left _ _ _).
  - assert (assoc "name" (assoc_del "params" entry) = assoc "name" entry) as ->; [|done].
    unfold assoc_del. induction entry as [|[k v] l IH]; [done|]. rewrite filter_cons. simpl. case_decide as Hk; simpl; [by rewrite IH|].
    by subst k.
  - by rewrite assoc_set_ne.
Qed.

Section entries.
Context (flt : string → option string) (name : string) (params : dict) (y0 : list dict) (prior proposed : dict).
Hypothesis names_distinct : distinct_names y0.
Hypothesis entries_read : config_entries flt name params y0 = Ok (prior, proposed).

Lemma entries_named :
  entry_name prior = Some name ∧ entry_name proposed = Some name ∧ ∀ e, e ∈ y0 → entry_name e = Some name → e = prior.
Proof.
  unfold config_entries in entries_read. destruct (head _) as [x|] eqn:Hh; [|done].
  destruct (proposed_entry flt x params) as [p|e] eqn:Hp; simpl in *; [|done]. injection entries_read as -> ->.
  destruct (named_once _ _ _ names_distinct Hh) as [Hn Hu]. split; [done|]. split; [|done].
  by rewrite (proposed_entry_name _ _ _ _ Hp).
Qed.

Lemma with_prior : with_entry prior y0 = y0.
Proof.
  destruct entries_named as (Hp & _ & Hu). unfold with_entry. etrans; [|apply map_id]. apply map_ext_in.
  intros e He%list_elem_of_In. case_decide as E; [|done]. symmetry. apply Hu; [done|congruence].
Qed.
Lemma with_prior_after : with_entry prior (with_entry proposed y0) = y0.
Proof.
  destruct entries_named as (Hp & Hq & Hu). unfold with_entry. rewrite map_map. etrans; [|apply map_id]. apply map_ext_in.
  intros e He%list_elem_of_In. rewrite Hp, Hq. destruct (decide (entry_name e = Some name)) as [E|E].
  - rewrite Hq, decide_True by done. symmetry. by apply Hu.
  - by rewrite decide_False.
Qed.
End entries.

(** What of the service a swap is about; most operations leave it alone. *)
Definition view (s : service) : list dict * list ConfigRow * gmap string StrategyCommandReceipt * Z :=
  (sv_yaml s, configs (sv_store s), receipts (sv_store s), config_seq (sv_store s)).
Notation unseen m := (∀ v, preserves (λ s, view s = v) m).

Section unseen.
Context (fault : nat → option exc) (code : StrategyCode) (exc_text : exc → string).

Lemma unseen_modify f : (∀ s, view (f s) = view s) → unseen (modify f).
Proof. intros Hf v. apply preserves_modify. intros s. by rewrite Hf. Qed.
Lemma unseen_except {A} (m : M service A) h : unseen m → (∀ e, unseen (h e)) → unseen (except m h).
Proof. intros Hm Hh v. apply preserves_try; [apply Hm|]. intros e k. by destruct e; intros [= <-]; apply Hh. Qed.
Lemma unseen_durable {A} (m : M service A) : unseen m → unseen (durable fault m).
Proof. intros Hm v s Hs. unfold final, durable. destruct (fault _); [done|]. by apply Hm. Qed.
Lemma unseen_revision {A} (k : Z * Z → A) name : unseen (db_transaction fault (r ← ensure_row_in_tx name; mret (k r))).
Proof.
  apply unseen_durable. intros v s Hs. unfold final, in_store. rewrite bind_unfold, ensure_row_run. done.
Qed.
Lemma unseen_stage entry : unseen (stage_yaml fault entry).
Proof. by apply unseen_durable, unseen_modify. Qed.
Lemma unseen_unstage : unseen (unstage_yaml fault).
Proof. apply unseen_except; [by apply unseen_durable, unseen_modify|]. intros e v. apply preserves_ret. Qed.
Lemma unseen_swap_runtime name entry : unseen (swap_runtime code name entry).
Proof.
  intros v. apply preserves_bind; [by apply unseen_modify|]. intros _.
  apply preserves_bind; [destruct (load_strategy code entry) as [[x|]|e];
    [by apply unseen_modify|apply preserves_ret|apply preserves_raise]|]. intros _.
  apply preserves_bind; [apply preserves_gets|]. intros [x|]; [apply preserves_ret|apply preserves_raise].
Qed.
Lemma unseen_restore name prior : unseen (restore_runtime code exc_text name prior).
Proof.
  apply unseen_except; [|intros e v; apply preserves_ret].
  intros v. apply preserves_bind; [apply unseen_swap_runtime|]. intros _. apply preserves_ret.
Qed.

(** Loading strategies does not touch the staged file. *)
Lemma swap_runtime_staged name entry st : preserves (λ s, sv_staged s = st) (swap_runtime code name entry).
Proof.
  apply preserves_bind; [by apply preserves_modify|]. intros _.
  apply preserves_bind; [destruct (load_strategy code entry) as [[x|]|e];
    [by apply preserves_modify|apply preserves_ret|apply preserves_raise]|]. intros _.
  apply preserves_bind; [apply preserves_gets|]. intros [x|]; [apply preserves_ret|apply preserves_raise].
Qed.
End unseen.

Lemma post_unseen {A} (m : M service A) s : unseen m → post m s (λ _ s', view s' = view s).
Proof. intros Hm. by apply Hm. Qed.

(** How far the swap of one command got: the file, the staged rows, the receipt. *)
Section phases.
Context (y0 : list dict) (old : list ConfigRow) (rid : Z) (cid : string) (prior proposed : dict).

Record staged_row (c : ConfigRow) (state : config_state) : Prop := {
  sr_id : cf_revision_id c = rid;
  sr_state : cf_state c = state;
  sr_prior : cf_prior c = prior;
  sr_command : cf_command_id c = cid;
}.

Inductive swap_phase : list dict → list ConfigRow → option StrategyCommandReceipt → Prop :=
  | ph_untouched : swap_phase y0 old None
  | ph_open c y : staged_row c PREPARED → y = y0 ∨ y = with_entry proposed y0 → swap_phase y (old ++ [c]) None
  | ph_committed c r : staged_row c CONFIG_COMMITTED → (∀ x, r = Some x → s_state x = "COMMITTED"%string) →
      swap_phase (with_entry proposed y0) (old ++ [c]) r
  | ph_undone c r : staged_row c CONFIG_ROLLED_BACK → (∀ x, r = Some x → s_state x ≠ "COMMITTED"%string) →
      swap_phase y0 (old ++ [c]) r.

Definition phase (s : service) : Prop := swap_phase (sv_yaml s) (configs (sv_store s)) (receipts (sv_store s) !! cid).

Lemma phase_view s s' : view s' = view s → phase s → phase s'.
Proof. unfold phase. by intros [= -> -> -> _]. Qed.

Hypothesis old_closed : ∀ c, c ∈ old → cf_state c ≠ PREPARED.
Hypothesis old_ids : ∀ c, c ∈ old → cf_revision_id c ≠ rid.

Definition with_state (state : config_state) (c : ConfigRow) : ConfigRow :=
  mkConfig (cf_revision_id c) (cf_name c) (cf_expected c) (cf_prior c) (cf_proposed c) state (cf_command_id c).

Lemma set_last_state state c : cf_revision_id c = rid → set_config_state rid state (old ++ [c]) = old ++ [with_state state c].
Proof.
  intros Hc. unfold set_config_state. rewrite map_app. f_equal.
  - etrans; [|apply map_id]. apply map_ext_in. intros x Hx%list_elem_of_In. apply old_ids in Hx. apply Z.eqb_neq in Hx. by rewrite Hx.
  - simpl. by rewrite Hc, Z.eqb_refl, <-Hc.
Qed.

Lemma old_no_prepared : filter (λ c, cf_state c = PREPARED) old = [].
Proof.
  clear old_ids. induction old as [|c l IH]; [done|]. rewrite filter_cons, decide_False by (apply old_closed; left).
  apply IH. intros x Hx. apply old_closed. by right.
Qed.
Lemma old_no_rid : filter (λ c, cf_revision_id c = rid) old = [].
Proof.
  clear old_closed. induction old as [|c l IH]; [done|]. rewrite filter_cons, decide_False by (apply old_ids; left).
  apply IH. intros x Hx. apply old_ids. by right.
Qed.

Lemma prepared_last s c state : configs (sv_store s) = old ++ [c] → staged_row c state →
  prepared_config_revision_ids (sv_store s) = if decide (state = PREPARED) then [rid] else [].
Proof.
  intros Hs [Hid Hst _ _]. unfold prepared_config_revision_ids.
  rewrite Hs, filter_app, old_no_prepared, filter_cons, filter_nil, Hst. simpl. case_decide; simpl; [by rewrite Hid|done].
Qed.
Lemma get_last s c : configs (sv_store s) = old ++ [c] → cf_revision_id c = rid →
  get_config_revision rid (sv_store s) = Some c.
Proof.
  intros Hs Hid. unfold get_config_revision.
  by rewrite Hs, filter_app, old_no_rid, filter_cons, filter_nil, decide_True.
Qed.
End phases.

(** *** The steps that count, run *)
Section walk.
Context (fault : nat → option exc) (code : StrategyCode) (exc_text : exc → string) (flt : string → option string).

Lemma post_mark rid state s :
  post (db_transaction fault (mark_config rid state)) s (λ r s', match r with
    | Ok _ => view s' = (sv_yaml s, set_config_state rid state (configs (sv_store s)), receipts (sv_store s), config_seq (sv_store s))
    | Raise _ => view s' = view s
    end).
Proof. by apply post_durable. Qed.

Lemma post_replace s y : sv_staged s = Some y →
  post (replace_yaml fault) s (λ r s', match r with
    | Ok _ => view s' = (y, configs (sv_store s), receipts (sv_store s), config_seq (sv_store s))
    | Raise _ => view s' = view s
    end).
Proof. intros Hs. apply post_durable; [done|]. unfold post, outcome, final. simpl. by rewrite Hs. Qed.

Lemma post_stage entry s :
  post (stage_yaml fault entry) s (λ r s', view s' = view s ∧
    match r with Ok _ => sv_staged s' = Some (with_entry entry (sv_yaml s)) | Raise _ => True end).
Proof. by apply post_durable. Qed.

Lemma post_swap_runtime name entry s :
  post (swap_runtime code name entry) s (λ _ s', view s' = view s ∧ sv_staged s' = sv_staged s).
Proof. split; [by apply unseen_swap_runtime|by apply swap_runtime_staged]. Qed.

(** Staging, loading and renaming: all of it shows, or nothing. *)
Lemma post_swap name entry s :
  post (stage_yaml fault entry ;; swap_runtime code name entry ;; replace_yaml fault ;;
        mret (None : option StrategyCommandReceipt)) s (λ r s', match r with
    | Ok x => x = None ∧
        view s' = (with_entry entry (sv_yaml s), configs (sv_store s), receipts (sv_store s), config_seq (sv_store s))
    | Raise _ => view s' = view s
    end).
Proof.
  apply post_bind. eapply post_weaken; [apply post_stage|]. intros [[]|e] s1 [Hv Hst]; [|done].
  apply post_bind. eapply post_weaken; [apply post_swap_runtime|]. intros [[]|e] s2 [Hv2 Hst2]; [|by rewrite Hv2].
  apply post_bind. eapply post_weaken; [apply (post_replace _ (with_entry entry (sv_yaml s))); congruence|].
  rewrite Hv in Hv2. unfold view in Hv2. injection Hv2 as Hy Hc Hr Hs.
  intros [[]|e] s3 Hv3; [|rewrite Hv3; unfold view; by rewrite Hy, Hc, Hr, Hs].
  split; [done|]. change (view s3 = (with_entry entry (sv_yaml s), configs (sv_store s), receipts (sv_store s), config_seq (sv_store s))).
  by rewrite Hv3, Hc, Hr, Hs.
Qed.

Lemma post_restore entry s :
  post (stage_yaml fault entry ;; replace_yaml fault ;; mret true) s (λ r s', match r with
    | Ok x => x = true ∧
        view s' = (with_entry entry (sv_yaml s), configs (sv_store s), receipts (sv_store s), config_seq (sv_store s))
    | Raise _ => view s' = view s
    end).
Proof.
  apply post_bind. eapply post_weaken; [apply post_stage|]. intros [[]|e] s1 [Hv Hst]; [|done].
  apply post_bind. eapply post_weaken; [apply (post_replace _ (with_entry entry (sv_yaml s))); congruence|].
  unfold view in Hv. injection Hv as Hy Hc Hr Hs.
  intros [[]|e] s3 Hv3; [|rewrite Hv3; unfold view; by rewrite Hy, Hc, Hr, Hs].
  split; [done|]. change (view s3 = (with_entry entry (sv_yaml s), configs (sv_store s), receipts (sv_store s), config_seq (sv_store s))).
  by rewrite Hv3, Hc, Hr, Hs.
Qed.

Lemma post_record cid name action state control error s :
  receipts (sv_store s) !! cid = None →
  post (record fault cid name action state control error) s (λ r s', match r with
    | Ok x => s_state x = state ∧
        view s' = (sv_yaml s, configs (sv_store s), <[cid := x]> (receipts (sv_store s)), config_seq (sv_store s))
    | Raise _ => view s' = view s
    end).
Proof.
  intros Hn. apply post_bind. eapply post_weaken; [apply post_unseen, (unseen_revision fault fst)|].
  intros [n|e] s1 Hv; [|exact Hv]. injection Hv as Hy Hc Hr Hs. apply post_durable; [intros e; unfold view; simpl; by rewrite Hy, Hc, Hr, Hs|].
  unfold post, outcome, final, in_store, record_receipt_in_tx. rewrite bind_gets. cbn [sv_store count_write]. rewrite Hr, Hn.
  cbn. split; [done|]. unfold view. simpl. by rewrite Hy, Hc, Hr, Hs.
Qed.

Lemma post_insert name expected prior proposed cid s :
  post (prepare_config_revision fault name expected prior proposed cid) s (λ r s', match r with
    | Ok rid => rid = config_seq (sv_store s) ∧
        view s' = (sv_yaml s, configs (sv_store s) ++ [mkConfig rid name expected prior proposed PREPARED cid],
                   receipts (sv_store s), config_seq (sv_store s) + 1)
    | Raise _ => view s' = view s
    end).
Proof. by apply post_durable. Qed.
End walk.

(** *** Through the phases *)
Section swap.
Context (fault : nat → option exc) (code : StrategyCode) (exc_text : exc → string) (flt : string → option string).
Context (name : string) (params : dict) (y0 : list dict) (old : list ConfigRow) (rid : Z) (cid : string).
Context (prior proposed : dict).
Hypothesis names_distinct : distinct_names y0.
Hypothesis entries_read : config_entries flt name params y0 = Ok (prior, proposed).
Hypothesis old_closed : ∀ c, c ∈ old → cf_state c ≠ PREPARED.
Hypothesis old_ids : ∀ c, c ∈ old → cf_revision_id c ≠ rid.

Notation phase := (phase y0 old rid cid prior proposed).
Notation staged_row := (staged_row rid cid prior).

(** The service with [c] as the newest staged row. *)
Definition staged_at (y : list dict) (c : ConfigRow) (s : service) : Prop :=
  sv_yaml s = y ∧ configs (sv_store s) = old ++ [c] ∧ receipts (sv_store s) !! cid = None.

Lemma staged_at_view y c s s' : view s' = view s → staged_at y c s → staged_at y c s'.
Proof. unfold staged_at. by intros [= -> -> -> _]. Qed.

Lemma phase_open y c s :
  staged_at y c s → staged_row c PREPARED → y = y0 ∨ y = with_entry proposed y0 → phase s.
Proof. intros (Hy & Hc & Hr) Hrow Hor. unfold StrategyService.phase. rewrite Hc, Hr, Hy. by apply ph_open. Qed.

Lemma marked y c s s' state :
  staged_at y c s → staged_row c PREPARED →
  view s' = (sv_yaml s, set_config_state rid state (configs (sv_store s)), receipts (sv_store s), config_seq (sv_store s)) →
  staged_at y (with_state state c) s' ∧ staged_row (with_state state c) state.
Proof.
  intros (Hy & Hc & Hr) [Hid _ Hp Hcid] Hv. unfold view in Hv. injection Hv as Hy' Hc' Hr' _. split; [|by split].
  split; [congruence|]. split; [|by rewrite Hr']. rewrite Hc', Hc. by apply set_last_state.
Qed.

Lemma roll_back_phase action current e c s :
  staged_at y0 c s → staged_row c PREPARED →
  post (roll_back_swap fault code exc_text cid name action current rid prior e) s (λ _, phase).
Proof.
  intros Hs Hc. apply post_bind. eapply post_weaken; [apply post_unseen, unseen_restore|].
  intros [restore_error|e1] s1 Hv1; apply (staged_at_view _ _ _ _ Hv1) in Hs; [|apply (phase_open y0 c); auto].
  apply post_bind. eapply post_weaken; [apply post_unseen, unseen_unstage|].
  intros [[]|e1] s2 Hv2; apply (staged_at_view _ _ _ _ Hv2) in Hs; [|apply (phase_open y0 c); auto].
  apply post_bind. eapply post_weaken; [apply post_mark|].
  intros [[]|e1] s3 Hv3; [|apply (phase_open y0 c); auto; by apply (staged_at_view _ _ _ _ Hv3)].
  destruct (marked _ _ _ _ _ Hs Hc Hv3) as [(Hy & Hcf & Hr) Hc3]. clear Hs Hv1 Hv2 Hv3.
  assert (∀ state error, state ≠ "COMMITTED"%string →
    post (record fault cid name action state current error) s3 (λ _, phase)) as Hrec.
  { intros state error Hne. eapply post_weaken; [by apply post_record|]. intros [x|e1] s4.
    - intros [Hx Hv]. unfold view in Hv. injection Hv as Hy4 Hc4 Hr4 _. unfold StrategyService.phase.
      rewrite Hy4, Hc4, Hr4, Hy, Hcf, lookup_insert_eq. apply ph_undone; [done|]. intros ? [= <-]. by rewrite Hx.
    - intros Hv. apply (phase_view _ _ _ _ _ _ _ _ Hv). unfold StrategyService.phase. rewrite Hy, Hcf, Hr. by apply ph_undone. }
  apply post_bind. unfold post, outcome, final. cbn [gets fst snd]. by destruct (get_strategy _ _); apply Hrec.
Qed.

Lemma swap_config_phase action current s :
  sv_yaml s = y0 → configs (sv_store s) = old → receipts (sv_store s) !! cid = None → config_seq (sv_store s) = rid →
  post (swap_config fault code exc_text flt cid name action current params) s (λ r s',
    phase s' ∧ (r = Ok None → ∃ c, staged_at (with_entry proposed y0) c s' ∧ staged_row c CONFIG_COMMITTED)).
Proof.
  intros Hy Hc Hr Hs. apply post_bind. unfold post at 1, outcome, final. cbn [gets fst snd]. rewrite Hy, entries_read.
  apply post_bind. eapply post_weaken; [apply post_insert|]. intros [i|e] s1.
  2: { intros Hv. split; [|done]. apply (phase_view _ _ _ _ _ _ _ _ Hv). unfold StrategyService.phase. rewrite Hy, Hc, Hr. constructor. }
  intros [-> Hv]. unfold view in Hv. injection Hv as Hy1 Hc1 Hr1 _. rewrite Hs in *.
  set (c := mkConfig rid name current prior proposed PREPARED cid) in *.
  assert (staged_row c PREPARED) as Hrow by done.
  assert (staged_at y0 c s1) as H1 by (split; [congruence|]; split; [by rewrite Hc1, Hc|by rewrite Hr1]).
  clear Hy1 Hc1 Hr1. apply post_bind.
  apply (post_weaken _ _ (λ r s', match r with
    | Ok None => staged_at (with_entry proposed y0) c s' | _ => phase s' end)).
  - apply post_except. eapply post_weaken; [apply post_swap|]. intros [x|e] s2.
    + intros [-> Hv]. destruct H1 as (Hy1 & Hc1 & Hr1). unfold view in Hv. injection Hv as Hy2 Hc2 Hr2 _.
      split; [congruence|]. split; [congruence|by rewrite Hr2].
    + intros Hv. apply (staged_at_view _ _ _ _ Hv) in H1. split; [apply (phase_open y0 c); auto|].
      apply post_bind. eapply post_weaken; [by apply (roll_back_phase _ _ _ c)|]. by intros [x|e1] s3 Hp.
  - intros [[x|]|e] s2 H2; [by split|..]; [|by split].
    apply post_bind. eapply post_weaken; [apply post_mark|]. intros [[]|e] s3 Hv.
    + destruct (marked _ _ _ _ _ H2 Hrow Hv) as [H3 Hc3]. change (phase s3 ∧ (Ok (None : option StrategyCommandReceipt) = Ok None →
        ∃ c, staged_at (with_entry proposed y0) c s3 ∧ staged_row c CONFIG_COMMITTED)).
      split; [|intros _; by eexists]. destruct H3 as (Hy3 & Hcf3 & Hr3). unfold StrategyService.phase. rewrite Hy3, Hcf3, Hr3.
      by apply ph_committed.
    + split; [|done]. apply (phase_open (with_entry proposed y0) c); auto. by apply (staged_at_view _ _ _ _ Hv).
Qed.

Lemma apply_phase expected s :
  sv_yaml s = y0 → configs (sv_store s) = old → receipts (sv_store s) !! cid = None → config_seq (sv_store s) = rid →
  phase (final (apply_control_command fault code exc_text flt cid name "update_strategy_params" expected params) s).
Proof.
  intros Hy Hc Hr Hs.
  change (post (apply_control_command fault code exc_text flt cid name "update_strategy_params" expected params) s (λ _, phase)).
  assert (∀ s', view s' = view s → phase s') as Hstart.
  { intros s' Hv. apply (phase_view _ _ _ _ _ _ _ _ Hv). unfold StrategyService.phase. rewrite Hy, Hc, Hr. constructor. }
  apply post_bind, post_require. rewrite bool_decide_eq_true_2 by (right; right; left).
  apply post_bind, post_gets. rewrite Hr.
  apply post_bind. eapply post_weaken; [apply post_unseen, (unseen_revision fault snd)|].
  intros [current|e] s1 Hv; [|by apply Hstart]. apply post_bind, post_require. destruct (expected =? current); [|by apply Hstart].
  unfold view in Hv. injection Hv as Hy1 Hc1 Hr1 Hs1. rewrite String.eqb_refl.
  apply post_bind. eapply post_weaken; [apply swap_config_phase; congruence|].
  intros [[x|]|e] s2 [Hp Hcom]; [done| |done]. destruct (Hcom eq_refl) as (c & (Hy2 & Hc2 & Hr2) & Hrow).
  apply post_bind, post_gets, post_bind, post_durable; [intros e; exact Hp|].
  unfold post at 1, outcome, final, in_store. cbn [sv_store count_write]. rewrite commit_run by done. cbn [fst snd].
  set (x := with_payload _ _). apply post_bind. unfold post, outcome, final.
  assert (∀ f, phase (set_announced f (set_store (store_committed cid name "update_strategy_params"
    (state_payload (get_strategy name (sv_loaded s2)) name ((revisions_of (sv_store s2) name).2 + 1)) (sv_store s2)) (count_write s2)))) as Hdone.
  { intros f. unfold StrategyService.phase. simpl. rewrite Hy2, Hc2, lookup_insert_eq. apply ph_committed; [done|]. by intros ? [= <-]. }
  destruct (s_observable_state x) as [t|]; cbn [fst snd modify]; [apply Hdone|apply (Hdone id)].
Qed.

(** The recovery, which may itself fail or die. *)
Lemma phase_prepared s : phase s →
  prepared_config_revision_ids (sv_store s) = [] ∨
  ∃ c y, staged_at y c s ∧ staged_row c PREPARED ∧ (y = y0 ∨ y = with_entry proposed y0) ∧
    prepared_config_revision_ids (sv_store s) = [rid].
Proof.
  unfold StrategyService.phase. inversion 1 as [Hy Hc Hr|c y Hrow Hor Hy Hc Hr|c r Hrow Hst Hy Hc Hr|c r Hrow Hst Hy Hc Hr].
  - left. unfold prepared_config_revision_ids. by rewrite <-Hc, (old_no_prepared old).
  - right. exists c, (sv_yaml s). split; [by split|]. split; [done|]. split; [done|].
    by rewrite (prepared_last old rid cid prior old_closed s c PREPARED).
  - left. by rewrite (prepared_last old rid cid prior old_closed s c CONFIG_COMMITTED).
  - left. by rewrite (prepared_last old rid cid prior old_closed s c CONFIG_ROLLED_BACK).
Qed.

Lemma recover_phase s : phase s → phase (final (recover_startup_config fault) s).
Proof.
  intros Hp. change (post (recover_startup_config fault) s (λ _, phase)). apply post_bind, post_gets, post_bind.
  destruct (phase_prepared s Hp) as [->|(c & y & Hs & Hrow & Hor & ->)]; [done|].
  assert (∀ s', view s' = view s → phase s') as Hsame by (intros s' Hv; by apply (phase_view _ _ _ _ _ _ _ _ Hv)).
  cbn [map_each]. apply post_bind, post_bind, post_gets. pose proof Hs as (Hy & Hc & Hr).
  rewrite (get_last old rid old_ids s c) by (done || apply Hrow). apply post_bind.
  apply (post_weaken _ _ (λ r s', match r with Ok true => staged_at y0 c s' | _ => phase s' end)).
  - apply post_except. eapply post_weaken; [apply post_restore|]. intros [x|e] s1.
    + intros [-> Hv]. unfold view in Hv. injection Hv as Hy1 Hc1 Hr1 _. split; [|split; [congruence|by rewrite Hr1]].
      rewrite Hy1, (sr_prior _ _ _ _ _ Hrow), Hy.
      destruct Hor as [->| ->]; [by eapply with_prior|by eapply with_prior_after].
    + intros Hv. split; [by apply Hsame|]. apply post_bind. eapply post_weaken; [apply post_unseen, unseen_unstage|].
      intros [[]|e1] s2 Hv2; apply Hsame; (etrans; [exact Hv2|exact Hv]).
  - intros [[]|e] s1 H1; [|done|done]. apply post_bind. eapply post_weaken; [apply post_mark|]. intros [[]|e] s2 Hv.
    + destruct (marked _ _ _ _ _ H1 Hrow Hv) as [(Hy2 & Hc2 & Hr2) Hc3].
      assert (phase s2) as H2; [|done]. unfold StrategyService.phase. rewrite Hy2, Hc2, Hr2. by apply ph_undone.
    + apply (phase_open y0 c); auto. by apply (staged_at_view _ _ _ _ Hv).
Qed.

Lemma calm {A} (m : M service A) s : (∀ n, fault n = None) → durable fault m s = m (count_write s).
Proof. intros Hf. unfold durable. by rewrite Hf. Qed.

(** A recovery in which nothing fails closes the swap. *)
Lemma recover_closes s : phase s → (∀ n, fault n = None) →
  (∃ ids, outcome (recover_startup_config fault) s = Ok ids) ∧
  prepared_config_revision_ids (sv_store (final (recover_startup_config fault) s)) = [].
Proof.
  intros Hp Hf. destruct (phase_prepared s Hp) as [Hids|(c & y & Hs & Hrow & Hor & Hids)].
  - unfold outcome, final, recover_startup_config. rewrite bind_gets, Hids. by split; [eexists|].
  - pose proof Hs as (Hy & Hc & Hr).
    assert (recover_one fault rid s = (Ok ([rid], []), set_store (set_configs (set_config_state rid CONFIG_ROLLED_BACK)
      (sv_store s)) (count_write (set_files (with_entry (cf_prior c) (sv_yaml s)) None (count_write (count_write s)))))) as Hone.
    { unfold recover_one. rewrite bind_gets, (get_last old rid old_ids s c) by (done || apply Hrow).
      rewrite bind_unfold. unfold except, try_except, stage_yaml. rewrite bind_unfold, calm by done.
      cbn [modify]. rewrite bind_unfold. unfold replace_yaml. rewrite calm by done. cbn.
      unfold mark_rolled_back, db_transaction. rewrite bind_unfold, calm by done. done. }
    unfold outcome, final, recover_startup_config. rewrite bind_gets, Hids. cbn [map_each].
    rewrite bind_assoc, bind_unfold, Hone, bind_assoc, bind_ret. split; [by eexists|].
    rewrite bind_ret. cbn -[prepared_config_revision_ids]. unfold prepared_config_revision_ids. simpl.
    rewrite Hc, (set_last_state _ _ old_ids) by apply Hrow.
    by rewrite filter_app, (old_no_prepared old), filter_cons, filter_nil.
Qed.
End swap.

(** C24. A parameter update is all or nothing, whatever fails.  Let any of its writes
    raise, or the process die before any of them, then start the service again, as
    often as the recovery itself fails or dies.  Once a recovery goes through, no
    staged swap is open, and either the configuration file is the one from before the
    command and the command has no COMMITTED receipt, or it holds exactly the proposed
    entry, its swap is on record as committed and no other receipt exists. *)
Theorem params_update_is_atomic fault code text flt cid name expected params prior proposed s
    (failed : list (list strategy * (nat → option exc))) loaded :
  distinct_names (sv_yaml s) → config_entries flt name params (sv_yaml s) = Ok (prior, proposed) →
  (∀ c, c ∈ configs (sv_store s) → cf_state c ≠ PREPARED ∧ cf_revision_id c ≠ config_seq (sv_store s)) →
  receipts (sv_store s) !! cid = None →
  let s1 := final (apply_control_command fault code text flt cid name "update_strategy_params" expected params) s in
  let s2 := fold_left (λ s a, final (recover_startup_config a.2) (restart a.1 s)) failed s1 in
  let recovery := recover_startup_config (λ _, None) (restart loaded s2) in
  (∃ ids, recovery.1 = Ok ids) ∧ prepared_config_revision_ids (sv_store recovery.2) = [] ∧
  (sv_yaml recovery.2 = sv_yaml s ∧
     (∀ r, receipts (sv_store recovery.2) !! cid = Some r → s_state r ≠ "COMMITTED"%string)
   ∨ sv_yaml recovery.2 = with_entry proposed (sv_yaml s) ∧
     (∃ c, c ∈ configs (sv_store recovery.2) ∧ cf_command_id c = cid ∧ cf_state c = CONFIG_COMMITTED) ∧
     (∀ r, receipts (sv_store recovery.2) !! cid = Some r → s_state r = "COMMITTED"%string)).
Proof.
  intros Hnd He Hold Hr s1 s2 recovery.
  set (rid := config_seq (sv_store s)). set (old := configs (sv_store s)).
  assert (∀ c, c ∈ old → cf_state c ≠ PREPARED) as Hclosed by (intros c Hc; apply Hold, Hc).
  assert (∀ c, c ∈ old → cf_revision_id c ≠ rid) as Hids by (intros c Hc; apply Hold, Hc).
  set (ph := phase (sv_yaml s) old rid cid prior proposed).
  assert (ph s1) as H1 by (by apply (apply_phase fault code text flt name params)).
  assert (ph s2) as H2.
  { apply (preserved_fold ph); [|done]. intros s0 [l f] H0. by apply (recover_phase f flt name params). }
  assert (ph recovery.2) as H3 by (by apply (recover_phase (λ _, None) flt name params)).
  destruct (recover_closes (λ _, None) (sv_yaml s) old rid cid prior proposed Hclosed Hids (restart loaded s2) H2
    (λ _, eq_refl)) as [Hok Hnone].
  split; [exact Hok|]. split; [exact Hnone|]. unfold final in Hnone. fold recovery in Hnone.
  unfold ph, phase in H3. inversion H3 as [Hy Hc Hn|c y Hrow Hor Hy Hc Hn|c r Hrow Hst Hy Hc Hn|c r Hrow Hst Hy Hc Hn].
  - left. split; [done|]. intros x Hx. congruence.
  - rewrite (prepared_last old rid cid prior Hclosed recovery.2 c PREPARED) in Hnone by done. done.
  - right. split; [done|]. split; [|intros x Hx; apply Hst; congruence]. exists c. split; [set_solver|]. by destruct Hrow.
  - left. split; [done|]. intros x Hx. apply Hst. congruence.
Qed.

(** ** A concrete run: the process dies between the rename and its record *)
Definition ex_entry (tp : json) : dict := [("name"%string, JStr "orb"); ("params"%string, JObj [("tp"%string, tp)])].
Definition ex_service : service := mkService empty_store [ex_entry (JInt 1)] None [] ∅ 0.
Definition ex_loaded (entry : dict) : strategy :=
  mkStrategy "orb" RUNNING (Some "1 min"%string) (Some "Orb"%string) [265598] None None
    (match assoc "params" entry with Some (JObj d) => d | _ => [] end).
Definition ex_code : StrategyCode := mkCode (λ e, Ok (Some (ex_loaded e))) Ok Ok.
Definition ex_die (n : nat) (m : nat) : option exc := if bool_decide (n = m) then Some ProcessDied else None.
Definition ex_params : dict := [("tp"%string, JStr " 2 ")].
Definition ex_update (fault : nat → option exc) : M service StrategyCommandReceipt :=
  apply_control_command fault ex_code (λ _, ""%string) (λ _, None) "c-1" "orb" "update_strategy_params" 0 ex_params.

Lemma params_update_is_atomic_witness :
  outcome (ex_update (ex_die 4)) ex_service = Raise ProcessDied ∧
  sv_yaml (final (ex_update (ex_die 4)) ex_service) = [ex_entry (JInt 2)] ∧
  sv_yaml (recover_startup_config (λ _, None) (restart [] (final (ex_update (ex_die 4)) ex_service))).2 = [ex_entry (JInt 1)].
Proof.
  assert (sv_yaml (final (ex_update (ex_die 4)) ex_service) = [ex_entry (JInt 2)]) as Hy by (vm_compute; reflexivity).
  split; [vm_compute; reflexivity|]. split; [exact Hy|].
  pose proof (params_update_is_atomic (ex_die 4) ex_code (λ _, ""%string) (λ _, None) "c-1" "orb" 0 ex_params
    (ex_entry (JInt 1)) (ex_entry (JInt 2)) ex_service [] []) as Hspec.
  destruct Hspec as (_ & _ & [[H _]|(_ & (c & Hc & _ & Hcom) & _)]).
  - apply NoDup_singleton.
  - vm_compute. reflexivity.
  - intros c Hc. apply elem_of_nil in Hc. destruct Hc.
  - reflexivity.
  - exact H.
  - exfalso. assert (configs (sv_store (recover_startup_config (λ _, None)
      (restart [] (final (ex_update (ex_die 4)) ex_service))).2) =
      [mkConfig 1 "orb" 0 (ex_entry (JInt 1)) (ex_entry (JInt 2)) CONFIG_ROLLED_BACK "c-1"]) as E by (vm_compute; reflexivity).
    change (c ∈ configs (sv_store (recover_startup_config (λ _, None)
      (restart [] (final (ex_update (ex_die 4)) ex_service))).2)) in Hc.
    rewrite E in Hc. apply list_elem_of_singleton in Hc. subst c. discriminate Hcom.
Defined.

Lemma revisions_in_lockstep_witness :
  let s := final (ex_update (λ _, None)) ex_service in
  rtc service_step ex_service s ∧ lockstep (sv_store s) ∧ revisions_of (sv_store s) "orb" = (1, 1).
Proof.
  intros s. assert (rtc service_step ex_service s) as Hrun by (apply rtc_once, step_op; apply op_apply).
  split; [exact Hrun|]. split; [apply (revisions_in_lockstep ex_service s); [reflexivity|exact Hrun]|]. vm_compute. reflexivity.
Defined.

Lemma receipt_is_final_witness :
  let s := final (ex_update (λ _, None)) ex_service in
  ∃ r, receipts (sv_store s) !! "c-1"%string = Some r ∧
    ex_update (λ _, None) (restart [] s) = (Ok (receipt_with_observable_state r (restart [] s)), restart [] s).
Proof.
  intros s. assert (receipts (sv_store s) !! "c-1"%string =
    Some (mkStrategyReceipt "orb" "update_strategy_params" "COMMITTED" 1 1 None None None)) as Hr by (vm_compute; reflexivity).
  eexists. split; [exact Hr|].
  destruct (receipt_is_final s (restart [] s) "c-1" _ Hr (rtc_once _ _ (step_op _ _ (op_restart [] s)))) as [_ H].
  apply H. set_solver.
Defined.
