(* ===== verification/StrategyAck.v ===== *)
(** * From the strategy service to the trader ([trader/strategy/strategy_runtime.py])

    [_drain_ack_outbox]: the outbox rows the trader has not confirmed are sent to its
    [record_state_acknowledged] handler, over a network that may lose a request or a
    reply.  The theorems: no state is lost, and a drain the trader answers empties
    what it took. *)
From stdpp Require Import base tactics gmap list strings pretty.
From Stdlib Require Import ZArith Lia Ascii.
From S2P Require Import Prelude Py Journal Store Reconciler StrategyControl StrategyStore StrategyService.
Open Scope Z_scope.

Section drain.
Context {J : Type} (call : OutboxRow → M J unit) (fault : nat → option exc).

Inductive told : Type := told_confirmed | told_unreachable | told_failed.

(** [client.call(...)] and its [except] clauses *)
Definition tell (row : OutboxRow) : M (service * J) told :=
  try_except (zoom snd (λ p s, (s.1, p)) (call row) ;; mret told_confirmed)
    (λ e, match e with
      | ProcessDied => None
      | TimeoutError | ConnectionError => Some (mret told_unreachable)
      | _ => Some (mret told_failed)
      end).

Fixpoint drain_rows (rows : list OutboxRow) : M (service * J) unit :=
  match rows with
  | [] => mret tt
  | row :: rows' =>
      answer ← tell row;
      match (answer : told) with
      | told_unreachable => mret tt
      | told_failed => drain_rows rows'
      | told_confirmed =>
          zoom fst (λ v s, (v, s.2)) (mark_acknowledged fault (ob_ack_id row)) ;;
          drain_rows rows'
      end
  end.

(** [_drain_ack_outbox] *)
Definition drain_ack_outbox (limit : nat) : M (service * J) unit :=
  rows ← gets (λ s, unacknowledged_outbox limit (sv_store s.1)); drain_rows rows.

(** [_startup_drain_ack_outbox]: whether the queue was empty within [attempts]. *)
Fixpoint startup_drain_ack_outbox (limit attempts : nat) : M (service * J) bool :=
  match attempts with
  | O => mret false
  | S attempts' =>
      except (drain_ack_outbox limit) (λ _, mret tt) ;;
      pending ← gets (λ s, unacknowledged_outbox 1 (sv_store s.1));
      match pending with
      | [] => mret true
      | _ => startup_drain_ack_outbox limit attempts'
      end
  end.
End drain.

(** ** The trader at the other end *)
Section peer.
Context {T : Type}.

(** What the network does with a call. *)
Inductive delivery : Type := delivered | lost_request (e : exc) | lost_reply (e : exc).

(** The trader's journal, and how many calls were made. *)
Record peer : Type := mkPeer { pe_journal : DomainJournal T; pe_calls : nat }.

Context (net : nat → delivery) (stamps : nat → stamp) (now : nat → Z).

(** The handler of [record_state_acknowledged]. *)
Definition announcement_of (n : nat) (row : OutboxRow) : announcement :=
  mkAnnouncement (stamps n) (ob_name row) (ob_state_revision row) (ob_control_revision row) (ob_payload row)
    ("strategy:" +:+ ob_name row +:+ ":ack")%string None (now n).
Definition record_state_acknowledged (row : OutboxRow) : M peer unit := λ p,
  let n := pe_calls p in
  let (r, j) := acknowledge (announcement_of n row) (pe_journal p) in
  match net n with
  | lost_request e => (Raise e, mkPeer (pe_journal p) (S n))
  | lost_reply e => (Raise e, mkPeer j (S n))
  | delivered =>
      match r with
      | Ok _ => (Ok tt, mkPeer j (S n))
      | Raise _ => (Raise (TypedRpcRemoteError "INTERNAL_ERROR"), mkPeer j (S n))
      end
  end.
End peer.
Arguments peer T : clear implicits.

(** ** Nothing is lost *)
Section delivery.
Context {T : Type}.
Implicit Types (d : store) (j : DomainJournal T) (s : service).

(** What identifies an outbox row. *)
Definition ack_key (o : OutboxRow) : Z * string * Z := (ob_ack_id o, ob_name o, ob_state_revision o).
Definition row_event (o : OutboxRow) : string := strategy_state_event_id (ob_name o) (ob_state_revision o).

(** A row is marked only when the trader has its state. *)
Definition confirmed d j : Prop := ∀ o, o ∈ outbox d → ob_acknowledged o = true → acknowledged (row_event o) j.

Record delivering d j : Prop := {
  de_jwf : jwf j;
  de_lockstep : lockstep d;
  de_fresh : fresh_acks d;
  de_confirmed : confirmed d j;
}.

Global Instance confirmed_property j : Store_property (λ d, confirmed d j).
Proof.
  split; try done.
  - intros d name payload Hd o [Ho| ->%list_elem_of_singleton]%elem_of_app; [by apply Hd|done].
  - intros d cid name action payload Hd _ o [Ho| ->%list_elem_of_singleton]%elem_of_app; [by apply Hd|done].
Qed.

Lemma delivering_op s s' j : service_op s s' → delivering (sv_store s) j → delivering (sv_store s') j.
Proof.
  intros Hop [Hj Hl Hf Hc]. split; [done|by eapply (op_keeps lockstep)|by eapply (op_keeps fresh_acks)|
    by eapply (op_keeps (λ d, confirmed d j))].
Qed.

Lemma delivering_trader d j j' :
  jwf j' → (∀ eid, acknowledged eid j → acknowledged eid j') → delivering d j → delivering d j'.
Proof. intros Hj' Hk [Hj Hl Hf Hc]. split; [done..|]. intros o Ho Ha. by apply Hk, Hc. Qed.

Lemma set_acknowledged_elem id l o :
  o ∈ set_acknowledged id l → ∃ o', o' ∈ l ∧ ack_key o' = ack_key o ∧
    (ob_acknowledged o = true → ob_acknowledged o' = true ∨ ob_ack_id o = id).
Proof.
  unfold set_acknowledged. intros (o' & -> & Ho)%list_elem_of_fmap. exists o'. split; [done|].
  destruct (ob_ack_id o' =? id) eqn:E; [|by split; [|left]]. split; [done|]. intros _. right. simpl. by apply Z.eqb_eq.
Qed.

Lemma acknowledged_keys id l : map ack_key (set_acknowledged id l) = map ack_key l.
Proof. unfold set_acknowledged. rewrite map_map. apply map_ext. intros o. by destruct (ob_ack_id o =? id). Qed.

Lemma ack_key_unique d o1 o2 : fresh_acks d → o1 ∈ outbox d → o2 ∈ outbox d → ob_ack_id o1 = ob_ack_id o2 → o1 = o2.
Proof.
  intros [Hnd _]. clear -Hnd. induction (outbox d) as [|o l IH]; [by intros ?%elem_of_nil|]. simpl in Hnd.
  apply NoDup_cons in Hnd as [Hni Hnd]. intros [->|H1]%elem_of_cons [->|H2]%elem_of_cons E; [done| | |by apply IH].
  - exfalso. apply Hni. rewrite E. by apply list_elem_of_fmap_2.
  - exfalso. apply Hni. rewrite <-E. by apply list_elem_of_fmap_2.
Qed.

Lemma delivering_mark fault s j row :
  delivering (sv_store s) j → ack_key row ∈ map ack_key (outbox (sv_store s)) → acknowledged (row_event row) j →
  delivering (sv_store (final (mark_acknowledged fault (ob_ack_id row)) s)) j ∧
  map ack_key (outbox (sv_store (final (mark_acknowledged fault (ob_ack_id row)) s))) = map ack_key (outbox (sv_store s)).
Proof.
  intros [Hj Hl Hf Hc] Hk Hrow. pose proof (lockstep_acknowledged fault (ob_ack_id row) s Hl) as Hl'.
  destruct (acknowledged_store fault (ob_ack_id row) s) as [E|E]; rewrite E in *; [done|].
  split; [|apply acknowledged_keys]. split; [done|done| |].
  - destruct Hf as [Hnd Hlt]. split; simpl.
    + pose proof (f_equal (map (λ k : Z * string * Z, k.1.1)) (acknowledged_keys (ob_ack_id row) (outbox (sv_store s)))) as Hm.
      rewrite !map_map in Hm.
      change (map ob_ack_id (set_acknowledged (ob_ack_id row) (outbox (sv_store s))) = map ob_ack_id (outbox (sv_store s))) in Hm.
      by rewrite Hm.
    + intros o (o' & Ho' & Hkey & _)%set_acknowledged_elem. injection Hkey as <- _ _. by apply Hlt.
  - intros o (o' & Ho' & Hkey & Ha)%set_acknowledged_elem Hack. destruct (Ha Hack) as [Ha'|Hid].
    + specialize (Hc o' Ho' Ha'). unfold row_event in *. injection Hkey as _ Hn Hr. congruence.
    + apply list_elem_of_fmap in Hk as (o2 & Hk2 & Ho2). injection Hkey as Hi Hn Hr. injection Hk2 as Hi2 Hn2 Hr2.
      assert (o' = o2) by (apply (ack_key_unique (sv_store s)); [done..|congruence]). subst o2.
      assert (row_event o = row_event row) as -> by (unfold row_event; congruence). done.
Qed.

Context (net : nat → delivery) (stamps : nat → stamp) (now : nat → Z) (fault : nat → option exc).
Notation record_ack := (record_state_acknowledged (T := T) net stamps now).

Lemma record_ack_spec row p : jwf (pe_journal p) →
  let j' := pe_journal (final (record_ack row) p) in
  jwf j' ∧ (∀ eid, acknowledged eid (pe_journal p) → acknowledged eid j') ∧
  (outcome (record_ack row) p = Ok tt → acknowledged (row_event row) j').
Proof.
  intros Hj. set (a := announcement_of stamps now (pe_calls p) row).
  pose proof (jwf_acknowledge a (pe_journal p) Hj) as Hw.
  pose proof (λ eid, acknowledge_keeps a eid (pe_journal p) Hj) as Hk.
  pose proof (acknowledge_there a (pe_journal p) Hj : acknowledged (row_event row) _) as Ht.
  unfold record_state_acknowledged, final, outcome in *. fold a.
  destruct (acknowledge a (pe_journal p)) as [r j']; simpl in *.
  destruct (net (pe_calls p)); [destruct r| |]; simpl; by split_and!.
Qed.

(** The invariant of a drain, over the keys of the rows it works on. *)
Definition draining (K : list (Z * string * Z)) (x : service * peer T) : Prop :=
  delivering (sv_store x.1) (pe_journal x.2) ∧ map ack_key (outbox (sv_store x.1)) = K.

Lemma tell_keeps K row x : draining K x →
  draining K (final (tell record_ack row) x) ∧
  (outcome (tell record_ack row) x = Ok told_confirmed → acknowledged (row_event row) (pe_journal (final (tell record_ack row) x).2)).
Proof.
  destruct x as [s p]. intros [Hd Hk]. destruct (record_ack_spec row p (de_jwf _ _ Hd)) as (Hw & Hkeep & Hthere).
  unfold tell, try_except, outcome, final in *. rewrite bind_unfold, zoom_unfold. cbn [snd fst].
  destruct (record_ack row p) as [[[]|e] p']; cbn [fst snd] in *.
  - rewrite ret_run. cbn [fst snd]. split; [split; [by eapply delivering_trader|done]|intros _; by apply Hthere].
  - assert (draining K (s, p')) by (split; [by eapply delivering_trader|done]). by destruct e.
Qed.

Lemma drain_keeps K rows x : draining K x → (∀ row, row ∈ rows → ack_key row ∈ K) →
  draining K (final (drain_rows record_ack fault rows) x).
Proof.
  revert x. induction rows as [|row rows IH]; intros x Hx Hrows; [done|]. cbn [drain_rows].
  destruct (tell_keeps K row x Hx) as [Hx' Hthere]. unfold final, outcome in *. rewrite bind_unfold.
  destruct (tell record_ack row x) as [[[]|e] [s' p']]; cbn [fst snd] in *; [|done| |done].
  - destruct Hx' as [Hd Hk]. cbn [fst snd] in Hd, Hk. destruct (delivering_mark fault s' (pe_journal p') row Hd) as [Hd2 Hk2];
      [rewrite Hk; apply Hrows; left|by apply Hthere|]. unfold final in *. rewrite bind_unfold, zoom_unfold. cbn [fst snd].
    destruct (mark_acknowledged fault (ob_ack_id row) s') as [[[]|e] s2]; cbn [fst snd] in *.
    + apply IH; [split; [done|by rewrite <-Hk]|intros r Hr; apply Hrows; by right].
    + split; [done|by rewrite <-Hk].
  - apply IH; [done|]. intros r Hr. apply Hrows. by right.
Qed.
End delivery.

(** Both services over time: the strategy service works, fails and restarts; drains
    run over any network; the trader writes its journal, short of compacting the events
    away. *)
Inductive ack_step {T} : service * DomainJournal T → service * DomainJournal T → Prop :=
  | ack_op s s' j : service_op s s' → ack_step (s, j) (s', j)
  | ack_drain fault net stamps now limit n s j x :
      x = final (drain_ack_outbox (record_state_acknowledged net stamps now) fault limit) (s, mkPeer j n) →
      ack_step (s, j) (x.1, pe_journal x.2)
  | ack_trader s j j' : jwf j' → (∀ eid, acknowledged eid j → acknowledged eid j') → ack_step (s, j) (s, j').

Lemma delivering_empty {T} s (j : DomainJournal T) : sv_store s = empty_store → jwf j → delivering (sv_store s) j.
Proof.
  intros -> Hj. split; [done|apply lockstep_empty| |by intros o ?%elem_of_nil]. split; [constructor|by intros o ?%elem_of_nil].
Qed.

Lemma delivering_steps {T} (x y : service * DomainJournal T) :
  rtc ack_step x y → delivering (sv_store x.1) x.2 → delivering (sv_store y.1) y.2.
Proof.
  induction 1 as [|x y z Hstep _ IH]; [done|]. intros Hx. apply IH.
  destruct Hstep as [s s' j Hop|fault net stamps now limit n s j x ->|s j j' Hj Hk]; cbn [fst snd] in *.
  - by eapply delivering_op.
  - apply (drain_keeps net stamps now fault (map ack_key (outbox (sv_store s)))); [done|].
    intros row Hrow. unfold unacknowledged_outbox in Hrow. apply list_elem_of_fmap_2.
    apply elem_of_take in Hrow as (i & Hi & _). apply list_elem_of_lookup_2 in Hi. apply list_elem_of_filter in Hi. apply Hi.
  - by eapply delivering_trader.
Qed.

(** C25. No strategy state is lost on its way to the trader.  Whatever the strategy
    service does, however its writes fail, its process dies and restarts, and the
    network loses requests or replies: every state revision a strategy ever had is
    either still in the outbox for the next drain or on the trader's journal. *)
Theorem no_state_is_lost {T} s (j : DomainJournal T) s' j' name k :
  sv_store s = empty_store → jwf j → rtc ack_step (s, j) (s', j') →
  1 ≤ k ≤ (revisions_of (sv_store s') name).1 →
  ∃ o, o ∈ outbox (sv_store s') ∧ ob_name o = name ∧ ob_state_revision o = k ∧
    (ob_acknowledged o = false ∨ acknowledged (strategy_state_event_id name k) j').
Proof.
  intros Hs Hj Hrun Hk.
  destruct (delivering_steps _ _ Hrun (delivering_empty s j Hs Hj)) as [_ Hl _ Hc].
  assert (k ∈ map ob_state_revision (filter (λ o, ob_name o = name) (outbox (sv_store s')))) as Hin.
  { rewrite (ls_outbox _ Hl). apply elem_of_seqZ. cbn [fst]. lia. }
  apply list_elem_of_fmap in Hin as (o & -> & [Hn Ho]%list_elem_of_filter). exists o. split; [done|]. split; [done|].
  split; [done|]. destruct (ob_acknowledged o) eqn:Ha; [right|by left]. rewrite <-Hn. by apply Hc.
Qed.

(** ** A trader that answers *)

(** *** The event id names its strategy and revision *)
Definition colon : ascii := ":"%char.
Notation chars := String.list_ascii_of_string.

Lemma chars_app a b : chars (a +:+ b) = chars a ++ chars b.
Proof. induction a as [|c a IH]; [done|]. change (c :: chars (a +:+ b) = (c :: chars a) ++ chars b). by rewrite IH. Qed.

Lemma chars_inj a b : chars a = chars b → a = b.
Proof. intros E. by rewrite <-(String.string_of_list_ascii_of_string a), E, String.string_of_list_ascii_of_string. Qed.

Lemma no_char_chars c s : no_char c s = true → c ∉ chars s.
Proof.
  induction s as [|x s IH]; [by intros _ ?%elem_of_nil|]. simpl. intros [Hx Hs]%andb_true_iff. apply not_elem_of_cons.
  split; [|by apply IH]. intros ->. by rewrite Ascii.eqb_refl in Hx.
Qed.

Lemma strategy_state_event_id_inj n1 r1 n2 r2 :
  strategy_state_event_id n1 r1 = strategy_state_event_id n2 r2 → n1 = n2 ∧ r1 = r2.
Proof.
  unfold strategy_state_event_id. intros E%(f_equal chars). rewrite !chars_app in E. apply (inj (app _)) in E.
  change (chars ":state:") with (chars ":state" ++ [colon]) in E. rewrite <-!app_assoc in E. cbn [app] in E.
  rewrite !(app_assoc (chars _) (chars ":state")) in E.
  apply not_elem_of_app_cons_inv_r in E as (En & _ & Er); [|apply no_char_chars, pretty_Z_no_colon..].
  apply (inj (λ l, l ++ _)) in En. split; [by apply chars_inj|]. by apply (inj pretty), chars_inj.
Qed.

(** *** Its drains *)
Section answering.
Context {T : Type} (net : nat → delivery) (stamps : nat → stamp) (now : nat → Z) (limit : nat).
Hypothesis connected : ∀ n, net n = delivered.
Notation record_ack := (record_state_acknowledged (T := T) net stamps now).
Implicit Types (d : store) (j : DomainJournal T) (s : service).

(** Every write of the strategy service happens. *)
Definition calm : nat → option exc := λ _, None.
Definition unsent s : list OutboxRow := filter (λ o, ob_acknowledged o = false) (outbox (sv_store s)).

(** A strategy with an announced state has its entity: the trader deletes none. *)
Definition ack_entities j : Prop :=
  ∀ name rev, acknowledged (strategy_state_event_id name rev) j → is_Some (get_entity "strategy" name (jcore j)).

Lemma unsent_mark s row :
  mark_acknowledged calm (ob_ack_id row) s = (Ok tt, final (mark_acknowledged calm (ob_ack_id row)) s) ∧
  unsent (final (mark_acknowledged calm (ob_ack_id row)) s) = filter (λ o, ob_ack_id o ≠ ob_ack_id row) (unsent s).
Proof.
  split; [done|]. unfold unsent. change (outbox (sv_store (final _ s))) with (set_acknowledged (ob_ack_id row) (outbox (sv_store s))).
  induction (outbox (sv_store s)) as [|o l IH]; [done|]. cbn [set_acknowledged map].
  destruct (ob_ack_id o =? ob_ack_id row) eqn:E; rewrite !filter_cons; cbn [ob_acknowledged].
  - rewrite decide_False by done. unfold set_acknowledged in IH. rewrite IH. case_decide; [|done].
    rewrite filter_cons, decide_False; [done|]. apply Z.eqb_eq in E. by intros [].
  - unfold set_acknowledged in IH. rewrite IH. case_decide; [|done]. rewrite filter_cons, decide_True; [done|]. by apply Z.eqb_neq.
Qed.

Lemma acknowledge_answers a j :
  jwf j → ack_entities j → (∃ n, outcome (acknowledge a) j = Ok n) ∧ ack_entities (final (acknowledge a) j).
Proof.
  intros Hj He. split.
  - unfold outcome, acknowledge. rewrite acknowledge_run by done.
    destruct (select_journal_row _ _) as [r|] eqn:Hr; [|by eexists]. destruct (matches _ _); [by eexists|].
    destruct (He (an_name a) (an_state_revision a)) as [row ->]; [by exists r|by eexists].
  - intros name rev Hk. destruct (acknowledge_final a j Hj) as [[_ E]|[Hf E]].
    + unfold acknowledged, jcore in *. rewrite E in *. by apply (He name rev).
    + unfold acknowledged in Hk. apply not_eq_None_Some in Hk. rewrite E, ack_recorded_fresh in Hk by done. rewrite E.
      unfold get_entity, ack_recorded, jcore. simpl. destruct (decide (name = an_name a)) as [->|Hne].
      * rewrite lookup_insert_eq. simpl. by eexists.
      * rewrite lookup_insert_ne by congruence. apply (He name rev). apply not_eq_None_Some. intros Hn. apply Hk.
        split; [|done]. by intros [? _]%strategy_state_event_id_inj.
Qed.

(** Both ends between two calls, over the keys of the outbox. *)
Record serving (K : list (Z * string * Z)) (x : service * peer T) : Prop := {
  sg_draining : draining K x;
  sg_entities : ack_entities (pe_journal x.2);
}.

Lemma tell_confirms K row x : serving K x →
  ∃ p, tell record_ack row x = (Ok told_confirmed, (x.1, p)) ∧ serving K (x.1, p) ∧ acknowledged (row_event row) (pe_journal p).
Proof.
  destruct x as [s p]. intros [Hd He]. destruct Hd as [Hd Hk]. cbn [fst snd] in *.
  set (a := announcement_of stamps now (pe_calls p) row).
  destruct (acknowledge_answers a (pe_journal p) (de_jwf _ _ Hd) He) as [[n Hn] He'].
  assert (record_ack row p = (Ok tt, mkPeer (final (acknowledge a) (pe_journal p)) (S (pe_calls p)))) as Hrun.
  { unfold record_state_acknowledged, outcome, final in *. fold a. destruct (acknowledge a (pe_journal p)) as [r j'].
    cbn [fst snd] in *. by rewrite connected, Hn. }
  exists (mkPeer (final (acknowledge a) (pe_journal p)) (S (pe_calls p))). unfold tell, try_except.
  rewrite bind_unfold, zoom_unfold. cbn [snd fst]. rewrite Hrun. cbn [snd fst]. rewrite ret_run. split; [done|].
  pose proof (de_jwf _ _ Hd) as Hj. split; [|exact (acknowledge_there a (pe_journal p) Hj)].
  split; [split; [|done]|done]. cbn [fst snd pe_journal].
  apply (delivering_trader _ (pe_journal p)); [by apply jwf_acknowledge|intros eid; by apply acknowledge_keeps|done].
Qed.

Lemma drain_rows_confirm K rows x : serving K x → (∀ row, row ∈ rows → ack_key row ∈ K) →
  outcome (drain_rows record_ack calm rows) x = Ok tt ∧
  serving K (final (drain_rows record_ack calm rows) x) ∧
  unsent (final (drain_rows record_ack calm rows) x).1 = filter (λ o, ob_ack_id o ∉ map ob_ack_id rows) (unsent x.1).
Proof.
  revert x. induction rows as [|row rows IH]; intros x Hx Hrows.
  { split; [done|]. split; [done|]. symmetry. apply filter_all. by intros o _ ?%elem_of_nil. }
  cbn [drain_rows]. destruct (tell_confirms K row x Hx) as (p & Hrun & Hx' & Hthere).
  unfold outcome, final in *. rewrite bind_unfold, Hrun. cbv iota. rewrite bind_unfold, zoom_unfold. cbn [fst snd].
  destruct (unsent_mark x.1 row) as [-> Hu]. cbn [fst snd].
  destruct Hx' as [[Hd Hk] He]. cbn [fst snd] in Hd, Hk, He.
  destruct (delivering_mark calm x.1 (pe_journal p) row Hd) as [Hd2 Hk2]; [rewrite Hk; apply Hrows; left|done|].
  destruct (IH (final (mark_acknowledged calm (ob_ack_id row)) x.1, p)) as (Hok & Hx2 & Hu2).
  { split; [split; [done|by rewrite <-Hk]|done]. }
  { intros r Hr. apply Hrows. by right. }
  split; [done|]. split; [done|]. rewrite Hu2. cbn [fst]. rewrite Hu, list_filter_filter. apply list_filter_iff.
  intros o. cbn [map]. rewrite not_elem_of_cons. tauto.
Qed.

Notation drain := (drain_ack_outbox record_ack calm limit).

Lemma queued_keys K x : serving K x → ∀ row, row ∈ unacknowledged_outbox limit (sv_store x.1) → ack_key row ∈ K.
Proof.
  intros Hx row Hr. rewrite <-(proj2 (sg_draining _ _ Hx)). apply list_elem_of_fmap_2.
  apply elem_of_take in Hr as (i & Hi & _). apply list_elem_of_lookup_2, list_elem_of_filter in Hi. apply Hi.
Qed.

Lemma drain_confirms K x : serving K x →
  serving K (final drain x) ∧ unsent (final drain x).1 = drop limit (unsent x.1).
Proof.
  intros Hx. destruct (drain_rows_confirm K _ x Hx (queued_keys K x Hx)) as (_ & Hx' & Hu).
  unfold drain_ack_outbox, final in *. rewrite bind_gets. split; [done|]. rewrite Hu.
  change (unacknowledged_outbox limit (sv_store x.1)) with (take limit (unsent x.1)).
  assert (NoDup (map ob_ack_id (unsent x.1))) as Hnd.
  { pose proof (de_fresh _ _ (proj1 (sg_draining _ _ Hx))) as [Hn _]. unfold unsent. revert Hn.
    induction (outbox (sv_store x.1)) as [|o l IH]; [done|]. cbn [map]. intros [Hni Hn]%NoDup_cons. rewrite filter_cons.
    case_decide; [|by apply IH]. cbn [map]. apply NoDup_cons. split; [|by apply IH].
    intros (o' & E & [_ Ho]%list_elem_of_filter)%list_elem_of_fmap. apply Hni. rewrite E. by apply list_elem_of_fmap_2. }
  rewrite <-(take_drop limit (unsent x.1)) in Hnd at 1. rewrite map_app in Hnd. apply NoDup_app in Hnd as (_ & Hdis & _).
  trans (filter (λ o, ob_ack_id o ∉ map ob_ack_id (take limit (unsent x.1)))
    (take limit (unsent x.1) ++ drop limit (unsent x.1))); [by rewrite take_drop|].
  rewrite filter_app, filter_none, filter_all; [done| |].
  - intros o Ho Hin. apply (Hdis _ Hin). by apply list_elem_of_fmap_2.
  - intros o Ho Hn. apply Hn. by apply list_elem_of_fmap_2.
Qed.

Lemma drain_answers K x : serving K x → outcome drain x = Ok tt.
Proof.
  intros Hx. destruct (drain_rows_confirm K _ x Hx (queued_keys K x Hx)) as (Hok & _). unfold drain_ack_outbox, outcome in *. by rewrite bind_gets.
Qed.

Lemma startup_drain_confirms attempts K x : serving K x → attempts ≠ 0%nat →
  let run := startup_drain_ack_outbox record_ack calm limit attempts in
  outcome run x = Ok (bool_decide (length (unsent x.1) ≤ attempts * limit)%nat) ∧
  serving K (final run x) ∧ unsent (final run x).1 = drop (attempts * limit) (unsent x.1).
Proof.
  revert x. induction attempts as [|n IH]; intros x Hx Hn; [done|]. cbv zeta. cbn [startup_drain_ack_outbox].
  destruct (drain_confirms K x Hx) as [Hs Hu]. pose proof (drain_answers K x Hx) as Hok. unfold outcome, final in *.
  rewrite bind_unfold. unfold except, try_except. destruct (drain x) as [r x1]. cbn [fst snd] in *. subst r.
  cbv iota. rewrite bind_gets.
  change (unacknowledged_outbox 1 (sv_store x1.1)) with (take 1 (unsent x1.1)).
  destruct (unsent x1.1) as [|o l] eqn:E.
  - cbn [take]. rewrite !ret_run. cbn [fst snd]. assert (length (unsent x.1) ≤ limit)%nat as Hlen.
    { apply (f_equal length) in Hu. rewrite length_drop in Hu. simpl in Hu. lia. }
    rewrite bool_decide_eq_true_2 by lia. rewrite E, drop_ge by lia. done.
  - cbn [take]. assert (length (unsent x.1) = limit + S (length l))%nat as Hlen.
    { apply (f_equal length) in Hu. rewrite length_drop in Hu. simpl in Hu. lia. }
    destruct n as [|n].
    + cbn [startup_drain_ack_outbox]. rewrite !ret_run. cbn [fst snd]. rewrite bool_decide_eq_false_2 by lia.
      split; [done|]. split; [done|]. by rewrite E, Hu, Nat.mul_1_l.
    + destruct (IH x1 Hs) as (Ho & Hs' & Hu'); [done|]. split; [|split; [done|]].
      * rewrite Ho, E. f_equal. apply bool_decide_ext. simpl length. lia.
      * by rewrite Hu', E, Hu, drop_drop.
Qed.
End answering.

(** C26. What is queued arrives.  Once the trader can be reached and nothing fails, the
    startup drain of any reachable state confirms exactly the first [attempts * limit]
    queued rows, reports truthfully whether the queue is empty, and every row that is
    marked is on the trader's journal: a queue no longer than that is delivered whole,
    with no row added, dropped or renumbered. *)
Theorem startup_drain_delivers {T} (net : nat → delivery) stamps now limit attempts s0 (j0 : DomainJournal T) s j n :
  sv_store s0 = empty_store → jwf j0 → rtc ack_step (s0, j0) (s, j) → ack_entities j →
  (∀ i, net i = delivered) → attempts ≠ 0%nat →
  let run := startup_drain_ack_outbox (record_state_acknowledged net stamps now) calm limit attempts in
  let x := final run (s, mkPeer j n) in
  outcome run (s, mkPeer j n) = Ok (bool_decide (length (unsent s) ≤ attempts * limit)%nat) ∧
  unsent x.1 = drop (attempts * limit) (unsent s) ∧
  (∀ o, o ∈ outbox (sv_store x.1) → o ∈ drop (attempts * limit) (unsent s) ∨ acknowledged (row_event o) (pe_journal x.2)) ∧
  map ack_key (outbox (sv_store x.1)) = map ack_key (outbox (sv_store s)).
Proof.
  intros Hs Hj Hrun He Hnet Hk run x. pose proof (delivering_steps _ _ Hrun (delivering_empty s0 j0 Hs Hj)) as Hd.
  destruct (startup_drain_confirms net stamps now limit Hnet attempts (map ack_key (outbox (sv_store s))) (s, mkPeer j n))
    as (Hok & [[Hd' HK] _] & Hu); [by split|done|]. fold run x in Hok, Hd', HK, Hu. cbn [fst] in Hok, Hu.
  split; [done|]. split; [done|]. split; [|done]. intros o Ho. rewrite <-Hu.
  destruct (ob_acknowledged o) eqn:Ha; [right; by apply (de_confirmed _ _ Hd')|left]. by apply list_elem_of_filter.
Qed.

(** ** Concrete runs *)
Definition ex_answering (n : nat) : delivery := delivered.
Definition ex_flaky (n : nat) : delivery := lost_reply TimeoutError.
Definition ex_tstamps (n : nat) : stamp := mkStamp "t" (seconds 90).
Definition ex_tnow (n : nat) : Z := seconds 90.
Definition ex_journal : DomainJournal unit := empty_journal (mkPconn ∅ tt).

(** A committed update whose announcement's reply is lost. *)
Definition ex_updated : service := final (ex_update (λ _, None)) ex_service.
Definition ex_lost : service * peer unit :=
  final (drain_ack_outbox (record_state_acknowledged ex_flaky ex_tstamps ex_tnow) calm 50) (ex_updated, mkPeer ex_journal 0).

Lemma ex_lost_reachable : rtc ack_step (ex_service, ex_journal) (ex_lost.1, pe_journal ex_lost.2).
Proof.
  apply (rtc_l _ _ (ex_updated, ex_journal)); [apply ack_op, op_apply|].
  apply rtc_once. by apply (ack_drain calm ex_flaky ex_tstamps ex_tnow 50 0).
Qed.

Lemma ex_lost_entities : ack_entities (pe_journal ex_lost.2).
Proof.
  set (row := mkOutbox 1 "orb" 1 1 (state_payload (get_strategy "orb" (sv_loaded ex_updated)) "orb" 1) false).
  replace (pe_journal ex_lost.2) with (final (acknowledge (announcement_of ex_tstamps ex_tnow 0 row)) ex_journal)
    by (vm_compute; reflexivity).
  apply acknowledge_answers; [apply jwf_empty|]. intros name rev [r Hr]. discriminate Hr.
Qed.

Lemma no_state_is_lost_witness :
  rtc ack_step (ex_service, ex_journal) (ex_lost.1, pe_journal ex_lost.2) ∧
  ∃ o, o ∈ outbox (sv_store ex_lost.1) ∧ ob_name o = "orb"%string ∧ ob_state_revision o = 1 ∧
    (ob_acknowledged o = false ∨ acknowledged (strategy_state_event_id "orb" 1) (pe_journal ex_lost.2)).
Proof.
  split; [exact ex_lost_reachable|].
  apply (no_state_is_lost ex_service ex_journal); [reflexivity|apply jwf_empty|exact ex_lost_reachable|].
  assert ((revisions_of (sv_store ex_lost.1) "orb").1 = 1) as -> by (vm_compute; reflexivity). lia.
Defined.

Definition ex_startup : M (service * peer unit) bool :=
  startup_drain_ack_outbox (record_state_acknowledged ex_answering ex_tstamps ex_tnow) calm 50 15.
Definition ex_again : service * peer unit := (ex_lost.1, mkPeer (pe_journal ex_lost.2) 1).

Lemma startup_drain_delivers_witness :
  unsent ex_lost.1 ≠ [] ∧ outcome ex_startup ex_again = Ok true ∧ unsent (final ex_startup ex_again).1 = [].
Proof.
  assert (length (unsent ex_lost.1) = 1%nat) as Hlen by (vm_compute; reflexivity).
  destruct (startup_drain_delivers ex_answering ex_tstamps ex_tnow 50 15 ex_service ex_journal ex_lost.1 (pe_journal ex_lost.2) 1)
    as (Hok & Hu & _); [reflexivity|apply jwf_empty|exact ex_lost_reachable|exact ex_lost_entities|reflexivity|discriminate|].
  rewrite Hlen in Hok. split; [intros E; rewrite E in Hlen; discriminate Hlen|]. split; [exact Hok|].
  rewrite drop_ge in Hu by (rewrite Hlen; lia). exact Hu.
Defined.

(** *** A stale row overtakes a fresh one *)

(** The strategy is announced DISABLED, and heard of; it is enabled, and the reply
    journals its control revision 1; the drain then sends the row that enabling queued
    before the command committed. *)
Definition ex_strategy (state : StrategyState) : strategy :=
  mkStrategy "orb" state (Some "1 min"%string) (Some "Orb"%string) [265598] None None [].
Definition ex_switch : StrategyCode :=
  mkCode (λ e, Ok (Some (ex_loaded e))) (λ _, Ok (ex_strategy RUNNING)) (λ _, Ok (ex_strategy DISABLED)).
Definition ex_enable_at (cid : string) (expected : Z) : M service StrategyCommandReceipt :=
  apply_control_command calm ex_switch (λ _, ""%string) (λ _, None) cid "orb" "enable_strategy" expected [].
Definition ex_sync : M (service * peer unit) unit :=
  drain_ack_outbox (record_state_acknowledged ex_answering ex_tstamps ex_tnow) calm 50.
Definition ex_enable_run : M (service * peer unit) Z :=
  zoom fst (λ s x, (s, x.2)) (announce_strategy_states calm) ;;
  ex_sync ;;
  r ← zoom fst (λ s x, (s, x.2)) (ex_enable_at "c-2" 0);
  zoom (λ x, pe_journal x.2) (λ j x, (x.1, mkPeer j (pe_calls x.2)))
    (acknowledge_strategy_state ex_stamp "orb" (s_state_revision r) (s_control_revision r) (control_payload r) "c-2" None 0) ;;
  ex_sync ;;
  mret (s_control_revision r).
Definition ex_before : service * peer unit :=
  (mkService empty_store [] None [ex_strategy DISABLED] ∅ 0, mkPeer ex_journal 0).
Definition ex_shown (x : service * peer unit) : option json :=
  match get_entity "strategy" "orb" (jcore (pe_journal x.2)) with
  | Some row => match mat_payload row with Some d => assoc "control_revision" d | None => None end
  | None => None
  end.

(** The trader ends up showing control revision 0 of a strategy at 1, and a command
    built on what it shows is refused. *)
Lemma stale_row_overtakes :
  outcome ex_enable_run ex_before = Ok 1 ∧
  unsent (final ex_enable_run ex_before).1 = [] ∧
  (revisions_of (sv_store (final ex_enable_run ex_before).1) "orb").2 = 1 ∧
  ex_shown (final ex_enable_run ex_before) = Some (JInt 0) ∧
  outcome (ex_enable_at "c-3" 0) (final ex_enable_run ex_before).1 = Raise (ControlRevisionConflict "orb" 1).
Proof. vm_compute. done. Qed.
