(* ===== verification/CloseStore.v ===== *)
(** * Rows of the close machine ([trader/trading/liquidation_service.py])

    [LiquidationRunStore]: the close roots, their child orders and the commands that
    joined them, beside the exit owners of [ExitOwner] in the same database.  A child
    is one broker call: a cancel, a reduce, or a leg of the new protection.  The
    operator's [detail] texts are not kept. *)
From stdpp Require Import base tactics gmap list strings pretty.
From Stdlib Require Import ZArith Lia Ascii.
From S2P Require Import Prelude Py ExitOwner.
Open Scope Z_scope.

(** ** Data *)
Inductive run_state : Type :=
  | REQUESTED | CANCELLING_ENTRIES | CANCELLING | VERIFYING | REDUCING | REPROTECTING | RUN_UNKNOWN
  | FLAT | CLOSED | DONE | REDUCE_FAILED | SUPERSEDED | FAILED_SAFE.
Global Instance run_state_eq_dec : EqDecision run_state.
Proof. solve_decision. Defined.

Definition RESCAN_TERMINAL (s : run_state) : bool :=
  match s with FLAT | CLOSED | DONE | REDUCE_FAILED | SUPERSEDED | FAILED_SAFE => true | _ => false end.
Definition SUCCESS_STATES (s : run_state) : bool :=
  match s with FLAT | CLOSED | DONE => true | _ => false end.
Definition OWNER_RELEASED_STATES (s : run_state) : bool :=
  match s with FLAT | CLOSED | DONE | REDUCE_FAILED => true | _ => false end.

(** The columns [scope] and [conid]: a conid goes with the scope ["conid"]. *)
Inductive close_scope : Type := SCOPE_ACCOUNT | SCOPE_CONID (conid : Z).
Definition scope_conid (s : close_scope) : option Z :=
  match s with SCOPE_ACCOUNT => None | SCOPE_CONID c => Some c end.

Inductive run_goal : Type := RUN_ZERO | RUN_PARTIAL | RUN_REPROTECT.
Global Instance run_goal_eq_dec : EqDecision run_goal.
Proof. solve_decision. Defined.
(** What a request asked for. *)
Inductive asked_goal : Type := ASKED_ACCOUNT | ASKED_ZERO | ASKED_PARTIAL | ASKED_REPROTECT.
Global Instance asked_goal_eq_dec : EqDecision asked_goal.
Proof. solve_decision. Defined.

(** [_OWNER_GOAL.get(goal, goal)] *)
Definition owner_goal_of (g : run_goal) : owner_goal :=
  match g with RUN_ZERO => GOAL_ZERO | RUN_PARTIAL | RUN_REPROTECT => GOAL_PARTIAL end.

Inductive run_phase : Type := PHASE_NEW | PHASE_LEGACY | PHASE_CANCEL | PHASE_REDUCE | PHASE_REPROTECT.
Global Instance run_phase_eq_dec : EqDecision run_phase.
Proof. solve_decision. Defined.

(** [LiquidationReceipt] without its children, and the columns [pre_sp1_open] and
    [updated_at] of its row, which only the store itself writes. *)
Record Run : Type := mkRun {
  r_id : string;
  r_account : string;
  r_state : run_state;
  r_deadline : Z;
  r_generation : option Z;
  r_scope : close_scope;
  r_goal : run_goal;
  r_goal_quantity : option float;
  r_phase : run_phase;
  r_opened_generation : option Z;
  r_stop_price : option float;
  r_target_price : option float;
  r_remaining : option float;
  r_escalated : bool;
  r_superseded_by : option string;
  r_cleanup_pending : bool;
  r_routine : bool;
  r_pre_sp1_open : bool;
  r_updated_at : Z;
}.

Inductive child_state : Type :=
  | PLANNED | UNKNOWN | WORKING | PENDING_CANCEL | FILLED | CANCELLED | REJECTED | ABSENT | NOT_SENT.
Global Instance child_state_eq_dec : EqDecision child_state.
Proof. solve_decision. Defined.
Definition CHILD_TERMINAL (s : child_state) : bool :=
  match s with FILLED | CANCELLED | REJECTED | ABSENT | NOT_SENT => true | _ => false end.
Definition CHILD_LIVE (s : child_state) : bool := match s with WORKING | PENDING_CANCEL => true | _ => false end.
Definition CHILD_OPEN (s : child_state) : bool :=
  match s with UNKNOWN | WORKING | PENDING_CANCEL => true | _ => false end.
Definition FILL_MAY_GROW (s : child_state) : bool :=
  match s with FILLED | CANCELLED | REJECTED => true | _ => false end.

Inductive child_kind : Type := KIND_CANCEL | KIND_REDUCE | KIND_STOP | KIND_TARGET.
Global Instance child_kind_eq_dec : EqDecision child_kind.
Proof. solve_decision. Defined.
Definition kind_text (k : child_kind) : string :=
  match k with
  | KIND_CANCEL => "cancel" | KIND_REDUCE => "reduce" | KIND_STOP => "reprotect-stop" | KIND_TARGET => "reprotect-target"
  end.
Inductive side : Type := BUY | SELL.
Global Instance side_eq_dec : EqDecision side.
Proof. solve_decision. Defined.

(** [ChildRef]; only a pre-upgrade wildcard child has no [conid]. *)
Record Child : Type := mkChild {
  c_id : string;
  c_root : string;
  c_owner : string;
  c_account : string;
  c_conid : option Z;
  c_kind : child_kind;
  c_attempt : Z;
  c_state : child_state;
  c_fence : Z;
  c_side : option side;
  c_quantity : option float;
  c_price : option float;
  c_oca_group : option string;
  c_target : option string;
  c_filled_at_send : float;
  c_filled : float;
  c_outstanding : option float;
  c_observed : option Z;
  c_sent : option Z;
  c_order : option string;
  c_prefix : option string;
}.
(** [fill_bearing] *)
Definition fill_bearing (c : Child) : bool :=
  bool_decide (c_state c = ABSENT) || flt (c_filled_at_send c) (c_filled c).

Record JoinRow : Type := mkJoin {
  j_command : string;
  j_root : string;
  j_account : string;
  j_conid : option Z;
  j_outcome : claim_outcome;
  j_goal : asked_goal;
  j_quantity : option float;
}.

(** The tables, by primary key. *)
Record closes : Type := mkCloses {
  cl_owners : exit_owners float;
  cl_runs : gmap string Run;
  cl_children : gmap string Child;
  cl_joins : gmap string JoinRow;
}.
Definition set_owners (o : exit_owners float) (d : closes) : closes := mkCloses o (cl_runs d) (cl_children d) (cl_joins d).
Definition set_runs f (d : closes) : closes := mkCloses (cl_owners d) (f (cl_runs d)) (cl_children d) (cl_joins d).
Definition set_children f (d : closes) : closes := mkCloses (cl_owners d) (cl_runs d) (f (cl_children d)) (cl_joins d).
Definition set_joins f (d : closes) : closes := mkCloses (cl_owners d) (cl_runs d) (cl_children d) (f (cl_joins d)).
Definition in_owners {A} (m : M (exit_owners float) A) : M closes A := zoom cl_owners set_owners m.

(** ** Identifiers *)
(** [liquidation_child_id] *)
Definition liquidation_child_id (root : string) (k : child_kind) (conid attempt : Z) : string :=
  (root +:+ "-" +:+ kind_text k +:+ "-" +:+ pretty conid +:+ "-" +:+ pretty attempt)%string.
Definition child_id_valid (root : string) (attempt : Z) : bool :=
  negb (String.eqb root "") && negb (has_colon root) && (1 <=? attempt).
Definition legacy_reduce_prefix (run : string) : string := (run +:+ "-liquidation-reduce-")%string.
Definition reprotect_oca_group (root : string) (conid attempt : Z) : string :=
  (root +:+ "-reprotect-" +:+ pretty conid +:+ "-" +:+ pretty attempt)%string.
Definition late_root_prefix (root : string) : string := (root +:+ "-late-")%string.

(** *** Reading an order group, from its end *)
Definition back (s : string) : list ascii := reverse (String.list_ascii_of_string s).
Fixpoint drop_digits (l : list ascii) : list ascii :=
  match l with
  | c :: l' => match char_digit c with Some _ => drop_digits l' | None => l end
  | [] => []
  end.
(** [\d+] *)
Definition after_number (l : list ascii) : option (list ascii) :=
  match l with
  | c :: _ => match char_digit c with Some _ => Some (drop_digits l) | None => None end
  | [] => None
  end.
Definition ends_in (suffix : string) (l : list ascii) : bool := bool_decide (back suffix `prefix_of` l).

(** [_LIQUIDATION_CHILD], [_LEGACY_REDUCE] *)
Definition liquidation_child_kind (group : option string) : option child_kind :=
  match group ≫= λ g, after_number (back g) with
  | None => None
  | Some l1 =>
      let sent := match l1 with
        | c :: l => if Ascii.eqb c "-" then after_number l else None
        | [] => None
        end in
      let named k := match sent with Some l2 => ends_in ("-" +:+ kind_text k +:+ "-")%string l2 | None => false end in
      if named KIND_CANCEL then Some KIND_CANCEL
      else if named KIND_REDUCE then Some KIND_REDUCE
      else if named KIND_STOP then Some KIND_STOP
      else if named KIND_TARGET then Some KIND_TARGET
      else if ends_in "-liquidation-reduce-" l1 then Some KIND_REDUCE else None
  end.

Example child_kinds :
  liquidation_child_kind (Some "cmd-1-reduce-265598-2"%string) = Some KIND_REDUCE ∧
  liquidation_child_kind (Some "cmd-1-reprotect-stop-265598-1"%string) = Some KIND_STOP ∧
  liquidation_child_kind (Some "cmd-1-liquidation-reduce-265598"%string) = Some KIND_REDUCE ∧
  liquidation_child_kind (Some "entry-265598"%string) = None.
Proof. by vm_compute. Qed.

(** ** Queries *)
(** *** Runs *)
Definition get_run_in_tx (root : string) : M closes (option Run) := gets (λ d, cl_runs d !! root).
Definition stored_run (r : Run) (pre_sp1_open : bool) (now : Z) : Run :=
  mkRun (r_id r) (r_account r) (r_state r) (r_deadline r) (r_generation r) (r_scope r) (r_goal r) (r_goal_quantity r)
    (r_phase r) (r_opened_generation r) (r_stop_price r) (r_target_price r) (r_remaining r) (r_escalated r)
    (r_superseded_by r) (r_cleanup_pending r) (r_routine r) pre_sp1_open now.
Definition insert_run_in_tx (r : Run) (now : Z) : M closes unit :=
  taken ← get_run_in_tx (r_id r);
  require (bool_decide (taken = None)) (ConstraintException "liquidation_runs") ;;
  modify (set_runs <[r_id r := stored_run r false now]>).
Definition update_run_in_tx (r : Run) (now : Z) : M closes unit :=
  current ← get_run_in_tx (r_id r);
  match current with
  | None => raise RunStateError
  | Some c =>
      require (negb (RESCAN_TERMINAL (r_state c) && bool_decide (r_state r ≠ r_state c))) RunStateError ;;
      require (negb (bool_decide (r_goal c = RUN_ZERO) && bool_decide (r_goal r ≠ RUN_ZERO))) RunStateError ;;
      modify (set_runs <[r_id r := stored_run r (r_pre_sp1_open c) now]>)
  end.
Definition by_updated (p : Run → bool) (d : closes) : list Run := order_by r_updated_at (select p (cl_runs d)).
Definition pre_sp1_roots (account : string) (d : closes) : list string :=
  map r_id (by_updated (λ r, String.eqb (r_account r) account && r_pre_sp1_open r) d).
Definition clear_mark (r : Run) : Run :=
  mkRun (r_id r) (r_account r) (r_state r) (r_deadline r) (r_generation r) (r_scope r) (r_goal r) (r_goal_quantity r)
    (r_phase r) (r_opened_generation r) (r_stop_price r) (r_target_price r) (r_remaining r) (r_escalated r)
    (r_superseded_by r) (r_cleanup_pending r) (r_routine r) false (r_updated_at r).
Definition clear_pre_sp1_mark_in_tx (run : string) : M closes unit := modify (set_runs (alter clear_mark run)).
(** A query of a conid reads the children without one too. *)
Definition on_scope (account : string) (conid : option Z) (c : Child) : bool :=
  String.eqb (c_account c) account &&
  match conid with
  | None => true
  | Some i => match c_conid c with Some i' => i' =? i | None => true end
  end.
Definition fill_watermark (account : string) (conid : option Z) (d : closes) : option Z :=
  max_of id (omap c_observed (select (λ c, on_scope account conid c && fill_bearing c) (cl_children d))).
Definition settled_children (account : string) (conid : option Z) (d : closes) : list Child :=
  select (λ c, on_scope account conid c && FILL_MAY_GROW (c_state c)) (cl_children d).
Definition legacy_reduces (account : string) (d : closes) : list Child :=
  select (λ c, String.eqb (c_account c) account && bool_decide (is_Some (c_prefix c))) (cl_children d).
Definition roots_to_advance (d : closes) : list string :=
  map r_id (by_updated r_cleanup_pending d) ++
  map r_id (by_updated (λ r, negb (RESCAN_TERMINAL (r_state r)) && negb (r_cleanup_pending r)) d).
Definition open_scopes (d : closes) : list (string * option Z) :=
  map (λ r, (r_account r, scope_conid (r_scope r)))
    (select (λ r, negb (RESCAN_TERMINAL (r_state r)) || r_cleanup_pending r) (cl_runs d)).
Definition closed_roots (since : Z) (d : closes) : list (Run * list Child) :=
  map (λ r, (r, select (λ c, String.eqb (c_owner c) (r_id r) && FILL_MAY_GROW (c_state c)) (cl_children d)))
    (by_updated (λ r, SUCCESS_STATES (r_state r) && negb (r_cleanup_pending r) && (since <=? r_updated_at r)) d).
(** [s[len(prefix):]], when [s] starts with it and the rest is digits *)
Definition numbered (prefix s : string) : option Z :=
  if starts_with prefix s then
    let rest := String.substring (String.length prefix) (String.length s - String.length prefix) s in
    if bool_decide (after_number (String.list_ascii_of_string rest) = Some []) then int_of_string rest else None
  else None.
Definition late_roots (root : string) (d : closes) : list (Z * run_state) :=
  order_by fst (omap (λ r, (λ n, (n, r_state r)) <$> numbered (late_root_prefix root) (r_id r)) (select (λ _, true) (cl_runs d))).

(** *** Children *)
Definition children_of (owner : string) (d : closes) : list Child :=
  order_by c_fence (select (λ c, String.eqb (c_owner c) owner) (cl_children d)).
Definition reprotect_legs_written_by (root : string) (d : closes) : list Child :=
  select (λ c, String.eqb (c_root c) root &&
               (bool_decide (c_kind c = KIND_STOP) || bool_decide (c_kind c = KIND_TARGET))) (cl_children d).
Definition child_in_tx (id : string) : M closes (option Child) := gets (λ d, cl_children d !! id).
Definition next_attempt (root : string) (k : child_kind) (conid : Z) (d : closes) : Z :=
  default 0 (max_of c_attempt (select (λ c, String.eqb (c_root c) root && bool_decide (c_kind c = k)
    && bool_decide (c_conid c = Some conid)) (cl_children d))) + 1.
Definition insert_child_in_tx (c : Child) : M closes unit :=
  taken ← child_in_tx (c_id c);
  require (bool_decide (taken = None)) (ConstraintException "liquidation_children") ;;
  modify (set_children <[c_id c := c]>).
(** [UPDATE ... WHERE child_id = ?]: no row, no effect. *)
Definition update_child_in_tx (c : Child) : M closes unit := modify (set_children (alter (λ _, c) (c_id c))).
Definition with_child_state (s : child_state) (c : Child) : Child :=
  mkChild (c_id c) (c_root c) (c_owner c) (c_account c) (c_conid c) (c_kind c) (c_attempt c) s (c_fence c) (c_side c)
    (c_quantity c) (c_price c) (c_oca_group c) (c_target c) (c_filled_at_send c) (c_filled c) (c_outstanding c)
    (c_observed c) (c_sent c) (c_order c) (c_prefix c).
Definition with_owner (root : string) (c : Child) : Child :=
  mkChild (c_id c) (c_root c) root (c_account c) (c_conid c) (c_kind c) (c_attempt c) (c_state c) (c_fence c) (c_side c)
    (c_quantity c) (c_price c) (c_oca_group c) (c_target c) (c_filled_at_send c) (c_filled c) (c_outstanding c)
    (c_observed c) (c_sent c) (c_order c) (c_prefix c).
Definition with_sent (fence : Z) (c : Child) : Child :=
  mkChild (c_id c) (c_root c) (c_owner c) (c_account c) (c_conid c) (c_kind c) (c_attempt c) (c_state c) (c_fence c)
    (c_side c) (c_quantity c) (c_price c) (c_oca_group c) (c_target c) (c_filled_at_send c) (c_filled c)
    (c_outstanding c) (c_observed c) (Some fence) (c_order c) (c_prefix c).
Definition update_where_child (p : Child → bool) (f : Child → Child) (t : gmap string Child) : gmap string Child :=
  (λ c, if p c then f c else c) <$> t.
Definition drop_planned_in_tx (owner : string) : M closes unit :=
  modify (set_children (update_where_child
    (λ c, String.eqb (c_owner c) owner && bool_decide (c_state c = PLANNED)) (with_child_state NOT_SENT))).
(** The states whose open children the next owner of the scope takes over. *)
Definition inheritable (s : run_state) : bool :=
  match s with SUPERSEDED | FAILED_SAFE | DONE | REDUCE_FAILED => true | _ => false end.
Definition inherited_by (account : string) (conid : option Z) (to_root : string) (runs : gmap string Run) (c : Child) : bool :=
  String.eqb (c_account c) account && CHILD_OPEN (c_state c) && negb (String.eqb (c_owner c) to_root) &&
  match conid with None => true | Some i => bool_decide (c_conid c = Some i) end &&
  match runs !! c_owner c with Some r => inheritable (r_state r) | None => false end.
Definition inherit_children_in_tx (account : string) (conid : option Z) (to_root : string) : M closes unit :=
  modify (λ d, set_children (update_where_child (inherited_by account conid to_root (cl_runs d)) (with_owner to_root)) d).

(** *** Joins *)
Definition record_join_in_tx (j : JoinRow) : M closes unit :=
  taken ← gets (λ d, cl_joins d !! j_command j);
  require (bool_decide (taken = None)) (ConstraintException "liquidation_joins") ;;
  modify (set_joins <[j_command j := j]>).
Definition joins_resolving_to (root : string) (d : closes) : list JoinRow :=
  select (λ j, String.eqb (j_root j) root ||
    match cl_runs d !! j_root j with Some r => bool_decide (r_superseded_by r = Some root) | None => false end) (cl_joins d).

(** ** What a command's close came to *)
Definition success_for (g : asked_goal) (s : run_state) : bool :=
  match g with
  | ASKED_ACCOUNT => bool_decide (s = FLAT)
  | ASKED_ZERO => bool_decide (s = CLOSED) || bool_decide (s = FLAT)
  | ASKED_PARTIAL | ASKED_REPROTECT => SUCCESS_STATES s
  end.
Definition failure_code (s : run_state) : string :=
  match s with FAILED_SAFE => "CLOSE_FAILED_SAFE" | REDUCE_FAILED => "REDUCE_FAILED" | _ => "CLOSE_GOAL_NOT_MET" end.

(** Follow [superseded_by], never twice through one root. *)
Fixpoint follow (fuel : nat) (seen : list string) (d : closes) (run : option Run) : option Run :=
  match fuel, run with
  | S n, Some r =>
      match r_superseded_by r with
      | Some next =>
          if bool_decide (r_state r = SUPERSEDED) && negb (String.eqb next "") && bool_decide (r_id r ∉ seen)
          then follow n (r_id r :: seen) d (cl_runs d !! next)
          else run
      | None => run
      end
  | _, _ => run
  end.
Record Resolution : Type := mkResolved {
  rs_command : string;
  rs_root : string;
  rs_state : run_state;
  rs_success : bool;
  rs_error : option string;
  rs_run : Run;
  rs_join : JoinRow;
  rs_filled : float;
}.
Definition close_resolution (command : string) (d : closes) : option Resolution :=
  match cl_joins d !! command with
  | None => None
  | Some j =>
      match follow (S (size (cl_runs d))) [] d (cl_runs d !! j_root j) with
      | None => None
      | Some r =>
          if negb (RESCAN_TERMINAL (r_state r)) || bool_decide (r_state r = SUPERSEDED) || r_cleanup_pending r then None else
          let success := success_for (j_goal j) (r_state r) in
          let sold := foldl (λ q c, fadd q (c_filled c)) fzero
            (select (λ c, String.eqb (c_root c) (r_id r) && bool_decide (c_kind c = KIND_REDUCE)) (cl_children d)) in
          Some (mkResolved command (r_id r) (r_state r) success
            (if success then None else Some (failure_code (r_state r))) r j sold)
      end
  end.
