(* ===== verification/Close.v ===== *)
(** * The close machine ([trader/trading/liquidation_service.py])

    [LiquidationService]: a flatten of an account and a close of one position, from
    the claim to the proof that the exposure is gone.  Every broker call is one child
    row, journaled before the call.  The broker, its evidence, the clock and the saga
    that owns the protection are outside: each call of them has a number, and an
    answer of its own. *)
From stdpp Require Import base tactics gmap list strings pretty.
From Stdlib Require Import ZArith Lia SpecFloat.
From S2P Require Import Prelude Py ExitOwner CloseStore.
Open Scope Z_scope.

(** ** What is outside *)

(** A broker order, as the captured snapshot or a lookup shows it. *)
Record BrokerOrder : Type := mkOrder {
  bo_entity : string;
  bo_conid : Z;
  bo_group : option string;
  bo_status : string;
  bo_filled : float;
  bo_total : float;
  bo_oca_group : option string;
  bo_oca_type : option Z;
  bo_action : string;
  bo_revision : Z;
  bo_deleted : bool;
}.
Record Position : Type := mkPosition {
  po_conid : Z;
  po_quantity : float;
  po_market_price : option float;
}.
Record Snapshot : Type := mkSnapshot {
  sn_account : string;
  sn_generation : Z;
  sn_positions : list Position;
  sn_working : list BrokerOrder;
}.
Record CancelTarget : Type := mkCancelTarget { ct_entity : string; ct_group : option string }.
Record HandoverInfo : Type := mkHandover { hi_stop : option float; hi_target : option float }.

(** A call of the order boundary, for one child. *)
Inductive order_call : Type :=
  | call_cancel (entity : string) (child : string)
  | call_reduce (conid : Z) (sd : side) (quantity : float) (child : string)
  | call_reduce_partial (conid : Z) (sd : side) (quantity : float) (child : string)
  | call_leg (conid : Z) (leg : child_kind) (quantity price : float) (oca_group child : string) (sibling : option string).
Definition call_child (c : order_call) : string :=
  match c with
  | call_cancel _ child | call_reduce _ _ _ child | call_reduce_partial _ _ _ child | call_leg _ _ _ _ _ child _ => child
  end.

Record Ports : Type := mkPorts {
  clock : nat → Z;
  (* the timed lock was free *)
  lock_free : nat → bool;
  deadline_seconds : Z;
  (* BrokerSnapshotPort, LiquidationDispatchPort *)
  capture : nat → string → res Snapshot;
  send_order : nat → order_call → res unit;
  find_orders : nat → string → string → res (list BrokerOrder);
  find_orders_with_prefix : nat → string → string → res (list BrokerOrder);
  get_order : nat → string → res (option BrokerOrder);
  executed_quantities : nat → string → list string → res (list (string * float));
  unbound_execution_since : nat → string → option Z → Z → res bool;
  enumeration_complete : nat → res bool;
  newest_generation : nat → res Z;
  hold_broker_changes : nat → res unit;
  (* LiquidationBreakerPort, GenerationRefreshPort, the reconciler, each when it is there *)
  trip_liquidation : option (nat → string → res unit);
  request_refresh : option (nat → string → res unit);
  schedule_reconcile : option (nat → string → res unit);
  outcome_unknown : nat → string → res bool;
  (* ProtectionOwnershipPort, when it is attached *)
  protection : bool;
  handover : nat → string → Z → string → list CancelTarget → Z → res HandoverInfo;
  handover_account : nat → string → string → list CancelTarget → Z → res unit;
  expect_reprotect : nat → string → list string → res unit;
  release_after_partial : nat → string → float → string → string → option (string * string) → bool → res unit;
  close_after_full : nat → string → res unit;
}.

(** The database, how many outside calls were made, and the orders among them, each
    with the database it was sent under. *)
Record world : Type := mkWorld { w_db : closes; w_calls : nat; w_sent : list (order_call * closes) }.
Definition set_db (d : closes) (w : world) : world := mkWorld d (w_calls w) (w_sent w).

(** What the caller polls. *)
Record Receipt : Type := mkReceipt { rc_run : Run; rc_children : list Child }.
Definition read_receipt (root : string) (d : closes) : option Receipt :=
  (λ r, mkReceipt r (children_of root d)) <$> cl_runs d !! root.

(** ** Small helpers *)
Definition late_fill_watch : Z := days 1.
Definition broker_accepted (s : string) : bool := bool_decide (s ∈ ["PreSubmitted"; "Submitted"; "PendingCancel"]%string).
Definition broker_healthy (s : string) : bool := bool_decide (s ∈ ["PreSubmitted"; "Submitted"]%string).
Definition broker_terminal (s : string) : option child_state :=
  assoc s [("Filled", FILLED); ("Cancelled", CANCELLED); ("ApiCancelled", CANCELLED); ("Inactive", REJECTED); ("Rejected", REJECTED)]%string.
Definition side_text (s : side) : string := match s with SELL => "SELL" | BUY => "BUY" end.
Definition reducing_side (q : float) : side := if flt fzero q then SELL else BUY.
(** [max(a, b)], [x or 0.0] *)
Definition pymax (a b : float) : float := if flt a b then b else a.
Definition or_zero (x : float) : float := if feq x fzero then fzero else x.
Definition opt_feq (a b : option float) : bool :=
  match a, b with Some x, Some y => feq x y | None, None => true | _, _ => false end.
(** [math.floor] of a finite float *)
Definition ffloor (x : float) : Z :=
  match x with
  | S754_finite s m e =>
      let z := if s then Zneg m else Zpos m in if 0 <=? e then z * 2 ^ e else z / 2 ^ (- e)
  | _ => 0
  end.
Definition finite (x : float) : bool := match x with S754_infinity _ | S754_nan => false | _ => true end.

Example floors : ffloor (fdiv (float_of_Z 7) (float_of_Z 2)) = 3 ∧ ffloor (fdiv (float_of_Z (-7)) (float_of_Z 2)) = -4.
Proof. by vm_compute. Qed.

(** *** [replace] on a run *)
Definition put_state (s : run_state) (r : Run) : Run :=
  mkRun (r_id r) (r_account r) s (r_deadline r) (r_generation r) (r_scope r) (r_goal r) (r_goal_quantity r) (r_phase r)
    (r_opened_generation r) (r_stop_price r) (r_target_price r) (r_remaining r) (r_escalated r) (r_superseded_by r)
    (r_cleanup_pending r) (r_routine r) (r_pre_sp1_open r) (r_updated_at r).
Definition put_generation (g : option Z) (r : Run) : Run :=
  mkRun (r_id r) (r_account r) (r_state r) (r_deadline r) (match g with Some _ => g | None => r_generation r end) (r_scope r)
    (r_goal r) (r_goal_quantity r) (r_phase r) (r_opened_generation r) (r_stop_price r) (r_target_price r) (r_remaining r)
    (r_escalated r) (r_superseded_by r) (r_cleanup_pending r) (r_routine r) (r_pre_sp1_open r) (r_updated_at r).
Definition put_phase (p : run_phase) (opened : option Z) (r : Run) : Run :=
  mkRun (r_id r) (r_account r) (r_state r) (r_deadline r) (r_generation r) (r_scope r) (r_goal r) (r_goal_quantity r) p
    (match opened with Some _ => opened | None => r_opened_generation r end) (r_stop_price r) (r_target_price r)
    (r_remaining r) (r_escalated r) (r_superseded_by r) (r_cleanup_pending r) (r_routine r) (r_pre_sp1_open r) (r_updated_at r).
Definition put_prices (stop target : option float) (r : Run) : Run :=
  mkRun (r_id r) (r_account r) (r_state r) (r_deadline r) (r_generation r) (r_scope r) (r_goal r) (r_goal_quantity r)
    (r_phase r) (r_opened_generation r) stop target (r_remaining r) (r_escalated r) (r_superseded_by r)
    (r_cleanup_pending r) (r_routine r) (r_pre_sp1_open r) (r_updated_at r).
Definition put_goal_zero (p : run_phase) (r : Run) : Run :=
  mkRun (r_id r) (r_account r) (r_state r) (r_deadline r) (r_generation r) (r_scope r) RUN_ZERO None p
    (r_opened_generation r) (r_stop_price r) (r_target_price r) (r_remaining r) (r_escalated r) (r_superseded_by r)
    (r_cleanup_pending r) (r_routine r) (r_pre_sp1_open r) (r_updated_at r).
Definition put_escalated (deadline : Z) (r : Run) : Run :=
  mkRun (r_id r) (r_account r) (r_state r) deadline (r_generation r) (r_scope r) (r_goal r) (r_goal_quantity r) (r_phase r)
    (r_opened_generation r) (r_stop_price r) (r_target_price r) (r_remaining r) true (r_superseded_by r)
    (r_cleanup_pending r) (r_routine r) (r_pre_sp1_open r) (r_updated_at r).
Definition put_remaining (q : float) (r : Run) : Run :=
  mkRun (r_id r) (r_account r) (r_state r) (r_deadline r) (r_generation r) (r_scope r) (r_goal r) (r_goal_quantity r)
    (r_phase r) (r_opened_generation r) (r_stop_price r) (r_target_price r) (Some q) (r_escalated r) (r_superseded_by r)
    (r_cleanup_pending r) (r_routine r) (r_pre_sp1_open r) (r_updated_at r).
Definition put_superseded (by' : string) (r : Run) : Run :=
  mkRun (r_id r) (r_account r) (r_state r) (r_deadline r) (r_generation r) (r_scope r) (r_goal r) (r_goal_quantity r)
    (r_phase r) (r_opened_generation r) (r_stop_price r) (r_target_price r) (r_remaining r) (r_escalated r) (Some by')
    (r_cleanup_pending r) (r_routine r) (r_pre_sp1_open r) (r_updated_at r).
Definition put_cleanup (b : bool) (r : Run) : Run :=
  mkRun (r_id r) (r_account r) (r_state r) (r_deadline r) (r_generation r) (r_scope r) (r_goal r) (r_goal_quantity r)
    (r_phase r) (r_opened_generation r) (r_stop_price r) (r_target_price r) (r_remaining r) (r_escalated r)
    (r_superseded_by r) b (r_routine r) (r_pre_sp1_open r) (r_updated_at r).
Definition put_routine (b : bool) (r : Run) : Run :=
  mkRun (r_id r) (r_account r) (r_state r) (r_deadline r) (r_generation r) (r_scope r) (r_goal r) (r_goal_quantity r)
    (r_phase r) (r_opened_generation r) (r_stop_price r) (r_target_price r) (r_remaining r) (r_escalated r)
    (r_superseded_by r) (r_cleanup_pending r) b (r_pre_sp1_open r) (r_updated_at r).
(** [LiquidationReceipt(account, cause, "REQUESTED", deadline, ...)] *)
Definition new_run (root account : string) (deadline : Z) (scope : close_scope) (g : run_goal) (q stop target : option float)
    (routine : bool) : Run :=
  mkRun root account REQUESTED deadline None scope g q PHASE_NEW None stop target None false None false routine false 0.

(** *** [replace] on a child *)
Definition put_evidence (s : child_state) (filled : float) (outstanding : option float) (entity : option string)
    (observed : Z) (c : Child) : Child :=
  mkChild (c_id c) (c_root c) (c_owner c) (c_account c) (c_conid c) (c_kind c) (c_attempt c) s (c_fence c) (c_side c)
    (c_quantity c) (c_price c) (c_oca_group c) (c_target c) (c_filled_at_send c) filled outstanding (Some observed)
    (c_sent c) entity (c_prefix c).
Definition put_size (s : child_state) (q : float) (fence : Z) (c : Child) : Child :=
  mkChild (c_id c) (c_root c) (c_owner c) (c_account c) (c_conid c) (c_kind c) (c_attempt c) s fence (c_side c)
    (Some q) (c_price c) (c_oca_group c) (c_target c) (c_filled_at_send c) (c_filled c) (c_outstanding c) (c_observed c)
    (c_sent c) (c_order c) (c_prefix c).

Definition find_position (sn : Snapshot) (conid : Z) : option Position :=
  head (filter (λ p, po_conid p = conid ∧ feq (po_quantity p) fzero = false) (sn_positions sn)).
Definition working_for (sn : Snapshot) (conid : Z) : list BrokerOrder := filter (λ o, bo_conid o = conid) (sn_working sn).
Definition row_status (row : option BrokerOrder) : string := match row with Some o => bo_status o | None => "Unknown" end.
(** [max(..., key=attempt, default=None)] *)
Definition newest_attempt (l : list Child) : option Child :=
  fold_left (λ best c, match best with
    | Some b => if c_attempt b <? c_attempt c then Some c else best
    | None => Some c
    end) l None.

Section service.
Context (P : Ports).

(** ** Calls and transactions *)
Definition ask {A} (port : nat → res A) : M world A := λ w,
  (port (w_calls w), mkWorld (w_db w) (S (w_calls w)) (w_sent w)).
Definition ask_if {A} (port : option (nat → A → res unit)) (a : A) : M world unit :=
  match port with Some p => ask (λ n, p n a) | None => mret tt end.
(** [self._now()] *)
Definition now : M world Z := ask (λ n, Ok (clock P n)).
(** A statement of the store, and [db.transaction]. *)
Definition stmt {A} (m : M closes A) : M world A := zoom w_db set_db m.
Definition tx {A} (m : M world A) : M world A := λ w,
  match m w with
  | (Ok a, w') => (Ok a, w')
  | (Raise e, w') => (Raise e, set_db (w_db w) w')
  end.
Definition reads {A} (f : closes → A) : M world A := gets (λ w, f (w_db w)).
(** A value the code dereferences without a test. *)
Definition need {A} (o : option A) : M world A :=
  match o with Some a => mret a | None => raise TypeError end.
Definition receipt_of (root : string) : M world Receipt := r ← reads (read_receipt root); need r.
(** [_exclusive] *)
Definition exclusive_lock {A} (m : M world A) : M world A :=
  free ← ask (λ n, Ok (lock_free P n)); require free LiquidationBusy ;; m.
(** [with self._dispatch.hold_broker_changes(): m], whose [BrokerChangesBusy] is caught. *)
Definition held {A} (m : M world A) : M world (option A) :=
  try_except (ask (hold_broker_changes P) ;; a ← m; mret (Some a))
    (λ e, match e with BrokerChangesBusy => Some (mret None) | _ => None end).

(** ** Evidence *)
(** [_broker_fill] *)
Definition broker_fill (child : Child) (rows : list BrokerOrder) : M world float :=
  let entities := filter (λ e, e ≠ ""%string) (map bo_entity rows) in
  executed ← match entities with [] => mret [] | _ => ask (λ n, executed_quantities P n (c_account child) entities) end;
  mret (foldl (λ total r, fadd total (pymax (or_zero (bo_filled r)) (default fzero (assoc (bo_entity r) executed)))) fzero rows).

(** The broker rows of a child's own order, and of its ref prefix. *)
Definition rows_of (child : Child) : M world (list BrokerOrder) :=
  match c_kind child with
  | KIND_CANCEL =>
      row ← ask (λ n, get_order P n (default ""%string (c_target child)));
      mret (match row with Some o => if bo_deleted o then [] else [o] | None => [] end)
  | _ => ask (λ n, find_orders P n (c_account child) (c_id child))
  end.
Definition rows_with_prefix (child : Child) (prefix : string) : M world (list BrokerOrder) :=
  ask (λ n, find_orders_with_prefix P n (c_account child) prefix).

(** [_row_fill] *)
Definition row_fill (child : Child) : M world (option float) :=
  rows ← match c_prefix child with Some p => rows_with_prefix child p | None => rows_of child end;
  match rows with
  | [] => mret None
  | _ => filled ← broker_fill child rows; mret (Some filled)
  end.

(** A complete enumeration opened after the fence. *)
Definition enumerated_after (generation : Z) (fence : option Z) : M world bool :=
  match fence with
  | Some s => if s <? generation then ask (enumeration_complete P) else mret false
  | None => mret false
  end.

Definition observed_state (status : string) : child_state :=
  match broker_terminal status with
  | Some s => s
  | None => if String.eqb status "PendingCancel" then PENDING_CANCEL
            else if broker_accepted status then WORKING else UNKNOWN
  end.

(** [_legacy_evidence]; [None]: the child stays as it is *)
Definition legacy_evidence (child : Child) (prefix : string) (generation newest : Z) : M world (option Child) :=
  rows ← rows_with_prefix child prefix;
  filled ← broker_fill child rows;
  let statuses := map bo_status rows in
  state ←
    (if existsb (λ s, bool_decide (broker_terminal s = None)) statuses then
       mret (if existsb broker_accepted statuses then WORKING else UNKNOWN)
     else
       fence ← need (c_sent child);
       settled ← enumerated_after generation (Some fence);
       mret (if (settled : bool) then
               match rows with [] => ABSENT | _ => if flt fzero filled then FILLED else CANCELLED end
             else UNKNOWN));
  mret (if bool_decide (state = c_state child) && feq filled (c_filled child) then None
        else Some (put_evidence state filled (c_outstanding child) (c_order child) newest child)).

(** [_evidence] *)
Definition evidence (child : Child) (generation newest : Z) : M world (option Child) :=
  match c_prefix child with
  | Some prefix => legacy_evidence child prefix generation newest
  | None =>
      rows ← rows_of child;
      match rows with
      | [] =>
          proven ← enumerated_after generation (c_sent child);
          mret (if (proven : bool)
                then Some (put_evidence ABSENT (c_filled child) (c_outstanding child) (c_order child) newest child) else None)
      | [row] =>
          filled ← broker_fill child [row];
          let state := observed_state (bo_status row) in
          let outstanding := Some (pymax (fsub (or_zero (bo_total row)) filled) fzero) in
          let entity := match c_kind child with KIND_CANCEL => c_order child | _ => Some (bo_entity row) end in
          mret (if bool_decide (state = c_state child) && feq filled (c_filled child) &&
                   opt_feq outstanding (c_outstanding child) && bool_decide (entity = c_order child)
                then None else Some (put_evidence state filled outstanding entity newest child))
      | _ => mret None
      end
  end.

(** [_children_in_force] *)
Definition children_in_force (rc : Receipt) : M world (list Child) :=
  legacy ← reads (legacy_reduces (r_account (rc_run rc)));
  mret (rc_children rc ++ filter (λ c, c_id c ∉ map c_id (rc_children rc)) legacy).

Definition settle_child (c : Child) : M world unit :=
  stmt (update_child_in_tx c) ;;
  if bool_decide (is_Some (c_prefix c)) && CHILD_TERMINAL (c_state c) then stmt (clear_pre_sp1_mark_in_tx (c_root c)) else mret tt.

(** [_observe_children], [_observe_late_fills]; [None]: the same receipt, nothing
    was written *)
Definition observe_children (rc : Receipt) (generation newest : Z) : M world (option Receipt) :=
  inforce ← children_in_force rc;
  observed ← map_each (filter (λ c, CHILD_OPEN (c_state c) = true) inforce) (λ c, evidence c generation newest);
  match omap id observed with
  | [] => mret None
  | changed => tx (for_each changed settle_child) ;; r ← receipt_of (r_id (rc_run rc)); mret (Some r)
  end.
Definition late_fill (newest : Z) (c : Child) : M world (option Child) :=
  filled ← row_fill c;
  mret (match filled with
        | Some f => if flt (c_filled c) f
                    then Some (put_evidence (c_state c) f (c_outstanding c) (c_order c) newest c) else None
        | None => None
        end).
Definition observe_late_fills (rc : Receipt) (newest : Z) : M world (option Receipt) :=
  settled ← reads (settled_children (r_account (rc_run rc)) (scope_conid (r_scope (rc_run rc))));
  observed ← map_each settled (late_fill newest);
  match omap id observed with
  | [] => mret None
  | grown => tx (for_each grown (λ c, stmt (update_child_in_tx c))) ;; r ← receipt_of (r_id (rc_run rc)); mret (Some r)
  end.
Definition observe_again (rc : Receipt) (generation : Z) : M world Receipt :=
  newest ← ask (newest_generation P);
  observed ← observe_children rc generation newest;
  mret (default rc observed).

(** [_fresh] *)
Definition fresh (rc : Receipt) (generation : Z) : M world bool :=
  let account := r_account (rc_run rc) in
  let conid := scope_conid (r_scope (rc_run rc)) in
  watermark ← reads (fill_watermark account conid);
  if match watermark with Some m => generation <=? m | None => false end then mret false else
  except (unbound ← ask (λ n, unbound_execution_since P n account conid generation); mret (negb unbound)) (λ _, mret false).

(** [_blocking]: whether something stops every new reduce *)
Definition blocking (rc : Receipt) (generation : Z) : M world bool :=
  inforce ← children_in_force rc;
  if existsb (λ c, CHILD_OPEN (c_state c)) inforce then mret true else
  ok ← fresh rc generation; mret (negb ok).

(** [_last_action_generation] *)
Definition last_action_generation (rc : Receipt) : Z :=
  foldr Z.max (default 0 (r_opened_generation (rc_run rc)))
    (map (λ c, default (c_fence c) (c_sent c)) (filter (λ c, c_state c ≠ NOT_SENT) (rc_children rc))).

(** ** Writes of the run *)
(** [_trips_breaker] *)
Definition trips_breaker (r : Run) (s : run_state) : bool :=
  match r_scope r with
  | SCOPE_ACCOUNT => if r_routine r then bool_decide (s = FAILED_SAFE) else bool_decide (s ≠ FLAT)
  | SCOPE_CONID _ => bool_decide (s = FAILED_SAFE)
  end.
Definition trip_when (b : bool) (root : string) : M world unit :=
  if b then ask_if (trip_liquidation P) root else mret tt.

(** Change the run as the journal has it now. *)
Definition change_run (root : string) (f : Run → Run) : M world unit :=
  current ← stmt (get_run_in_tx root);
  run ← need current;
  t ← now;
  stmt (update_run_in_tx (f run) t).
(** [_set] *)
Definition set_run (rc : Receipt) (s : run_state) (generation : option Z) (f : Run → Run) : M world Receipt :=
  let root := r_id (rc_run rc) in
  tx (change_run root (λ r, f (put_state s (put_generation generation r)))) ;;
  trip_when (trips_breaker (rc_run rc) s) root ;;
  receipt_of root.
(** [_wait] *)
Definition wait (rc : Receipt) (generation : Z) : M world Receipt :=
  ask_if (request_refresh P) (r_account (rc_run rc)) ;;
  set_run rc VERIFYING (Some generation) id.

(** [_commit_terminal] *)
Definition commit_terminal (rc : Receipt) (s : run_state) (generation : option Z) (f : Run → Run) : M world unit :=
  let root := r_id (rc_run rc) in
  tx (change_run root (λ r, f (put_state s (put_cleanup true (put_generation generation r)))) ;;
      stmt (drop_planned_in_tx root) ;;
      t ← now;
      stmt (in_owners (finish_in_tx root (if OWNER_RELEASED_STATES s then STATE_RELEASED else STATE_FAILED_SAFE) t))).

(** ** The end of a root *)
Definition leg_row (leg : Child) : M world (option BrokerOrder) :=
  rows ← ask (λ n, find_orders P n (c_account leg) (c_id leg));
  mret (match rows with [row] => Some row | _ => None end).

(** [_linked] *)
Definition linked (row : option BrokerOrder) (oca_group : option string) (sd : side) : bool :=
  match row with
  | Some o => bool_decide (bo_oca_group o = oca_group) && bool_decide (bo_oca_type o = Some 2) && String.eqb (bo_action o) (side_text sd)
  | None => false
  end.
Definition outstanding_now (leg : Child) (o : BrokerOrder) : M world float :=
  filled ← broker_fill leg [o]; mret (pymax (fsub (or_zero (bo_total o)) filled) fzero).

(** [_filled_stop_problem], [_release_problem]: whether the protection is broken *)
Definition filled_stop_problem (rc : Receipt) (position : option Position) (legs : list (Child * option BrokerOrder))
    : M world bool :=
  match position with
  | Some _ => mret true
  | None =>
      fills ← map_each (omap (λ l, (λ o, (l.1, o)) <$> l.2) legs) (λ l, f ← broker_fill l.1 [l.2]; mret (fsub f (c_filled l.1)));
      remaining ← need (r_remaining (rc_run rc));
      if negb (feq (foldl fadd fzero fills) remaining) then mret true else
      mret (existsb (λ l : Child * option BrokerOrder, bool_decide (broker_terminal (row_status l.2) = None)) (tail legs))
  end.
Fixpoint leg_problems (sd : side) (size : float) (legs : list (Child * option BrokerOrder)) : M world bool :=
  match legs with
  | [] => mret false
  | (leg, row) :: legs' =>
      match row with
      | Some o =>
          if negb (broker_healthy (bo_status o)) then leg_problems sd size legs' else
          if negb (linked row (c_oca_group leg) sd) then mret true else
          out ← outstanding_now leg o;
          if negb (feq out size) then mret true else leg_problems sd size legs'
      | None => leg_problems sd size legs'
      end
  end.
Definition release_problem (rc : Receipt) (position : option Position) (legs : list (Child * option BrokerOrder)) : M world bool :=
  let stop_status := row_status (match legs with l :: _ => l.2 | [] => None end) in
  if String.eqb stop_status "Filled" then filled_stop_problem rc position legs else
  if negb (broker_healthy stop_status) then mret false else
  match position with
  | None => mret true
  | Some p => leg_problems (reducing_side (po_quantity p)) (fabs (po_quantity p)) legs
  end.

(** [_release_after_partial], while broker changes are held *)
Definition release_legs (rc : Receipt) : M world unit :=
  let root := r_id (rc_run rc) in
  legs ← reads (reprotect_legs_written_by root);
  let newest k := newest_attempt (filter (λ c, c_kind c = k) legs) in
  stop ← match newest KIND_STOP with Some c => mret c | None => raise RunStateError end;
  stop_row ← leg_row stop;
  target_rows ← match newest KIND_TARGET with Some c => row ← leg_row c; mret [(c, row)] | None => mret [] end;
  snapshot ← ask (λ n, capture P n (r_account (rc_run rc)));
  conid ← need (scope_conid (r_scope (rc_run rc)));
  let position := find_position snapshot conid in
  problem ← release_problem rc position ((stop, stop_row) :: target_rows);
  remaining ← match position with Some p => mret (fabs (po_quantity p)) | None => need (r_remaining (rc_run rc)) end;
  ask (λ n, release_after_partial P n root remaining (c_id stop) (row_status stop_row)
    (head (map (λ l, (c_id l.1, row_status l.2)) target_rows)) problem).

(** [_schedule_commands] *)
Definition schedule_commands (root : string) : M world unit :=
  match schedule_reconcile P with
  | None => mret tt
  | Some schedule =>
      joins ← reads (joins_resolving_to root);
      for_each joins (λ j,
        unknown ← ask (λ n, outcome_unknown P n (j_command j));
        if (unknown : bool) then ask (λ n, schedule n (j_command j)) else mret tt)
  end.

(** [_cleanup] *)
Definition cleanup (rc : Receipt) : M world Receipt :=
  let root := r_id (rc_run rc) in
  done ←
    (if protection P then
       match r_state (rc_run rc) with
       | CLOSED | FLAT => ask (λ n, close_after_full P n root) ;; mret (Some tt)
       | DONE | REDUCE_FAILED => held (release_legs rc)
       | _ => mret (Some tt)
       end
     else mret (Some tt));
  match (done : option unit) with
  | None => receipt_of root
  | Some _ =>
      tx (change_run root (put_cleanup false)) ;;
      schedule_commands root ;;
      receipt_of root
  end.

(** [_after_terminal], [_finish] *)
Definition after_terminal (rc : Receipt) (s : run_state) : M world Receipt :=
  let root := r_id (rc_run rc) in
  trip_when (trips_breaker (rc_run rc) s) root ;;
  r ← receipt_of root; cleanup r.
Definition finish (rc : Receipt) (s : run_state) : M world Receipt :=
  commit_terminal rc s None id ;; after_terminal rc s.

(** ** Dispatch *)
(** [_check_dispatchable_in_tx] *)
Definition check_dispatchable (root : string) (g : run_goal) : M world unit :=
  run ← stmt (get_run_in_tx root);
  owner ← stmt (in_owners (get_in_tx root));
  match run with
  | None => raise StaleDispatch
  | Some r =>
      require (negb (RESCAN_TERMINAL (r_state r) || r_cleanup_pending r)) StaleDispatch ;;
      match owner with
      | None => raise StaleDispatch
      | Some o =>
          require (bool_decide (x_state o = STATE_ACTIVE)) StaleDispatch ;;
          require (bool_decide (r_goal r = g) && bool_decide (goal o = owner_goal_of (r_goal r))) StaleDispatch
      end
  end.
(** [except _StaleDispatch] *)
Definition unless_stale {A} (m : M world A) : M world (option A) :=
  try_except (a ← tx m; mret (Some a)) (λ e, match e with StaleDispatch => Some (mret None) | _ => None end).
(** [_reserve], [_still_dispatchable] *)
Definition reserve {A} (rc : Receipt) (build : M world A) : M world (option A) :=
  unless_stale (check_dispatchable (r_id (rc_run rc)) (r_goal (rc_run rc)) ;; build).
Definition still_dispatchable (root : string) (g : run_goal) : M world bool :=
  ok ← unless_stale (check_dispatchable root g); mret (match ok with Some _ => true | None => false end).

(** [_mark] *)
Definition mark (child : Child) (s : child_state) : M world unit :=
  tx (stmt (update_child_in_tx (with_child_state s child))).
(** The broker call itself. *)
Definition transmit (call : order_call) : M world unit := λ w,
  ask (λ n, send_order P n call) (mkWorld (w_db w) (w_calls w) (w_sent w ++ [(call, w_db w)])).

(** [_send]: the refusal code, or [None] *)
Definition send (rc : Receipt) (child : Child) (call : order_call) : M world (option string) :=
  ok ← still_dispatchable (r_id (rc_run rc)) (r_goal (rc_run rc));
  if negb ok then mark child NOT_SENT ;; mret (Some "STALE_DISPATCH"%string) else
  refused ← try_except (transmit call ;; mret None)
    (λ e, match e with
      | DispatchRefused code => Some (mark child NOT_SENT ;; mret (Some code))
      | ProcessDied => None
      | _ => Some (mret None)
      end);
  match (refused : option string) with
  | Some code => mret (Some code)
  | None =>
      fence ← except (n ← ask (newest_generation P); mret (Some n)) (λ _, mret None);
      match (fence : option Z) with
      | None => mret None
      | Some f =>
          tx (current ← stmt (child_in_tx (c_id child)); c ← need current; stmt (update_child_in_tx (with_sent f c))) ;;
          mret None
      end
  end.

(** [_new_child]: the row of a call that is about to be made *)
Definition new_child (rc : Receipt) (k : child_kind) (conid generation : Z) (s : child_state) (sd : option side)
    (quantity price : option float) (oca_group target : option string) (filled : float) : M world Child :=
  let root := r_id (rc_run rc) in
  attempt ← reads (next_attempt root k conid);
  require (child_id_valid root attempt) ValueError ;;
  let child := mkChild (liquidation_child_id root k conid attempt) root root (r_account (rc_run rc)) (Some conid) k attempt s
    generation sd quantity price oca_group target filled fzero None None None None None in
  stmt (insert_child_in_tx child) ;;
  mret child.

(** *** Cancels *)
Record target : Type := mkTarget { t_entity : string; t_conid : Z; t_group : option string; t_status : option string; t_filled : float }.
Definition order_target (o : BrokerOrder) : target :=
  mkTarget (bo_entity o) (bo_conid o) (bo_group o) (Some (bo_status o)) (or_zero (bo_filled o)).
Definition is_leg (c : Child) : bool := bool_decide (c_kind c = KIND_STOP) || bool_decide (c_kind c = KIND_TARGET).
(** A working re-protect leg of this root, as an order of the scope. *)
Definition leg_target (conid : option Z) (c : Child) : option target :=
  match c_order c, c_conid c with
  | Some entity, Some i =>
      if is_leg c && bool_decide (c_state c = WORKING) && negb (String.eqb entity "") &&
         match conid with None => true | Some x => i =? x end
      then Some (mkTarget entity i (Some (c_id c)) None (c_filled c)) else None
  | _, _ => None
  end.
(** [_cancel_targets] *)
Definition cancel_targets (rc : Receipt) (orders : list BrokerOrder) (conid : option Z) : list target :=
  let listed := fold_left (λ found o, assoc_set (bo_entity o) (order_target o) found) orders [] in
  let found := fold_left (λ found t, match assoc (t_entity t) found with Some _ => found | None => found ++ [(t_entity t, t)] end)
    (omap (leg_target conid) (rc_children rc)) listed in
  let covered := omap c_target (filter (λ c, c_kind c = KIND_CANCEL ∧ c_root c = r_id (rc_run rc) ∧ CHILD_OPEN (c_state c) = true)
    (rc_children rc)) in
  filter (λ t, t_entity t ∉ covered ∧ t_status t ≠ Some "PendingCancel"%string ∧ liquidation_child_kind (t_group t) ≠ Some KIND_REDUCE)
    (map snd found).
Definition handed (targets : list target) : list CancelTarget := map (λ t, mkCancelTarget (t_entity t) (t_group t)) targets.

(** [_send_cancels] *)
Definition send_cancels (rc : Receipt) (generation : Z) (targets : list target) : M world Receipt :=
  match targets with
  | [] => mret rc
  | _ =>
      children ← reserve rc (map_each targets (λ t,
        new_child rc KIND_CANCEL (t_conid t) generation UNKNOWN None None None None (Some (t_entity t)) (t_filled t)));
      for_each (zip (default [] children) targets) (λ ct, send rc ct.1 (call_cancel (t_entity ct.2) (c_id ct.1)) ;; mret tt) ;;
      receipt_of (r_id (rc_run rc))
  end.

(** *** Reduces *)
(** [_submit_reduces] *)
Definition submit_reduces (rc : Receipt) (generation : Z) (positions : list Position) (partial : option float) : M world Receipt :=
  let root := r_id (rc_run rc) in
  children ← reserve rc (map_each positions (λ p,
    new_child rc KIND_REDUCE (po_conid p) generation UNKNOWN (Some (reducing_side (po_quantity p)))
      (Some (default (fabs (po_quantity p)) partial)) None None None fzero));
  match (children : option (list Child)) with
  | None => receipt_of root
  | Some cs =>
      rc' ← set_run rc REDUCING (Some generation)
        (match r_scope (rc_run rc) with SCOPE_CONID _ => put_phase PHASE_REDUCE None | SCOPE_ACCOUNT => id end);
      for_each (zip cs positions) (λ cp,
        let call := match partial with None => call_reduce | Some _ => call_reduce_partial end in
        send rc' cp.1 (call (po_conid cp.2) (reducing_side (po_quantity cp.2))
          (default (fabs (po_quantity cp.2)) (c_quantity cp.1)) (c_id cp.1)) ;; mret tt) ;;
      r ← receipt_of root; wait r generation
  end.

(** ** Terminal states, under the hold *)
(** [_exposure_since_decision] *)
Definition exposure_since_decision (rc : Receipt) (sn : Snapshot) : M world bool :=
  mret (match r_scope (rc_run rc) with
        | SCOPE_ACCOUNT => existsb (λ p, negb (feq (po_quantity p) fzero)) (sn_positions sn) || negb (bool_decide (sn_working sn = []))
        | SCOPE_CONID i => match find_position sn i with Some _ => true | None => negb (bool_decide (working_for sn i = [])) end
        end).
(** [_changed_under_hold]: whether the terminal write must wait *)
Definition changed_under_hold (rc : Receipt) (generation : Z) (changed : Snapshot → M world bool) : M world bool :=
  except
    (sn ← ask (λ n, capture P n (r_account (rc_run rc)));
     if negb (sn_generation sn =? generation) then mret true else
     newest ← ask (newest_generation P);
     observed ← observe_children rc (sn_generation sn) newest;
     late ← observe_late_fills (default rc observed) newest;
     match observed, late with
     | None, None =>
         ok ← fresh rc generation;
         if negb ok then mret true else changed sn
     | _, _ => mret true
     end)
    (λ _, mret true).
(** [_finish_held] *)
Definition finish_held (rc : Receipt) (s : run_state) (generation : Z) (f : Run → Run) (changed : Snapshot → M world bool)
    : M world Receipt :=
  committed ← held (
    why ← changed_under_hold rc generation changed;
    if (why : bool) then mret false else commit_terminal rc s (Some generation) f ;; mret true);
  match (committed : option bool) with
  | Some true => after_terminal rc s
  | _ => wait rc generation
  end.

(** ** Account scope *)
(** [_advance_account] *)
Definition advance_account (rc : Receipt) (sn : Snapshot) : M world Receipt :=
  let generation := sn_generation sn in
  let run := rc_run rc in
  let new := bool_decide (r_phase run = PHASE_NEW) in
  if new && match r_opened_generation run with Some g => generation <=? g | None => false end then wait rc generation else
  let targets := cancel_targets rc (sn_working sn) None in
  (if (new || negb (bool_decide (targets = []))) && protection P
   then ask (λ n, handover_account P n (r_account run) (r_id run) (handed targets) generation) else mret tt) ;;
  rc ← (if new then
          set_run rc (match sn_working sn with [] => VERIFYING | _ => CANCELLING_ENTRIES end) (Some generation)
            (put_phase PHASE_CANCEL (Some generation))
        else mret rc);
  rc ← send_cancels rc generation targets;
  stop ← blocking rc generation;
  if (stop : bool) || negb (bool_decide (sn_working sn = [])) then wait rc generation else
  match filter (λ p, feq (po_quantity p) fzero = false) (sn_positions sn) with
  | [] =>
      if generation <=? last_action_generation rc then wait rc generation
      else finish_held rc FLAT generation id (exposure_since_decision rc)
  | positions => submit_reduces rc generation positions None
  end.

(** ** Conid scope *)
(** [_cancel_conid_orders] *)
Definition cancel_conid_orders (rc : Receipt) (generation conid : Z) (working : list BrokerOrder) : M world Receipt :=
  let run := rc_run rc in
  let new := bool_decide (r_phase run = PHASE_NEW) in
  let targets := cancel_targets rc working (Some conid) in
  rc ←
    (if new || negb (bool_decide (targets = [])) then
       info ← (if protection P then ask (λ n, handover P n (r_account run) conid (r_id run) (handed targets) generation)
               else mret (mkHandover None None));
       if new then
         set_run rc (match working with [] => VERIFYING | _ => CANCELLING end) (Some generation)
           (λ r, put_prices (match r_stop_price run with Some p => Some p | None => hi_stop info end)
                            (match r_target_price run with Some p => Some p | None => hi_target info end)
                            (put_phase PHASE_CANCEL (Some generation) r))
       else mret rc
     else mret rc);
  send_cancels rc generation targets.

(** [upgrade_to_zero], [_upgrade_run_in_tx] *)
Definition upgrade_run (root : string) : M world unit :=
  current ← stmt (get_run_in_tx root);
  match current with
  | None => mret tt
  | Some r =>
      if RESCAN_TERMINAL (r_state r) || bool_decide (r_goal r = RUN_ZERO) then mret tt else
      t ← now;
      stmt (update_run_in_tx (put_goal_zero (match r_phase r with PHASE_REDUCE | PHASE_REPROTECT => PHASE_CANCEL | p => p end) r) t) ;;
      stmt (drop_planned_in_tx root)
  end.
Definition upgrade_to_zero (root : string) : M world Receipt :=
  tx (t ← now; stmt (in_owners (upgrade_goal_in_tx root t)) ;; upgrade_run root) ;;
  receipt_of root.

(** [_submit_partial] *)
Definition submit_partial (rc : Receipt) (generation : Z) (p : Position) : M world Receipt :=
  let size := fabs (po_quantity p) in
  q ← need (r_goal_quantity (rc_run rc));
  if fle size q || flt (fsub size q) (float_of_Z 1) then
    rc' ← upgrade_to_zero (r_id (rc_run rc)); submit_reduces rc' generation [p] None
  else submit_reduces rc generation [p] (Some q).

(** [_escalate] *)
Definition escalate (rc : Receipt) : M world unit :=
  let root := r_id (rc_run rc) in
  ask_if (trip_liquidation P) root ;;
  tx (t ← now;
      stmt (in_owners (upgrade_goal_in_tx root t)) ;;
      current ← stmt (get_run_in_tx root);
      run ← need current;
      t1 ← now;
      t2 ← now;
      stmt (update_run_in_tx (put_state CANCELLING (put_goal_zero PHASE_CANCEL (put_escalated (t1 + seconds (deadline_seconds P)) run))) t2) ;;
      stmt (drop_planned_in_tx root)).

(** [_protective]: whether the prices are on the wrong side of the market *)
Definition unprotective (p : Position) (stop : float) (target : option float) : bool :=
  match po_market_price p with
  | None => true
  | Some price =>
      if negb (finite price) then true else
      let long := flt fzero (po_quantity p) in
      (if long then negb (flt stop price) else negb (flt price stop)) ||
      match target with
      | None => false
      | Some t => if long then negb (flt price t) else negb (flt t price)
      end
  end.
(** [_latest] *)
Definition latest_leg (rc : Receipt) (k : child_kind) : option Child :=
  newest_attempt (filter (λ c, c_kind c = k ∧ c_root c = r_id (rc_run rc)) (rc_children rc)).
(** [_send_leg] *)
Definition send_leg (rc : Receipt) (leg : Child) (p : Position) (sibling : option Child) : M world (option string) :=
  q ← need (c_quantity leg);
  price ← need (c_price leg);
  group ← need (c_oca_group leg);
  send rc leg (call_leg (po_conid p) (c_kind leg) q price group (c_id leg) (c_id <$> sibling)).

(** [_leg_changed], [_leg_fingerprint], [_partial_outcome] *)
Definition leg_changed (leg : Child) (row : BrokerOrder) : bool :=
  let filled := or_zero (bo_filled row) in
  negb (broker_healthy (bo_status row)) || negb (feq filled (c_filled leg)) ||
  negb (opt_feq (Some (pymax (fsub (or_zero (bo_total row)) filled) fzero)) (c_outstanding leg)).
Definition same_fingerprint (a b : option BrokerOrder) : bool :=
  match a, b with
  | None, None => true
  | Some x, Some y =>
      String.eqb (bo_status x) (bo_status y) && feq (bo_filled x) (bo_filled y) && feq (bo_total x) (bo_total y) &&
      bool_decide (bo_oca_group x = bo_oca_group y) && bool_decide (bo_oca_type x = bo_oca_type y) &&
      String.eqb (bo_action x) (bo_action y) && (bo_revision x =? bo_revision y)
  | _, _ => false
  end.
Definition partial_outcome (rc : Receipt) : run_state :=
  match r_goal (rc_run rc) with
  | RUN_REPROTECT => DONE
  | _ =>
      let sold := foldl (λ q c, fadd q (c_filled c)) fzero
        (filter (λ c, c_kind c = KIND_REDUCE ∧ c_root c = r_id (rc_run rc) ∧ c_state c ≠ ABSENT) (rc_children rc)) in
      if flt fzero sold then DONE else REDUCE_FAILED
  end.
(** [_legs_changed] *)
Definition legs_changed (rc : Receipt) (conid : Z) (legs : list Child) (rows : list (option BrokerOrder)) (size : float) (sn : Snapshot)
    : M world bool :=
  again ← map_each legs leg_row;
  if negb (forallb (λ ab, same_fingerprint ab.1 ab.2) (zip again rows)) then mret true else
  match find_position sn conid with
  | None => mret true
  | Some p =>
      if negb (feq (po_quantity p) size) then mret true else
      let sd := side_text (reducing_side (po_quantity p)) in
      mret (existsb (λ row, match row with Some o => negb (String.eqb (bo_action o) sd) | None => true end) again)
  end.

(** *** The target leg *)
Inductive admission : Type :=
  | admitted (size : Position) | stop_unhealthy | stop_unlinked | evidence_changed.
(** [_target_admission] *)
Definition target_admission (rc : Receipt) (conid : Z) (stop : Child) (position : Position) (generation : Z) : M world admission :=
  row ← leg_row stop;
  match row with
  | None => mret stop_unhealthy
  | Some o =>
      if negb (broker_healthy (bo_status o)) then mret stop_unhealthy else
      read ← except
        (sn ← ask (λ n, capture P n (r_account (rc_run rc))); filled ← broker_fill stop [o]; mret (Some (sn, filled)))
        (λ _, mret None);
      match (read : option (Snapshot * float)) with
      | None => mret evidence_changed
      | Some (sn, filled) =>
          if negb (sn_generation sn =? generation) then mret evidence_changed else
          match find_position sn conid with
          | None => mret evidence_changed
          | Some p =>
              if negb (feq (po_quantity p) (po_quantity position)) then mret evidence_changed else
              if negb (linked row (c_oca_group stop) (reducing_side (po_quantity p))) then mret stop_unlinked else
              let outstanding := pymax (fsub (or_zero (bo_total o)) filled) fzero in
              mret (if feq outstanding (fabs (po_quantity p)) then admitted p else evidence_changed)
          end
      end
  end.
(** [_target_still_admitted]: whether to send *)
Definition target_still_admitted (rc : Receipt) (conid : Z) (stop : Child) (size : float) (p : Position) (generation : Z) : M world bool :=
  again ← held (target_admission rc conid stop p generation);
  mret (match again with
        | Some (admitted p') => feq (fabs (po_quantity p')) size
        | _ => false
        end).

(** ** One step of a conid root.  [depth] bounds the escalations inside one step. *)
(** [_finish_reprotect_closed] *)
Definition finish_reprotect_closed (rc : Receipt) (sn : Snapshot) (conid : Z) (working : list BrokerOrder) : M world Receipt :=
  let generation := sn_generation sn in
  rc ← cancel_conid_orders rc generation conid working;
  stop ← blocking rc generation;
  if (stop : bool) || negb (bool_decide (working = [])) then wait rc generation else
  if generation <=? last_action_generation rc then wait rc generation else
  finish_held rc CLOSED generation id (exposure_since_decision rc).
(** [_stop_not_healthy], and the other waits that observe the children first *)
Definition observe_and_wait (rc : Receipt) (generation : Z) : M world Receipt :=
  rc ← observe_again rc generation; wait rc generation.

Section escalating.
(** [_escalate_now] of the steps below *)
Context (escalate_now : Receipt → Snapshot → M world Receipt).

(** [_send_target] *)
Definition send_target (rc : Receipt) (sn : Snapshot) (conid : Z) (stop target : Child) (position : Position) : M world Receipt :=
  let generation := sn_generation sn in
  decided ← held (
    a ← target_admission rc conid stop position generation;
    match (a : admission) with
    | admitted p =>
        let sized := put_size UNKNOWN (fabs (po_quantity p)) generation target in
        ok ← reserve rc (stmt (update_child_in_tx sized));
        mret (a, (λ _, (sized, p)) <$> ok)
    | _ => mret (a, None)
    end);
  match (decided : option (admission * option (Child * Position))) with
  | None => wait rc generation
  | Some (stop_unhealthy, _) => observe_and_wait rc generation
  | Some (stop_unlinked, _) => escalate_now rc sn
  | Some (evidence_changed, _) => wait rc generation
  | Some (admitted _, None) => r ← receipt_of (r_id (rc_run rc)); wait r generation
  | Some (admitted _, Some (sized, p)) =>
      let back := tx (stmt (update_child_in_tx target)) ;; observe_and_wait rc generation in
      ok ← target_still_admitted rc conid stop (fabs (po_quantity p)) p generation;
      if negb ok then back else
      refused ← send_leg rc sized p (Some stop);
      if bool_decide (refused = Some "LIVE_SIZE_MISMATCH"%string) then back
      else r ← receipt_of (r_id (rc_run rc)); wait r generation
  end.

(** [_start_reprotect] *)
Definition start_reprotect (rc : Receipt) (sn : Snapshot) (conid : Z) (p : Position) : M world Receipt :=
  let generation := sn_generation sn in
  let run := rc_run rc in
  let root := r_id run in
  match r_stop_price run with
  | None => escalate_now rc sn
  | Some stop_price =>
      if unprotective p stop_price (r_target_price run) then escalate_now rc sn else
      let remaining := fabs (po_quantity p) in
      let sd := reducing_side (po_quantity p) in
      attempt ← reads (next_attempt root KIND_STOP conid);
      require (child_id_valid root attempt) ValueError ;;
      let groups := liquidation_child_id root KIND_STOP conid attempt ::
        match r_target_price run with Some _ => [liquidation_child_id root KIND_TARGET conid attempt] | None => [] end in
      (if protection P then ask (λ n, expect_reprotect P n root groups) else mret tt) ;;
      let group := reprotect_oca_group root conid attempt in
      legs ← reserve rc (
        stop ← new_child rc KIND_STOP conid generation UNKNOWN (Some sd) (Some remaining) (Some stop_price) (Some group) None fzero;
        (match r_target_price run with
         | Some t => new_child rc KIND_TARGET conid generation PLANNED (Some sd) (Some remaining) (Some t) (Some group) None fzero ;; mret tt
         | None => mret tt
         end) ;;
        mret stop);
      match (legs : option Child) with
      | None => receipt_of root
      | Some stop =>
          rc' ← set_run rc REPROTECTING (Some generation) (put_phase PHASE_REPROTECT None);
          send_leg rc' stop p None ;;
          r ← receipt_of root; wait r generation
      end
  end.

(** Every leg against its row, in order. *)
Inductive leg_verdict : Type := legs_sound | leg_moved | target_oversized | leg_resizing.
Fixpoint judge_legs (remaining : float) (legs : list (Child * option BrokerOrder)) : leg_verdict :=
  match legs with
  | [] => legs_sound
  | (leg, row) :: legs' =>
      match row with
      | None => leg_moved
      | Some o =>
          if leg_changed leg o then leg_moved else
          let out := default S754_nan (c_outstanding leg) in
          if bool_decide (c_kind leg = KIND_TARGET) && flt remaining out then target_oversized
          else if negb (feq out remaining) then leg_resizing else judge_legs remaining legs'
      end
  end.
Definition leg_fence (leg : Child) : Z :=
  match c_sent leg with Some s => if s =? 0 then c_fence leg else s | None => c_fence leg end.
(** The legs work: finish when they protect exactly what is held. *)
Definition finish_legs (rc : Receipt) (sn : Snapshot) (conid : Z) (p : Position) (stop : Child) (legs : list Child) : M world Receipt :=
  let generation := sn_generation sn in
  if existsb (λ leg, generation <=? leg_fence leg) legs then wait rc generation else
  rows ← map_each legs leg_row;
  if negb (forallb (λ row, linked row (c_oca_group stop) (reducing_side (po_quantity p))) rows) then escalate_now rc sn else
  match judge_legs (fabs (po_quantity p)) (zip legs rows) with
  | leg_moved => observe_and_wait rc generation
  | target_oversized => escalate_now rc sn
  | leg_resizing => wait rc generation
  | legs_sound =>
      finish_held rc (partial_outcome rc) generation (put_remaining (fabs (po_quantity p)))
        (legs_changed rc conid legs rows (po_quantity p))
  end.

(** [_advance_reprotect] *)
Definition advance_reprotect (rc : Receipt) (sn : Snapshot) (conid : Z) (working : list BrokerOrder) (position : option Position)
    : M world Receipt :=
  let generation := sn_generation sn in
  let stop := latest_leg rc KIND_STOP in
  let target := latest_leg rc KIND_TARGET in
  if existsb (λ c, bool_decide (c_state c = UNKNOWN)) (rc_children rc) then wait rc generation else
  ok ← fresh rc generation;
  if negb ok then wait rc generation else
  match position with
  | None => finish_reprotect_closed rc sn conid working
  | Some p =>
      stop ← need stop;
      let target_in states := match target with Some t => bool_decide (c_state t ∈ states) | None => false end in
      let oca_cancel := bool_decide (c_state stop ∈ [CANCELLED; PENDING_CANCEL]) && target_in [WORKING; FILLED] in
      if (oca_cancel || bool_decide (c_state stop = PENDING_CANCEL)) && (generation <=? default 0 (c_observed stop))
      then wait rc generation else
      if negb (bool_decide (c_state stop = WORKING)) then escalate_now rc sn else
      match target with
      | Some t =>
          if bool_decide (c_state t = PLANNED) then
            row ← leg_row stop;
            if negb (broker_healthy (row_status row)) then observe_and_wait rc generation
            else send_target rc sn conid stop t p
          else if negb (bool_decide (c_state t = WORKING)) then escalate_now rc sn
          else finish_legs rc sn conid p stop [stop; t]
      | None => finish_legs rc sn conid p stop [stop]
      end
  end.

(** [_advance_conid] *)
Definition advance_conid_with (rc : Receipt) (sn : Snapshot) (conid : Z) : M world Receipt :=
  let generation := sn_generation sn in
  let working := working_for sn conid in
  let position := find_position sn conid in
  if bool_decide (r_phase (rc_run rc) = PHASE_REPROTECT) then advance_reprotect rc sn conid working position else
  rc ← cancel_conid_orders rc generation conid working;
  stop ← blocking rc generation;
  if (stop : bool) || negb (bool_decide (working = [])) then wait rc generation else
  match position with
  | None =>
      if generation <=? last_action_generation rc then wait rc generation
      else finish_held rc CLOSED generation id (exposure_since_decision rc)
  | Some p =>
      match r_goal (rc_run rc) with
      | RUN_REPROTECT => start_reprotect rc sn conid p
      | RUN_PARTIAL =>
          if existsb (λ c, bool_decide (c_kind c = KIND_REDUCE) && String.eqb (c_root c) (r_id (rc_run rc)) &&
                          bool_decide (c_state c ∈ [FILLED; CANCELLED; REJECTED; ABSENT])) (rc_children rc)
          then start_reprotect rc sn conid p
          else submit_partial rc generation p
      | RUN_ZERO => submit_reduces rc generation [p] None
      end
  end.
End escalating.

Fixpoint advance_conid (depth : nat) (rc : Receipt) (sn : Snapshot) : M world Receipt :=
  match r_scope (rc_run rc) with
  | SCOPE_ACCOUNT => raise TypeError
  | SCOPE_CONID conid =>
      advance_conid_with (λ rc sn,
        match depth with
        | O => raise (RuntimeError "recursion")
        | S n => escalate rc ;; r ← receipt_of (r_id (rc_run rc)); advance_conid n r sn
        end) rc sn conid
  end.
(** One escalation, then the step of a full close, which cannot escalate. *)
Definition escalation_depth : nat := 1.

(** ** One step of one root *)
Definition snapshot_unavailable (rc : Receipt) : M world Receipt :=
  set_run rc (match r_scope (rc_run rc) with SCOPE_ACCOUNT => RUN_UNKNOWN | SCOPE_CONID _ => VERIFYING end) None id.
(** [_on_deadline] *)
Definition on_deadline (rc : Receipt) : M world Receipt :=
  inforce ← children_in_force rc;
  let unknown := existsb (λ c, bool_decide (c_state c = UNKNOWN)) inforce in
  let run := rc_run rc in
  if match r_scope run with SCOPE_CONID _ => true | SCOPE_ACCOUNT => false end &&
     bool_decide (r_goal run ∈ [RUN_PARTIAL; RUN_REPROTECT]) && negb (r_escalated run) && negb unknown &&
     bool_decide (r_phase run ∈ [PHASE_CANCEL; PHASE_REDUCE; PHASE_REPROTECT])
  then escalate rc ;; receipt_of (r_id run)
  else finish rc FAILED_SAFE.

(** [_track_pre_sp1_reduces]: whether a wildcard child was added *)
Definition track_one (rc : Receipt) (newest : Z) (old : string) : M world bool :=
  let prefix := legacy_reduce_prefix old in
  let id := (prefix +:+ "*")%string in
  known ← stmt (child_in_tx id);
  match known with
  | Some _ => mret false
  | None =>
      stmt (insert_child_in_tx (mkChild id old (r_id (rc_run rc)) (r_account (rc_run rc)) None KIND_REDUCE 0 UNKNOWN newest
        None None None None None fzero fzero None None (Some newest) None (Some prefix))) ;;
      mret true
  end.
Definition track_pre_sp1_reduces (rc : Receipt) (newest : Z) : M world bool :=
  tx (olds ← reads (pre_sp1_roots (r_account (rc_run rc)));
      added ← map_each olds (track_one rc newest);
      mret (existsb id added)).
(** A child whose send never got its fence: cut off by a crash. *)
Definition cut_off (newest : Z) (c : Child) : option Child :=
  if bool_decide (c_state c = UNKNOWN) && bool_decide (c_sent c = None)
  then Some (with_sent newest (match c_kind c with KIND_CANCEL => with_child_state NOT_SENT c | _ => c end)) else None.
(** [_fence_unsent], [_adopt_legacy] *)
Definition fence_unsent (rc : Receipt) (newest : Z) : M world Receipt :=
  let root := r_id (rc_run rc) in
  let unfenced := omap (cut_off newest) (rc_children rc) in
  (match unfenced with [] => mret tt | _ => tx (for_each unfenced (λ c, stmt (update_child_in_tx c))) end) ;;
  tracked ← track_pre_sp1_reduces rc newest;
  if bool_decide (r_phase (rc_run rc) = PHASE_LEGACY) then
    r ← receipt_of root; set_run r (r_state (rc_run rc)) None (put_phase PHASE_NEW (Some newest))
  else if negb (bool_decide (unfenced = [])) || tracked then receipt_of root else mret rc.

(** [_tick] *)
Definition tick (root : string) : M world (option Receipt) :=
  found ← reads (read_receipt root);
  match found with
  | None => mret None
  | Some rc =>
      if r_cleanup_pending (rc_run rc) then r ← cleanup rc; mret (Some r) else
      if RESCAN_TERMINAL (r_state (rc_run rc)) then mret (Some rc) else
      evidence ← except
        (sn ← ask (λ n, capture P n (r_account (rc_run rc)));
         newest ← ask (newest_generation P);
         require (String.eqb (sn_account sn) (r_account (rc_run rc))) (RuntimeError "broker snapshot account mismatch") ;;
         mret (Some (sn, newest)))
        (λ _, mret None);
      match (evidence : option (Snapshot * Z)) with
      | None =>
          t ← now;
          r ← (if r_deadline (rc_run rc) <=? t then on_deadline rc else snapshot_unavailable rc); mret (Some r)
      | Some (sn, newest) =>
          rc ← fence_unsent rc newest;
          observed ← except
            (first ← observe_children rc (sn_generation sn) newest;
             let rc1 := default rc first in
             late ← observe_late_fills rc1 newest; mret (Some (default rc1 late)))
            (λ _, mret None);
          match (observed : option Receipt) with
          | None =>
              t ← now;
              r ← (if r_deadline (rc_run rc) <=? t then rc' ← receipt_of root; on_deadline rc' else snapshot_unavailable rc);
              mret (Some r)
          | Some rc =>
              t ← now;
              r ← (if r_deadline (rc_run rc) <=? t then on_deadline rc else
                   match r_scope (rc_run rc) with
                   | SCOPE_ACCOUNT => advance_account rc sn
                   | SCOPE_CONID _ => advance_conid escalation_depth rc sn
                   end);
              mret (Some r)
          end
      end
  end.

(** ** Claims *)
Inductive claim_answer : Type :=
  | answer_claimed | answer_existing | answer_joined_before | answer_joined (c : claim_outcome).

(** [_existing_in_tx] *)
Definition existing (account cause : string) (conid : option Z) (g : asked_goal) (q : option float)
    : M world (option (claim_answer * string)) :=
  join ← reads (λ d, cl_joins d !! cause);
  match join with
  | None => mret None
  | Some j =>
      require (String.eqb (j_account j) account && bool_decide (j_conid j = conid) && bool_decide (j_goal j = g) &&
               opt_feq (j_quantity j) q) ValueError ;;
      mret (Some (if String.eqb (j_root j) cause then (answer_existing, cause) else (answer_joined_before, j_root j)))
  end.

(** [_supersede_run_in_tx] *)
Definition supersede_run (by_root root : string) : M world unit :=
  current ← stmt (get_run_in_tx root);
  match current with
  | None => mret tt
  | Some r =>
      if RESCAN_TERMINAL (r_state r) then mret tt else
      t ← now;
      stmt (update_run_in_tx (put_state SUPERSEDED (put_superseded by_root r)) t) ;;
      stmt (drop_planned_in_tx root)
  end.
(** [_claim_account_in_tx] *)
Definition claim_account_work (account cause : string) (deadline : Z) (routine : bool) : M world (claim_answer * string) :=
  known ← existing account cause None ASKED_ACCOUNT None;
  match known with
  | Some a => mret a
  | None =>
      t ← now;
      claim ← stmt (in_owners (claim_account_in_tx account cause t));
      stmt (record_join_in_tx (mkJoin cause (claim_root claim) account None (claim_result claim) ASKED_ACCOUNT None)) ;;
      match claim_result claim with
      | JOINED_FLATTEN => mret (answer_joined JOINED_FLATTEN, claim_root claim)
      | _ =>
          stmt (insert_run_in_tx (new_run cause account deadline SCOPE_ACCOUNT RUN_ZERO None None None routine) t) ;;
          for_each (superseded claim) (supersede_run cause) ;;
          stmt (inherit_children_in_tx account None cause) ;;
          mret (answer_claimed, cause)
      end
  end.
(** [_claim_scoped_in_tx] *)
Definition claim_scoped_work (account cause : string) (conid : Z) (requested admitted : option float) (deadline : Z)
    (stop target : option float) (reprotect : bool) : M world (claim_answer * string) :=
  let run_goal := if reprotect then RUN_REPROTECT else match admitted with None => RUN_ZERO | Some _ => RUN_PARTIAL end in
  let asked := if reprotect then ASKED_REPROTECT else match requested with None => ASKED_ZERO | Some _ => ASKED_PARTIAL end in
  known ← existing account cause (Some conid) asked requested;
  match known with
  | Some a => mret a
  | None =>
      t ← now;
      claim ← stmt (in_owners (claim_scoped_in_tx account conid cause admitted t));
      stmt (record_join_in_tx (mkJoin cause (claim_root claim) account (Some conid) (claim_result claim) asked requested)) ;;
      (match claim_result claim with
       | CLAIMED =>
           stmt (insert_run_in_tx (new_run cause account deadline (SCOPE_CONID conid) run_goal admitted stop target false) t) ;;
           stmt (inherit_children_in_tx account (Some conid) cause)
       | UPGRADED => upgrade_run (claim_root claim)
       | _ => mret tt
       end) ;;
      mret (match claim_result claim with CLAIMED => answer_claimed | c => answer_joined c end, claim_root claim)
  end.

(** [_admit_partial]: the quantity, or [None] for a full close *)
Definition admit_partial (account : string) (conid : Z) (requested : float) : M world (option float) :=
  let shares := ffloor requested in
  require (1 <=? shares) (LiquidationRefused "PARTIAL_QUANTITY_INVALID") ;;
  sn ← ask (λ n, capture P n account);
  match find_position sn conid with
  | None => raise (LiquidationRefused "NO_POSITION")
  | Some p =>
      let size := fabs (po_quantity p) in
      require (negb (fle size (float_of_Z shares))) (LiquidationRefused "QUANTITY_ABOVE_POSITION") ;;
      mret (if flt (fsub size (float_of_Z shares)) (float_of_Z 1) then None else Some (float_of_Z shares))
  end.
(** [_claim_scoped] *)
Definition claim_scoped_root (account cause : string) (conid : Z) (requested : option float) (deadline : Z)
    (stop target : option float) : M world (claim_answer * string) :=
  known ← tx (existing account cause (Some conid) (match requested with None => ASKED_ZERO | Some _ => ASKED_PARTIAL end) requested);
  match known with
  | Some a => mret a
  | None =>
      admitted ←
        match requested with
        | None => mret None
        | Some q => tx (stmt (in_owners (ensure_partial_allowed_in_tx account conid))) ;; admit_partial account conid q
        end;
      tx (claim_scoped_work account cause conid requested admitted deadline stop target false)
  end.
(** [_claim_reprotect] *)
Definition claim_reprotect_root (account cause : string) (conid : Z) (deadline : Z) (stop target : option float)
    : M world (claim_answer * string) :=
  known ← tx (existing account cause (Some conid) ASKED_REPROTECT None);
  match known with
  | Some a => mret a
  | None =>
      tx (stmt (in_owners (ensure_partial_allowed_in_tx account conid))) ;;
      sn ← ask (λ n, capture P n account);
      match find_position sn conid with
      | None => raise (LiquidationRefused "NO_POSITION")
      | Some p => tx (claim_scoped_work account cause conid None (Some (fabs (po_quantity p))) deadline stop target true)
      end
  end.
(** [_end_routine] *)
Definition end_routine (root : string) : M world unit :=
  ended ← tx (
    current ← stmt (get_run_in_tx root);
    match current with
    | Some r => if r_routine r then t ← now; stmt (update_run_in_tx (put_routine false r) t) ;; mret (Some (put_routine false r))
                else mret None
    | None => mret None
    end);
  match (ended : option Run) with
  | Some r => trip_when (trips_breaker r (r_state r)) root
  | None => mret tt
  end.

(** ** Entry points *)

(** What [start] is asked for, once its arguments are checked. *)
Inductive request : Type :=
  | flatten_account (routine : bool)
  | close_conid (conid : Z) (quantity stop target : option float)
  | reprotect_conid (conid : Z) (stop target : option float).
Definition request_valid (r : request) : res unit :=
  match r with
  | flatten_account _ => Ok tt
  | close_conid conid q _ _ =>
      if conid <=? 0 then Raise (LiquidationRefused "CONID_INVALID")
      else match q with
           | Some x => if finite x then Ok tt else Raise (LiquidationRefused "PARTIAL_QUANTITY_INVALID")
           | None => Ok tt
           end
  | reprotect_conid conid _ _ => if conid <=? 0 then Raise (LiquidationRefused "CONID_INVALID") else Ok tt
  end.

(** [start] *)
Definition start (account cause : string) (deadline : Z) (r : request) : M world (option Receipt) :=
  require (negb (String.eqb account "") && negb (String.eqb cause "")) ValueError ;;
  require (negb (has_colon cause)) ValueError ;;
  answered ←
    match request_valid r with
    | Raise e => raise e
    | Ok _ =>
        match r with
        | flatten_account routine =>
            a ← tx (claim_account_work account cause deadline routine);
            (match a.1 with
             | answer_joined JOINED_FLATTEN => if routine then mret tt else end_routine a.2
             | _ => mret tt
             end) ;;
            mret a
        | close_conid conid q stop target => claim_scoped_root account cause conid q deadline stop target
        | reprotect_conid conid stop target => claim_reprotect_root account cause conid deadline stop target
        end
    end;
  match (answered : claim_answer * string).1 with
  | answer_claimed | answer_existing => exclusive_lock (tick answered.2)
  | _ => reads (read_receipt answered.2)
  end.

(** [_covered], [_late_fill_closes], [_start_late_close] *)
Definition covered (scopes : list (string * option Z)) (c : Child) : bool :=
  existsb (λ s, String.eqb s.1 (c_account c) &&
    match s.2, c_conid c with Some i, Some i' => i =? i' | _, _ => true end) scopes.
Definition late_fill_close (scopes : list (string * option Z)) (root : Run * list Child) : M world (option (Run * string)) :=
  match root.2 with
  | [] => mret None
  | children =>
      grown ← except
        (fills ← map_each (filter (λ c, covered scopes c = false) children)
           (λ c, filled ← row_fill c; mret (match filled with Some f => flt (c_filled c) f | None => false end));
         mret (existsb id fills))
        (λ _, mret false);
      if negb grown then mret None else
      earlier ← reads (late_roots (r_id root.1));
      mret (match last earlier with
            | Some (n, s) => if SUCCESS_STATES s then Some (root.1, late_root_prefix (r_id root.1) +:+ pretty (n + 1))%string else None
            | None => Some (root.1, late_root_prefix (r_id root.1) +:+ pretty 1)%string
            end)
  end.
Definition late_fill_closes : M world (list (Run * string)) :=
  t ← now;
  found ← reads (λ d, (closed_roots (t - late_fill_watch) d, open_scopes d));
  starts ← map_each found.1 (late_fill_close found.2);
  mret (omap id starts).
Definition start_late_close (ended : Run) (root : string) : M world unit :=
  t ← now;
  let deadline := t + seconds (deadline_seconds P) in
  start (r_account ended) root deadline
    (match r_scope ended with SCOPE_ACCOUNT => flatten_account false | SCOPE_CONID i => close_conid i None None None end) ;;
  mret tt.

(** [rescan] *)
Definition rescan : M world (option Receipt) :=
  advanced ← exclusive_lock (
    roots ← reads roots_to_advance;
    ticked ← map_each roots (λ root, except (tick root) (λ _, mret None));
    late ← late_fill_closes;
    mret (head (omap id ticked), late));
  for_each (advanced : option Receipt * list (Run * string)).2 (λ l, except (start_late_close l.1 l.2) (λ _, mret tt)) ;;
  mret advanced.1.

(** [root_for] *)
Definition root_for (command : string) : M world (option string) := reads (λ d, j_root <$> cl_joins d !! command).

(** *** [SerializedLiquidation]: every entry point on one worker ([liquidation_worker.py]) *)

(** [unhandled_failures] of the protective saga, when it is attached. *)
Context (unhandled_failures : option (nat → string → res (list string))).

(** [_flatten_failure] *)
Definition flatten_failure (account command : string) : M world unit :=
  except
    (root ← root_for command;
     match (root : option string) with
     | None => t ← now; start account command (t + seconds (deadline_seconds P)) (flatten_account false) ;; mret tt
     | Some _ => mret tt
     end)
    (λ _, mret tt).
(** [_tick] of the worker *)
Definition worker_tick (account : string) : M world (option Receipt) :=
  (match unhandled_failures with
   | Some ask_failures => failures ← ask (λ n, ask_failures n account); for_each failures (flatten_failure account)
   | None => mret tt
   end) ;;
  rescan.
End service.
