(* ===== verification/CloseInv.v ===== *)
(** * What the close machine keeps ([trader/trading/liquidation_service.py])

    The invariant of the four tables under every transaction of the service, from
    which the safety of the orders follows: an open root is the active owner of its
    scope, an order that may be live is watched by it or waits for the next owner,
    and no position ever has two reduce orders that may be live. *)
From stdpp Require Import base tactics gmap list strings pretty.
From Stdlib Require Import ZArith Lia SpecFloat.
From S2P Require Import Prelude Py ExitOwner CloseStore Close.
Open Scope Z_scope.

(** ** The invariant of the tables *)
Definition open_run (r : Run) : Prop := RESCAN_TERMINAL (r_state r) = false.
Definition covers (s : close_scope) (i : Z) : Prop := match s with SCOPE_ACCOUNT => True | SCOPE_CONID j => j = i end.
Definition unsettled (c : Child) : Prop := CHILD_TERMINAL (c_state c) = false.

(** The owner row of a run. *)
Definition owner_of_run (o : ExitOwnerRow (float := float)) (r : Run) : Prop :=
  x_account_id o = r_account r ∧
  match r_scope r with
  | SCOPE_ACCOUNT => x_kind o = KIND_ACCOUNT
  | SCOPE_CONID i => x_kind o = KIND_SCOPED ∧ conid o = Some i
  end.

(** An order that may be live is on a root that still acts, or was left to the next
    owner by a root that ended. *)
Definition watched (d : closes) (c : Child) (i : Z) : Prop :=
  ∃ r, cl_runs d !! c_owner c = Some r ∧ r_account r = c_account c ∧ covers (r_scope r) i ∧
    (open_run r ∨
     CHILD_OPEN (c_state c) = true ∧ inheritable (r_state r) = true ∧
     ∀ root, ¬ active_owner (c_account c) i (cl_owners d) root).

Record close_inv (d : closes) : Prop := {
  ci_exclusive : exclusive (cl_owners d);
  ci_run_key k r : cl_runs d !! k = Some r → r_id r = k;
  ci_child_key k c : cl_children d !! k = Some c → c_id c = k;
  ci_owned k o : cl_owners d !! k = Some o → x_state o = STATE_ACTIVE →
    ∃ r, cl_runs d !! k = Some r ∧ open_run r ∧ owner_of_run o r;
  ci_open k r : cl_runs d !! k = Some r → open_run r → ∃ o, cl_owners d !! k = Some o ∧ x_state o = STATE_ACTIVE;
  ci_watched k c i : cl_children d !! k = Some c → unsettled c → c_conid c = Some i → watched d c i;
  ci_planned k c : cl_children d !! k = Some c → c_state c = PLANNED → c_kind c = KIND_TARGET ∧ is_Some (c_conid c);
  ci_single k1 k2 c1 c2 i : cl_children d !! k1 = Some c1 → cl_children d !! k2 = Some c2 →
    unsettled c1 → unsettled c2 → c_kind c1 = KIND_REDUCE → c_kind c2 = KIND_REDUCE →
    c_conid c1 = Some i → c_conid c2 = Some i → c_account c1 = c_account c2 → k1 = k2;
}.

Lemma open_not_terminal s : CHILD_OPEN s = true → CHILD_TERMINAL s = false.
Proof. by destruct s. Qed.
Lemma unsettled_cases c : unsettled c → CHILD_OPEN (c_state c) = true ∨ c_state c = PLANNED.
Proof. unfold unsettled. destruct (c_state c); auto. Qed.

Lemma active_of_run o r i : owner_of_run o r → covers (r_scope r) i → x_state o = STATE_ACTIVE →
  owns_account (r_account r) o = true ∨ owns_position (r_account r) i o = true.
Proof.
  intros [Ha Hs] Hc Hx. unfold owns_account, owns_position, is_active_scoped. rewrite Ha, Hx, String.eqb_refl.
  destruct (r_scope r) as [|j]; simpl in *; [left; by rewrite Hs|right]. destruct Hs as [-> ->]. subst j.
  by rewrite !bool_decide_eq_true_2.
Qed.

(** The active owner of a position is the open root that covers it. *)
Lemma active_owner_of d root r i : close_inv d → cl_runs d !! root = Some r → open_run r → covers (r_scope r) i →
  active_owner (r_account r) i (cl_owners d) root.
Proof.
  intros Hd Hr Ho Hc. destruct (ci_open d Hd root r Hr Ho) as (o & Hown & Hx).
  destruct (ci_owned d Hd root o Hown Hx) as (r' & Hr' & _ & Hof). simplify_eq.
  exists o. split; [done|]. by apply active_of_run.
Qed.

Lemma active_owner_unique t a i root1 root2 : exclusive (float := float) t →
  active_owner a i t root1 → active_owner a i t root2 → root1 = root2.
Proof.
  intros He (r1 & H1 & O1) (r2 & H2 & O2). destruct O1 as [O1|O1], O2 as [O2|O2].
  - by eapply (ex_account _ He).
  - destruct (ex_flatten _ He a root1 root2 r1 r2); try done. by eapply position_scoped.
  - destruct (ex_flatten _ He a root2 root1 r2 r1); try done. by eapply position_scoped.
  - by eapply (ex_position _ He).
Qed.

Lemma active_owner_run d a i root : close_inv d → active_owner a i (cl_owners d) root →
  ∃ r, cl_runs d !! root = Some r ∧ open_run r ∧ r_account r = a ∧ covers (r_scope r) i.
Proof.
  intros Hd (o & Ho & Hown).
  assert (x_state o = STATE_ACTIVE) as Hx by (destruct Hown as [H|H]; [by eapply account_active|by eapply scoped_active, position_scoped]).
  destruct (ci_owned d Hd root o Ho Hx) as (r & Hr & Hop & Hacc & Hs). exists r. split; [done|]. split; [done|].
  unfold owns_account, owns_position, is_active_scoped in Hown. rewrite Hacc in Hown.
  destruct (r_scope r) as [|j]; simpl.
  - destruct Hown as [Hown|Hown]; to_prop; [done|]. congruence.
  - destruct Hs as [Hk Hc]. destruct Hown as [Hown|Hown]; to_prop; [congruence|]. split; [done|congruence].
Qed.

(** With an open root on its position, an open order belongs to that root. *)
Lemma watched_by_open d k c i root r : close_inv d → cl_children d !! k = Some c → unsettled c → c_conid c = Some i →
  cl_runs d !! root = Some r → open_run r → r_account r = c_account c → covers (r_scope r) i → c_owner c = root.
Proof.
  intros Hd Hc Hu Hi Hr Ho Ha Hcov. destruct (ci_watched d Hd k c i Hc Hu Hi) as (r' & Hr' & Ha' & Hcov' & Hw).
  pose proof (active_owner_of d root r i Hd Hr Ho Hcov) as Hact. rewrite Ha in Hact.
  destruct Hw as [Ho'|(_ & _ & Hno)]; [|by destruct (Hno root)].
  pose proof (active_owner_of d _ r' i Hd Hr' Ho' Hcov') as Hact'. rewrite Ha' in Hact'.
  by eapply active_owner_unique; [apply Hd|..].
Qed.

Lemma close_inv_empty : close_inv (mkCloses ∅ ∅ ∅ ∅).
Proof. split; [apply exclusive_empty|..]; simpl; intros; rewrite lookup_empty in *; done. Qed.

(** ** What a statement does to the children *)

(** The identity of a child never changes; a settled one never comes back. *)
Record same_order (c c' : Child) : Prop := {
  so_id : c_id c' = c_id c;
  so_root : c_root c' = c_root c;
  so_account : c_account c' = c_account c;
  so_conid : c_conid c' = c_conid c;
  so_kind : c_kind c' = c_kind c;
  so_side : c_side c' = c_side c;
  so_target : c_target c' = c_target c;
  so_quantity : c_kind c ≠ KIND_TARGET → c_quantity c' = c_quantity c;
}.
Record evolves (c c' : Child) : Prop := {
  ev_same : same_order c c';
  ev_owner : c_owner c' = c_owner c;
  ev_settled : unsettled c' → unsettled c;
  ev_planned : c_state c' = PLANNED → c_state c = PLANNED;
}.
Global Instance same_order_preorder : PreOrder same_order.
Proof.
  split; [done|]. intros a b c [] []. split; try congruence. intros Hk. rewrite so_quantity1, so_quantity0; congruence.
Qed.
Global Instance evolves_preorder : PreOrder evolves.
Proof.
  split; [by split|]. intros a b c [] []. split; [by etrans|congruence|auto|auto].
Qed.

Lemma evolves_open c c' : evolves c c' → CHILD_OPEN (c_state c') = true → CHILD_OPEN (c_state c) = true ∨ c_state c = PLANNED.
Proof. intros [] Ho. apply unsettled_cases, ev_settled0. by apply open_not_terminal. Qed.

Lemma inv_children d f :
  close_inv d → (∀ k c', f (cl_children d) !! k = Some c' → ∃ c, cl_children d !! k = Some c ∧ evolves c c') →
  close_inv (set_children f d).
Proof.
  intros Hd Hf. split; try apply Hd; cbn [cl_children set_children cl_owners cl_runs].
  - intros k c' Hc'. destruct (Hf k c' Hc') as (c & Hc & [[] _ _ _]). rewrite so_id0. by apply (ci_child_key d Hd).
  - intros k c' i Hc' Hu Hi. destruct (Hf k c' Hc') as (c & Hc & Hev). pose proof Hev as [[] Hown Hs Hp].
    destruct (ci_watched d Hd k c i Hc (Hs Hu)) as (r & Hr & Ha & Hcov & Hw); [congruence|].
    exists r. cbn [cl_runs set_children cl_owners]. rewrite Hown, so_account0. split; [done|]. split; [done|]. split; [done|].
    destruct Hw as [Hw|(Ho & Hin & Hno)]; [by left|]. destruct (unsettled_cases c' Hu) as [Ho'|Hpl]; [by right|].
    exfalso. rewrite (Hp Hpl) in Ho. done.
  - intros k c' Hc' Hpl. destruct (Hf k c' Hc') as (c & Hc & [[] _ _ Hp]). rewrite so_kind0, so_conid0. by eapply (ci_planned d Hd), Hp.
  - intros k1 k2 c1' c2' i H1 H2 Hu1 Hu2 Hk1 Hk2 Hi1 Hi2 Ha.
    destruct (Hf k1 c1' H1) as (c1 & Hc1 & [[] _ Hs1 _]), (Hf k2 c2' H2) as (c2 & Hc2 & [[] _ Hs2 _]).
    apply (ci_single d Hd k1 k2 c1 c2 i); try done; try congruence; auto.
Qed.

(** One child of an open root: it may also go out, or back to be planned again. *)
Lemma inv_child_of_open d k c c' r :
  close_inv d → cl_children d !! k = Some c → same_order c c' → c_kind c = KIND_TARGET → is_Some (c_conid c) →
  cl_runs d !! c_owner c' = Some r → open_run r → (∀ i, c_conid c = Some i → r_account r = c_account c ∧ covers (r_scope r) i) →
  close_inv (set_children <[k := c']> d).
Proof.
  intros Hd Hc [] Hk Hco Hr Hop Hcov. split; try apply Hd; cbn [cl_children set_children cl_owners cl_runs].
  - intros k' x [[<- <-]|[_ Hx]]%lookup_insert_Some; [|by apply (ci_child_key d Hd)]. rewrite so_id0. by apply (ci_child_key d Hd).
  - intros k' x i [[<- <-]|[_ Hx]]%lookup_insert_Some Hux Hi; [|by apply (ci_watched d Hd k')].
    destruct (Hcov i) as [Ha Hcv]; [congruence|]. exists r.
    cbn [cl_runs set_children cl_owners]. rewrite so_account0. split_and!; try done. by left.
  - intros k' x [[<- <-]|[_ Hx]]%lookup_insert_Some Hpl; [rewrite so_conid0; split; [congruence|done]|by apply (ci_planned d Hd k')].
  - intros k1 k2 c1 c2 i [[<- <-]|[_ H1]]%lookup_insert_Some [[<- <-]|[_ H2]]%lookup_insert_Some; try done; try congruence.
    by apply (ci_single d Hd).
Qed.

(** ** What a statement does to the runs *)
Record same_close (r r' : Run) : Prop := {
  sc_id : r_id r' = r_id r;
  sc_account : r_account r' = r_account r;
  sc_scope : r_scope r' = r_scope r;
  sc_goal : r_goal r = RUN_ZERO → r_goal r' = RUN_ZERO;
}.
Lemma inv_runs d f :
  close_inv d →
  (∀ k, match cl_runs d !! k, f (cl_runs d) !! k with
        | Some r, Some r' => same_close r r' ∧ (open_run r ↔ open_run r') ∧ (¬ open_run r → r_state r' = r_state r)
        | None, None => True
        | _, _ => False
        end) →
  close_inv (set_runs f d).
Proof.
  intros Hd Hf. split; try apply Hd; cbn [cl_children set_runs cl_owners cl_runs].
  - intros k r' Hr'. specialize (Hf k). rewrite Hr' in Hf. destruct (cl_runs d !! k) as [r|] eqn:Hr; [|done].
    destruct Hf as [[] _]. rewrite sc_id0. by apply (ci_run_key d Hd).
  - intros k o Ho Hx. destruct (ci_owned d Hd k o Ho Hx) as (r & Hr & Hop & Hof). specialize (Hf k). rewrite Hr in Hf.
    destruct (f (cl_runs d) !! k) as [r'|]; [|done]. destruct Hf as ([] & Hiff & _). exists r'. split; [done|]. split; [by apply Hiff|].
    unfold owner_of_run. by rewrite sc_account0, sc_scope0.
  - intros k r' Hr' Hop. specialize (Hf k). rewrite Hr' in Hf. destruct (cl_runs d !! k) as [r|] eqn:Hr; [|done].
    destruct Hf as (_ & Hiff & _). apply (ci_open d Hd k r Hr). by apply Hiff.
  - intros k c i Hc Hu Hi. destruct (ci_watched d Hd k c i Hc Hu Hi) as (r & Hr & Ha & Hcov & Hw). specialize (Hf (c_owner c)).
    rewrite Hr in Hf. destruct (f (cl_runs d) !! c_owner c) as [r'|] eqn:Hr'; [|done]. destruct Hf as ([] & Hiff & Hsame).
    exists r'. cbn [cl_runs set_runs cl_owners]. rewrite sc_account0, sc_scope0. split_and!; try done.
    destruct Hw as [Hop|(Ho & Hin & Hno)]; [left; by apply Hiff|right]. split; [done|]. split; [|done].
    rewrite Hsame; [done|]. unfold open_run. by destruct (r_state r).
Qed.

Lemma run_insert_ok d k r r' :
  cl_runs d !! k = Some r → same_close r r' → (open_run r ↔ open_run r') → (¬ open_run r → r_state r' = r_state r) →
  ∀ k', match cl_runs d !! k', (<[k := r']> (cl_runs d)) !! k' with
        | Some r, Some r' => same_close r r' ∧ (open_run r ↔ open_run r') ∧ (¬ open_run r → r_state r' = r_state r)
        | None, None => True
        | _, _ => False
        end.
Proof.
  intros Hr Hs Hi Hn k'. destruct (decide (k = k')) as [<-|Hk].
  - by rewrite Hr, lookup_insert_eq.
  - rewrite lookup_insert_ne by done. destruct (cl_runs d !! k') as [x|]; [by split|done].
Qed.

(** ** What a statement does to the owners *)
Lemma active_owner_update p (f : ExitOwnerRow → ExitOwnerRow) t a i root :
  harmless f → active_owner a i (update_where (float := float) p f t) root → active_owner a i t root.
Proof.
  intros Hf (o & Ho & Hown). rewrite lookup_update in Ho. apply fmap_Some in Ho as (o0 & Ho0 & ->). exists o0. split; [done|].
  destruct (p o0); [|done]. unfold owns_account, owns_position, is_active_scoped in *.
  rewrite (hl_account _ Hf), (hl_kind _ Hf), (hl_conid _ Hf) in Hown. pose proof (hl_state _ Hf o0) as Hst.
  rewrite !andb_true_iff, !bool_decide_eq_true in *. tauto.
Qed.

Lemma inv_upgrade_goal d root t :
  close_inv d → close_inv (set_owners (update_where (active_root root) (set_goal_zero t) (cl_owners d)) d).
Proof.
  intros Hd. pose proof (harmless_goal (float := float) t) as Hh.
  split; try apply Hd; cbn [cl_children set_owners cl_owners cl_runs].
  - apply (adv_ok _ _ (advances_update _ _ _ Hh (root_active root))), Hd.
  - intros k o Ho Hx. rewrite lookup_update in Ho. apply fmap_Some in Ho as (o0 & Ho0 & ->).
    destruct (ci_owned d Hd k o0 Ho0) as (r & Hr & Hop & Hof); [by destruct (active_root root o0)|].
    exists r. split; [done|]. split; [done|]. unfold owner_of_run in *. by destruct (active_root root o0).
  - intros k r Hr Hop. destruct (ci_open d Hd k r Hr Hop) as (o & Ho & Hx). rewrite lookup_update, Ho. eexists. split; [done|].
    simpl. by destruct (active_root root o).
  - intros k c i Hc Hu Hi. destruct (ci_watched d Hd k c i Hc Hu Hi) as (r & Hr & Ha & Hcov & Hw). exists r. split_and!; try done.
    destruct Hw as [Hw|(Ho & Hin & Hno)]; [by left|right]. split_and!; try done. intros root' Hact. apply (Hno root').
    by apply (active_owner_update _ _ _ _ _ _ Hh Hact).
Qed.

(** ** Roots that end, and a root that starts *)
Definition ended (E : string → Prop) (d d1 : closes) : Prop :=
  (∃ p s t, cl_owners d1 = update_where p (set_state s t) (cl_owners d) ∧ s ≠ STATE_ACTIVE ∧
     (∀ o, p o = true → x_state o = STATE_ACTIVE) ∧
     ∀ k o, cl_owners d !! k = Some o → p o = true ↔ E k ∧ x_state o = STATE_ACTIVE) ∧
  (∀ k, match cl_runs d !! k, cl_runs d1 !! k with
        | Some r, Some r' => same_close r r' ∧ (¬ E k → r_state r' = r_state r) ∧
            (E k → RESCAN_TERMINAL (r_state r') = true ∧
               (inheritable (r_state r') = true ∨
                ∀ k' c i, cl_children d !! k' = Some c → c_owner c = k → c_conid c = Some i → CHILD_OPEN (c_state c) = false))
        | None, None => True
        | _, _ => False
        end) ∧
  (∀ k c', cl_children d1 !! k = Some c' → ∃ c, cl_children d !! k = Some c ∧ evolves c c' ∧
     (CHILD_OPEN (c_state c') = true → CHILD_OPEN (c_state c) = true) ∧ (c_state c' = PLANNED → ¬ E (c_owner c))).

Lemma inv_ended E d d1 :
  close_inv d → (∀ k, E k → ∃ o, cl_owners d !! k = Some o ∧ x_state o = STATE_ACTIVE) → ended E d d1 → close_inv d1.
Proof.
  intros Hd HE ((p & s & t & Hown & Hs & Hpa & Hp) & Hruns & Hch).
  pose proof (harmless_state (float := float) s t Hs) as Hh.
  assert (∀ k o', cl_owners d1 !! k = Some o' → x_state o' = STATE_ACTIVE →
    ¬ E k ∧ cl_owners d !! k = Some o') as Hact.
  { intros k o' Ho Hx. rewrite Hown, lookup_update in Ho. apply fmap_Some in Ho as (o & Ho & ->).
    destruct (p o) eqn:Hpo; [done|]. split; [|done]. intros HEk. rewrite (proj2 (Hp k o Ho)) in Hpo by done. done. }
  assert (∀ a i root, active_owner a i (cl_owners d1) root → active_owner a i (cl_owners d) root ∧ ¬ E root) as Hactive.
  { intros a i root (o & Ho & Ho'). pose proof Ho' as Hown'. assert (x_state o = STATE_ACTIVE) as Hx
      by (destruct Ho'; [by eapply account_active|by eapply scoped_active, position_scoped]).
    destruct (Hact root o Ho Hx) as [HnE Ho0]. split; [by exists o|done]. }
  split.
  - rewrite Hown. apply (adv_ok _ _ (advances_update p _ _ Hh Hpa)), Hd.
  - intros k r' Hr'. specialize (Hruns k). rewrite Hr' in Hruns. destruct (cl_runs d !! k) as [r|] eqn:Hr; [|done].
    destruct Hruns as ([] & _). rewrite sc_id0. by apply (ci_run_key d Hd).
  - intros k c' Hc'. destruct (Hch k c' Hc') as (c & Hc & [[] _ _ _] & _). rewrite so_id0. by apply (ci_child_key d Hd).
  - intros k o Ho Hx. destruct (Hact k o Ho Hx) as [HnE Ho0]. destruct (ci_owned d Hd k o Ho0 Hx) as (r & Hr & Hop & Hof).
    specialize (Hruns k). rewrite Hr in Hruns. destruct (cl_runs d1 !! k) as [r'|]; [|done].
    destruct Hruns as ([] & Hsame & _). exists r'. split; [done|]. split; [unfold open_run; by rewrite (Hsame HnE)|].
    unfold owner_of_run. by rewrite sc_account0, sc_scope0.
  - intros k r' Hr' Hop. specialize (Hruns k). rewrite Hr' in Hruns. destruct (cl_runs d !! k) as [r|] eqn:Hr; [|done].
    destruct Hruns as (_ & Hsame & Hend). assert (¬ E k) as HnE by (intros HEk; destruct (Hend HEk) as [Ht _]; unfold open_run in Hop; congruence).
    assert (open_run r) as Hop0 by (unfold open_run; by rewrite <-(Hsame HnE)). destruct (ci_open d Hd k r Hr Hop0) as (o & Ho & Hx). exists o. split; [|done].
    rewrite Hown, lookup_update, Ho. simpl. destruct (p o) eqn:Hpo; [|done]. by apply (Hp k o Ho) in Hpo as [? _].
  - intros k c' i Hc' Hu Hi. destruct (Hch k c' Hc') as (c & Hc & Hev & Hopen & Hpl). pose proof Hev as [[] Ho Hset _].
    destruct (ci_watched d Hd k c i Hc (Hset Hu)) as (r & Hr & Ha & Hcov & Hw); [congruence|].
    pose proof (Hruns (c_owner c)) as Hrun. rewrite Hr in Hrun. destruct (cl_runs d1 !! c_owner c) as [r'|] eqn:Hr'; [|done].
    destruct Hrun as ([] & Hsame & Hend). exists r'. rewrite Ho, so_account0, sc_account0, sc_scope0. split_and!; try done.
    destruct Hw as [Hop|(Hoc & Hin & Hno)].
    + assert (∀ root, active_owner (c_account c) i (cl_owners d) root → root = c_owner c) as Huniq.
      { intros root Hr1. pose proof (active_owner_of d _ r i Hd Hr Hop Hcov) as Hr2. rewrite Ha in Hr2.
        eapply active_owner_unique; [apply Hd|done|done]. }
      assert (E (c_owner c) ∨ ¬ E (c_owner c)) as [HEk|HnE].
      { destruct (ci_open d Hd _ r Hr Hop) as (o & Ho1 & Hx). destruct (p o) eqn:Hpo; [left; by apply (Hp _ o Ho1)|right].
        intros HEk. rewrite (proj2 (Hp _ o Ho1)) in Hpo by done. done. }
      * right. destruct (unsettled_cases c' Hu) as [Hoc|Hplc]; [|by destruct (Hpl Hplc)].
        destruct (Hend HEk) as [_ [Hin|Hno]]; [|rewrite (Hno k c i) in Hopen; [by specialize (Hopen Hoc)|done|done|congruence]].
        split_and!; try done. intros root Hr1. destruct (Hactive _ _ _ Hr1) as [Hr2 HnE]. by rewrite (Huniq _ Hr2) in HnE.
      * left. unfold open_run. by rewrite (Hsame HnE).
    + assert (¬ E (c_owner c)) as HnE.
      { intros HEk. destruct (HE _ HEk) as (o & Ho1 & Hx). destruct (ci_owned d Hd _ o Ho1 Hx) as (r0 & Hr0 & Hop & _).
        simplify_eq. unfold open_run in Hop. by destruct (r_state r). }
      right. destruct (unsettled_cases c' Hu) as [Hoc'|Hplc].
      * rewrite (Hsame HnE). split_and!; try done. intros root Hr1. by apply (Hno root), Hactive.
      * rewrite (ev_planned _ _ Hev Hplc) in Hoc. done.
  - intros k c' Hc' Hpl. destruct (Hch k c' Hc') as (c & Hc & [[] _ _ Hp'] & _). rewrite so_kind0, so_conid0. by eapply (ci_planned d Hd), Hp'.
  - intros k1 k2 c1' c2' i H1 H2 Hu1 Hu2 Hk1 Hk2 Hi1 Hi2 Ha.
    destruct (Hch k1 c1' H1) as (c1 & Hc1 & [[] _ Hs1 _] & _), (Hch k2 c2' H2) as (c2 & Hc2 & [[] _ Hs2 _] & _).
    apply (ci_single d Hd k1 k2 c1 c2 i); try done; try congruence; auto.
Qed.

(** A new root takes over what may still be live on its scope. *)
Lemma inv_claimed d root o r :
  close_inv d → cl_owners d !! root = None → cl_runs d !! root = None →
  exclusive (<[root := o]> (cl_owners d)) → x_state o = STATE_ACTIVE →
  r_id r = root → open_run r → owner_of_run o r →
  (∀ i root', covers (r_scope r) i → ¬ active_owner (r_account r) i (cl_owners d) root') →
  let runs := <[root := r]> (cl_runs d) in
  close_inv (mkCloses (<[root := o]> (cl_owners d)) runs
    (update_where_child (inherited_by (r_account r) (scope_conid (r_scope r)) root runs) (with_owner root) (cl_children d)) (cl_joins d)).
Proof.
  intros Hd Ho Hr Hex Hx Hid Hop Hof Hfree runs.
  set (inh := inherited_by (r_account r) (scope_conid (r_scope r)) root runs).
  assert (∀ k c', update_where_child inh (with_owner root) (cl_children d) !! k = Some c' →
    ∃ c, cl_children d !! k = Some c ∧ c' = if inh c then with_owner root c else c) as Hch.
  { intros k c'. unfold update_where_child. rewrite lookup_fmap. intros (c & Hc & ->)%fmap_Some. by exists c. }
  assert (∀ c c', c' = (if inh c then with_owner root c else c) → same_order c c' ∧ c_state c' = c_state c) as Hsame
    by (intros c c' ->; destruct (inh c); by split).
  assert (∀ a i root', active_owner a i (<[root := o]> (cl_owners d)) root' →
    active_owner a i (cl_owners d) root' ∨ root' = root ∧ a = r_account r ∧ covers (r_scope r) i) as Hact.
  { intros a i root' (o' & Ho' & Hown). apply lookup_insert_Some in Ho' as [[<- <-]|[_ Ho']]; [right|left; by exists o'].
    destruct Hof as [Ha Hsc]. unfold owns_account, owns_position, is_active_scoped in Hown.
    destruct (r_scope r); simpl; destruct Hown as [Hown|Hown]; to_prop; split_and!; congruence || tauto || naive_solver congruence. }
  split; cbn [cl_owners cl_runs cl_children].
  - done.
  - intros k x [[<- <-]|[_ Hx']]%lookup_insert_Some; [done|by apply (ci_run_key d Hd)].
  - intros k c' (c & Hc & E)%Hch. destruct (Hsame c c' E) as [[] _]. rewrite so_id0. by apply (ci_child_key d Hd).
  - intros k x [[<- <-]|[Hk Hx']]%lookup_insert_Some Hxs; [exists r; unfold runs; by rewrite lookup_insert_eq|].
    destruct (ci_owned d Hd k x Hx' Hxs) as (r0 & Hr0 & ?). exists r0. unfold runs. by rewrite lookup_insert_ne.
  - intros k x [[<- <-]|[Hk Hx']]%lookup_insert_Some Hxo; [exists o; by rewrite lookup_insert_eq|].
    destruct (ci_open d Hd k x Hx' Hxo) as (o' & Ho' & ?). exists o'. by rewrite lookup_insert_ne.
  - intros k c' i (c & Hc & E)%Hch Hu Hi. destruct (Hsame c c' E) as [[] Hst].
    destruct (ci_watched d Hd k c i Hc) as (r0 & Hr0 & Ha & Hcov & Hw); [by unfold unsettled in *; rewrite <-Hst|congruence|].
    assert (c_owner c ≠ root) as Hne by congruence.
    destruct (inh c) eqn:Hinh; subst c'; unfold watched; cbn [cl_runs cl_owners].
    + unfold inh, inherited_by in Hinh. to_prop. exists r. unfold runs. simpl. rewrite lookup_insert_eq. split_and!; auto.
      destruct (r_scope r) as [|j]; simpl in *; [done|]. to_prop. congruence.
    + exists r0. unfold runs at 1. rewrite lookup_insert_ne by done. split_and!; try done.
      destruct Hw as [Hw|(Hoc & Hin & Hno)]; [by left|right]. split_and!; try done. intros root' Hr'.
      apply Hact in Hr' as [Hr'|(-> & Hacc & Hcv)]; [by destruct (Hno root')|].
      unfold inh, inherited_by in Hinh. rewrite Hacc, String.eqb_refl, Hoc, (proj2 (String.eqb_neq _ _) Hne) in Hinh.
      unfold runs in Hinh. rewrite lookup_insert_ne, Hr0, Hin in Hinh by done. simpl in Hi.
      destruct (r_scope r) as [|j]; simpl in *; [done|]. subst j. by rewrite bool_decide_eq_true_2 in Hinh.
  - intros k c' (c & Hc & E)%Hch Hpl. destruct (Hsame c c' E) as [[] Hst]. rewrite so_kind0, so_conid0. eapply (ci_planned d Hd); [done|congruence].
  - intros k1 k2 c1' c2' i (c1 & H1 & E1)%Hch (c2 & H2 & E2)%Hch Hu1 Hu2 Hk1 Hk2 Hi1 Hi2 Ha. unfold unsettled in *.
    destruct (Hsame _ _ E1) as [[] Hs1], (Hsame _ _ E2) as [[] Hs2].
    apply (ci_single d Hd k1 k2 c1 c2 i); unfold unsettled; congruence.
Qed.

(** New rows of calls: of an open root, on its scope, and a second reduce of a
    position only when every earlier one is settled. *)
Lemma inv_new_child d c r i :
  close_inv d → cl_children d !! c_id c = None → c_conid c = Some i →
  cl_runs d !! c_owner c = Some r → open_run r → r_account r = c_account c → covers (r_scope r) i →
  (c_state c = PLANNED → c_kind c = KIND_TARGET) →
  (c_kind c = KIND_REDUCE → ∀ k c0, cl_children d !! k = Some c0 → unsettled c0 → c_kind c0 = KIND_REDUCE →
     c_conid c0 = Some i → c_account c0 = c_account c → False) →
  close_inv (set_children <[c_id c := c]> d).
Proof.
  intros Hd Hf Hi Hr Hop Ha Hcov Hpl Hsg. split; try apply Hd; cbn [cl_owners cl_runs cl_children set_children].
  - intros k x [[<- <-]|[_ Hx]]%lookup_insert_Some; [done|by apply (ci_child_key d Hd)].
  - intros k x i' [[<- <-]|[_ Hx]]%lookup_insert_Some Hu Hi'; [|by apply (ci_watched d Hd k)].
    exists r. simplify_eq. split_and!; auto.
  - intros k x [[<- <-]|[_ Hx]]%lookup_insert_Some Hs; [rewrite Hi; split; [auto|by eexists]|by eapply (ci_planned d Hd)].
  - intros k1 k2 c1 c2 j [[<- <-]|[_ H1]]%lookup_insert_Some [[<- <-]|[_ H2]]%lookup_insert_Some Hu1 Hu2 Hk1 Hk2 Hi1 Hi2 Hac; try done.
    + simplify_eq. by destruct (Hsg Hk1 k2 c2).
    + simplify_eq. by destruct (Hsg Hk2 k1 c1).
    + by apply (ci_single d Hd k1 k2 c1 c2 j).
Qed.

(** A wildcard child stands for no position of its own. *)
Lemma inv_wildcard d c :
  close_inv d → cl_children d !! c_id c = None → c_conid c = None → c_state c ≠ PLANNED → close_inv (set_children <[c_id c := c]> d).
Proof.
  intros Hd Hf Hi Hpl. split; try apply Hd; cbn [cl_owners cl_runs cl_children set_children].
  - intros k x [[<- <-]|[_ Hx]]%lookup_insert_Some; [done|by apply (ci_child_key d Hd)].
  - intros k x i' [[<- <-]|[_ Hx]]%lookup_insert_Some Hu Hi'; [congruence|by apply (ci_watched d Hd k)].
  - intros k x [[<- <-]|[_ Hx]]%lookup_insert_Some Hs; [done|by eapply (ci_planned d Hd)].
  - intros k1 k2 c1 c2 j [[<- <-]|[_ H1]]%lookup_insert_Some [[<- <-]|[_ H2]]%lookup_insert_Some Hu1 Hu2 Hk1 Hk2 Hi1 Hi2 Hac; try congruence.
    by apply (ci_single d Hd k1 k2 c1 c2 j).
Qed.

(** *** A root that ends *)
(** Nothing the root watches may be live. *)
Definition quiet (root : string) (d : closes) : Prop :=
  ∀ k c i, cl_children d !! k = Some c → c_owner c = root → c_conid c = Some i → CHILD_OPEN (c_state c) = false.

Definition drop_planned (root : string) : gmap string Child → gmap string Child :=
  update_where_child (λ c, String.eqb (c_owner c) root && bool_decide (c_state c = PLANNED)) (with_child_state NOT_SENT).
Lemma drop_planned_evolves root t k c' : drop_planned root t !! k = Some c' →
  ∃ c, t !! k = Some c ∧ evolves c c' ∧ (CHILD_OPEN (c_state c') = true → CHILD_OPEN (c_state c) = true) ∧
       (c_state c' = PLANNED → c_owner c ≠ root).
Proof.
  unfold drop_planned, update_where_child. rewrite lookup_fmap. intros (c & Hc & ->)%fmap_Some. exists c. split; [done|].
  destruct (String.eqb_spec (c_owner c) root) as [Ho|Ho]; simpl; [|by split_and!].
  destruct (bool_decide_reflect (c_state c = PLANNED)) as [Hp|Hp]; [|by split_and!].
  by split_and!.
Qed.

Lemma inv_committed d r r1 root st t : close_inv d → cl_runs d !! root = Some r → same_close r r1 →
  RESCAN_TERMINAL (r_state r1) = true → (¬ open_run r → r_state r1 = r_state r) →
  inheritable (r_state r1) = true ∨ quiet root d → st ≠ STATE_ACTIVE →
  close_inv (mkCloses (update_where (active_root root) (set_state st t) (cl_owners d)) (<[root := r1]> (cl_runs d))
    (drop_planned root (cl_children d)) (cl_joins d)).
Proof.
  intros Hd Hr Hsc Ht Hn Hq Hst. apply (inv_ended (λ k, k = root ∧ open_run r) d).
  - done.
  - intros k [-> Ho]. by apply (ci_open d Hd root r).
  - split; [|split].
    + exists (active_root root), st, t. split_and!; [done|done|apply root_active|]. intros k o Ho. unfold active_root.
      destruct (ex_key _ (ci_exclusive d Hd) k o Ho) as [<- _]. rewrite andb_true_iff, String.eqb_eq, bool_decide_eq_true.
      split; [|tauto]. intros [E Hx]. split; [|done]. split; [done|]. subst.
      destruct (ci_owned d Hd _ o Ho Hx) as (r' & Hr' & Hop & _). by simplify_eq.
    + intros k. cbn [cl_runs]. destruct (decide (root = k)) as [<-|Hk].
      * rewrite Hr, lookup_insert_eq. split; [done|]. split.
        -- intros HnE. apply Hn. tauto.
        -- intros _. split; [done|]. destruct Hq as [Hq|Hq]; [by left|right]. intros k' c i Hc Ho Hi. by eapply Hq.
      * rewrite lookup_insert_ne by done. destruct (cl_runs d !! k); [|done]. split; [done|]. split; [done|]. intros [-> _]. done.
    + intros k c' (c & Hc & ? & ? & Hp)%drop_planned_evolves. exists c. split_and!; try done. intros Hpl [E _]. by apply Hp.
Qed.

(** ** Claims of the registry *)
Lemma claim_account_cases account root now (t : exit_owners float) cl t' :
  exclusive t → claim_account_in_tx account root now t = (Ok cl, t') →
  (t' = t ∧ ∃ o, t !! claim_root cl = Some o ∧ x_state o = STATE_ACTIVE ∧ (claim_result cl ≠ JOINED_FLATTEN → claim_root cl = root)) ∨
  (let t1 := update_where (is_active_scoped account) (set_state STATE_SUPERSEDED now) t in
   t' = <[root := mkOwner root account None KIND_ACCOUNT GOAL_ZERO None STATE_ACTIVE now]> t1 ∧ t1 !! root = None ∧
   claim_root cl = root ∧ claim_result cl = CLAIMED ∧ (∀ k o, t !! k = Some o → owns_account account o = false) ∧
   ∀ k, k ∈ superseded cl ↔ ∃ o, t !! k = Some o ∧ is_active_scoped account o = true).
Proof.
  intros Hex. unfold claim_account_in_tx, check_root_id. run. destruct (_ && _); [|done]. unfold account_owner_in_tx. run.
  destruct (fetch (owns_account account) t) as [f|] eqn:Hf.
  - intros [= <- <-]. left. split; [done|]. apply fetch_Some in Hf as [Hown (k & Hk)]. destruct (ex_key _ Hex k f Hk) as [<- _].
    exists f. split; [done|]. split; [by eapply account_active|]. simpl. by destruct (String.eqb_spec (root_id f) root).
  - run. rewrite bind_unfold. unfold insert_in_tx, get_in_tx. run. set (t1 := update_where _ _ t).
    destruct (t1 !! root) as [x|] eqn:Hx; [done|]. cbn. intros [= <- <-]. right. simpl. split_and!; try done.
    + intros k o. by apply fetch_None.
    + intros k. rewrite elem_of_sorted_roots, list_elem_of_fmap. split.
      * intros (o & -> & [Ho Hin]%list_elem_of_filter). unfold rows in Hin. apply list_elem_of_fmap in Hin as ([k' x] & -> & Hin).
        apply elem_of_map_to_list in Hin. simpl in *. destruct (ex_key _ Hex k' x Hin) as [-> _]. by exists x.
      * intros (o & Hk & Ho). exists o. destruct (ex_key _ Hex k o Hk) as [-> _]. split; [done|]. apply list_elem_of_filter.
        split; [done|]. unfold rows. apply list_elem_of_fmap. exists (k, o). split; [done|]. by apply elem_of_map_to_list.
Qed.
Lemma claim_scoped_cases account i root q now (t : exit_owners float) cl t' :
  claim_scoped_in_tx account i root q now t = (Ok cl, t') →
  match claim_result cl with
  | CLAIMED => t' = <[root := mkOwner root account (Some i) KIND_SCOPED (match q with Some _ => GOAL_PARTIAL | None => GOAL_ZERO end) q STATE_ACTIVE now]> t ∧
      t !! root = None ∧ claim_root cl = root ∧
      ∀ k o, t !! k = Some o → owns_account account o = false ∧ owns_position account i o = false
  | UPGRADED => t' = update_where (active_root (claim_root cl)) (set_goal_zero now) t
  | _ => t' = t
  end.
Proof.
  unfold claim_scoped_in_tx, check_root_id. run. destruct (_ && _); [|done]. unfold account_owner_in_tx, owner_for_in_tx. run.
  destruct (fetch (owns_account account) t) as [f|] eqn:Hf; [by destruct q; [|intros [= <- <-]]|]. run.
  destruct (fetch (owns_position account i) t) as [o|] eqn:Ho.
  - destruct (String.eqb (root_id o) root); [by intros [= <- <-]|]. destruct q; [done|]. by destruct (goal o); intros [= <- <-].
  - rewrite bind_unfold. unfold insert_in_tx, get_in_tx. run. destruct (t !! root) as [x|] eqn:Hx; [done|]. cbn. intros [= <- <-].
    simpl. split_and!; try done; [by destruct q|]. intros k o Hk. split; by eapply fetch_None.
Qed.
Lemma claim_exclusive {A} (m : M (exit_owners float) A) (t : exit_owners float) a t' :
  caller_work m → exclusive t → m t = (Ok a, t') → exclusive t'.
Proof. intros Hm Ht E. by apply (adv_ok _ _ (committed_work m Hm t a t' E)). Qed.
Lemma inv_joins d f : close_inv d → close_inv (set_joins f d).
Proof. intros Hd. split; apply Hd. Qed.
