(* ===== verification/CloseRules.v ===== *)
(** * Rules for the close machine ([trader/trading/liquidation_service.py])

    What is true of each order as it goes out, and of a world ([world_ok]); what a part
    of a step may do to it ([still], [run_moved], [commits]); the rules that compose such
    facts along the definitions of [Close]; receipts, and the calls that only ask. *)
From stdpp Require Import base tactics gmap list strings pretty.
From Stdlib Require Import ZArith Lia SpecFloat.
From S2P Require Import Prelude Py ExitOwner CloseStore Close CloseInv.
Open Scope Z_scope.
Set Default Proof Using "Type".

(** ** The orders that went out *)
Definition call_kind (call : order_call) : child_kind :=
  match call with
  | call_cancel _ _ => KIND_CANCEL
  | call_reduce _ _ _ _ | call_reduce_partial _ _ _ _ => KIND_REDUCE
  | call_leg _ k _ _ _ _ _ => k
  end.
(** The row says what the order does. *)
Definition row_of_call (c : Child) (call : order_call) : Prop :=
  c_kind c = call_kind call ∧
  match call with
  | call_cancel entity _ => c_target c = Some entity
  | call_reduce i sd q _ | call_reduce_partial i sd q _ => c_conid c = Some i ∧ c_side c = Some sd ∧ c_quantity c = Some q
  | call_leg i _ q price group _ _ => c_conid c = Some i ∧ c_quantity c = Some q ∧ c_price c = Some price ∧ c_oca_group c = Some group
  end.
(** An order goes out under a journal that has its row, open, on a root that acts. *)
Definition sent_ok (e : order_call * closes) : Prop :=
  close_inv e.2 ∧
  ∃ c r, cl_children e.2 !! call_child e.1 = Some c ∧ c_state c = UNKNOWN ∧ row_of_call c e.1 ∧
    cl_runs e.2 !! c_owner c = Some r ∧ open_run r ∧ r_account r = c_account c.
(** Only a target leg whose send was refused for its size goes out again. *)
Definition once (call : order_call) : Prop := call_kind call ≠ KIND_TARGET.

Record log_ok (d : closes) (l : list (order_call * closes)) : Prop := {
  lo_sent e : e ∈ l → sent_ok e;
  lo_row e : e ∈ l → ∃ c, cl_children d !! call_child e.1 = Some c ∧ c_kind c = call_kind e.1;
  lo_once i j e1 e2 : l !! i = Some e1 → l !! j = Some e2 → call_child e1.1 = call_child e2.1 → once e1.1 → i = j;
}.
Record world_ok (w : world) : Prop := {
  wo_db : close_inv (w_db w);
  wo_log : log_ok (w_db w) (w_sent w);
}.

(** Rows are never dropped, and keep what they are about. *)
Record grows (d d' : closes) : Prop := {
  gr_runs k r : cl_runs d !! k = Some r → ∃ r', cl_runs d' !! k = Some r' ∧ same_close r r';
  gr_children k c : cl_children d !! k = Some c → ∃ c', cl_children d' !! k = Some c' ∧ same_order c c';
}.
Global Instance same_close_preorder : PreOrder same_close.
Proof. split; [by split|]. intros a b c [] []. split; [congruence..|auto]. Qed.
Global Instance grows_preorder : PreOrder grows.
Proof.
  split.
  - intros d. split; intros k x Hx; by exists x.
  - intros d1 d2 d3 [R1 C1] [R2 C2]. split.
    + intros k r Hr. destruct (R1 k r Hr) as (r' & Hr' & ?). destruct (R2 k r' Hr') as (r'' & ? & ?).
      exists r''. split; [done|by etrans].
    + intros k c Hc. destruct (C1 k c Hc) as (c' & Hc' & ?). destruct (C2 k c' Hc') as (c'' & ? & ?).
      exists c''. split; [done|by etrans].
Qed.
Lemma log_grows d d' l : grows d d' → log_ok d l → log_ok d' l.
Proof.
  intros Hg [Hs Hr Ho]. split; [done| |done]. intros e He. destruct (Hr e He) as (c & Hc & Hk).
  destruct (gr_children _ _ Hg _ c Hc) as (c' & Hc' & []). exists c'. split; [done|congruence].
Qed.

(** What a part of a step leaves: the world is sound, and its rows are those of
    before, run_moved on. *)
Definition run_moved (w w' : world) : Prop := world_ok w' ∧ grows (w_db w) (w_db w').
Definition still (w w' : world) : Prop := w_db w' = w_db w ∧ w_sent w' = w_sent w.

Lemma still_ok w w' : world_ok w → still w w' → world_ok w'.
Proof. intros [Hd Hl] [Hdb Hlog]. split; rewrite Hdb, ?Hlog; done. Qed.
Lemma still_moved w w' : world_ok w → still w w' → run_moved w w'.
Proof. intros Hw Hs. split; [by eapply still_ok|]. by destruct Hs as [-> _]. Qed.
Lemma moved_trans w1 w2 w3 : run_moved w1 w2 → run_moved w2 w3 → run_moved w1 w3.
Proof. intros [_ Hg] [Hw Hg']. split; [done|by etrans]. Qed.
Lemma still_trans w1 w2 w3 : still w1 w2 → still w2 w3 → still w1 w3.
Proof. intros [E1 E2] [E3 E4]. split; congruence. Qed.
Lemma moved_refl w : world_ok w → run_moved w w.
Proof. by split. Qed.
Lemma moved_from w1 w2 w3 : still w1 w2 → run_moved w2 w3 → run_moved w1 w3.
Proof. intros [E _] [Hw Hg]. split; [done|]. by rewrite <-E. Qed.

(** ** Rules *)
Lemma post_ask {A} (port : nat → res A) w (Q : res A → world → Prop) :
  (∀ w1, still w w1 → Q (port (w_calls w)) w1) → post (ask port) w Q.
Proof. intros H. by apply H. Qed.
Lemma post_stmt {A} (m : M closes A) w (Q : res A → world → Prop) :
  Q (outcome m (w_db w)) (set_db (final m (w_db w)) w) → post (stmt m) w Q.
Proof. unfold post, stmt, outcome, final. rewrite zoom_unfold. by destruct (m (w_db w)). Qed.
Lemma post_tx {A} (m : M world A) w (Q : res A → world → Prop) :
  post m w (λ r w', match r with Ok _ => Q r w' | Raise _ => Q r (set_db (w_db w) w') end) → post (tx m) w Q.
Proof. unfold post, tx, outcome, final. by destruct (m w) as [[a|e] w']. Qed.
Lemma post_any {S A} (m : M S A) s (Q : res A → S → Prop) : (∀ r s', Q r s') → post m s Q.
Proof. intros H. apply H. Qed.
Lemma post_both {S A} (m : M S A) s (Q1 Q2 : res A → S → Prop) : post m s Q1 → post m s Q2 → post m s (λ r s', Q1 r s' ∧ Q2 r s').
Proof. by split. Qed.

(** Nothing but questions. *)
Definition silent {A} (m : M world A) : Prop := ∀ w, post m w (λ _ w', still w w').
(** Whatever it does, the world stays sound. *)
Definition keeps {A} (m : M world A) : Prop := ∀ w, world_ok w → post m w (λ _ w', run_moved w w').

Lemma mute_ret {A} (a : A) : silent (mret a).
Proof. by intros w. Qed.
Lemma mute_raise {A} e : silent (A := A) (raise e).
Proof. by intros w. Qed.
Lemma silent_gets {A} (f : world → A) : silent (gets f).
Proof. by intros w. Qed.
Lemma silent_reads {A} (f : closes → A) : silent (reads f).
Proof. apply silent_gets. Qed.
Lemma silent_require b e : silent (require b e).
Proof. intros w. apply post_require. by destruct b. Qed.
Lemma silent_need {A} (o : option A) : silent (need o).
Proof. by destruct o. Qed.
Lemma silent_ask {A} (port : nat → res A) : silent (ask port).
Proof. intros w. by apply post_ask. Qed.
Lemma silent_ask_if {A} (port : option (nat → A → res unit)) a : silent (ask_if port a).
Proof. destruct port; [apply silent_ask|apply mute_ret]. Qed.
Lemma mute_bind {A B} (m : M world A) (k : A → M world B) : silent m → (∀ a, silent (k a)) → silent (m ≫= k).
Proof.
  intros Hm Hk w. apply post_bind. eapply post_weaken; [apply Hm|]. intros [a|e] w1 H; [|done].
  eapply post_weaken; [apply Hk|]. intros r w2 H2. by eapply still_trans.
Qed.
Lemma silent_try {A} (m : M world A) h : silent m → (∀ e k, h e = Some k → silent k) → silent (try_except m h).
Proof.
  intros Hm Hh w. apply post_try. eapply post_weaken; [apply Hm|]. intros [a|e] w1 H; [done|].
  destruct (h e) as [k|] eqn:E; [|done]. eapply post_weaken; [by apply (Hh e k E)|]. intros r w2 H2. by eapply still_trans.
Qed.
Lemma silent_except {A} (m : M world A) h : silent m → (∀ e, silent (h e)) → silent (except m h).
Proof. intros Hm Hh. apply silent_try; [done|]. intros e k. destruct e; naive_solver. Qed.
Lemma silent_map_each {A B} (xs : list A) (f : A → M world B) : (∀ x, silent (f x)) → silent (map_each xs f).
Proof.
  intros Hf. induction xs as [|x xs IH]; simpl; [apply mute_ret|].
  apply mute_bind; [done|]. intros y. apply mute_bind; [done|]. intros ys. apply mute_ret.
Qed.
Lemma silent_for_each {A} (xs : list A) (f : A → M world unit) : (∀ x, silent (f x)) → silent (for_each xs f).
Proof. intros Hf. induction xs as [|x xs IH]; simpl; [apply mute_ret|]. by apply mute_bind. Qed.

Lemma silent_keeps {A} (m : M world A) : silent m → keeps m.
Proof. intros H w Hw. eapply post_weaken; [apply H|]. intros r w'. by apply still_moved. Qed.
Lemma keeps_bind {A B} (m : M world A) (k : A → M world B) : keeps m → (∀ a, keeps (k a)) → keeps (m ≫= k).
Proof.
  intros Hm Hk w Hw. apply post_bind. eapply post_weaken; [by apply Hm|]. intros [a|e] w1 H; [|done].
  eapply post_weaken; [apply Hk, H|]. intros r w2 H2. by eapply moved_trans.
Qed.
Lemma keeps_try {A} (m : M world A) h : keeps m → (∀ e k, h e = Some k → keeps k) → keeps (try_except m h).
Proof.
  intros Hm Hh w Hw. apply post_try. eapply post_weaken; [by apply Hm|]. intros [a|e] w1 H; [done|].
  destruct (h e) as [k|] eqn:E; [|done]. eapply post_weaken; [by apply (Hh e k E), H|]. intros r w2 H2. by eapply moved_trans.
Qed.
Lemma keeps_except {A} (m : M world A) h : keeps m → (∀ e, keeps (h e)) → keeps (except m h).
Proof. intros Hm Hh. apply keeps_try; [done|]. intros e k. destruct e; naive_solver. Qed.
Lemma keeps_map_each {A B} (xs : list A) (f : A → M world B) : (∀ x, keeps (f x)) → keeps (map_each xs f).
Proof.
  intros Hf. induction xs as [|x xs IH]; simpl; [apply silent_keeps, mute_ret|].
  apply keeps_bind; [done|]. intros y. apply keeps_bind; [done|]. intros ys. apply silent_keeps, mute_ret.
Qed.
Lemma keeps_for_each {A} (xs : list A) (f : A → M world unit) : (∀ x, keeps (f x)) → keeps (for_each xs f).
Proof. intros Hf. induction xs as [|x xs IH]; simpl; [apply silent_keeps, mute_ret|]. by apply keeps_bind. Qed.

Create HintDb close.
#[export] Hint Resolve mute_ret mute_raise silent_gets silent_reads silent_require silent_need silent_ask silent_ask_if
  silent_map_each silent_for_each : close.
(** Walk through a definition that only asks, or that only keeps. *)
Ltac asks :=
  repeat first
    [ solve [auto with close]
    | lazymatch goal with
      | |- silent (mbind _ _) => apply mute_bind; [|intros ?]
      | |- silent (except _ _) => apply silent_except; [|intros ?]
      | |- silent (map_each _ _) => apply silent_map_each; intros ?
      | |- silent (for_each _ _) => apply silent_for_each; intros ?
      | |- silent (if ?b then _ else _) => destruct b
      | |- silent (match ?x with _ => _ end) => destruct x
      | |- silent (let _ := _ in _) => cbv zeta
      end ].
Ltac keep :=
  repeat first
    [ solve [auto with close] | solve [apply silent_keeps; asks]
    | lazymatch goal with
      | |- keeps (mbind _ _) => apply keeps_bind; [|intros ?]
      | |- keeps (except _ _) => apply keeps_except; [|intros ?]
      | |- keeps (map_each _ _) => apply keeps_map_each; intros ?
      | |- keeps (for_each _ _) => apply keeps_for_each; intros ?
      | |- keeps (if ?b then _ else _) => destruct b
      | |- keeps (match ?x with _ => _ end) => destruct x
      | |- keeps (let _ := _ in _) => cbv zeta
      end ].

(** *** Transactions *)
(** A body that commits a sound database, or raises. *)
Definition commits {A} (m : M world A) (w : world) (Q : A → closes → Prop) : Prop :=
  post m w (λ r w', w_sent w' = w_sent w ∧
    ∀ a, r = Ok a → close_inv (w_db w') ∧ grows (w_db w) (w_db w') ∧ Q a (w_db w')).

Lemma post_commits {A} (m : M world A) w (Q : A → closes → Prop) : world_ok w → commits m w Q →
  post (tx m) w (λ r w', run_moved w w' ∧ w_sent w' = w_sent w ∧
    match r with Ok a => Q a (w_db w') | Raise _ => w_db w' = w_db w end).
Proof.
  intros Hw Hc. apply post_tx. eapply post_weaken; [apply Hc|]. intros [a|e] w' [Hl Ha].
  - destruct (Ha a eq_refl) as (Hd & Hg & HQ). split; [|done]. split; [|done].
    split; [done|]. rewrite Hl. by eapply log_grows; [|apply Hw].
  - split; [|done]. split; [|done]. split; [apply Hw|]. simpl. rewrite Hl. apply Hw.
Qed.
Lemma keeps_tx {A} (m : M world A) : (∀ w, close_inv (w_db w) → commits m w (λ _ _, True)) → keeps (tx m).
Proof. intros H w Hw. eapply post_weaken; [apply post_commits, H, Hw; done|]. by intros r w' [Hm _]. Qed.
Lemma silent_tx {A} (m : M world A) : silent m → silent (tx m).
Proof.
  intros H w. apply post_tx. eapply post_weaken; [apply H|]. intros [a|e] w' Hs; [done|]. by destruct Hs.
Qed.
#[export] Hint Resolve silent_tx : close.

Lemma grows_runs d f :
  (∀ k r, cl_runs d !! k = Some r → ∃ r', f (cl_runs d) !! k = Some r' ∧ same_close r r') → grows d (set_runs f d).
Proof. intros H. split; [done|]. intros k c Hc. by exists c. Qed.
Lemma grows_children d f :
  (∀ k c, cl_children d !! k = Some c → ∃ c', f (cl_children d) !! k = Some c' ∧ same_order c c') → grows d (set_children f d).
Proof. intros H. split; [|done]. intros k c Hc. by exists c. Qed.
Lemma grows_insert_run d k r r' : cl_runs d !! k = Some r → same_close r r' → grows d (set_runs <[k := r']> d).
Proof.
  intros Hr Hs. apply grows_runs. intros k' x Hx. destruct (decide (k = k')) as [<-|Hk].
  - exists r'. by simplify_eq; rewrite lookup_insert_eq.
  - exists x. by rewrite lookup_insert_ne.
Qed.
Lemma grows_owners d o : grows d (set_owners o d).
Proof. split; intros k x Hx; by exists x. Qed.

(** *** The row of a run *)
(** [r] is the run as the caller has it; [f] writes it. *)
Record tame (f : Run → Run) : Prop := {
  tm_same r : same_close r (f r);
  tm_state r : r_state (f r) = r_state r ∨ open_run (f r);
}.
Lemma post_update_run r' t w (Q : res unit → world → Prop) :
  (∀ c, cl_runs (w_db w) !! r_id r' = Some c → (¬ open_run c → r_state r' = r_state c) →
     Q (Ok tt) (set_db (set_runs <[r_id r' := stored_run r' (r_pre_sp1_open c) t]> (w_db w)) w)) →
  (∀ e w1, still w w1 → Q (Raise e) w1) → post (stmt (update_run_in_tx r' t)) w Q.
Proof.
  intros Hok Hno. apply post_stmt. unfold outcome, final, update_run_in_tx, get_run_in_tx. run.
  destruct (cl_runs (w_db w) !! r_id r') as [c|] eqn:Hc; [|by apply Hno].
  destruct (RESCAN_TERMINAL (r_state c) && _) eqn:H1; simpl; [by apply Hno|].
  destruct (bool_decide (r_goal c = RUN_ZERO) && _); simpl; [by apply Hno|].
  apply Hok; [done|]. intros Hn. unfold open_run in Hn. destruct (RESCAN_TERMINAL (r_state c)); [|done].
  destruct (decide (r_state r' = r_state c)); [done|]. by rewrite bool_decide_eq_true_2 in H1.
Qed.
Lemma update_tame d r r' t : close_inv d → cl_runs d !! r_id r = Some r → same_close r r' →
  (r_state r' = r_state r ∨ open_run r') → (¬ open_run r → r_state r' = r_state r) →
  let d' := set_runs <[r_id r' := stored_run r' (r_pre_sp1_open r) t]> d in close_inv d' ∧ grows d d'.
Proof.
  intros Hd Hr Hsc Hst Hn d'. assert (r_id r' = r_id r) as Hid by apply Hsc.
  assert (same_close r (stored_run r' (r_pre_sp1_open r) t)) as Hsc' by (by destruct Hsc; split).
  split; [apply inv_runs; [done|]|]; unfold d'; rewrite Hid.
  - apply (run_insert_ok d _ r); [done|done| |done]. unfold open_run, stored_run in *. simpl. destruct Hst as [->|Ho]; [done|].
    split; [done|]. intros _. destruct (RESCAN_TERMINAL (r_state r)) eqn:E; [|done].
    destruct (Hn ltac:(congruence)). congruence.
  - by eapply grows_insert_run.
Qed.

Lemma silent_receipt_of root : silent (receipt_of root).
Proof. unfold receipt_of. asks. Qed.
Lemma silent_in_force rc : silent (children_in_force rc).
Proof. unfold children_in_force. asks. Qed.
Lemma silent_exposure rc sn : silent (exposure_since_decision rc sn).
Proof. unfold exposure_since_decision. asks. Qed.
Lemma silent_existing a c i g q : silent (existing a c i g q).
Proof. unfold existing. asks. Qed.
#[export] Hint Resolve silent_receipt_of silent_in_force silent_exposure silent_existing : close.

Section rules.
Context {P : Ports}.

Lemma silent_now : silent (now P).
Proof. apply silent_ask. Qed.
Hint Resolve silent_now : close.

Lemma commits_change_run root f w :
  close_inv (w_db w) → tame f →
  commits (change_run P root f) w (λ _ d', cl_children d' = cl_children (w_db w) ∧ cl_owners d' = cl_owners (w_db w) ∧
    ∃ r r', cl_runs (w_db w) !! root = Some r ∧ cl_runs d' = <[root := r']> (cl_runs (w_db w)) ∧ r_state r' = r_state (f r) ∧
            (¬ open_run r → r_state r' = r_state r)).
Proof.
  intros Hd Hf. unfold commits, change_run, now. apply post_bind, post_stmt.
  unfold get_run_in_tx, outcome, final. cbn. apply post_bind. unfold need.
  destruct (cl_runs (w_db w) !! root) as [r|] eqn:Hr; [|by apply post_raise].
  apply post_ret, post_bind, post_ask. intros w1 [E1 E2]. simpl in *.
  pose proof (tm_same f Hf r) as Hsc. pose proof (ci_run_key _ Hd _ _ Hr) as Hid.
  apply post_update_run; [|intros e w2 [_ ->]; by rewrite E2].
  simpl. rewrite E1. intros c Hc Hst. rewrite (sc_id _ _ Hsc) in Hc. simplify_eq. split; [done|]. intros [] _.
  destruct (update_tame (w_db w) r (f r) (clock P (w_calls w)) Hd Hr Hsc (tm_state f Hf r) Hst) as [Hi Hg].
  split; [done|]. split; [done|]. split; [done|]. split; [done|]. exists r. eexists. split; [done|].
  rewrite (sc_id _ _ Hsc). by split_and!.
Qed.

(** *** Receipts *)
(** The receipt is what the database says now. *)
Definition current (rc : Receipt) (d : closes) : Prop := read_receipt (r_id (rc_run rc)) d = Some rc.
Lemma read_current d root rc : close_inv d → read_receipt root d = Some rc → r_id (rc_run rc) = root ∧ current rc d.
Proof.
  intros Hd. unfold current, read_receipt. destruct (cl_runs d !! root) as [r|] eqn:Hr; [|done]. intros [= <-]. simpl.
  rewrite (ci_run_key _ Hd _ _ Hr), Hr. done.
Qed.
Lemma elem_children_of d root c : c ∈ children_of root d ↔ c_owner c = root ∧ ∃ k, cl_children d !! k = Some c.
Proof. unfold children_of. by rewrite order_by_perm, elem_of_select, String.eqb_eq. Qed.
(** The run is on the record, with the account and the scope of the receipt. *)
Definition on_record (rc : Receipt) (d : closes) : Prop :=
  ∃ r, cl_runs d !! r_id (rc_run rc) = Some r ∧ same_close (rc_run rc) r.
Lemma current_record rc d : current rc d → on_record rc d.
Proof.
  unfold current, read_receipt, on_record. destruct (cl_runs d !! r_id (rc_run rc)) as [r|] eqn:Hr; [|done]. intros [= E].
  exists r. split; [done|]. by rewrite <-E.
Qed.
Lemma record_grows rc d d' : on_record rc d → grows d d' → on_record rc d'.
Proof.
  intros (r & Hr & Hs) Hg. destruct (gr_runs _ _ Hg _ r Hr) as (r' & Hr' & Hs'). exists r'. split; [done|by etrans].
Qed.
Lemma current_children rc d c : current rc d →
  c ∈ rc_children rc ↔ c_owner c = r_id (rc_run rc) ∧ ∃ k, cl_children d !! k = Some c.
Proof.
  unfold current, read_receipt. destruct (cl_runs d !! r_id (rc_run rc)); [|done]. intros [= E]. rewrite <-E at 1.
  apply elem_children_of.
Qed.
Lemma current_child rc d c : close_inv d → current rc d → c ∈ rc_children rc →
  c_owner c = r_id (rc_run rc) ∧ cl_children d !! c_id c = Some c.
Proof.
  intros Hd Hc [Ho (k & Hk)]%(current_children _ _ _ Hc). split; [done|]. by rewrite (ci_child_key _ Hd _ _ Hk).
Qed.
Lemma current_still rc w w' : still w w' → current rc (w_db w) → current rc (w_db w').
Proof. by intros [-> _]. Qed.

Lemma post_receipt_of root w (Q : res Receipt → world → Prop) :
  (∀ rc, read_receipt root (w_db w) = Some rc → Q (Ok rc) w) → Q (Raise TypeError) w → post (receipt_of root) w Q.
Proof.
  intros Hok Hno. unfold receipt_of. apply post_bind. apply post_gets. unfold need.
  destruct (read_receipt root (w_db w)) as [rc|]; [by apply post_ret, Hok|by apply post_raise].
Qed.

(** *** Questions *)
Lemma silent_trip_when b root : silent (trip_when P b root).
Proof. unfold trip_when. asks. Qed.
Hint Resolve silent_trip_when : close.
Lemma silent_broker_fill c rows : silent (broker_fill P c rows).
Proof. unfold broker_fill. asks. Qed.
Hint Resolve silent_broker_fill : close.
Lemma silent_rows_of c : silent (rows_of P c).
Proof. unfold rows_of. asks. Qed.
Hint Resolve silent_rows_of : close.
Lemma silent_rows_with_prefix c p : silent (rows_with_prefix P c p).
Proof. unfold rows_with_prefix. asks. Qed.
Hint Resolve silent_rows_with_prefix : close.
Lemma silent_row_fill c : silent (row_fill P c).
Proof. unfold row_fill. asks. Qed.
Hint Resolve silent_row_fill : close.
Lemma silent_enumerated_after g f : silent (enumerated_after P g f).
Proof. unfold enumerated_after. asks. Qed.
Hint Resolve silent_enumerated_after : close.
Lemma silent_evidence c g n : silent (evidence P c g n).
Proof. unfold evidence, legacy_evidence. asks. Qed.
Hint Resolve silent_evidence : close.
Lemma silent_fresh rc g : silent (fresh P rc g).
Proof. unfold fresh. asks. Qed.
Hint Resolve silent_fresh : close.
Lemma silent_blocking rc g : silent (blocking P rc g).
Proof. unfold blocking. asks. Qed.
Hint Resolve silent_blocking : close.
Lemma silent_leg_row c : silent (leg_row P c).
Proof. unfold leg_row. asks. Qed.
Hint Resolve silent_leg_row : close.
Lemma silent_late_fill n c : silent (late_fill P n c).
Proof. unfold late_fill. asks. Qed.
Hint Resolve silent_late_fill : close.
Lemma silent_leg_problems sd q legs : silent (leg_problems P sd q legs).
Proof. induction legs as [|[leg row] legs IH]; simpl; unfold outstanding_now; asks. Qed.
Hint Resolve silent_leg_problems : close.
Lemma silent_release_legs rc : silent (release_legs P rc).
Proof. unfold release_legs, release_problem, filled_stop_problem. asks. Qed.
Hint Resolve silent_release_legs : close.
Lemma silent_schedule_commands root : silent (schedule_commands P root).
Proof. unfold schedule_commands. asks. Qed.
Hint Resolve silent_schedule_commands : close.
Lemma silent_held {A} (m : M world A) : silent m → silent (held P m).
Proof. intros H. apply silent_try; [asks|]. intros e k. destruct e; try done. intros [= <-]. asks. Qed.
Hint Resolve silent_held : close.
Lemma silent_target_admission rc i stop p g : silent (target_admission P rc i stop p g).
Proof. unfold target_admission. asks. Qed.
Hint Resolve silent_target_admission : close.
Lemma silent_still_admitted rc i stop q p g : silent (target_still_admitted P rc i stop q p g).
Proof. unfold target_still_admitted. asks. Qed.
Hint Resolve silent_still_admitted : close.
Lemma silent_legs_changed rc i legs rows q sn : silent (legs_changed P rc i legs rows q sn).
Proof. unfold legs_changed. asks. Qed.
Hint Resolve silent_legs_changed : close.
Lemma silent_admit_partial a i q : silent (admit_partial P a i q).
Proof. unfold admit_partial. asks. Qed.
Hint Resolve silent_admit_partial : close.
Lemma silent_late_closes : silent (late_fill_closes P).
Proof. unfold late_fill_closes, late_fill_close. asks. Qed.
Hint Resolve silent_late_closes : close.
End rules.
#[export] Hint Resolve silent_now silent_trip_when silent_broker_fill silent_rows_of silent_rows_with_prefix
   silent_row_fill silent_enumerated_after silent_evidence silent_fresh silent_blocking silent_leg_row
   silent_late_fill silent_leg_problems silent_release_legs silent_schedule_commands silent_held
   silent_target_admission silent_still_admitted silent_legs_changed silent_admit_partial silent_late_closes : close.
