(* ===== verification/CloseWrites.v ===== *)
(** * The writes of the close machine ([trader/trading/liquidation_service.py])

    The row of the run up to its terminal state, the rows of the children, and the
    evidence that settles them. *)
From stdpp Require Import base tactics gmap list strings pretty.
From Stdlib Require Import ZArith Lia SpecFloat.
From S2P Require Import Prelude Py ExitOwner CloseStore Close CloseInv CloseRules.
Open Scope Z_scope.
Set Default Proof Using "Type".

Section writes.
Context {P : Ports}.

(** ** Writes of the run *)
(** [f] of [set_run] and [commit_terminal]: it leaves the state alone. *)
Definition plain_write (f : Run → Run) : Prop := ∀ r, same_close r (f r) ∧ r_state (f r) = r_state r.
Lemma plain_id : plain_write id.
Proof. by intros r. Qed.
Lemma plain_phase p o : plain_write (put_phase p o).
Proof. by intros r. Qed.
Lemma plain_remaining q : plain_write (put_remaining q).
Proof. by intros r. Qed.
Lemma plain_cleanup b : plain_write (put_cleanup b).
Proof. by intros r. Qed.
Hint Resolve plain_id plain_phase plain_remaining : close.

Lemma tame_set s g f : RESCAN_TERMINAL s = false → plain_write f → tame (λ r, f (put_state s (put_generation g r))).
Proof.
  intros Hs Hf. split; intros r; destruct (Hf (put_state s (put_generation g r))) as [[E1 E2 E3 E4] Hst].
  - split; cbn beta; [by rewrite E1|by rewrite E2|by rewrite E3|exact E4].
  - right. unfold open_run. by rewrite Hst.
Qed.

Lemma post_set_run rc s g f w : world_ok w → RESCAN_TERMINAL s = false → plain_write f →
  post (set_run P rc s g f) w (λ r w', run_moved w w' ∧ w_sent w' = w_sent w ∧ cl_children (w_db w') = cl_children (w_db w) ∧
    ∀ rc', r = Ok rc' → r_id (rc_run rc') = r_id (rc_run rc) ∧ current rc' (w_db w')).
Proof.
  intros Hw Hs Hf. unfold set_run. apply post_bind.
  eapply post_weaken; [apply post_commits, commits_change_run, tame_set; try done; apply Hw|].
  intros [[]|e] w1 (Hm & Hl & Hr); [|by rewrite Hr]. destruct Hr as (Hch & _ & _).
  apply post_bind. eapply post_weaken; [apply silent_trip_when|]. intros [a|e] w2 [Hdb2 Hl2]; [|
    split; [by eapply moved_trans, still_moved; [done|apply Hm|]|]; split_and!; congruence || done].
  assert (run_moved w w2) as Hm2 by (eapply moved_trans, still_moved; [done|apply Hm|done]).
  apply post_receipt_of; [|split_and!; congruence || done]. intros rc' Hrc. split; [done|]. split; [congruence|].
  split; [congruence|]. intros rc0 [= <-]. apply read_current; [apply Hm2|done].
Qed.
Lemma keeps_set_run rc s g f : RESCAN_TERMINAL s = false → plain_write f → keeps (set_run P rc s g f).
Proof. intros Hs Hf w Hw. eapply post_weaken; [by apply post_set_run|]. by intros r w' [H _]. Qed.
Lemma keeps_wait rc g : keeps (wait P rc g).
Proof. unfold wait. keep. by apply keeps_set_run. Qed.
Hint Resolve keeps_wait : close.
Lemma keeps_unavailable rc : keeps (snapshot_unavailable P rc).
Proof. unfold snapshot_unavailable. apply keeps_set_run; [by destruct (r_scope _)|done]. Qed.
Hint Resolve keeps_unavailable : close.
Lemma keeps_cleanup rc : keeps (cleanup P rc).
Proof.
  unfold cleanup. keep. apply keeps_tx. intros w Hw. eapply post_weaken; [apply commits_change_run; [done|]|].
  - split; [by split|by left].
  - intros r w' [Hl Ha]. split; [done|]. intros a Ea. by destruct (Ha a Ea) as (? & ? & _).
Qed.
Hint Resolve keeps_cleanup : close.
Lemma keeps_after_terminal rc s : keeps (after_terminal P rc s).
Proof. unfold after_terminal. keep. Qed.
Hint Resolve keeps_after_terminal : close.

(** Rows of children that only move on. *)
Lemma evolving d f : close_inv d →
  (∀ c, same_order c (f c) ∧ c_owner (f c) = c_owner c ∧ (unsettled (f c) → unsettled c) ∧ (c_state (f c) = PLANNED → c_state c = PLANNED)) →
  ∀ p, let d' := set_children (update_where_child p f) d in close_inv d' ∧ grows d d'.
Proof.
  intros Hd Hf p d'. split; [apply inv_children; [done|]|apply grows_children]; intros k c; unfold update_where_child; rewrite lookup_fmap.
  - intros (c0 & Hc & ->)%fmap_Some. exists c0. split; [done|]. destruct (Hf c0) as (? & ? & ? & ?). by destruct (p c0); split.
  - intros ->. eexists. split; [done|]. destruct (Hf c) as (? & _). by destruct (p c).
Qed.
Lemma drop_planned_ok d root : close_inv d →
  let d' := set_children (update_where_child (λ c, String.eqb (c_owner c) root && bool_decide (c_state c = PLANNED))
    (with_child_state NOT_SENT)) d in close_inv d' ∧ grows d d'.
Proof. intros Hd. apply evolving; [done|]. intros c. split; [by split|]. split; [done|]. by split. Qed.

(** *** Terminal states *)
Lemma grows_evolves d f : close_inv d → (∀ k c, cl_children d !! k = Some c → is_Some (f (cl_children d) !! k)) →
  (∀ k c', f (cl_children d) !! k = Some c' → ∃ c, cl_children d !! k = Some c ∧ evolves c c') → grows d (set_children f d).
Proof.
  intros Hd Hs Hf. apply grows_children. intros k c Hc. destruct (Hs k c Hc) as [c' Hc']. exists c'. split; [done|].
  destruct (Hf k c' Hc') as (c0 & Hc0 & []). by simplify_eq.
Qed.
Lemma drop_planned_keys root t k c : t !! k = Some c → is_Some (drop_planned root t !! k).
Proof. intros H. unfold drop_planned, update_where_child. rewrite lookup_fmap, H. by eexists. Qed.
Lemma drop_grows d root : close_inv d → grows d (set_children (drop_planned root) d).
Proof.
  intros Hd. apply grows_evolves; [done|intros k c; apply drop_planned_keys|].
  intros k c' (c & ? & ? & _)%drop_planned_evolves. by exists c.
Qed.

Lemma post_commit_terminal rc s g f w : world_ok w → RESCAN_TERMINAL s = true → plain_write f →
  inheritable s = true ∨ quiet (r_id (rc_run rc)) (w_db w) →
  post (commit_terminal P rc s g f) w (λ _ w', run_moved w w').
Proof.
  intros Hw Hs Hf Hq. unfold commit_terminal. set (root := r_id (rc_run rc)) in *.
  eapply post_weaken; [apply (post_commits _ _ (λ _ _, True)); [done|]|by intros r w' [H _]].
  unfold commits, change_run, now. apply post_bind, post_bind, post_stmt. unfold get_run_in_tx, outcome, final. cbn.
  apply post_bind. unfold need. destruct (cl_runs (w_db w) !! root) as [r|] eqn:Hr; [|by apply post_raise].
  apply post_ret, post_bind, post_ask. intros w1 [E1 E2]. simpl in *.
  set (r1 := f (put_state s (put_cleanup true (put_generation g r)))).
  destruct (Hf (put_state s (put_cleanup true (put_generation g r)))) as [[F1 F2 F3 F5] F4]. fold r1 in F1, F2, F3, F4, F5. simpl in *.
  assert (r_id r1 = root) as Hid by (rewrite F1; apply (ci_run_key _ (wo_db _ Hw) _ _ Hr)).
  apply post_update_run; [|intros e w2 [_ ->]; by rewrite E2]. rewrite E1, Hid. intros c Hc Hst. simplify_eq.
  apply post_bind, post_stmt. unfold outcome, final. cbn. apply post_bind, post_ask. intros w2 [E3 E4]. simpl in *.
  apply post_stmt. unfold in_owners, finish_in_tx, outcome, final. rewrite zoom_unfold.
  assert (∃ st, (if OWNER_RELEASED_STATES s then STATE_RELEASED else STATE_FAILED_SAFE) = st ∧ st ≠ STATE_ACTIVE ∧
    (bool_decide (st = STATE_RELEASED) || bool_decide (st = STATE_FAILED_SAFE))%bool = true) as (st & -> & Hna & Hst')
    by (destruct (OWNER_RELEASED_STATES s); by eexists). rewrite Hst'. cbn.
  split; [congruence|]. intros _ _. rewrite E3. simpl. rewrite ?E1.
  set (r2 := stored_run r1 _ _). assert (same_close r r2) as Hsc by (split; [exact F1|exact F2|exact F3|exact F5]).
  assert (r_state r2 = s) as Hs2 by exact F4.
  split; [|split; [|done]].
  - refine (inv_committed (w_db w) r r2 _ st _ (wo_db _ Hw) Hr Hsc _ _ _ Hna); rewrite Hs2; [done| |done].
    intros Hn. by rewrite <-(Hst Hn), F4.
  - destruct (grows_insert_run _ _ _ _ Hr Hsc) as [Hgr _], (drop_grows _ (r_id (rc_run rc)) (wo_db _ Hw)) as [_ Hgc]. by split.
Qed.
Lemma keeps_finish_step rc s : inheritable s = true → RESCAN_TERMINAL s = true → keeps (finish P rc s).
Proof.
  intros Hi Hs w Hw. unfold finish. apply post_bind. eapply post_weaken; [by apply post_commit_terminal; auto with close|].
  intros [a|e] w1 H; [|done]. eapply post_weaken; [apply keeps_after_terminal, H|]. intros r w2. by apply moved_trans.
Qed.

(** ** Writes of the children *)
(** The root acts. *)
Definition acts (root : string) (d : closes) : Prop := ∃ r, cl_runs d !! root = Some r ∧ open_run r.
Definition keeps_acting (d d' : closes) : Prop := ∀ root, acts root d → acts root d'.
Lemma acting_alter d root f : (∀ r, r_state (f r) = r_state r) → keeps_acting d (set_runs (alter f root) d).
Proof.
  intros Hf root' (r & Hr & Ho). unfold acts. simpl. destruct (decide (root = root')) as [<-|Hne].
  - rewrite lookup_alter_eq, Hr. eexists. split; [done|]. unfold open_run. by rewrite Hf.
  - rewrite lookup_alter_ne, Hr by done. by exists r.
Qed.
(** The receipt's open children are the rows of the database. *)
Record in_step (rc : Receipt) (d : closes) : Prop := {
  is_record : on_record rc d;
  is_distinct : NoDup (map c_id (rc_children rc));
  is_rows c : c ∈ rc_children rc → CHILD_OPEN (c_state c) = true → cl_children d !! c_id c = Some c;
}.
Lemma current_in_step rc d : close_inv d → current rc d → in_step rc d.
Proof.
  intros Hd Hc. split; [by apply current_record| |].
  - unfold current, read_receipt in Hc. destruct (cl_runs d !! r_id (rc_run rc)); [|done]. injection Hc as Hc. rewrite <-Hc.
    simpl. unfold children_of. rewrite order_by_perm. apply NoDup_select. apply Hd.
  - intros c Hin _. by apply (current_child rc d).
Qed.

(** New rows for some children, one each. *)
Definition new_rows (d : closes) (l : list Child) : Prop :=
  NoDup (map c_id l) ∧ ∀ c', c' ∈ l → ∃ c, cl_children d !! c_id c' = Some c ∧ evolves c c'.
Lemma update_row_ok d c c' : close_inv d → cl_children d !! c_id c' = Some c → evolves c c' →
  let d' := set_children (alter (λ _, c') (c_id c')) d in close_inv d' ∧ grows d d'.
Proof.
  intros Hd Hc Hev d'.
  assert (∀ k x, alter (λ _, c') (c_id c') (cl_children d) !! k = Some x → ∃ c0, cl_children d !! k = Some c0 ∧ evolves c0 x) as Hf.
  { intros k x. destruct (decide (c_id c' = k)) as [<-|Hk].
    - rewrite lookup_alter_eq, Hc. intros [= <-]. by exists c.
    - rewrite lookup_alter_ne by done. intros Hx. by exists x. }
  split; [by apply inv_children|]. apply grows_evolves; [done| |done]. intros k x Hx. destruct (decide (c_id c' = k)) as [<-|Hk].
  - rewrite lookup_alter_eq, Hc. by eexists.
  - rewrite lookup_alter_ne, Hx by done. by eexists.
Qed.
Lemma clear_mark_ok d root : close_inv d → let d' := set_runs (alter clear_mark root) d in close_inv d' ∧ grows d d'.
Proof.
  intros Hd d'. split; [apply inv_runs; [done|]|apply grows_runs].
  - intros k. destruct (decide (root = k)) as [<-|Hk]; [rewrite lookup_alter_eq|rewrite lookup_alter_ne by done];
      by destruct (cl_runs d !! _).
  - intros k r Hr. destruct (decide (root = k)) as [<-|Hk].
    + rewrite lookup_alter_eq, Hr. eexists. split; [done|by split].
    + rewrite lookup_alter_ne by done. by exists r.
Qed.
Lemma new_rows_rest d c l : new_rows d (c :: l) → new_rows (set_children (alter (λ _, c) (c_id c)) d) l.
Proof.
  intros [[Hni Hnd]%NoDup_cons Hl]. split; [done|]. intros c' Hin. destruct (Hl c') as (c0 & Hc0 & Hev); [set_solver|].
  exists c0. split; [|done]. simpl. rewrite lookup_alter_ne; [done|]. intros E. apply Hni. rewrite E. by apply list_elem_of_fmap_2.
Qed.
Lemma commits_rows (clear : bool) l w : close_inv (w_db w) → new_rows (w_db w) l →
  commits (for_each l (if clear then settle_child else λ c, stmt (update_child_in_tx c))) w (λ _ d', keeps_acting (w_db w) d').
Proof.
  assert (∀ c w (Q : res unit → world → Prop), (∀ d', close_inv d' → grows (w_db w) d' → cl_children d' = alter (λ _, c) (c_id c) (cl_children (w_db w)) →
      keeps_acting (w_db w) d' → Q (Ok tt) (set_db d' w)) → close_inv (w_db w) → (∃ c0, cl_children (w_db w) !! c_id c = Some c0 ∧ evolves c0 c) →
      post ((if clear then settle_child else λ c, stmt (update_child_in_tx c)) c) w Q) as Hop.
  { intros c w0 Q HQ Hd (c0 & Hc0 & Hev). destruct (update_row_ok _ c0 c Hd Hc0 Hev) as [Hd1 Hg1].
    destruct clear; [unfold settle_child; apply post_bind|]; apply post_stmt; unfold outcome, final; cbn; [|by apply HQ; [..|intros root]].
    destruct (_ && _); [|by apply post_ret, HQ; [..|intros root]]. apply post_stmt. unfold outcome, final. cbn.
    destruct (clear_mark_ok _ (c_root c) Hd1) as [Hd2 Hg2]. apply (HQ (set_runs _ _)); [done|by etrans|done|].
    exact (acting_alter (set_children (alter (λ _, c) (c_id c)) (w_db w0)) (c_root c) clear_mark (λ _, eq_refl)). }
  revert w. induction l as [|c l IH]; intros w Hd Hl; simpl; [by apply post_ret; split; [|intros a _; split_and!; [..|intros root]]|].
  unfold commits. apply post_bind, Hop; [|done|by apply Hl; set_solver]. intros d' Hd' Hg Hch Hact.
  eapply post_weaken; [apply (IH (set_db d' w)); [done|]|].
  - apply new_rows_rest in Hl. destruct Hl as [Hnd Hl]. split; [done|]. simpl. by rewrite Hch.
  - intros r w' [Hlog Ha]. split; [done|]. intros a Ea. destruct (Ha a Ea) as (? & ? & Hact2). split_and!; [done|by etrans|]. intros root Hr. by apply Hact2, Hact.
Qed.

(** *** Evidence of the children *)
Lemma post_map_each {A B} (xs : list A) (f : A → M world B) (R : A → B → Prop) :
  (∀ x w, x ∈ xs → post (f x) w (λ r w', still w w' ∧ ∀ y, r = Ok y → R x y)) →
  ∀ w, post (map_each xs f) w (λ r w', still w w' ∧ ∀ ys, r = Ok ys → Forall2 R xs ys).
Proof.
  induction xs as [|x xs IH]; intros Hf w; simpl; [apply post_ret; split; [done|]; intros ys [= <-]; constructor|].
  apply post_bind. eapply post_weaken; [apply Hf; set_solver|]. intros [y|e] w1 [Hs Hy]; [|done].
  apply post_bind. eapply post_weaken; [apply IH; set_solver|]. intros [ys|e] w2 [Hs2 Hys].
  - apply post_ret. split; [by eapply still_trans|]. intros ys' [= <-]. constructor; auto.
  - split; [by eapply still_trans|done].
Qed.
Lemma new_rows_observed d xs ys :
  NoDup (map c_id xs) → (∀ x, x ∈ xs → cl_children d !! c_id x = Some x) →
  Forall2 (λ x y, ∀ c', y = Some c' → evolves x c') xs ys → new_rows d (omap id ys).
Proof.
  intros Hnd Hin HF. induction HF as [|x y xs ys Hxy HF IH]; simpl; [by split; [constructor|set_solver]|].
  apply NoDup_cons in Hnd as [Hni Hnd]. destruct (IH Hnd) as [Hd Hl]; [set_solver|].
  destruct y as [c'|]; simpl; [|done]. pose proof (Hxy c' eq_refl) as Hev. pose proof (so_id _ _ (ev_same _ _ Hev)) as Hid. split.
  - simpl. constructor; [|done]. rewrite Hid. intros (c1 & E1 & Hc1)%list_elem_of_fmap. apply Hni. rewrite E1.
    clear -Hc1 HF. induction HF as [|x0 y0 xs ys Hxy HF IH]; simpl in Hc1; [set_solver|].
    destruct y0 as [c0|]; simpl in Hc1; [|right; auto]. apply elem_of_cons in Hc1 as [->|Hc1]; [|right; auto].
    rewrite (so_id _ _ (ev_same _ _ (Hxy c0 eq_refl))). by left.
  - intros c1 [->|Hc1]%elem_of_cons; [|auto]. exists x. rewrite Hid. split; [apply Hin; set_solver|done].
Qed.

Lemma evolves_evidence s q o e n c : s ≠ PLANNED → unsettled c → evolves c (put_evidence s q o e n c).
Proof. intros Hs Hu. by split. Qed.
Lemma post_evidence c g n w : CHILD_OPEN (c_state c) = true →
  post (evidence P c g n) w (λ r w', still w w' ∧ ∀ y, r = Ok y → ∀ c', y = Some c' → evolves c c').
Proof.
  intros Ho%open_not_terminal. assert (∀ s, observed_state s ≠ PLANNED) as Hobs.
  { intros s. unfold observed_state. destruct (broker_terminal s) as [t|] eqn:E; [|by repeat case_match].
    unfold broker_terminal, assoc in E. repeat case_match; simplify_eq; discriminate. }
  apply post_both; [apply silent_evidence|]. unfold evidence, legacy_evidence. destruct (c_prefix c) as [p|].
  - apply post_bind, post_any. intros [rows|e] w1; [|done]. apply post_bind, post_any. intros [q|e] w2; [|done].
    apply post_bind. eapply post_weaken with (Q := λ r _, ∀ s, r = Ok s → s ≠ PLANNED).
    + destruct (existsb _ _); [apply post_ret; intros s [= <-]; by destruct (existsb _ _)|].
      apply post_bind, post_any. intros [f|e] w3; [|done]. apply post_bind, post_any. intros [b|e] w4; [|done].
      apply post_ret. intros s [= <-]. destruct b; [|done]. destruct rows; [done|]. by destruct (flt _ _).
    + intros [s|e] w3 Hs; [|done]. apply post_ret. intros y [= <-] c'. destruct (_ && _); [done|]. intros [= <-].
      apply evolves_evidence; [by apply Hs|done].
  - apply post_bind, post_any. intros [rows|e] w1; [|done]. destruct rows as [|row [|? ?]]; [..|apply post_ret; naive_solver].
    + apply post_bind, post_any. intros [b|e] w2; [|done]. apply post_ret. intros y [= <-] c'. destruct b; [|done]. intros [= <-].
      by apply evolves_evidence.
    + apply post_bind, post_any. intros [q|e] w2; [|done]. apply post_ret. intros y [= <-] c'. destruct (_ && _); [done|].
      intros [= <-]. by apply evolves_evidence.
Qed.

Definition in_force (rc : Receipt) (d : closes) : list Child :=
  rc_children rc ++ filter (λ c, c_id c ∉ map c_id (rc_children rc)) (legacy_reduces (r_account (rc_run rc)) d).
Lemma post_in_force rc w (Q : res (list Child) → world → Prop) :
  Q (Ok (in_force rc (w_db w))) w → post (children_in_force rc) w Q.
Proof. done. Qed.
Lemma in_force_rows rc d : close_inv d → in_step rc d →
  let l := filter (λ c, CHILD_OPEN (c_state c) = true) (in_force rc d) in
  NoDup (map c_id l) ∧ ∀ c, c ∈ l → cl_children d !! c_id c = Some c.
Proof.
  intros Hd [_ Hnd Hrows] l. split.
  - eapply sublist_NoDup; [|apply fmap_sublist, sublist_filter]. unfold in_force.
    change (NoDup (c_id <$> rc_children rc ++ filter (λ c, c_id c ∉ map c_id (rc_children rc)) (legacy_reduces (r_account (rc_run rc)) d))).
    rewrite fmap_app. apply NoDup_app. split; [done|]. split.
    + intros id (c & -> & Hc)%list_elem_of_fmap (c' & E & Hc')%list_elem_of_fmap. apply list_elem_of_filter in Hc' as [Hn _].
      apply Hn. rewrite <-E. by apply list_elem_of_fmap_2.
    + eapply sublist_NoDup; [|apply fmap_sublist, sublist_filter]. apply NoDup_select. apply Hd.
  - intros c [Ho [Hc|[_ Hc]%list_elem_of_filter]%elem_of_app]%list_elem_of_filter; [by apply Hrows|].
    apply elem_of_select in Hc as [_ (k & Hk)]. by rewrite (ci_child_key _ Hd _ _ Hk).
Qed.

(** What an observation comes to: nothing written, or a new receipt. *)
Definition observed (root : string) (w : world) (r : res (option Receipt)) (w' : world) : Prop :=
  (run_moved w w' ∧ keeps_acting (w_db w) (w_db w')) ∧ w_sent w' = w_sent w ∧
  ∀ o, r = Ok o → match o with
    | None => still w w'
    | Some rc => r_id (rc_run rc) = root ∧ current rc (w_db w')
    end.
Lemma acting_still w w' : still w w' → keeps_acting (w_db w) (w_db w').
Proof. intros [-> _] root. done. Qed.
Lemma observed_still root w r w' : world_ok w → still w w' → r = Ok None ∨ (∃ e, r = Raise e) → observed root w r w'.
Proof.
  intros Hw Hs Hr. split; [split; [by apply still_moved|by apply acting_still]|]. split; [apply Hs|].
  intros o ->. by destruct Hr as [[= ->]|[e ?]].
Qed.
Lemma post_write_rows {A} (w0 w : world) (l : list A) (work : list A → M world unit) root :
  world_ok w0 → still w0 w → commits (work l) w (λ _ d', keeps_acting (w_db w) d') →
  post (match l with [] => mret None | a :: l' => tx (work (a :: l')) ;; r ← receipt_of root; mret (Some r) end) w (observed root w0).
Proof.
  intros Hw0 Hs Hc. assert (world_ok w) as Hw by by eapply still_ok.
  destruct l as [|a l]; [apply post_ret, observed_still; auto|].
  apply post_bind. eapply post_weaken; [by apply post_commits|]. intros r w2 (Hm2 & Hl2 & Ha).
  assert (run_moved w0 w2) as Hm3 by by eapply moved_from. assert (w_sent w2 = w_sent w0) as Hl by (rewrite Hl2; apply Hs).
  assert (keeps_acting (w_db w0) (w_db w2)) as Hact by (destruct Hs as [<- _]; destruct r; [done|by rewrite Ha; intros root']).
  destruct r as [[]|e]; [|done]. apply post_bind, post_receipt_of; [|done]. intros rc Hrc. apply post_ret. split; [done|]. split; [done|].
  intros o [= <-]. apply read_current; [apply Hm3|done].
Qed.
Lemma post_observe_children rc g n w : world_ok w → in_step rc (w_db w) →
  post (observe_children P rc g n) w (observed (r_id (rc_run rc)) w).
Proof.
  intros Hw Hin. unfold observe_children. apply post_bind, post_in_force.
  destruct (in_force_rows rc (w_db w) (wo_db _ Hw) Hin) as [Hnd Hrows].
  apply post_bind. eapply post_weaken; [apply (post_map_each _ _ (λ c y, ∀ c', y = Some c' → evolves c c'))|].
  - intros c w1 [Ho _]%list_elem_of_filter. by apply post_evidence.
  - intros [ys|e] w1 [Hs Hys]; [|apply observed_still; eauto].
    apply (post_write_rows w w1 _ (λ l, for_each l settle_child)); [done|done|]. destruct Hs as [Hdb _].
    apply (commits_rows true).
    + rewrite Hdb. apply Hw.
    + rewrite Hdb. by eapply new_rows_observed, Hys.
Qed.
Lemma post_late_fill n c w : post (late_fill P n c) w (λ r w', still w w' ∧ ∀ y, r = Ok y → ∀ c', y = Some c' → evolves c c').
Proof.
  apply post_both; [apply silent_late_fill|]. unfold late_fill. apply post_bind, post_any. intros [f|e] w1; [|done].
  apply post_ret. intros y [= <-] c'. destruct f as [f|]; [|done]. destruct (flt _ _); [|done]. intros [= <-]. by split.
Qed.
Lemma post_observe_late_fills rc n w : world_ok w → post (observe_late_fills P rc n) w (observed (r_id (rc_run rc)) w).
Proof.
  intros Hw. unfold observe_late_fills. apply post_bind, post_gets. apply post_bind.
  eapply post_weaken; [apply (post_map_each _ _ (λ c y, ∀ c', y = Some c' → evolves c c'))|].
  - intros c w1 _. apply post_late_fill.
  - intros [ys|e] w1 [Hs Hys]; [|apply observed_still; eauto].
    apply (post_write_rows w w1 _ (λ l, for_each l (λ c, stmt (update_child_in_tx c)))); [done|done|].
    destruct Hs as [Hdb _]. apply (commits_rows false).
    + rewrite Hdb. apply Hw.
    + rewrite Hdb. specialize (Hys ys eq_refl). eapply new_rows_observed, Hys.
      * apply NoDup_select, Hw.
      * intros c [_ (k & Hk)]%elem_of_select. by rewrite (ci_child_key _ (wo_db _ Hw) _ _ Hk).
Qed.
Lemma post_observe_again rc g w : world_ok w → in_step rc (w_db w) →
  post (observe_again P rc g) w (λ r w', run_moved w w' ∧ w_sent w' = w_sent w).
Proof.
  intros Hw Hin. unfold observe_again. apply post_bind, post_ask. intros w1 Hs.
  destruct (newest_generation P (w_calls w)) as [n|e]; [|by split; [apply still_moved|apply Hs]].
  apply post_bind. eapply post_weaken; [apply post_observe_children; [by eapply still_ok|by destruct Hs as [-> _]]|].
  intros [o|e] w2 ([Hm _] & Hl & _); [apply post_ret|]; (split; [by eapply moved_from|rewrite Hl; apply Hs]).
Qed.
Lemma post_observe_and_wait rc g w : world_ok w → in_step rc (w_db w) → post (observe_and_wait P rc g) w (λ _ w', run_moved w w').
Proof.
  intros Hw Hin. unfold observe_and_wait. apply post_bind. eapply post_weaken; [by apply post_observe_again|].
  intros [rc'|e] w1 [Hm _]; [|done]. eapply post_weaken; [apply keeps_wait, Hm|]. intros r w2. by apply moved_trans.
Qed.
End writes.
#[export] Hint Resolve plain_id plain_phase plain_remaining keeps_wait keeps_unavailable keeps_cleanup
   keeps_after_terminal : close.
