(* ===== verification/CloseDispatch.v ===== *)
(** * The orders of the close machine ([trader/trading/liquidation_service.py])

    Reserving the row of a call, the call itself, and the steps made of calls:
    cancels, reduces and the held terminal write. *)
From stdpp Require Import base tactics gmap list strings pretty.
From Stdlib Require Import ZArith Lia SpecFloat.
From S2P Require Import Prelude Py ExitOwner CloseStore Close CloseInv CloseRules CloseWrites.
Open Scope Z_scope.
Set Default Proof Using "Type".

Section dispatch.
Context {P : Ports}.

(** ** Dispatch *)
Lemma acts_record rc d : on_record rc d → acts (r_id (rc_run rc)) d →
  ∃ r, cl_runs d !! r_id (rc_run rc) = Some r ∧ same_close (rc_run rc) r ∧ open_run r.
Proof. intros (r & Hr & Hs) (r' & Hr' & Ho). simplify_eq. by exists r. Qed.

Lemma post_check root g w :
  post (check_dispatchable root g) w (λ r w', still w w' ∧ ∀ a, r = Ok a → acts root (w_db w)).
Proof.
  unfold check_dispatchable. apply post_bind, post_stmt. unfold get_run_in_tx, outcome, final. cbn.
  apply post_bind, post_stmt. unfold in_owners, get_in_tx, outcome, final. rewrite zoom_unfold. cbn.
  assert (still w (set_db (set_owners (cl_owners (w_db w)) (w_db w)) (set_db (w_db w) w))) as Hs by (split; simpl; [by destruct (w_db w)|done]).
  destruct (cl_runs (w_db w) !! root) as [r|] eqn:Hr; [|by apply post_raise].
  apply post_bind, post_require. destruct (negb _) eqn:E; [|done].
  assert (acts root (w_db w)) as Ha by (exists r; split; [done|]; unfold open_run; to_prop; tauto).
  destruct (cl_owners (w_db w) !! root); [|by apply post_raise].
  apply post_bind, post_require. destruct (bool_decide _); [|done]. apply post_require. by destruct (_ && _).
Qed.
Lemma post_unless_stale {A} (m : M world A) w Q : world_ok w → commits m w Q →
  post (unless_stale m) w (λ r w', run_moved w w' ∧ w_sent w' = w_sent w ∧
    match r with Ok (Some a) => Q a (w_db w') | _ => w_db w' = w_db w end).
Proof.
  intros Hw Hc. unfold unless_stale. apply post_try, post_bind. eapply post_weaken; [by apply post_commits|].
  intros [a|e] w1 (Hm & Hl & Hr); [by apply post_ret|]. by destruct e.
Qed.
Lemma post_reserve {A} rc (build : M world A) w Q : world_ok w →
  (∀ w1, still w w1 → acts (r_id (rc_run rc)) (w_db w) → commits build w1 Q) →
  post (reserve rc build) w (λ r w', run_moved w w' ∧ w_sent w' = w_sent w ∧
    match r with Ok (Some a) => Q a (w_db w') | _ => w_db w' = w_db w end).
Proof.
  intros Hw Hc. apply post_unless_stale; [done|]. unfold commits. apply post_bind. eapply post_weaken; [apply post_check|].
  intros [a|e] w1 [Hs Ha]; [|by split; [apply Hs|]]. eapply post_weaken; [by apply Hc, (Ha a)|].
  destruct Hs as [Hdb Hlog]. intros r w2 [Hl HQ]. rewrite Hl, <-Hdb. by split.
Qed.
Lemma post_dispatchable root g w : post (still_dispatchable root g) w
  (λ r w', still w w' ∧ ∀ b, r = Ok b → b = true → acts root (w_db w)).
Proof.
  unfold still_dispatchable, unless_stale. apply post_bind, post_try, post_bind, post_tx.
  eapply post_weaken; [apply post_check|]. intros [a|e] w1 [Hs Ha].
  - apply post_ret, post_ret. split; [done|]. intros b [= <-] _. by apply (Ha a).
  - destruct Hs as [_ Hl]. destruct e; try (by split). by apply post_ret, post_ret; split; [|intros b [= <-]].
Qed.

(** *** New rows *)
Definition inserted (c : Child) (d d' : closes) : Prop :=
  cl_children d !! c_id c = None ∧ d' = set_children <[c_id c := c]> d.
Definition made (rc : Receipt) (k : child_kind) (conid : Z) (s : child_state) (sd : option side) (q price : option float)
    (group target : option string) (c : Child) : Prop :=
  c_owner c = r_id (rc_run rc) ∧ c_account c = r_account (rc_run rc) ∧ c_kind c = k ∧ c_conid c = Some conid ∧ c_state c = s ∧
  c_side c = sd ∧ c_quantity c = q ∧ c_price c = price ∧ c_oca_group c = group ∧ c_target c = target.
(** No reduce of the position may be live. *)
Definition free (k : child_kind) (account : string) (i : Z) (d : closes) : Prop :=
  k = KIND_REDUCE → ∀ key c, cl_children d !! key = Some c → unsettled c → c_kind c = KIND_REDUCE →
    c_conid c = Some i → c_account c = account → False.

Lemma grows_inserted c d d' : inserted c d d' → grows d d'.
Proof.
  intros [Hf ->]. apply grows_children. intros k x Hx. exists x. split; [|done]. rewrite lookup_insert_ne; [done|]. congruence.
Qed.
Lemma commits_new_child rc k conid g s sd q price group target filled w :
  close_inv (w_db w) → on_record rc (w_db w) → acts (r_id (rc_run rc)) (w_db w) → covers (r_scope (rc_run rc)) conid →
  (s = PLANNED → k = KIND_TARGET) → free k (r_account (rc_run rc)) conid (w_db w) →
  commits (new_child rc k conid g s sd q price group target filled) w
    (λ c d', inserted c (w_db w) d' ∧ made rc k conid s sd q price group target c).
Proof.
  intros Hd Hrec Hact Hcov Hpl Hfree. destruct (acts_record _ _ Hrec Hact) as (r & Hr & [_ Hacc Hsco] & Hop).
  unfold commits, new_child. apply post_bind, post_gets, post_bind, post_require.
  destruct (child_id_valid _ _); [|done]. cbv zeta.
  set (c := mkChild _ _ _ _ _ _ _ _ _ _ _ _ _ _ _ _ _ _ _ _ _).
  apply post_bind, post_stmt. unfold insert_child_in_tx, child_in_tx, outcome, final. run.
  destruct (cl_children (w_db w) !! c_id c) as [x|] eqn:Hx; [done|]. cbn [bool_decide fst snd]. apply post_ret.
  split; [done|]. intros a [= <-]. assert (inserted c (w_db w) (set_children <[c_id c := c]> (w_db w))) as Hins by done.
  split; [|split; [by eapply grows_inserted|by split]].
  apply (inv_new_child (w_db w) c r conid); try done. by rewrite Hsco.
Qed.

(** The rows of several calls. *)
Record all_inserted (cs : list Child) (d d' : closes) : Prop := {
  ai_fresh c : c ∈ cs → cl_children d !! c_id c = None;
  ai_rows c : c ∈ cs → cl_children d' !! c_id c = Some c;
  ai_distinct : NoDup (map c_id cs);
  ai_rest k c : cl_children d !! k = Some c → cl_children d' !! k = Some c;
  ai_runs : cl_runs d' = cl_runs d;
}.
Lemma all_inserted_nil d : all_inserted [] d d.
Proof. split; set_solver || done || constructor. Qed.
Lemma all_inserted_cons c cs d d1 d' : inserted c d d1 → all_inserted cs d1 d' → all_inserted (c :: cs) d d'.
Proof.
  intros [Hf ->] [Hfr Hro Hnd Hre Hru]. simpl in *.
  assert (c_id c ∉ map c_id cs) as Hni.
  { intros (c' & E & Hc')%list_elem_of_fmap. specialize (Hfr c' Hc'). rewrite <-E in Hfr. by rewrite lookup_insert_eq in Hfr. }
  split; [| | |intros k x Hx|done].
  - intros c' [->|Hc']%elem_of_cons; [done|]. specialize (Hfr c' Hc'). destruct (decide (c_id c = c_id c')) as [E|E].
    + by rewrite E, lookup_insert_eq in Hfr.
    + by rewrite lookup_insert_ne in Hfr.
  - intros c' [->|Hc']%elem_of_cons; [|auto]. apply Hre. by rewrite lookup_insert_eq.
  - by constructor.
  - apply Hre. rewrite lookup_insert_ne; [done|congruence].
Qed.
Lemma commits_map_new {A} rc (xs : list A) (f : A → M world Child) (pre : A → closes → Prop) (R : A → Child → Prop) :
  (∀ x w, x ∈ xs → close_inv (w_db w) → on_record rc (w_db w) → acts (r_id (rc_run rc)) (w_db w) → pre x (w_db w) →
     commits (f x) w (λ c d', inserted c (w_db w) d' ∧ R x c)) →
  ForallOrdPairs (λ x y, ∀ c d d', R x c → inserted c d d' → pre y d → pre y d') xs →
  ∀ w, close_inv (w_db w) → on_record rc (w_db w) → acts (r_id (rc_run rc)) (w_db w) → (∀ x, x ∈ xs → pre x (w_db w)) →
  commits (map_each xs f) w (λ cs d', all_inserted cs (w_db w) d' ∧ Forall2 R xs cs).
Proof.
  intros Hf Hxs. induction xs as [|x xs IH]; intros w Hd Hrec Hact Hpre; simpl.
  { apply post_ret. split; [done|]. intros cs [= <-]. split; [done|]. split; [done|]. split; [apply all_inserted_nil|constructor]. }
  inversion Hxs as [|? ? Hx Hxs']; subst. unfold commits. apply post_bind.
  eapply post_weaken; [apply Hf; set_solver|]. intros [c|e] w1 [Hl1 Hc]; [|done].
  destruct (Hc c eq_refl) as (Hd1 & Hg1 & Hins & HR). apply post_bind. rewrite Forall_forall in Hx.
  assert (cl_runs (w_db w1) = cl_runs (w_db w)) as Hruns by (destruct Hins as [_ ->]; done).
  eapply post_weaken; [apply IH; try done|].
  - intros y w2 Hy. apply Hf. set_solver.
  - by eapply record_grows.
  - unfold acts. by rewrite Hruns.
  - intros y Hy. apply (Hx y) with c (w_db w); [done..|]. apply Hpre. set_solver.
  - intros [cs|e] w2 [Hl2 Hcs]; [|by split; [congruence|]]. apply post_ret. split; [congruence|]. intros cs' [= <-].
    destruct (Hcs cs eq_refl) as (Hd2 & Hg2 & Hai & HF). split; [done|]. split; [by etrans|].
    split; [by eapply all_inserted_cons|by constructor].
Qed.

(** *** The order itself *)
(** An order about to go out: its row is in the journal, and it never went out. *)
Record ready (root : string) (c : Child) (call : order_call) (w : world) : Prop := {
  rd_row : cl_children (w_db w) !! c_id c = Some c;
  rd_state : c_state c = UNKNOWN;
  rd_owner : c_owner c = root;
  rd_conid : is_Some (c_conid c);
  rd_call : row_of_call c call ∧ call_child call = c_id c;
  rd_new : once call → ∀ e, e ∈ w_sent w → call_child e.1 ≠ c_id c;
}.
Lemma log_append d l c call : close_inv d → log_ok d l → cl_children d !! c_id c = Some c → c_state c = UNKNOWN →
  acts (c_owner c) d → is_Some (c_conid c) → row_of_call c call → call_child call = c_id c →
  (once call → ∀ e, e ∈ l → call_child e.1 ≠ c_id c) → log_ok d (l ++ [(call, d)]).
Proof.
  intros Hd [Hs Hr Ho] Hc Hst (r & Hr0 & Hop) [i Hi] Hrow Hid Hnew. split.
  - intros e [He|E%list_elem_of_singleton]%elem_of_app; [by apply Hs|]. subst e. split; [done|]. exists c, r. simpl. rewrite Hid.
    split_and!; try done. destruct (ci_watched d Hd _ c i Hc) as (r' & Hr' & Ha & _); [unfold unsettled; by rewrite Hst|done|].
    by simplify_eq.
  - intros e [He|E%list_elem_of_singleton]%elem_of_app; [by apply Hr|]. subst e. exists c. simpl. rewrite Hid. split; [done|apply Hrow].
  - assert (∀ e, e ∈ l → call_child e.1 = call_child call → once e.1 → False) as Hfresh.
    { intros e He E Hon. destruct (Hr e He) as (c' & Hc' & Hk). rewrite E, Hid, Hc in Hc'. simplify_eq.
      destruct Hrow as [Hk' _]. apply (Hnew) with e; [unfold once in *; congruence|done|congruence]. }
    intros i1 i2 e1 e2 [H1|[Hi1 H1]]%lookup_app_Some [H2|[Hi2 H2]]%lookup_app_Some E Hon.
    + by apply (Ho i1 i2 e1 e2).
    + apply list_elem_of_lookup_2 in H1. apply list_elem_of_lookup_2, list_elem_of_singleton in H2 as ->. by destruct (Hfresh e1).
    + apply list_elem_of_lookup_2 in H2. apply list_elem_of_lookup_2, list_elem_of_singleton in H1 as ->.
      destruct (Hfresh e2 H2); [done|]. destruct (Hr e2 H2) as (c' & Hc' & Hk). simpl in E. rewrite <-E, Hid, Hc in Hc'. simplify_eq.
      destruct Hrow as [Hk' _]. unfold once in *. simpl in Hon. congruence.
    + apply lookup_lt_Some in H1, H2. simpl in *. lia.
Qed.

(** Only the row of [c] run_moved on. *)
Record touches (c : Child) (w w' : world) : Prop := {
  to_moved : run_moved w w';
  to_runs : cl_runs (w_db w') = cl_runs (w_db w);
  to_others k : k ≠ c_id c → cl_children (w_db w') !! k = cl_children (w_db w) !! k;
}.
Lemma touches_still c w w' : world_ok w → still w w' → touches c w w'.
Proof. intros Hw Hs. split; [by apply still_moved|by destruct Hs as [-> _]|]. by destruct Hs as [-> _]. Qed.
Lemma touches_trans c w1 w2 w3 : touches c w1 w2 → touches c w2 w3 → touches c w1 w3.
Proof. intros [] []. split; [by eapply moved_trans|congruence|]. intros k Hk. rewrite to_others1, to_others0; done. Qed.
Lemma touches_update c c' w m : world_ok w → m = tx (stmt (update_child_in_tx c')) → c_id c' = c_id c →
  (∃ c0, cl_children (w_db w) !! c_id c = Some c0 ∧ evolves c0 c') → post m w (λ r w', touches c w w' ∧ w_sent w' = w_sent w).
Proof.
  intros Hw -> Hid (c0 & Hc0 & Hev). rewrite <-Hid in Hc0. destruct (update_row_ok _ _ _ (wo_db _ Hw) Hc0 Hev) as [Hd Hg].
  eapply post_weaken; [apply (post_commits _ _ (λ _ d', d' = set_children (alter (λ _, c') (c_id c')) (w_db w))); [done|]|].
  - apply post_stmt. unfold outcome, final. cbn. by split.
  - intros [a|e] w1 (Hm & Hl & HQ); (split; [|done]); (split; [done|by rewrite HQ|]); intros k Hk; rewrite HQ; [|done].
    simpl. rewrite lookup_alter_ne; [done|congruence].
Qed.

Lemma post_transmit call w (Q : res unit → world → Prop) :
  (∀ r w', w_db w' = w_db w → w_sent w' = w_sent w ++ [(call, w_db w)] → Q r w') → post (transmit P call) w Q.
Proof. intros H. by apply H. Qed.

Definition sends (call : order_call) (c : Child) (w w' : world) : Prop :=
  touches c w w' ∧ ∀ e, e ∈ w_sent w' → e ∈ w_sent w ∨ e.1 = call.
Lemma post_mark_child c w : world_ok w → cl_children (w_db w) !! c_id c = Some c →
  post (mark c NOT_SENT) w (λ _ w', touches c w w' ∧ w_sent w' = w_sent w).
Proof. intros Hw Hc. by apply (touches_update c (with_child_state NOT_SENT c)); [..|exists c]. Qed.
Lemma post_fence c call f w w1 : sends call c w w1 →
  post (tx (current ← stmt (child_in_tx (c_id c)); x ← need current; stmt (update_child_in_tx (with_sent f x)))) w1
    (λ _ w', sends call c w w').
Proof.
  intros [Ht Hlog]. assert (world_ok w1) as Hw by apply (to_moved _ _ _ Ht).
  eapply post_weaken; [apply (post_commits _ _ (λ _ d', cl_runs d' = cl_runs (w_db w1) ∧
    ∀ k, k ≠ c_id c → cl_children d' !! k = cl_children (w_db w1) !! k)); [done|]|].
  - apply post_bind, post_stmt. unfold child_in_tx, outcome, final. cbn. apply post_bind. unfold need.
    destruct (cl_children (w_db w1) !! c_id c) as [x|] eqn:Hx; [|by apply post_raise]. apply post_ret, post_stmt.
    unfold outcome, final. cbn. split; [done|]. intros _ _. pose proof (ci_child_key _ (wo_db _ Hw) _ _ Hx) as Hid. rewrite Hid.
    destruct (update_row_ok (w_db w1) x (with_sent f x) (wo_db _ Hw)) as [Hd Hg]; [simpl; by rewrite Hid|by split|].
    simpl in Hd, Hg. rewrite Hid in Hd, Hg. split; [done|]. split; [done|]. split; [done|]. intros k Hk. simpl. by rewrite lookup_alter_ne.
  - intros r w2 (Hm & Hl & HQ). split; [|by rewrite Hl]. eapply touches_trans; [done|]. destruct r as [a|e].
    + by split; [|apply HQ..].
    + split; [done|by rewrite HQ|by rewrite HQ].
Qed.
Lemma post_send rc c call w : world_ok w → ready (r_id (rc_run rc)) c call w →
  post (send P rc c call) w (λ _ w', sends call c w w').
Proof.
  intros Hw Hrd. unfold send. apply post_bind. eapply post_weaken; [apply post_dispatchable|].
  intros [b|e] w1 [Hs Hact]; [|by split; [apply touches_still|destruct Hs as [_ ->]; auto]].
  assert (world_ok w1) as Hw1 by by eapply still_ok.
  assert (sends call c w w1) as Hs1 by (split; [by apply touches_still|destruct Hs as [_ ->]; auto]).
  assert (cl_children (w_db w1) !! c_id c = Some c) as Hc1 by (destruct Hs as [-> _]; apply Hrd).
  destruct b; cbn [negb].
  - specialize (Hact true eq_refl eq_refl).
    assert (∀ w', w_db w' = w_db w1 → w_sent w' = w_sent w1 ++ [(call, w_db w1)] → world_ok w' ∧ sends call c w w') as Hsent.
    { intros w' Hdb Hlog. destruct Hs as [E1 E2]. rewrite E1 in Hdb. rewrite E1, E2 in Hlog. assert (world_ok w') as Hw'.
      - split; rewrite Hdb; [apply Hw|]. rewrite Hlog. destruct Hrd. destruct rd_call0. apply (log_append _ _ c); try done; [apply Hw|apply Hw|]. by rewrite rd_owner0.
      - split; [done|]. split; [split; [split; [done|by rewrite Hdb]|by rewrite Hdb|by rewrite Hdb]|].
        intros e. rewrite Hlog, elem_of_app, list_elem_of_singleton. intros [?| ->]; auto. }
    apply post_bind, post_try, post_bind, post_transmit. intros r w2 Hdb Hlog. destruct (Hsent w2 Hdb Hlog) as [Hw2 Hs2].
    assert (post (fence ← except (n ← ask (newest_generation P); mret (Some n)) (λ _, mret None);
       match (fence : option Z) with
       | None => mret None
       | Some f => tx (current ← stmt (child_in_tx (c_id c)); x ← need current; stmt (update_child_in_tx (with_sent f x))) ;;
                   mret (None : option string)
       end) w2 (λ _ w', sends call c w w')) as Hfence.
    { apply post_bind. eapply post_weaken; [apply (silent_except (n ← ask (newest_generation P); mret (Some n))); asks|].
      intros [f|e] w3 [Hdb3 Hlog3]; (assert (sends call c w w3) as Hs3 by
        (destruct Hs2 as [[] ?]; split; [|by rewrite Hlog3]; split; [|by rewrite Hdb3..]; destruct to_moved0; split; [|by rewrite Hdb3];
         by eapply (still_ok w2))); [|done].
      destruct f as [f|]; [|by apply post_ret]. apply post_bind. eapply post_weaken; [by apply (post_fence c call f w w3)|].
      by intros [a|e] w4 H4. }
    destruct r as [[]|e]; [by apply post_ret|].
    destruct e; try done; try by apply post_ret.
    apply post_bind. eapply post_weaken; [apply (post_mark_child c w2); [done|by rewrite Hdb]|].
    intros r w3 [Ht3 Hl3]. assert (sends call c w w3) as Hs3 by (destruct Hs2; split; [by eapply touches_trans|by rewrite Hl3]).
    destruct r; [by apply post_ret, post_ret|done].
  - apply post_bind. eapply post_weaken; [by apply post_mark_child|]. intros r w2 [Ht2 Hl2].
    assert (sends call c w w2) as Hs2 by (destruct Hs1; split; [by eapply touches_trans|by rewrite Hl2]).
    by destruct r.
Qed.

Lemma post_sends {A} rc (call : Child → A → order_call) (l : list (Child * A)) w :
  world_ok w → NoDup (map (λ cx, c_id cx.1) l) → (∀ cx, cx ∈ l → ready (r_id (rc_run rc)) cx.1 (call cx.1 cx.2) w) →
  post (for_each l (λ cx, send P rc cx.1 (call cx.1 cx.2) ;; mret tt)) w (λ _ w', run_moved w w').
Proof.
  revert w. induction l as [|[c x] l IH]; intros w Hw Hnd Hrd; simpl; [by apply post_ret, moved_refl|].
  apply NoDup_cons in Hnd as [Hni Hnd]. pose proof (Hrd (c, x)) as Hrd1. simpl in Hrd1.
  apply post_bind, post_bind. eapply post_weaken; [apply post_send; [done|apply Hrd1; set_solver]|].
  intros [o|e] w1 [[Hm Hru Hot] Hlog]; [|done]. apply post_ret. eapply post_weaken; [apply IH; [apply Hm|done|]|].
  - intros [c' x'] Hin. specialize (Hrd (c', x')). simpl in *. assert (c_id c' ≠ c_id c) as Hne.
    { intros E. apply Hni. apply list_elem_of_fmap. by exists (c', x'). }
    destruct Hrd as [Hr1 Hr2 Hr3 Hr4 Hr5 Hr6]; [set_solver|]. split; try done; [by rewrite Hot|].
    intros Ho e [He|E]%Hlog; [by apply Hr6|]. rewrite E. destruct (Hrd1 ltac:(set_solver)) as [_ _ _ _ [_ ->] _]. congruence.
  - intros r w2. by apply moved_trans.
Qed.
Lemma made_ready rc cs w w' k i sd q price group target c call :
  world_ok w → all_inserted cs (w_db w) (w_db w') → w_sent w' = w_sent w → c ∈ cs →
  made rc k i UNKNOWN sd q price group target c → row_of_call c call → call_child call = c_id c →
  ready (r_id (rc_run rc)) c call w'.
Proof.
  intros Hw [Hf Hr _ _ _] Hl Hc (Ho & _ & _ & Hi & Hs & _) Hrow Hid.
  split; [by apply Hr|done|done|by rewrite Hi|done|]. intros _ e He E. rewrite Hl in He.
  destruct (lo_row _ _ (wo_log _ Hw) e He) as (c' & Hc' & _). rewrite E, Hf in Hc'; done.
Qed.
Lemma zip_ids {A} (cs : list Child) (xs : list A) : NoDup (map c_id cs) → NoDup (map (λ cx : Child * A, c_id cx.1) (zip cs xs)).
Proof.
  revert xs. induction cs as [|c cs IH]; intros [|x xs] Hnd; simpl; try constructor.
  - apply NoDup_cons in Hnd as [Hni _]. intros (cx & E & Hin)%list_elem_of_fmap. apply Hni. rewrite E. simpl.
    apply list_elem_of_fmap_2. destruct cx as [c' x']. apply list_elem_of_lookup in Hin as (i & Hi).
    apply lookup_zip_with_Some in Hi as (a & b & [= -> ->] & Ha & _). by apply list_elem_of_lookup_2 in Ha.
  - apply IH. by apply NoDup_cons in Hnd as [_ ?].
Qed.
Lemma elem_of_zip {A B} (R : A → B → Prop) xs ys c : Forall2 R xs ys → c ∈ zip ys xs → c.1 ∈ ys ∧ c.2 ∈ xs ∧ R c.2 c.1.
Proof.
  intros HF (i & Hi)%list_elem_of_lookup. apply lookup_zip_with_Some in Hi as (y & x & -> & Hy & Hx). simpl.
  split; [by eapply list_elem_of_lookup_2|]. split; [by eapply list_elem_of_lookup_2|]. by eapply Forall2_lookup_lr.
Qed.

(** A step that hands a receipt on. *)
Definition goes_on (rc : Receipt) (w : world) (r : res Receipt) (w' : world) : Prop :=
  run_moved w w' ∧ ∀ rc', r = Ok rc' → same_close (rc_run rc) (rc_run rc') ∧ current rc' (w_db w').
Lemma same_run rc rc' w w' : world_ok w' → on_record rc (w_db w) → grows (w_db w) (w_db w') →
  read_receipt (r_id (rc_run rc)) (w_db w') = Some rc' → same_close (rc_run rc) (rc_run rc') ∧ current rc' (w_db w').
Proof.
  intros Hw Hrec Hg Hrd. destruct (record_grows _ _ _ Hrec Hg) as (r & Hr & Hs).
  destruct (read_current _ _ _ (wo_db _ Hw) Hrd) as [Hid Hcur]. split; [|done].
  unfold read_receipt in Hrd. rewrite Hr in Hrd. by injection Hrd as <-.
Qed.
Lemma post_fetch rc w0 w : on_record rc (w_db w0) → run_moved w0 w → post (receipt_of (r_id (rc_run rc))) w (goes_on rc w0).
Proof.
  intros Hrec [Hw Hg]. apply post_receipt_of; [|by split]. intros rc' Hrd. split; [done|]. intros rc0 [= <-].
  by apply (same_run rc rc' w0 w).
Qed.

Lemma post_send_cancels rc g targets w : world_ok w → current rc (w_db w) →
  (∀ t, t ∈ targets → covers (r_scope (rc_run rc)) (t_conid t)) → post (send_cancels P rc g targets) w (goes_on rc w).
Proof.
  intros Hw Hcur Hcov. pose proof (current_record _ _ Hcur) as Hrec.
  destruct targets as [|t ts]; [apply post_ret; split; [by apply moved_refl|]; by intros rc' [= <-]|].
  unfold send_cancels. set (targets := t :: ts) in *. apply post_bind.
  eapply post_weaken; [apply (post_reserve _ _ _ (λ cs d', all_inserted cs (w_db w) d' ∧ Forall2 (λ t c,
    made rc KIND_CANCEL (t_conid t) UNKNOWN None None None None (Some (t_entity t)) c) targets cs)); [done|]|].
  - intros w1 [Hdb _] Hact. rewrite <-Hdb in *. apply (commits_map_new rc _ _ (λ _ _, True)); try done.
    + intros x w2 Hx Hd2 Hrec2 Hact2 _. apply commits_new_child; auto; try done.
    + clear. induction targets; constructor; [|done]. by apply Forall_true.
    + rewrite Hdb. apply Hw.
  - intros [o|e] w1 (Hm & Hl & Ho); [|by split]. destruct o as [cs|]; simpl.
    + destruct Ho as [Hai HF]. apply post_bind. eapply post_weaken.
      * apply (post_sends rc (λ c t, call_cancel (t_entity t) (c_id c))); [apply Hm|apply zip_ids, Hai|].
        intros cx Hin. destruct (elem_of_zip _ _ _ _ HF Hin) as (Hc & _ & Hmade).
        eapply made_ready; try done. destruct Hmade as (_ & _ & Hk & _ & _ & _ & _ & _ & _ & Ht). by split.
      * intros [[]|e] w2 Hm2; [|by split; [eapply moved_trans|]]. apply post_fetch; [done|by eapply moved_trans].
    + apply post_bind, post_ret. by apply post_fetch.
Qed.

(** ** Reduces, and the end of a close *)
Lemma cancel_targets_conid rc orders i : (∀ o, o ∈ orders → bo_conid o = i) →
  ∀ t, t ∈ cancel_targets rc orders (Some i) → t_conid t = i.
Proof.
  intros Ho t. unfold cancel_targets. intros [_ ([n t'] & -> & Hin)%list_elem_of_fmap]%list_elem_of_filter. simpl.
  set (good := λ l : list (string * target), ∀ nt, nt ∈ l → t_conid nt.2 = i).
  assert (∀ ts l, good l → (∀ x, x ∈ ts → t_conid x = i) →
    good (fold_left (λ found x, match assoc (t_entity x) found with Some _ => found | None => found ++ [(t_entity x, x)] end) ts l)) as Hadd.
  { induction ts as [|x ts IH]; intros l Hl Hts; simpl; [done|]. apply IH; [|set_solver]. destruct (assoc _ l); [done|].
    intros nt [?|E%list_elem_of_singleton]%elem_of_app; [by apply Hl|]. subst nt. apply Hts. set_solver. }
  assert (∀ k x l, good l → t_conid x = i → good (assoc_set k x l)) as Hset.
  { intros k x l. induction l as [|[k' x'] l IH]; simpl; intros Hl Hx nt.
    - intros E%list_elem_of_singleton. by subst.
    - destruct (String.eqb k k'); intros [->|Hnt]%elem_of_cons; [done|apply Hl; set_solver|apply Hl; set_solver|].
      apply IH; [|done|done]. intros y Hy. apply Hl. set_solver. }
  assert (∀ os l, good l → (∀ o, o ∈ os → bo_conid o = i) → good (fold_left (λ found o, assoc_set (bo_entity o) (order_target o) found) os l)) as Hlist.
  { induction os as [|o os IH]; intros l Hl Hos; simpl; [done|]. apply IH; [|set_solver]. apply Hset; [done|]. apply Hos. set_solver. }
  refine (Hadd _ _ (Hlist orders [] _ Ho) _ (n, t') Hin); [intros nt Hnt; set_solver|]. intros x (c & Hc & Hx)%list_elem_of_omap.
  unfold leg_target in Hx. destruct (c_order c), (c_conid c) as [j|]; try done. destruct (_ && _) eqn:E; [|done]. injection Hx as <-.
  to_prop. done.
Qed.
Lemma covers_targets rc orders : (match r_scope (rc_run rc) with SCOPE_ACCOUNT => True | SCOPE_CONID i => ∀ o, o ∈ orders → bo_conid o = i end) →
  ∀ t, t ∈ cancel_targets rc orders (scope_conid (r_scope (rc_run rc))) → covers (r_scope (rc_run rc)) (t_conid t).
Proof.
  destruct (r_scope (rc_run rc)) as [|i]; simpl; [done|]. intros Ho t Ht. symmetry. by eapply cancel_targets_conid.
Qed.

Lemma post_blocking rc g w : current rc (w_db w) →
  post (blocking P rc g) w (λ r w', still w w' ∧ (r = Ok false → quiet (r_id (rc_run rc)) (w_db w))).
Proof.
  intros Hcur. apply post_both; [apply silent_blocking|]. unfold blocking. apply post_bind, post_in_force.
  destruct (existsb _ _) eqn:E; [by apply post_ret|]. apply post_any. intros r w' _ k c i Hc Ho Hi.
  apply not_true_is_false. intros Hop. apply not_true_iff_false in E. apply E, existsb_exists. exists c. split; [|done].
  apply list_elem_of_In. unfold in_force. apply elem_of_app. left. apply (current_children _ _ _ Hcur). split; [done|]. by exists k.
Qed.
Lemma quiet_free rc d i k : close_inv d → on_record rc d → acts (r_id (rc_run rc)) d → covers (r_scope (rc_run rc)) i →
  quiet (r_id (rc_run rc)) d → free k (r_account (rc_run rc)) i d.
Proof.
  intros Hd Hrec Hact Hcov Hq _ key c Hc Hu Hk Hi Ha. destruct (acts_record _ _ Hrec Hact) as (r & Hr & [_ Hacc Hsco] & Hop).
  assert (c_owner c = r_id (rc_run rc)) as Ho by (eapply (watched_by_open d key); try done; [congruence|by rewrite Hsco]).
  destruct (unsettled_cases c Hu) as [Hopen|Hpl]; [by rewrite (Hq key c i) in Hopen|].
  pose proof (ci_planned d Hd key c Hc Hpl) as [? _]. congruence.
Qed.
Lemma free_inserted k a i j c d d' : c_conid c = Some j → j ≠ i → inserted c d d' → free k a i d → free k a i d'.
Proof.
  intros Hj Hne [Hf ->] Hfree Hk key c' Hc' Hu Hk' Hi Ha. simpl in Hc'.
  apply lookup_insert_Some in Hc' as [[<- <-]|[_ Hc']]; [congruence|].
  by apply (Hfree Hk key c').
Qed.
Lemma distinct_pairs {A} (key : A → Z) (R : A → A → Prop) l : NoDup (map key l) → (∀ x y, key x ≠ key y → R x y) → ForallOrdPairs R l.
Proof.
  intros Hnd HR. induction l as [|x l IH]; constructor; [|apply IH; by apply NoDup_cons in Hnd as [_ ?]].
  apply NoDup_cons in Hnd as [Hni _]. apply Forall_forall. intros y Hy. apply HR. intros E. apply Hni. rewrite E.
  by apply list_elem_of_fmap_2.
Qed.

Lemma post_submit_reduces rc g positions partial w : world_ok w → on_record rc (w_db w) → quiet (r_id (rc_run rc)) (w_db w) →
  NoDup (map po_conid positions) → (∀ p, p ∈ positions → covers (r_scope (rc_run rc)) (po_conid p)) →
  post (submit_reduces P rc g positions partial) w (λ _ w', run_moved w w').
Proof.
  intros Hw Hrec Hq Hnd Hcov. unfold submit_reduces. cbv zeta. apply post_bind.
  eapply post_weaken; [apply (post_reserve _ _ _ (λ cs d', all_inserted cs (w_db w) d' ∧ Forall2 (λ p c,
    made rc KIND_REDUCE (po_conid p) UNKNOWN (Some (reducing_side (po_quantity p))) (Some (default (fabs (po_quantity p)) partial))
      None None None c) positions cs)); [done|]|].
  - intros w1 [Hdb _] Hact. rewrite <-Hdb in *. apply (commits_map_new rc _ _ (λ p, free KIND_REDUCE (r_account (rc_run rc)) (po_conid p))); try done.
    + intros p w2 Hp Hd2 Hrec2 Hact2 Hfree. apply commits_new_child; auto; try done.
    + apply (distinct_pairs po_conid); [done|]. intros p p' Hne c d d' (_ & _ & _ & Hi & _). by apply (free_inserted _ _ _ (po_conid p)).
    + rewrite Hdb. apply Hw.
    + intros p Hp. apply quiet_free; auto. rewrite Hdb. apply Hw.
  - intros [o|e] w1 (Hm & Hl & Ho); [|done]. destruct o as [cs|].
    + destruct Ho as [Hai HF]. apply post_bind. eapply post_weaken; [apply post_set_run; [apply Hm|done|]|].
      { destruct (r_scope _); auto with close. }
      intros [rc'|e] w2 (Hm2 & Hl2 & Hch2 & Hrc'); [|by eapply moved_trans]. destruct (Hrc' rc' eq_refl) as [Hid' _].
      apply post_bind. eapply post_weaken.
      * apply (post_sends rc' (λ c p, (match partial with None => call_reduce | Some _ => call_reduce_partial end) (po_conid p)
          (reducing_side (po_quantity p)) (default (fabs (po_quantity p)) (c_quantity c)) (c_id c))); [apply Hm2|apply zip_ids, Hai|].
        intros [c p] Hin. destruct (elem_of_zip _ _ _ _ HF Hin) as (Hc & _ & Hmade). simpl in *. rewrite Hid'.
        pose proof Hmade as (_ & _ & Hk & Hi & _ & Hsd & Hqu & _).
        assert (ready (r_id (rc_run rc)) c ((match partial with None => call_reduce | Some _ => call_reduce_partial end) (po_conid p)
          (reducing_side (po_quantity p)) (default (fabs (po_quantity p)) (c_quantity c)) (c_id c)) w1) as [].
        { eapply made_ready; try done; [|by destruct partial]. rewrite Hqu. simpl. destruct partial; by split_and!. }
        split; try done; [by rewrite Hch2|by rewrite Hl2].
      * intros [[]|e] w3 Hm3; [|by do 2 (eapply moved_trans; [done|])].
        apply post_bind. eapply post_weaken; [apply silent_receipt_of|]. intros [r|e] w4 Hs4;
          (assert (run_moved w w4) as Hm4 by (do 3 (eapply moved_trans; [done|]); apply still_moved; [apply Hm3|done])); [|done].
        eapply post_weaken; [apply keeps_wait, Hm4|]. intros r' w5. by apply moved_trans.
    + eapply post_weaken; [apply silent_receipt_of|]. intros r w2 Hs. eapply moved_trans; [done|]. apply still_moved; [apply Hm|done].
Qed.

Lemma post_changed rc g changed w : world_ok w → in_step rc (w_db w) → (∀ sn, silent (changed sn)) →
  post (changed_under_hold P rc g changed) w (λ r w', run_moved w w' ∧ (r = Ok false → still w w')).
Proof.
  intros Hw Hin Hch. unfold changed_under_hold. apply post_except.
  eapply post_weaken with (Q := λ r w', run_moved w w' ∧ (r = Ok false → still w w')).
  2: { intros [b|e] w' Hb; [done|]. split; [by split; [apply Hb|]|apply post_ret; by split; [apply Hb|]]. }
  apply post_bind, post_ask. intros w1 Hs1. destruct (capture P _ _) as [sn|e]; [|by split; [apply still_moved|]].
  destruct (negb _); [by apply post_ret; split; [apply still_moved|]|].
  apply post_bind, post_ask. intros w2 Hs2. assert (still w w2) as Hs by by eapply still_trans. clear Hs1 Hs2.
  destruct (newest_generation P _) as [n|e]; [|by split; [apply still_moved|]].
  apply post_bind. eapply post_weaken; [apply post_observe_children; [by eapply still_ok|by destruct Hs as [-> _]]|].
  intros [o|e] w3 ([Hm3 _] & _ & Ho); [|by split; [eapply moved_from|]]. specialize (Ho o eq_refl).
  apply post_bind. eapply post_weaken; [apply post_observe_late_fills, Hm3|].
  intros [l|e] w4 ([Hm4 _] & _ & Hl); [|by split; [eapply moved_from, moved_trans|]]. specialize (Hl l eq_refl).
  assert (run_moved w w4) as Hm by (eapply moved_from, moved_trans; done).
  destruct o as [rc'|], l as [rc''|]; try by apply post_ret.
  assert (still w w4) as Hs4 by by do 2 (eapply still_trans; [done|]).
  apply post_bind. eapply post_weaken; [apply silent_fresh|]. intros [b|e] w5 Hs5; [|by split; [eapply still_moved, still_trans|]].
  assert (still w w5) as Hs' by by eapply still_trans. destruct (negb b); [by apply post_ret; split; [apply still_moved|]|].
  eapply post_weaken; [apply Hch|]. intros r w6 Hs6. assert (still w w6) as Hs'' by by eapply still_trans.
  by split; [apply still_moved|].
Qed.
Lemma post_finish_held rc s g f changed w : world_ok w → in_step rc (w_db w) → (∀ sn, silent (changed sn)) →
  RESCAN_TERMINAL s = true → plain_write f → inheritable s = true ∨ quiet (r_id (rc_run rc)) (w_db w) →
  post (finish_held P rc s g f changed) w (λ _ w', run_moved w w').
Proof.
  intros Hw Hin Hch Hs Hf Hq. unfold finish_held. apply post_bind.
  eapply post_weaken with (Q := λ _ w', run_moved w w').
  - unfold held. apply post_try.
    eapply post_weaken with (Q := λ _ w', run_moved w w').
    + apply post_bind, post_ask. intros w1 Hs1. destruct (hold_broker_changes P _); [|by apply still_moved].
      apply post_bind, post_bind. eapply post_weaken; [apply post_changed; [by eapply still_ok|by destruct Hs1 as [-> _]|done]|].
      intros [b|e] w2 [Hm2 Hb]; [|by eapply moved_from]. destruct b; [by apply post_ret, post_ret; eapply moved_from|].
      assert (still w w2) as Hs2 by by eapply still_trans, Hb.
      apply post_bind. eapply post_weaken; [apply post_commit_terminal; [by eapply still_ok|done|done|by destruct Hs2 as [-> _]]|].
      intros [[]|e] w3 Hm3; [apply post_ret, post_ret|]; by eapply moved_from.
    + intros [b|e] w1 Hm; [done|]. by destruct e.
  - intros [b|e] w1 Hm; [|done]. destruct b as [[]|].
    + eapply post_weaken; [apply keeps_after_terminal, Hm|]. intros r w2. by apply moved_trans.
    + eapply post_weaken; [apply keeps_wait, Hm|]. intros r w2. by apply moved_trans.
    + eapply post_weaken; [apply keeps_wait, Hm|]. intros r w2. by apply moved_trans.
Qed.
End dispatch.
