(* ===== verification/CloseStep.v ===== *)
(** * The steps of a root ([trader/trading/liquidation_service.py])

    [advance_account] and [advance_conid], every branch of each. *)
From stdpp Require Import base tactics gmap list strings pretty.
From Stdlib Require Import ZArith Lia SpecFloat.
From S2P Require Import Prelude Py ExitOwner CloseStore Close CloseInv CloseRules CloseWrites CloseDispatch.
Open Scope Z_scope.

Section step.
Context {P : Ports}.

(** ** The step of an account *)
(** What the captured snapshots are: a contract has one row. *)
Definition one_row_each (sn : Snapshot) : Prop := NoDup (map po_conid (sn_positions sn)).

Lemma tail_keeps {A} (m : M world A) w0 w : keeps m → run_moved w0 w → post m w (λ _ w', run_moved w0 w').
Proof. intros Hk Hm. eapply post_weaken; [apply Hk, Hm|]. intros r w'. by apply moved_trans. Qed.
Lemma tail_moved {A} (m : M world A) w0 w : run_moved w0 w → post m w (λ _ w', run_moved w w') → post m w (λ _ w', run_moved w0 w').
Proof. intros Hm H. eapply post_weaken; [exact H|]. intros r w'. by apply moved_trans. Qed.
Lemma scope_of rc rc' : same_close (rc_run rc) (rc_run rc') → r_scope (rc_run rc') = r_scope (rc_run rc) ∧ r_id (rc_run rc') = r_id (rc_run rc).
Proof. by intros []. Qed.

(** A silent prefix, then the rest from the same database. *)
Lemma post_silent {A B} (m : M world A) (k : A → M world B) w0 w (Q : res B → world → Prop) : silent m → still w0 w →
  (∀ a w1, still w0 w1 → post (k a) w1 Q) → (∀ e w1, still w0 w1 → Q (Raise e) w1) → post (m ≫= k) w Q.
Proof.
  intros Hm Hs Hk He. apply post_bind. eapply post_weaken; [apply Hm|]. intros [a|e] w1 Hs1; [apply Hk|apply He]; by eapply still_trans.
Qed.

Lemma post_set_goes rc s g f w : world_ok w → on_record rc (w_db w) → RESCAN_TERMINAL s = false → plain_write f →
  post (set_run P rc s g f) w (goes_on rc w).
Proof.
  intros Hw Hrec Hs Hf. eapply post_weaken; [by apply post_set_run|]. intros r w1 (Hm & _ & _ & Hrc). split; [done|].
  intros rc' ->. destruct (Hrc rc' eq_refl) as [Hid Hcur]. apply (same_run rc rc' w w1); try apply Hm; [done|].
  unfold current in Hcur. by rewrite <-Hid.
Qed.
Lemma goes_on_here rc w0 w : run_moved w0 w → current rc (w_db w) → post (mret rc) w (goes_on rc w0).
Proof. intros Hm Hc. apply post_ret. split; [done|]. intros rc' [= <-]. by split. Qed.
Lemma goes_on_trans rc rc1 w0 w1 r w2 : run_moved w0 w1 → same_close (rc_run rc) (rc_run rc1) → goes_on rc1 w1 r w2 → goes_on rc w0 r w2.
Proof.
  intros Hm Hs [Hm2 Hrc]. split; [by eapply moved_trans|]. intros rc' E. destruct (Hrc rc' E) as [Hs' Hcur]. split; [by etrans|done].
Qed.
Lemma goes_on_still rc w0 w1 r w2 : still w0 w1 → goes_on rc w1 r w2 → goes_on rc w0 r w2.
Proof. intros Hs [Hm Hrc]. split; [by eapply moved_from|done]. Qed.

Definition positions_of (sn : Snapshot) : list Position := filter (λ p, feq (po_quantity p) fzero = false) (sn_positions sn).
Lemma positions_distinct sn : one_row_each sn → NoDup (map po_conid (positions_of sn)).
Proof. intros H. eapply sublist_NoDup; [exact H|]. apply fmap_sublist, sublist_filter. Qed.

Lemma post_advance_account rc sn w : world_ok w → current rc (w_db w) → one_row_each sn → r_scope (rc_run rc) = SCOPE_ACCOUNT →
  post (advance_account P rc sn) w (λ _ w', run_moved w w').
Proof.
  intros Hw Hcur Hsn Hsc. unfold advance_account. cbv zeta.
  destruct (_ && _); [by apply keeps_wait|].
  apply (post_silent _ _ w); [asks|done| |intros; by apply still_moved]. intros _ w1 Hs1.
  assert (world_ok w1) as Hw1 by by eapply still_ok. apply (current_still _ _ _ Hs1) in Hcur.
  apply post_bind. eapply post_weaken with (Q := goes_on rc w1).
  { destruct (bool_decide _); [|apply goes_on_here; [by apply moved_refl|done]].
    apply post_set_goes; auto with close; [by apply current_record|by destruct (sn_working sn)]. }
  intros [rc1|e] w2 [Hm2 Hrc1]; [|by eapply moved_from]. destruct (Hrc1 rc1 eq_refl) as [Hsame1 Hcur1].
  destruct (scope_of _ _ Hsame1) as [Hsc1 _]. rewrite Hsc in Hsc1.
  apply post_bind. eapply post_weaken; [apply post_send_cancels; [apply Hm2|done|intros t _; by rewrite Hsc1]|].
  intros [rc2|e] w3 [Hm3 Hrc2]; [|by eapply moved_from, moved_trans]. destruct (Hrc2 rc2 eq_refl) as [Hsame2 Hcur2].
  destruct (scope_of _ _ Hsame2) as [Hsc2 _]. rewrite Hsc1 in Hsc2.
  assert (run_moved w w3) as Hm by by eapply moved_from, moved_trans.
  apply post_bind. eapply post_weaken; [by apply post_blocking|].
  intros [b|e] w4 [Hs4 Hq]; [|by eapply moved_trans, still_moved; [|apply Hm|]].
  assert (run_moved w w4) as Hm4 by (eapply moved_trans, still_moved; [done|apply Hm|done]).
  destruct b; simpl; [by apply tail_keeps; [apply keeps_wait|]|].
  destruct (negb _); [by apply tail_keeps; [apply keeps_wait|]|].
  assert (quiet (r_id (rc_run rc2)) (w_db w4)) as Hq4 by (destruct Hs4 as [-> _]; by apply Hq).
  apply (current_still _ _ _ Hs4) in Hcur2. fold (positions_of sn).
  destruct (positions_of sn) as [|p ps] eqn:Hps.
  - destruct (_ <=? _); [by apply tail_keeps; [apply keeps_wait|]|]. apply (tail_moved _ _ _ Hm4).
    apply post_finish_held; auto with close; [apply Hm4|apply current_in_step; [apply Hm4|done]].
  - apply (tail_moved _ _ _ Hm4). rewrite <-Hps. apply post_submit_reduces; [apply Hm4|by apply current_record|done|by apply positions_distinct|].
    intros p' _. by rewrite Hsc2.
Qed.

(** ** The step of a position *)
Lemma quiet_drop root root' d : quiet root d → quiet root (set_children (drop_planned root') d).
Proof.
  intros Hq k c' i Hc' Ho Hi. simpl in Hc'. apply drop_planned_evolves in Hc' as (c & Hc & [[] Hown _ _] & Hop & _).
  apply not_true_is_false. intros E. rewrite (Hq k c i) in Hop; [|done|congruence|congruence]. by specialize (Hop E).
Qed.
(** The goal of the owner, the row of the run, and the planned legs. *)
Lemma commits_rewrite root r r' t w : close_inv (w_db w) → cl_runs (w_db w) !! root = Some r → same_close r r' →
  (r_state r' = r_state r ∨ open_run r') →
  commits (stmt (update_run_in_tx r' t) ;; stmt (drop_planned_in_tx root)) w (λ _ d', ∀ root', quiet root' (w_db w) → quiet root' d').
Proof.
  intros Hd Hr Hsc Hst. pose proof (ci_run_key _ Hd _ _ Hr) as Hid. unfold commits. apply post_bind, post_update_run.
  2: { intros e w1 [_ Hl]. by split. }
  intros c Hc Hn. rewrite (sc_id _ _ Hsc), Hid in Hc. simplify_eq.
  destruct (update_tame (w_db w) r r' t Hd) as [Hd1 Hg1]; try done.
  set (d1 := set_runs _ _) in *. apply post_stmt. unfold outcome, final. cbn. split; [done|]. intros _ _.
  destruct (drop_planned_ok d1 (r_id r) Hd1) as [Hd2 Hg2].
  split; [done|]. split; [by etrans|]. intros root' Hq. by apply (quiet_drop root' (r_id r) d1).
Qed.
Lemma commits_upgrade_run root w : close_inv (w_db w) → commits (upgrade_run P root) w (λ _ d', ∀ root', quiet root' (w_db w) → quiet root' d').
Proof.
  intros Hd. unfold commits, upgrade_run. apply post_bind, post_stmt. unfold get_run_in_tx, outcome, final. cbn.
  destruct (cl_runs (w_db w) !! root) as [r|] eqn:Hr; [|by apply post_ret]. destruct (_ || _); [by apply post_ret|].
  apply post_bind, post_ask. intros w1 [E1 E2]. simpl in *. destruct w1 as [d1 n1 l1]. simpl in *. subst d1 l1.
  eapply post_weaken; [apply (commits_rewrite root r)|]; simpl; try done. by left.
Qed.
Lemma set_db_id w : set_db (w_db w) w = w.
Proof. by destruct w. Qed.
Lemma post_goal_zero root t w (Q : res unit → world → Prop) :
  Q (Ok tt) (set_db (set_owners (update_where (active_root root) (set_goal_zero t) (cl_owners (w_db w))) (w_db w)) w) →
  post (stmt (in_owners (upgrade_goal_in_tx root t))) w Q.
Proof. intros H. by apply post_stmt. Qed.
Lemma commits_escalate (m : M world unit) root t w Q : close_inv (w_db w) →
  (∀ w1, close_inv (w_db w1) → w_sent w1 = w_sent w → cl_children (w_db w1) = cl_children (w_db w) → commits m w1 Q) →
  commits (stmt (in_owners (upgrade_goal_in_tx root t)) ;; m) w Q.
Proof.
  intros Hd Hm. apply post_bind, post_goal_zero.
  eapply post_weaken; [apply Hm; [by apply inv_upgrade_goal|done|done]|]. intros r w2 [Hl Ha]. split; [done|].
  intros a E. destruct (Ha a E) as (? & Hg & ?). split; [done|]. split; [|done]. etrans; [apply grows_owners|exact Hg].
Qed.
Lemma commits_asked {A} (m : M world A) w w1 (Q : A → closes → Prop) : still w w1 → commits m w1 Q →
  post m w1 (λ r w', w_sent w' = w_sent w ∧ ∀ a, r = Ok a → close_inv (w_db w') ∧ grows (w_db w) (w_db w') ∧ Q a (w_db w')).
Proof. intros [Hdb Hl] H. rewrite <-Hdb, <-Hl. exact H. Qed.
Lemma keeps_escalate rc : keeps (escalate P rc).
Proof.
  unfold escalate. keep. apply keeps_tx. intros w Hd. apply post_bind, post_ask. intros w1 [E1 L1]. cbn [clock].
  eapply post_weaken; [apply commits_escalate with (Q := λ _ _, True); [by rewrite E1|]|].
  - intros w2 Hd2 _ _. apply post_bind, post_stmt. unfold get_run_in_tx, outcome, final. cbn. rewrite set_db_id.
    apply post_bind. unfold need. destruct (cl_runs (w_db w2) !! r_id (rc_run rc)) as [r|] eqn:Hr; [|by apply post_raise].
    apply post_ret, post_bind, post_ask. intros w3 Hs3. apply post_bind, post_ask. intros w4 Hs4.
    assert (still w2 w4) as Hs by by eapply still_trans. apply (commits_asked _ _ _ (λ _ _, True)); [done|].
    eapply post_weaken; [apply (commits_rewrite (r_id (rc_run rc)) r)|].
    + destruct Hs as [-> _]. done.
    + destruct Hs as [-> _]. done.
    + by split.
    + by right.
    + intros r' w5 [Hl5 Ha]. split; [done|]. intros u E. by destruct (Ha u E) as (? & ? & _).
  - intros r w2 [Hl Ha]. split; [congruence|]. intros u E. destruct (Ha u E) as (? & ? & _). by rewrite <-E1.
Qed.
Lemma post_upgrade_to_zero rc w : world_ok w → on_record rc (w_db w) →
  post (upgrade_to_zero P (r_id (rc_run rc))) w (λ r w', goes_on rc w r w' ∧
    (is_Some (match r with Ok a => Some a | Raise _ => None end) → ∀ root, quiet root (w_db w) → quiet root (w_db w'))).
Proof.
  intros Hw Hrec. unfold upgrade_to_zero. apply post_bind.
  eapply post_weaken; [apply (post_commits _ _ (λ _ d', ∀ root, quiet root (w_db w) → quiet root d')); [done|]|].
  - apply post_bind, post_ask. intros w1 Hs1. destruct Hs1 as [E1 L1]. rewrite <-E1, <-L1.
    apply (commits_escalate _ _ _ _ (λ _ d', ∀ root, quiet root (w_db w1) → quiet root d')); [rewrite E1; apply Hw|].
    intros w2 Hd2 _ Hch. eapply post_weaken; [by apply commits_upgrade_run|]. intros r w3 [Hl Ha]. split; [done|].
    intros u E. destruct (Ha u E) as (? & ? & Hq). split; [done|]. split; [done|]. intros root Hq0. apply Hq. intros k c i. rewrite Hch. apply Hq0.
  - intros [a|e] w1 (Hm & _ & Hq); [|split; [by split|by intros []]].
    eapply post_weaken; [apply post_both; [by apply (post_fetch rc w)|apply silent_receipt_of]|].
    intros r w2 [Hg [Hdb _]]. split; [done|]. intros _ root. rewrite Hdb. apply Hq.
Qed.

Lemma find_position_conid sn i p : find_position sn i = Some p → po_conid p = i.
Proof.
  unfold find_position. intros H. assert (p ∈ filter (λ p, po_conid p = i ∧ feq (po_quantity p) fzero = false) (sn_positions sn)) as Hin
    by (destruct (filter _ _); [done|]; simplify_eq/=; set_solver). by apply list_elem_of_filter in Hin as [[? _] _].
Qed.
Lemma working_conid sn i o : o ∈ working_for sn i → bo_conid o = i.
Proof. unfold working_for. by intros [? _]%list_elem_of_filter. Qed.

Lemma post_cancel_conid rc g i working w : world_ok w → current rc (w_db w) → r_scope (rc_run rc) = SCOPE_CONID i →
  (∀ o, o ∈ working → bo_conid o = i) → post (cancel_conid_orders P rc g i working) w (goes_on rc w).
Proof.
  intros Hw Hcur Hsc Hwk. unfold cancel_conid_orders. cbv zeta.
  assert (∀ t, t ∈ cancel_targets rc working (Some i) → covers (r_scope (rc_run rc)) (t_conid t)) as Hcov.
  { pose proof (covers_targets rc working) as H. rewrite Hsc in *. by apply H. }
  apply post_bind. eapply post_weaken with (Q := goes_on rc w).
  - destruct (_ || _); [|apply goes_on_here; [by apply moved_refl|done]].
    apply (post_silent _ _ w); [asks|done| |intros e w1 Hs; by split; [apply still_moved|]]. intros info w1 Hs1.
    assert (world_ok w1) as Hw1 by by eapply still_ok. apply (current_still _ _ _ Hs1) in Hcur.
    destruct (bool_decide _); [|apply goes_on_here; [by apply still_moved|done]].
    eapply post_weaken; [apply post_set_goes; [done|by apply current_record|by destruct working|done]|].
    intros r w2. by apply goes_on_still.
  - intros [rc1|e] w1 [Hm Hrc]; [|by split]. destruct (Hrc rc1 eq_refl) as [Hsame Hcur1]. destruct (scope_of _ _ Hsame) as [Hsc1 _].
    eapply post_weaken; [apply post_send_cancels; [apply Hm|done|by rewrite Hsc1]|]. intros r w2. by apply goes_on_trans.
Qed.

Lemma post_submit_one rc g p partial w i : world_ok w → on_record rc (w_db w) → quiet (r_id (rc_run rc)) (w_db w) →
  r_scope (rc_run rc) = SCOPE_CONID i → po_conid p = i → post (submit_reduces P rc g [p] partial) w (λ _ w', run_moved w w').
Proof.
  intros Hw Hrec Hq Hsc Hp. apply post_submit_reduces; try done; [by apply NoDup_singleton|].
  intros p' ->%list_elem_of_singleton. by rewrite Hsc.
Qed.
Lemma post_submit_partial rc g p w i : world_ok w → on_record rc (w_db w) → quiet (r_id (rc_run rc)) (w_db w) →
  r_scope (rc_run rc) = SCOPE_CONID i → po_conid p = i → post (submit_partial P rc g p) w (λ _ w', run_moved w w').
Proof.
  intros Hw Hrec Hq Hsc Hp. unfold submit_partial. apply post_bind. unfold need. destruct (r_goal_quantity (rc_run rc)) as [q|].
  2: by apply post_raise, moved_refl.
  apply post_ret. destruct (_ || _); [|by apply (post_submit_one _ _ _ _ _ i)].
  apply post_bind. eapply post_weaken; [by apply post_upgrade_to_zero|]. intros [rc'|e] w1 [[Hm Hrc] Hq']; [|done].
  destruct (Hrc rc' eq_refl) as [Hsame Hcur]. destruct (scope_of _ _ Hsame) as [Hsc' Hid'].
  apply (tail_moved _ _ _ Hm), (post_submit_one _ _ _ _ _ i); [apply Hm|by apply current_record| |by rewrite Hsc'|done].
  rewrite Hid'. apply Hq'; [by eexists|done].
Qed.

(** *** The new protection *)
Lemma post_send_leg rc c p sib w : world_ok w →
  (∀ q x group, c_quantity c = Some q → c_price c = Some x → c_oca_group c = Some group →
     ready (r_id (rc_run rc)) c (call_leg (po_conid p) (c_kind c) q x group (c_id c) (c_id <$> sib)) w) →
  post (send_leg P rc c p sib) w (λ _ w', touches c w w').
Proof.
  intros Hw Hrd. unfold send_leg. apply post_bind. unfold need. destruct (c_quantity c) as [q|] eqn:E1; [|by apply post_raise, touches_still].
  apply post_ret, post_bind. destruct (c_price c) as [x|] eqn:E2; [|by apply post_raise, touches_still].
  apply post_ret, post_bind. destruct (c_oca_group c) as [gr|] eqn:E3; [|by apply post_raise, touches_still].
  apply post_ret. eapply post_weaken; [apply post_send; [done|by apply Hrd]|]. by intros r w' [H _].
Qed.

Section escalating.
Context (escalate_now : Receipt → Snapshot → M world Receipt).
Hypothesis escalates : ∀ rc sn w i, world_ok w → on_record rc (w_db w) → r_scope (rc_run rc) = SCOPE_CONID i →
  post (escalate_now rc sn) w (λ _ w', run_moved w w').

Lemma then_wait root g w : world_ok w → post (r ← receipt_of root; wait P r g) w (λ _ w', run_moved w w').
Proof. intros Hw. revert w Hw. change (keeps (r ← receipt_of root; wait P r g)). keep. Qed.

Lemma post_start_reprotect rc sn i p w : world_ok w → current rc (w_db w) → r_scope (rc_run rc) = SCOPE_CONID i → po_conid p = i →
  post (start_reprotect P escalate_now rc sn i p) w (λ _ w', run_moved w w').
Proof.
  intros Hw Hcur Hsc Hp. pose proof (current_record _ _ Hcur) as Hrec. unfold start_reprotect. cbv zeta.
  destruct (r_stop_price (rc_run rc)) as [stop|]; [|by apply (escalates _ _ _ i)].
  destruct (unprotective _ _ _); [by apply (escalates _ _ _ i)|].
  apply (post_silent _ _ w); [asks|done| |intros; by apply still_moved]. intros att w1 Hs1.
  apply (post_silent _ _ w); [asks|done| |intros; by apply still_moved]. intros _ w2 Hs2. clear w1 Hs1.
  apply (post_silent _ _ w); [asks|done| |intros; by apply still_moved]. intros _ w3 Hs3. clear w2 Hs2.
  assert (world_ok w3) as Hw3 by by eapply still_ok. assert (on_record rc (w_db w3)) as Hrec3 by by destruct Hs3 as [-> _].
  assert (run_moved w w3) as Hm3 by by apply still_moved.
  apply post_bind.
  eapply post_weaken; [apply (post_reserve _ _ _ (λ c d', cl_children d' !! c_id c = Some c ∧ cl_children (w_db w3) !! c_id c = None ∧
    made rc KIND_STOP i UNKNOWN (Some (reducing_side (po_quantity p))) (Some (fabs (po_quantity p))) (Some stop)
      (Some (reprotect_oca_group (r_id (rc_run rc)) i att)) None c)); [done|]|].
  - intros w4 Hs4 Hact. assert (world_ok w4) as Hw4 by by eapply still_ok. destruct Hs4 as [Hdb _]. rewrite <-Hdb in *.
    unfold commits. apply post_bind. eapply post_weaken; [apply commits_new_child; try done; [apply Hw4|by rewrite Hsc]|].
    + intros [c|e] w5 [Hl5 Hc]; [|done]. destruct (Hc c eq_refl) as (Hd5 & Hg5 & Hins & Hmade).
      assert (cl_children (w_db w5) !! c_id c = Some c) as Hrow by (destruct Hins as [_ ->]; simpl; by rewrite lookup_insert_eq).
      destruct (r_target_price (rc_run rc)) as [t|].
      * apply post_bind, post_bind.
        eapply post_weaken; [apply commits_new_child; try done; [by eapply record_grows|by destruct Hins as [_ ->]|by rewrite Hsc]|].
        intros [c2|e] w6 [Hl6 Hc2]; [|by split; [congruence|]]. destruct (Hc2 c2 eq_refl) as (Hd6 & Hg6 & Hins2 & _).
        apply post_ret, post_ret. split; [congruence|]. intros c' [= <-]. split; [done|]. split; [by etrans|].
        split; [|split; [apply Hins|done]]. destruct Hins2 as [Hf2 ->]. simpl. rewrite lookup_insert_ne; [done|congruence].
      * apply post_bind, post_ret, post_ret. split; [done|]. intros c' [= <-]. split_and!; try done. apply Hins.
  - intros [o|e] w4 (Hm4 & Hl4 & Ho); [|by eapply moved_trans]. assert (run_moved w w4) as Hm by by eapply moved_trans.
    destruct o as [c|]; [|by apply (tail_keeps _ _ _ (silent_keeps _ (silent_receipt_of _)))].
    destruct Ho as (Hrow & Hfresh & Hmade).
    apply post_bind. eapply post_weaken; [apply post_set_run; [apply Hm|done|auto with close]|].
    intros [rc'|e] w5 (Hm5 & Hl5 & Hch5 & Hrc'); [|by eapply moved_trans]. destruct (Hrc' rc' eq_refl) as [Hid' _].
    destruct Hmade as (H1 & H2 & H3 & H4 & H5 & H6 & H7 & H8 & H9 & _).
    apply post_bind. eapply post_weaken; [apply post_send_leg; [apply Hm5|]|].
    + intros q x group E1 E2 E3. rewrite Hid', H3, Hp. split; [by rewrite Hch5|done|done|by rewrite H4|by split_and!|].
      intros _ e He E. rewrite Hl5, Hl4 in He. destruct (lo_row _ _ (wo_log _ Hw3) e He) as (c' & Hc' & _). rewrite E, Hfresh in Hc'. done.
    + intros [o|e] w6 [Hm6 _ _]; [|by do 2 (eapply moved_trans; [done|])].
      apply (tail_moved _ w w6); [by do 2 (eapply moved_trans; [done|])|]. apply then_wait, Hm6.
Qed.

(** A planned target of the receipt, and its row while it is being sized. *)
Record planned (rc : Receipt) (i : Z) (t : Child) (d : closes) : Prop := {
  pl_row : cl_children d !! c_id t = Some t;
  pl_owner : c_owner t = r_id (rc_run rc);
  pl_state : c_state t = PLANNED;
  pl_kind : c_kind t = KIND_TARGET;
  pl_conid : c_conid t = Some i;
}.
Lemma touches_id c c' w w' : c_id c = c_id c' → touches c w w' → touches c' w w'.
Proof. intros E []. split; [done|done|]. by rewrite <-E. Qed.
(** Any row for it, while its root acts. *)
Lemma touches_target rc i t t' w m : world_ok w → on_record rc (w_db w) → acts (r_id (rc_run rc)) (w_db w) →
  r_scope (rc_run rc) = SCOPE_CONID i → (∃ x, cl_children (w_db w) !! c_id t = Some x ∧ same_order x t' ∧
    c_kind x = KIND_TARGET ∧ c_conid x = Some i ∧ c_account x = r_account (rc_run rc)) → c_owner t' = r_id (rc_run rc) → c_id t' = c_id t →
  m = stmt (update_child_in_tx t') →
  commits m w (λ _ d', d' = set_children (alter (λ _, t') (c_id t)) (w_db w)) ∧
  grows (w_db w) (set_children (alter (λ _, t') (c_id t)) (w_db w)).
Proof.
  intros Hw Hrec Hact Hsc (x & Hx & Hso & Hk & Hi & Hacc) Ho' Hid ->.
  destruct (acts_record _ _ Hrec Hact) as (r & Hr & [_ Ha Hs] & Hop).
  assert (set_children (alter (λ _, t') (c_id t)) (w_db w) = set_children <[c_id t := t']> (w_db w)) as E.
  { unfold set_children. f_equal. apply map_eq. intros k. destruct (decide (c_id t = k)) as [<-|Hne].
    - by rewrite lookup_alter_eq, lookup_insert_eq, Hx.
    - by rewrite lookup_alter_ne, lookup_insert_ne. }
  assert (grows (w_db w) (set_children <[c_id t := t']> (w_db w))) as Hg.
  { apply grows_children. intros k c Hc. destruct (decide (c_id t = k)) as [<-|Hne].
    - rewrite lookup_insert_eq. exists t'. simplify_eq. by split.
    - exists c. by rewrite lookup_insert_ne. }
  split; [|by rewrite E]. apply post_stmt. unfold outcome, final. cbn. rewrite Hid. split; [done|]. intros _ _. rewrite E.
  split; [|by split]. apply (inv_child_of_open (w_db w) _ x t' r); [apply Hw|done|done|done|by rewrite Hi|by rewrite Ho'|done|].
  intros j Hj. rewrite Hi in Hj. injection Hj as <-. rewrite Ha, Hs, Hsc. by split.
Qed.
Lemma touches_alter t t' w w' : run_moved w w' → w_db w' = set_children (alter (λ _, t') (c_id t)) (w_db w) → touches t w w'.
Proof. intros Hm E. split; [done|by rewrite E|]. intros k Hk. rewrite E. simpl. by rewrite lookup_alter_ne. Qed.

Lemma post_admission rc i stop p g w : post (target_admission P rc i stop p g) w
  (λ r w', still w w' ∧ ∀ p', r = Ok (admitted p') → po_conid p' = i).
Proof.
  apply post_both; [apply silent_target_admission|]. unfold target_admission. apply post_bind, post_any. intros [row|e] w1; [|done].
  destruct row as [o|]; [|by apply post_ret]. destruct (negb _); [by apply post_ret|].
  apply post_bind, post_any. intros [rd|e] w2; [|done]. destruct rd as [[sn filled]|]; [|by apply post_ret].
  destruct (negb _); [by apply post_ret|]. destruct (find_position sn i) as [q|] eqn:Hq; [|by apply post_ret].
  destruct (negb _); [by apply post_ret|]. destruct (negb _); [by apply post_ret|]. apply post_ret. intros p'. destruct (feq _ _); [|done].
  intros [= <-]. by eapply find_position_conid.
Qed.
Lemma account_of rc d c i : close_inv d → on_record rc d → cl_children d !! c_id c = Some c → c_owner c = r_id (rc_run rc) →
  unsettled c → c_conid c = Some i → c_account c = r_account (rc_run rc).
Proof.
  intros Hd (r & Hr & [_ Ha _]) Hc Ho Hu Hi. destruct (ci_watched d Hd _ c i Hc Hu Hi) as (r' & Hr' & Ha' & _).
  rewrite Ho in Hr'. simplify_eq. congruence.
Qed.

(** Back to planned, and wait. *)
Lemma post_back rc i t g w w1 : world_ok w → current rc (w_db w) → r_scope (rc_run rc) = SCOPE_CONID i → planned rc i t (w_db w) →
  acts (r_id (rc_run rc)) (w_db w) → touches t w w1 →
  post (tx (stmt (update_child_in_tx t)) ;; observe_and_wait P rc g) w1 (λ _ w', run_moved w w').
Proof.
  intros Hw Hcur Hsc [Hrow Ho Hst Hk Hi] Hact [Hm Hru Hot]. pose proof (current_record _ _ Hcur) as Hrec.
  assert (on_record rc (w_db w1)) as Hrec1 by (eapply record_grows; [done|apply Hm]).
  assert (acts (r_id (rc_run rc)) (w_db w1)) as Hact1 by (unfold acts; by rewrite Hru).
  assert (unsettled t) as Hut by (unfold unsettled; by rewrite Hst).
  pose proof (account_of rc _ t i (wo_db _ Hw) Hrec Hrow Ho Hut Hi) as Hacc.
  assert (∃ x, cl_children (w_db w1) !! c_id t = Some x ∧ same_order x t ∧
    c_kind x = KIND_TARGET ∧ c_conid x = Some i ∧ c_account x = r_account (rc_run rc)) as Hx.
  { destruct (gr_children _ _ (proj2 Hm) _ _ Hrow) as (x & Hx & []). exists x. split; [done|].
    split; [split; try congruence; intros Hkx; congruence|]. split_and!; congruence. }
  destruct (touches_target rc i t t w1 _ (proj1 Hm) Hrec1 Hact1 Hsc Hx Ho eq_refl eq_refl) as [Hc _].
  apply post_bind. eapply post_weaken; [apply post_commits; [apply Hm|exact Hc]|].
  intros [[]|e] w2 (Hm2 & _ & Hdb); [|by eapply moved_trans].
  apply (tail_moved _ w w2); [by eapply moved_trans|]. apply post_observe_and_wait; [apply Hm2|].
  destruct (current_in_step _ _ (wo_db _ Hw) Hcur) as [_ Hnd Hrows].
  split; [rewrite Hdb; by destruct Hrec1 as (r & ? & ?); exists r|done|]. intros c Hc' Hop. rewrite Hdb. simpl.
  pose proof (Hrows c Hc' Hop) as Hcr. assert (c_id t ≠ c_id c) as Hne by (intros E; rewrite E, Hcr in Hrow; simplify_eq; by rewrite Hst in Hop).
  rewrite lookup_alter_ne, Hot; done.
Qed.

(** What was decided about the target, while broker changes were held. *)
Definition decided_ok (rc : Receipt) (i g : Z) (t : Child) (w : world) (r : res (option (admission * option (Child * Position)))) (w' : world)
    : Prop :=
  run_moved w w' ∧ w_sent w' = w_sent w ∧
  match r with
  | Ok (Some (a, Some (sized, p))) =>
      a = admitted p ∧ sized = put_size UNKNOWN (fabs (po_quantity p)) g t ∧ po_conid p = i ∧ acts (r_id (rc_run rc)) (w_db w) ∧
      w_db w' = set_children (alter (λ _, sized) (c_id t)) (w_db w)
  | _ => w_db w' = w_db w
  end.
Lemma post_decide rc sn i stop t position w : world_ok w → current rc (w_db w) → r_scope (rc_run rc) = SCOPE_CONID i →
  planned rc i t (w_db w) →
  post (held P (a ← target_admission P rc i stop position (sn_generation sn);
    match (a : admission) with
    | admitted p =>
        let sized := put_size UNKNOWN (fabs (po_quantity p)) (sn_generation sn) t in
        ok ← reserve rc (stmt (update_child_in_tx sized));
        mret (a, (λ _, (sized, p)) <$> ok)
    | _ => mret (a, None)
    end)) w (decided_ok rc i (sn_generation sn) t w).
Proof.
  intros Hw Hcur Hsc [Hrow Ho Hst Hk Hi]. pose proof (current_record _ _ Hcur) as Hrec.
  assert (unsettled t) as Hut by (unfold unsettled; by rewrite Hst).
  pose proof (account_of rc _ t i (wo_db _ Hw) Hrec Hrow Ho Hut Hi) as Hacc.
  assert (∀ w1 r, still w w1 → match r with Ok (Some (_, Some _)) => False | _ => True end → decided_ok rc i (sn_generation sn) t w r w1) as Hno.
  { intros w1 r Hs Hr. split; [by apply still_moved|]. split; [apply Hs|]. destruct Hs as [Hdb _]. by destruct r as [[[a [[]|]]|]|e]. }
  unfold held. apply post_try. eapply post_weaken with (Q := decided_ok rc i (sn_generation sn) t w).
  - apply post_bind, post_ask. intros w1 Hs1. destruct (hold_broker_changes P _) as [[]|e]; [|by apply Hno].
    apply post_bind, post_bind. eapply post_weaken; [apply post_admission|]. intros [a|e] w2 [Hs2 Ha]; [|apply Hno; [by eapply still_trans|done]].
    assert (still w w2) as Hs by by eapply still_trans. assert (world_ok w2) as Hw2 by by eapply still_ok.
    destruct a as [p| | |]; try by apply post_ret, post_ret, Hno.
    specialize (Ha p eq_refl). cbv zeta. set (sized := put_size UNKNOWN _ _ t). destruct Hs as [Hdb Hl].
    apply post_bind. eapply post_weaken; [apply (post_reserve _ _ _ (λ _ d', acts (r_id (rc_run rc)) (w_db w) ∧
      d' = set_children (alter (λ _, sized) (c_id t)) (w_db w))); [done|]|].
    + intros w3 Hs3 Hact. pose proof (still_trans w w2 w3 (conj Hdb Hl) Hs3) as Hs. rewrite Hdb in Hact.
      assert (world_ok w3) as Hw3 by by eapply still_ok. destruct Hs as [Hdb3 Hl3]. rewrite <-Hdb3 in Hrec, Hrow, Hact |- *.
      eapply post_weaken; [apply (touches_target rc i t sized w3); try done|].
      * exists t. split_and!; try done.
      * intros r w4 [Hl4 Hc]. split; [done|]. intros u E. by destruct (Hc u E) as (? & ? & ?).
    + intros r w3 (Hm3 & Hl3 & Hr). assert (run_moved w w3) as Hm by (eapply moved_from; [split; eassumption|done]).
      assert (w_sent w3 = w_sent w) as Hl3' by congruence. assert (w_db w3 = w_db w2 → w_db w3 = w_db w) as Hsame by congruence.
      destruct r as [[u|]|e].
      * apply post_ret, post_ret. destruct Hr as [Hact Hr]. by split_and!.
      * apply post_ret, post_ret. split; [done|]. split; [done|]. by apply Hsame.
      * split; [done|]. split; [done|]. by apply Hsame.
  - intros [o|e] w1 Hd; [done|]. by destruct e.
Qed.

Lemma post_send_target rc sn i stop t position w : world_ok w → current rc (w_db w) → r_scope (rc_run rc) = SCOPE_CONID i →
  planned rc i t (w_db w) → post (send_target P escalate_now rc sn i stop t position) w (λ _ w', run_moved w w').
Proof.
  intros Hw Hcur Hsc Hpl. pose proof (current_record _ _ Hcur) as Hrec. unfold send_target. cbv zeta.
  apply post_bind. eapply post_weaken; [by apply post_decide|]. intros [o|e] w1 (Hm & Hl & Hd); [|done].
  destruct o as [[a [[sized p]|]]|].
  - destruct Hd as (-> & -> & Hp & Hact & Hdb). set (sized := put_size UNKNOWN _ _ t) in *.
    assert (touches t w w1) as Ht by by eapply touches_alter.
    apply (post_silent _ _ w1); [asks|done| |intros e w2 Hs; by eapply moved_trans, still_moved; [|apply Hm|]].
    intros ok w2 Hs2. assert (touches t w w2) as Ht2 by by eapply touches_trans, touches_still; [|apply Hm|].
    destruct (negb ok); [by eapply post_back|].
    assert (world_ok w2) as Hw2 by by eapply still_ok; [apply Hm|].
    destruct Hpl as [Hrow Ho Hst Hk Hi]. destruct Hs2 as [Hdb2 Hl2].
    apply post_bind. eapply post_weaken; [apply post_send_leg; [done|]|].
    + intros q x group E1 E2 E3. split; [by rewrite Hdb2, Hdb; simpl; rewrite lookup_alter_eq, Hrow|done|done|by simpl; rewrite Hi| |].
      * split; [|done]. unfold row_of_call. simpl. rewrite Hi, Hp. by split_and!.
      * intros Ho'. destruct Ho'. exact Hk.
    + intros [refused|e] w3 Ht3; [|apply (moved_trans _ w2); [apply Ht2|apply Ht3]].
      assert (touches t w w3) as Ht' by (eapply touches_trans; [exact Ht2|]; by apply (touches_id sized t)).
      destruct (bool_decide _); [by eapply post_back|].
      apply (tail_moved _ w w3); [apply Ht'|]. apply then_wait, Ht'.
  - assert (still w w1) as Hs by (by split). pose proof (current_still _ _ _ Hs Hcur) as Hcur1.
    assert (on_record rc (w_db w1)) as Hrec1 by by apply current_record.
    destruct a; apply (tail_moved _ w w1); try done.
    + apply then_wait, Hm.
    + apply post_observe_and_wait; [apply Hm|]. apply current_in_step; [apply Hm|done].
    + apply (escalates _ _ _ i); [apply Hm|done|done].
    + apply keeps_wait, Hm.
  - apply (tail_moved _ w w1); [done|]. apply keeps_wait, Hm.
Qed.

Lemma outcome_inheritable rc : inheritable (partial_outcome rc) = true ∧ RESCAN_TERMINAL (partial_outcome rc) = true.
Proof. unfold partial_outcome. destruct (r_goal _); try done; by destruct (flt _ _). Qed.
Lemma post_finish_legs rc sn i p stop legs w : world_ok w → current rc (w_db w) → r_scope (rc_run rc) = SCOPE_CONID i →
  post (finish_legs P escalate_now rc sn i p stop legs) w (λ _ w', run_moved w w').
Proof.
  intros Hw Hcur Hsc. unfold finish_legs. cbv zeta. destruct (existsb _ _); [by apply keeps_wait|].
  apply (post_silent _ _ w); [asks|done| |intros; by apply still_moved]. intros rows w1 Hs1.
  assert (world_ok w1) as Hw1 by by eapply still_ok. pose proof (still_moved _ _ Hw Hs1) as Hm.
  pose proof (current_still _ _ _ Hs1 Hcur) as Hcur1. apply (tail_moved _ _ _ Hm).
  destruct (negb _); [apply (escalates _ _ _ i); [done|by apply current_record|done]|].
  destruct (judge_legs _ _); [|apply post_observe_and_wait; [done|by apply current_in_step; [apply Hw1|]]
    |apply (escalates _ _ _ i); [done|by apply current_record|done]|by apply keeps_wait].
  destruct (outcome_inheritable rc) as [Hin Ht].
  apply post_finish_held; auto with close. apply current_in_step; [apply Hw1|done].
Qed.

(** The part after the cancels, which both ends of a close share. *)
Lemma post_finish_zero rc g w s : world_ok w → current rc (w_db w) → quiet (r_id (rc_run rc)) (w_db w) →
  RESCAN_TERMINAL s = true → ∀ n, post (if g <=? n then wait P rc g else finish_held P rc s g id (exposure_since_decision rc)) w (λ _ w', run_moved w w').
Proof.
  intros Hw Hcur Hq Hs n. destruct (_ <=? _); [by apply keeps_wait|].
  apply post_finish_held; auto with close. apply current_in_step; [apply Hw|done].
Qed.
Lemma post_after_cancels {A} rc g i working w (k : Receipt → M world A) (kw : Receipt → M world A) (f : bool → bool) :
  (f true = true) →
  world_ok w → current rc (w_db w) → r_scope (rc_run rc) = SCOPE_CONID i → (∀ o, o ∈ working → bo_conid o = i) →
  (∀ rc', keeps (kw rc')) →
  (∀ rc' w', world_ok w' → current rc' (w_db w') → r_scope (rc_run rc') = SCOPE_CONID i → quiet (r_id (rc_run rc')) (w_db w') →
     post (k rc') w' (λ _ w'', run_moved w' w'')) →
  post (rc ← cancel_conid_orders P rc g i working; stop ← blocking P rc g; if f stop then kw rc else k rc) w (λ _ w', run_moved w w').
Proof.
  intros Hf Hw Hcur Hsc Hwk Hkw Hk. apply post_bind. eapply post_weaken; [by apply post_cancel_conid|].
  intros [rc1|e] w1 [Hm Hrc]; [|done]. destruct (Hrc rc1 eq_refl) as [Hsame Hcur1]. destruct (scope_of _ _ Hsame) as [Hsc1 _].
  apply post_bind. eapply post_weaken; [by apply post_blocking|].
  intros [b|e] w2 [Hs2 Hq]; [|by eapply moved_trans, still_moved; [|apply Hm|]].
  assert (run_moved w w2) as Hm2 by (eapply moved_trans, still_moved; [done|apply Hm|done]). apply (tail_moved _ _ _ Hm2).
  destruct (f b) eqn:Hb; [by apply Hkw, Hm2|]. assert (b = false) as -> by (destruct b; congruence).
  apply Hk; [apply Hm2|by eapply current_still|by rewrite Hsc1|destruct Hs2 as [-> _]; by apply Hq].
Qed.
Lemma post_reprotect_closed rc sn i w : world_ok w → current rc (w_db w) → r_scope (rc_run rc) = SCOPE_CONID i →
  post (finish_reprotect_closed P rc sn i (working_for sn i)) w (λ _ w', run_moved w w').
Proof.
  intros Hw Hcur Hsc. unfold finish_reprotect_closed. cbv zeta.
  apply (post_after_cancels rc _ i _ w (λ rc, if sn_generation sn <=? last_action_generation rc then wait P rc (sn_generation sn)
     else finish_held P rc CLOSED (sn_generation sn) id (exposure_since_decision rc)) (λ rc, wait P rc (sn_generation sn))
    (λ b, b || negb (bool_decide (working_for sn i = [])))); try done.
  - apply working_conid.
  - intros rc'. apply keeps_wait.
  - intros rc' w' Hw' Hcur' _ Hq'. by apply post_finish_zero.
Qed.
Lemma latest_in rc k t : latest_leg rc k = Some t → t ∈ rc_children rc ∧ c_kind t = k.
Proof.
  unfold latest_leg, newest_attempt. intros H. assert (t ∈ filter (λ c, c_kind c = k ∧ c_root c = r_id (rc_run rc)) (rc_children rc)) as Hin;
    [|apply list_elem_of_filter in Hin as [[? _] ?]; by split].
  revert H. generalize (filter (λ c, c_kind c = k ∧ c_root c = r_id (rc_run rc)) (rc_children rc)). intros l.
  assert (∀ best, fold_left (λ best c, match best with Some b => if c_attempt b <? c_attempt c then Some c else best | None => Some c end) l best = Some t →
    best = Some t ∨ t ∈ l) as H.
  { induction l as [|c l IH]; intros best; simpl; [by left|]. intros [E|E]%IH; [|right; set_solver].
    destruct best as [b|]; [destruct (_ <? _)|]; simplify_eq; auto; right; set_solver. }
  intros E. by destruct (H None E).
Qed.
Lemma post_advance_reprotect rc sn i w : world_ok w → current rc (w_db w) → r_scope (rc_run rc) = SCOPE_CONID i →
  post (advance_reprotect P escalate_now rc sn i (working_for sn i) (find_position sn i)) w (λ _ w', run_moved w w').
Proof.
  intros Hw Hcur Hsc. unfold advance_reprotect. cbv zeta. destruct (existsb _ _); [by apply keeps_wait|].
  apply (post_silent _ _ w); [asks|done| |intros; by apply still_moved]. intros ok w1 Hs1.
  assert (world_ok w1) as Hw1 by by eapply still_ok. apply (current_still _ _ _ Hs1) in Hcur.
  apply (tail_moved _ _ _ (still_moved _ _ Hw Hs1)). destruct (negb ok); [by apply keeps_wait|].
  destruct (find_position sn i) as [p|]; [|by apply post_reprotect_closed].
  apply (post_silent _ _ w1); [asks|done| |intros; by apply still_moved]. intros stop w2 Hs2.
  assert (world_ok w2) as Hw2 by by eapply still_ok. apply (current_still _ _ _ Hs2) in Hcur.
  apply (tail_moved _ _ _ (still_moved _ _ Hw1 Hs2)). pose proof (current_record _ _ Hcur) as Hrec.
  destruct (_ && _); [by apply keeps_wait|]. destruct (negb _); [by apply (escalates _ _ _ i)|].
  destruct (latest_leg rc KIND_TARGET) as [t|] eqn:Ht; [|by apply post_finish_legs].
  destruct (bool_decide_reflect (c_state t = PLANNED)) as [Hst|_].
  - apply (post_silent _ _ w2); [asks|done| |intros; by apply still_moved]. intros row w3 Hs3.
    assert (world_ok w3) as Hw3 by by eapply still_ok. apply (current_still _ _ _ Hs3) in Hcur.
    apply (tail_moved _ _ _ (still_moved _ _ Hw2 Hs3)). pose proof (current_in_step _ _ (wo_db _ Hw3) Hcur) as Hin.
    destruct (negb _); [by apply post_observe_and_wait|]. apply post_send_target; try done.
    destruct (latest_in _ _ _ Ht) as [Hc Hk]. destruct (current_child _ _ _ (wo_db _ Hw3) Hcur Hc) as [Ho Hrow].
    split; try done. destruct (ci_planned _ (wo_db _ Hw3) _ _ Hrow Hst) as [_ [j Hj]]. rewrite Hj. f_equal.
    destruct (ci_watched _ (wo_db _ Hw3) _ t j Hrow) as (r & Hr & _ & Hcov & _); [unfold unsettled; by rewrite Hst|done|].
    destruct (current_record _ _ Hcur) as (r' & Hr' & [_ _ Hs']). rewrite Ho, Hr' in Hr. simplify_eq. rewrite Hs', Hsc in Hcov. done.
  - destruct (negb _); [by apply (escalates _ _ _ i)|]. by apply post_finish_legs.
Qed.

Lemma post_advance_conid_with rc sn i w : world_ok w → current rc (w_db w) → r_scope (rc_run rc) = SCOPE_CONID i →
  post (advance_conid_with P escalate_now rc sn i) w (λ _ w', run_moved w w').
Proof.
  intros Hw Hcur Hsc. unfold advance_conid_with. cbv zeta. destruct (bool_decide _); [by apply post_advance_reprotect|].
  match goal with |- post (_ ≫= λ rc, _ ≫= λ stop, if stop || ?b then _ else @?k rc) _ _ =>
    apply (post_after_cancels rc _ i _ w k (λ rc, wait P rc (sn_generation sn)) (λ stop, stop || b)); try done end.
  - apply working_conid.
  - intros rc'. apply keeps_wait.
  - intros rc' w' Hw' Hcur' Hsc' Hq'. pose proof (current_record _ _ Hcur') as Hrec'. cbv beta.
    destruct (find_position sn i) as [p|] eqn:Hp; [|by apply post_finish_zero]. apply find_position_conid in Hp.
    destruct (r_goal (rc_run rc')).
    + by apply (post_submit_one _ _ _ _ _ i).
    + destruct (existsb _ _); [by apply post_start_reprotect|by apply (post_submit_partial _ _ _ _ i)].
    + by apply post_start_reprotect.
Qed.
End escalating.

Lemma post_advance_conid n : ∀ rc sn w i, world_ok w → current rc (w_db w) → r_scope (rc_run rc) = SCOPE_CONID i →
  post (advance_conid P n rc sn) w (λ _ w', run_moved w w').
Proof.
  induction n as [|n IH]; intros rc sn w i Hw Hcur Hsc; simpl; rewrite Hsc; apply post_advance_conid_with; try done.
  intros rc1 sn1 w1 j Hw1 Hrec1 Hsc1. apply post_bind. eapply post_weaken; [by apply keeps_escalate|].
  intros [[]|e] w2 Hm2; [|done]. apply post_bind. eapply post_weaken; [by apply (post_fetch rc1 w1)|].
  intros [rc2|e] w3 [Hm3 Hrc]; [|done]. destruct (Hrc rc2 eq_refl) as [Hsame Hcur2]. destruct (scope_of _ _ Hsame) as [Hsc2 _].
  apply (tail_moved _ _ _ Hm3), (IH _ _ _ j); [apply Hm3|done|by rewrite Hsc2].
Qed.
End step.
