(* ===== verification/CloseClaims.v ===== *)
(** * The entry points of the close machine ([trader/trading/liquidation_service.py])

    A tick of a root, the claims of the exit registry, [start], [rescan] and the
    worker that serialises them; the worlds they lead to. *)
From stdpp Require Import base tactics gmap list strings pretty.
From Stdlib Require Import ZArith Lia SpecFloat.
From S2P Require Import Prelude Py ExitOwner CloseStore Close CloseInv CloseRules CloseWrites CloseDispatch CloseStep.
Open Scope Z_scope.

Section claims.
Context {P : Ports}.

(** ** A step of a root *)
Lemma keeps_on_deadline rc : keeps (on_deadline P rc).
Proof.
  unfold on_deadline. keep; [apply keeps_escalate|by apply keeps_finish_step].
Qed.
Hint Resolve keeps_on_deadline : close.

Lemma commits_track_one rc n old w : close_inv (w_db w) → commits (track_one rc n old) w (λ b d', b = false → d' = w_db w).
Proof.
  intros Hd. unfold commits, track_one. cbv zeta. set (id := (_ +:+ "*")%string).
  apply post_bind, post_stmt. unfold child_in_tx, outcome, final. cbn. rewrite set_db_id.
  destruct (cl_children (w_db w) !! id) as [c|] eqn:Hc; [by apply post_ret|].
  set (c := mkChild id _ _ _ _ _ _ _ _ _ _ _ _ _ _ _ _ _ _ _ _).
  assert (insert_child_in_tx c (w_db w) = (Ok tt, set_children <[id := c]> (w_db w))) as Hins.
  { unfold insert_child_in_tx, child_in_tx. run. change (c_id c) with id. by rewrite Hc. }
  apply post_bind, post_stmt. unfold outcome, final. rewrite Hins. cbn [fst snd]. apply post_ret. split; [done|]. intros b [= <-].
  split; [by apply (inv_wildcard (w_db w) c)|]. split; [by eapply (grows_inserted c)|done].
Qed.
Lemma commits_track rc n olds w : close_inv (w_db w) →
  commits (map_each olds (track_one rc n)) w (λ bs d', existsb id bs = false → d' = w_db w).
Proof.
  revert w. induction olds as [|old olds IH]; intros w Hd; simpl; [by apply post_ret|].
  unfold commits. apply post_bind. eapply post_weaken; [by apply commits_track_one|]. intros [b|e] w1 [Hl Hb]; [|done].
  destruct (Hb b eq_refl) as (Hd1 & Hg1 & Hs). apply post_bind. eapply post_weaken; [by apply IH|].
  intros [bs|e] w2 [Hl2 Hbs]; [|by split; [congruence|]]. apply post_ret. split; [congruence|]. intros bs' [= <-].
  destruct (Hbs bs eq_refl) as (Hd2 & Hg2 & Hs2). split; [done|]. split; [by etrans|]. simpl.
  intros [E1 E2]%orb_false_iff. rewrite (Hs2 E2). by apply Hs.
Qed.
Lemma post_track rc n w : world_ok w → post (track_pre_sp1_reduces rc n) w
  (λ r w', run_moved w w' ∧ w_sent w' = w_sent w ∧ (r = Ok false → w_db w' = w_db w)).
Proof.
  intros Hw. unfold track_pre_sp1_reduces. eapply post_weaken; [apply (post_commits _ _ (λ b d', b = false → d' = w_db w)); [done|]|].
  - unfold commits. apply post_bind, post_gets, post_bind. eapply post_weaken; [apply commits_track, Hw|].
    intros [bs|e] w1 [Hl Hb]; [|done]. apply post_ret. split; [done|]. intros b [= <-]. by destruct (Hb bs eq_refl) as (? & ? & ?).
  - intros [b|e] w1 (Hm & Hl & HQ); split_and!; try done. intros [= ->]. by apply HQ.
Qed.
Lemma cut_off_rows rc n d : close_inv d → current rc d → new_rows d (omap (cut_off n) (rc_children rc)).
Proof.
  intros Hd Hcur. assert (omap (cut_off n) (rc_children rc) = omap id (map (cut_off n) (rc_children rc))) as ->.
  { generalize (rc_children rc). intros l. change (omap (cut_off n) l = omap id (cut_off n <$> l)).
    induction l as [|c l IH]; [done|]. rewrite fmap_cons. cbn. destruct (cut_off n c); [f_equal|]; exact IH. }
  eapply new_rows_observed with (xs := rc_children rc); [apply (current_in_step _ _ Hd Hcur)|intros c Hc; by apply (current_child rc d)|].
  induction (rc_children rc) as [|c l IH]; simpl; constructor; [|done]. intros c'. unfold cut_off.
  destruct (_ && _) eqn:E; [|done]. to_prop. intros [= <-]. destruct (c_kind c); split; try done; by split.
Qed.
Lemma post_fence_unsent rc n w : world_ok w → current rc (w_db w) → open_run (rc_run rc) → post (fence_unsent P rc n) w (goes_on rc w).
Proof.
  intros Hw Hcur Hop. pose proof (current_record _ _ Hcur) as Hrec. unfold fence_unsent. cbv zeta. set (unf := omap (cut_off n) (rc_children rc)).
  apply post_bind. eapply post_weaken with (Q := λ r w', run_moved w w' ∧ (unf = [] → still w w')).
  { pose proof (cut_off_rows rc n _ (wo_db _ Hw) Hcur) as Hrows. fold unf in Hrows. destruct unf as [|c l] eqn:Hu; [by apply post_ret; split; [apply moved_refl|]|].
    eapply post_weaken; [apply post_commits, (commits_rows false); [done|apply Hw|done]|]. intros r w1 (Hm & _). by split. }
  intros [[]|e] w1 [Hm Hs]; [|by split]. apply post_bind. eapply post_weaken; [apply post_track, Hm|].
  intros [b|e] w2 (Hm2 & Hl2 & Hb); [|by split; [eapply moved_trans|]]. assert (run_moved w w2) as Hmm by by eapply moved_trans.
  destruct (bool_decide (r_phase _ = _)).
  - apply post_bind. eapply post_weaken; [by apply (post_fetch rc w w2)|]. intros [rc'|e] w3 [Hm3 Hrc]; [|by split].
    destruct (Hrc rc' eq_refl) as [Hsame Hcur']. eapply post_weaken; [apply post_set_goes; [apply Hm3|by apply current_record|done|done]|].
    intros r w4. by apply goes_on_trans.
  - destruct (negb (bool_decide (unf = [])) || b) eqn:E; [by apply post_fetch|]. to_prop. apply goes_on_here; [done|].
    assert (w_db w2 = w_db w) as ->; [|done]. rewrite Hb by congruence. by apply Hs.
Qed.

(** A snapshot lists a contract once. *)
Context (Hcap : ∀ n a sn, capture P n a = Ok sn → one_row_each sn).

Lemma post_observed rc g n w : world_ok w → current rc (w_db w) →
  post (except (first ← observe_children P rc g n;
      let rc1 := default rc first in
      late ← observe_late_fills P rc1 n; mret (Some (default rc1 late))) (λ _, mret None)) w
    (λ r w', run_moved w w' ∧ ∀ rc', r = Ok (Some rc') → same_close (rc_run rc) (rc_run rc') ∧ current rc' (w_db w')).
Proof.
  intros Hw Hcur. pose proof (current_record _ _ Hcur) as Hrec.
  assert (∀ w1 w2 rc0 rc', run_moved w w1 → r_id (rc_run rc0) = r_id (rc_run rc) → world_ok w2 → grows (w_db w1) (w_db w2) →
    r_id (rc_run rc') = r_id (rc_run rc0) → current rc' (w_db w2) → same_close (rc_run rc) (rc_run rc') ∧ current rc' (w_db w2)) as Hnew.
  { intros w1 w2 rc0 rc' [_ Hg1] Hid Hw2 Hg Hid' Hcur'. apply (same_run rc rc' w w2); [done|done|by etrans|].
    unfold current in Hcur'. by rewrite <-Hid, <-Hid'. }
  apply post_except. eapply post_weaken with (Q := λ r w', run_moved w w' ∧ ∀ rc', r = Ok (Some rc') →
    same_close (rc_run rc) (rc_run rc') ∧ current rc' (w_db w')).
  2: { intros [o|e] w1 Hr; [done|]. split; [done|]. apply post_ret. split; [apply Hr|done]. }
  apply post_bind. eapply post_weaken; [apply post_observe_children; [done|by apply current_in_step; [apply Hw|]]|].
  intros [o|e] w1 ([Hm _] & _ & Ho); [|by split]. specialize (Ho o eq_refl). cbv zeta.
  assert (same_close (rc_run rc) (rc_run (default rc o)) ∧ current (default rc o) (w_db w1)) as [Hsame1 Hcur1].
  { destruct o as [rc1|]; simpl; [|by split; [|destruct Ho as [-> _]]]. destruct Ho as [Hid Hcur1].
    apply (Hnew w w1 rc rc1); [by apply moved_refl|done|apply Hm|apply Hm|done|done]. }
  apply post_bind. eapply post_weaken; [apply post_observe_late_fills, Hm|].
  intros [l|e] w2 ([Hm2 _] & _ & Hl); [|by split; [eapply moved_trans|]]. specialize (Hl l eq_refl). apply post_ret.
  split; [by eapply moved_trans|]. intros rc' [= <-]. destruct l as [rc2|]; simpl.
  - destruct Hl as [Hid Hcur2]. apply (Hnew w1 w2 (default rc o) rc2); [done|apply Hsame1|apply Hm2|apply Hm2|done|done].
  - by split; [|destruct Hl as [-> _]].
Qed.
Lemma keeps_tick root : keeps (tick P root).
Proof.
  intros w Hw. unfold tick. apply post_bind, post_gets. destruct (read_receipt root (w_db w)) as [rc|] eqn:Hrd; [|by apply post_ret, moved_refl].
  destruct (read_current _ _ _ (wo_db _ Hw) Hrd) as [Hid Hcur].
  destruct (r_cleanup_pending (rc_run rc)); [refine ((_ : keeps (r ← cleanup P rc; mret (Some r))) w Hw); keep|].
  destruct (RESCAN_TERMINAL (r_state (rc_run rc))) eqn:Hop; [by apply post_ret, moved_refl|].
  apply post_bind. eapply post_weaken with (Q := λ r w', still w w' ∧ ∀ x, r = Ok (Some x) → one_row_each x.1).
  { apply post_both; [match goal with |- post ?m _ _ => refine ((_ : silent m) w); asks end|]. apply post_except. apply post_bind, post_ask. intros w1 _.
    destruct (capture P _ _) as [sn|e] eqn:Hc; [|split; [by intros x|apply post_ret; by intros x]]. apply post_bind, post_any. intros [n|e] w2; [|split; [by intros x|apply post_ret; by intros x]].
    apply post_bind, post_require. destruct (String.eqb _ _); [|split; [by intros x|apply post_ret; by intros x]]. apply post_ret. intros x [= <-]. by eapply Hcap. }
  intros [ev|e] w1 [Hs1 Hev]; [|by apply still_moved]. apply (tail_moved _ _ _ (still_moved _ _ Hw Hs1)).
  assert (world_ok w1) as Hw1 by by eapply still_ok. apply (current_still _ _ _ Hs1) in Hcur.
  destruct ev as [[sn n]|]; [|refine ((_ : keeps (t ← now P; r ← (if r_deadline (rc_run rc) <=? t then on_deadline P rc
    else snapshot_unavailable P rc); mret (Some r))) w1 Hw1); keep]. specialize (Hev (sn, n) eq_refl). simpl in Hev.
  apply post_bind. eapply post_weaken; [by apply post_fence_unsent|]. intros [rc1|e] w2 [Hm2 Hrc]; [|done].
  destruct (Hrc rc1 eq_refl) as [Hsame1 Hcur1]. apply (tail_moved _ _ _ Hm2).
  apply post_bind. eapply post_weaken; [by apply post_observed; [apply Hm2|]|]. intros [ob|e] w3 [Hm3 Hob]; [|done]. apply (tail_moved _ _ _ Hm3).
  assert (world_ok w3) as Hw3 by apply Hm3. destruct ob as [rc2|].
  - destruct (Hob rc2 eq_refl) as [Hsame2 Hcur2]. apply (post_silent _ _ w3); [asks|done| |intros; by apply still_moved].
    intros t w4 Hs4. assert (world_ok w4) as Hw4 by by eapply still_ok. apply (current_still _ _ _ Hs4) in Hcur2.
    apply (tail_moved _ _ _ (still_moved _ _ Hw3 Hs4)). apply post_bind.
    eapply post_weaken with (Q := λ _ w', run_moved w4 w'); [|by intros [r|e] w5 Hm5; [apply post_ret|]].
    destruct (_ <=? t); [by apply keeps_on_deadline|]. destruct (r_scope (rc_run rc2)) as [|i] eqn:Hsc.
    + by apply post_advance_account.
    + by apply (post_advance_conid _ _ _ _ i).
  - revert Hw3. generalize w3 as w0. change (keeps (t ← now P; r ← (if r_deadline (rc_run rc1) <=? t then rc' ← receipt_of root; on_deadline P rc'
      else snapshot_unavailable P rc1); mret (Some r))). keep.
Qed.

(** ** Claims *)
(** The roots of [l] are superseded, and their planned legs dropped. *)
Record superseded_by (l : list string) (d d' : closes) : Prop := {
  sb_owners : cl_owners d' = cl_owners d;
  sb_runs k : match cl_runs d !! k, cl_runs d' !! k with
    | Some r, Some r' => same_close r r' ∧ (k ∉ l → r' = r) ∧
        (k ∈ l → RESCAN_TERMINAL (r_state r') = true ∧ (open_run r → r_state r' = SUPERSEDED) ∧ (¬ open_run r → r_state r' = r_state r))
    | None, None => True
    | _, _ => False
    end;
  sb_children k c' : cl_children d' !! k = Some c' → ∃ c, cl_children d !! k = Some c ∧ evolves c c' ∧
    (CHILD_OPEN (c_state c') = true → CHILD_OPEN (c_state c) = true) ∧
    (c_state c' = PLANNED → c_owner c ∈ l → ∀ r, cl_runs d !! c_owner c = Some r → ¬ open_run r);
  sb_kept k c : cl_children d !! k = Some c → is_Some (cl_children d' !! k);
}.
Definition keyed (d : closes) : Prop := ∀ k r, cl_runs d !! k = Some r → r_id r = k.
Lemma superseded_nil d : superseded_by [] d d.
Proof.
  split; [done| | |by eexists].
  - intros k. destruct (cl_runs d !! k); [|done]. split; [done|]. split; [done|]. set_solver.
  - intros k c' Hc. exists c'. split_and!; try done. set_solver.
Qed.
Lemma superseded_keyed l d d' : superseded_by l d d' → keyed d → keyed d'.
Proof.
  intros H Hk k r' Hr'. pose proof (sb_runs _ _ _ H k) as Hr. rewrite Hr' in Hr. destruct (cl_runs d !! k) as [r|] eqn:E; [|done].
  destruct Hr as [Hs _]. rewrite (sc_id _ _ Hs). by apply Hk.
Qed.
Lemma superseded_cons k l d d1 d' : superseded_by [k] d d1 → superseded_by l d1 d' → superseded_by (k :: l) d d'.
Proof.
  intros H1 H2. split.
  - rewrite (sb_owners _ _ _ H2). apply H1.
  - intros j. pose proof (sb_runs _ _ _ H1 j) as Hr1. pose proof (sb_runs _ _ _ H2 j) as Hr2.
    destruct (cl_runs d !! j) as [r|], (cl_runs d1 !! j) as [r1|], (cl_runs d' !! j) as [r2|]; try done.
    destruct Hr1 as (S1 & N1 & E1), Hr2 as (S2 & N2 & E2). split; [by etrans|]. split.
    + intros [Hj1 Hj2]%not_elem_of_cons. rewrite (N2 Hj2). apply N1. set_solver.
    + intros Hj. destruct (decide (j ∈ l)) as [Hl|Hl].
      * destruct (E2 Hl) as (T2 & O2 & C2). split; [done|]. destruct (decide (j = k)) as [->|Hne].
        -- destruct (E1 ltac:(set_solver)) as (T1 & O1 & C1). rewrite C2 by (unfold open_run; congruence). by split.
        -- by rewrite <-(N1 ltac:(set_solver)).
      * assert (j = k) as -> by set_solver. rewrite (N2 Hl). apply E1. set_solver.
  - intros j c' Hc'. destruct (sb_children _ _ _ H2 j c' Hc') as (c1 & Hc1 & Ev2 & Op2 & Pl2).
    destruct (sb_children _ _ _ H1 j c1 Hc1) as (c & Hc & Ev1 & Op1 & Pl1). exists c. split; [done|]. split; [by etrans|].
    split; [auto|]. intros Hpl Hin r Hr Ho. pose proof (ev_planned _ _ Ev2 Hpl) as Hpl1.
    destruct (decide (c_owner c = k)) as [E|Hne]; [by apply (Pl1 Hpl1) with r; [set_solver|done|]|].
    pose proof (sb_runs _ _ _ H1 (c_owner c)) as Hr1. rewrite Hr in Hr1. destruct (cl_runs d1 !! c_owner c) as [r1|] eqn:E1; [|done].
    destruct Hr1 as (_ & N1 & _). rewrite N1 in E1 by set_solver. apply (Pl2 Hpl) with r; [rewrite (ev_owner _ _ Ev1); set_solver|by rewrite (ev_owner _ _ Ev1)|done].
  - intros j c Hc. destruct (sb_kept _ _ _ H1 j c Hc) as [c1 Hc1]. by apply (sb_kept _ _ _ H2 j c1).
Qed.
Definition superseding (l : list string) (w : world) (r : res unit) (w' : world) : Prop :=
  w_sent w' = w_sent w ∧ (r = Ok tt → superseded_by l (w_db w) (w_db w')).
Lemma post_supersede_run root k w : keyed (w_db w) → post (supersede_run P root k) w (superseding [k] w).
Proof.
  intros Hkey. unfold supersede_run. apply post_bind, post_stmt. unfold get_run_in_tx, outcome, final. cbn. rewrite set_db_id.
  assert ((∀ r, cl_runs (w_db w) !! k = Some r → ¬ open_run r) → superseded_by [k] (w_db w) (w_db w)) as Hsame.
  { intros Hn. split; [done| | |by intros j c; eexists].
    - intros j. destruct (cl_runs (w_db w) !! j) as [r|] eqn:Hr; [|done]. split; [done|]. split; [done|]. intros ->%list_elem_of_singleton.
      specialize (Hn r Hr). split; [|by split]. unfold open_run in Hn. by destruct (RESCAN_TERMINAL (r_state r)).
    - intros j c' Hc'. exists c'. split_and!; try done. intros _ ->%list_elem_of_singleton r Hr. by apply Hn. }
  destruct (cl_runs (w_db w) !! k) as [r|] eqn:Hr; [|by apply post_ret; split; [|intros _; by apply Hsame]].
  destruct (RESCAN_TERMINAL (r_state r)) eqn:Ho.
  { apply post_ret. split; [done|]. intros _. apply Hsame. intros r' [= <-]. unfold open_run. congruence. }
  clear Hsame. apply post_bind, post_ask. intros w1 [E1 L1]. apply post_bind, post_update_run; [|intros e w2 [_ L2]; by split; [congruence|]].
  simpl. rewrite E1, (Hkey _ _ Hr), Hr. intros c [= <-] _. apply post_stmt. unfold outcome, final. cbn. split; [done|]. intros _.
  set (r' := stored_run _ _ _). split; simpl.
  - done.
  - intros j. destruct (decide (k = j)) as [<-|Hne].
    + rewrite Hr, lookup_insert_eq. split; [by split|]. split; [set_solver|]. by intros _.
    + rewrite lookup_insert_ne by done. destruct (cl_runs (w_db w) !! j); [|done]. split; [done|]. split; [done|]. set_solver.
  - intros j c' Hc'. destruct (drop_planned_evolves k _ j c' Hc') as (c & Hc & Hev & Hop & Hpl). exists c. split_and!; try done.
    intros Hp E%list_elem_of_singleton. by destruct (Hpl Hp).
  - intros j c Hc. by apply (drop_planned_keys k _ j c).
Qed.
Lemma post_supersede l root w : keyed (w_db w) → post (for_each l (supersede_run P root)) w (superseding l w).
Proof.
  revert w. induction l as [|k l IH]; intros w Hkey; simpl; [apply post_ret; split; [done|]; intros _; apply superseded_nil|].
  apply post_bind. eapply post_weaken; [by apply post_supersede_run|]. intros [[]|e] w1 [Hl Hs]; [|by split].
  specialize (Hs eq_refl). eapply post_weaken; [apply IH; by eapply superseded_keyed|]. intros r w2 [Hl2 Hs2].
  split; [congruence|]. intros E. by eapply superseded_cons, Hs2.
Qed.

Definition inherit (account : string) (i : option Z) (root : string) (d : closes) : closes :=
  set_children (update_where_child (inherited_by account i root (cl_runs d)) (with_owner root)) d.
Lemma inherit_grows account i root d : grows d (inherit account i root d).
Proof.
  apply grows_children. intros k c Hc. unfold update_where_child. rewrite lookup_fmap, Hc. eexists. split; [done|].
  destruct (inherited_by _ _ _ _ _); [by split|done].
Qed.
Lemma superseded_grows l d d' : superseded_by l d d' → grows d d'.
Proof.
  intros [_ Hr Hc Hk]. split.
  - intros k r E. specialize (Hr k). rewrite E in Hr. destruct (cl_runs d' !! k) as [r'|]; [|done]. exists r'. split; [done|apply Hr].
  - intros k c E. destruct (Hk k c E) as [c' E']. exists c'. split; [done|]. destruct (Hc k c' E') as (c0 & E0 & [] & _). by simplify_eq.
Qed.

Lemma account_claimed account root now j r l d d2 :
  close_inv d →
  let o := mkOwner root account None KIND_ACCOUNT GOAL_ZERO None STATE_ACTIVE now in
  let t1 := update_where (is_active_scoped account) (set_state STATE_SUPERSEDED now) (cl_owners d) in
  t1 !! root = None → exclusive (<[root := o]> t1) → (∀ k x, cl_owners d !! k = Some x → owns_account account x = false) →
  (∀ k, k ∈ l ↔ ∃ x, cl_owners d !! k = Some x ∧ is_active_scoped account x = true) →
  cl_runs d !! root = None → r_id r = root → r_account r = account → r_scope r = SCOPE_ACCOUNT → open_run r →
  superseded_by l (mkCloses (<[root := o]> t1) (<[root := r]> (cl_runs d)) (cl_children d) j) d2 →
  close_inv (inherit account None root d2).
Proof.
  intros Hd o t1 Hfresh Hex Hno Hl Hrun Hid Hacc Hsco Hop [Ho2 Hr2 Hc2 _]. simpl in *.
  assert (root ∉ l) as Hroot.
  { intros (x & Hx & _)%Hl. unfold t1 in Hfresh. by rewrite lookup_update, Hx in Hfresh. }
  assert (∀ k, k ∈ l → ∃ x r0, cl_owners d !! k = Some x ∧ x_state x = STATE_ACTIVE ∧ cl_runs d !! k = Some r0 ∧ open_run r0) as Hlive.
  { intros k (x & Hx & Hs)%Hl. pose proof (scoped_active _ _ Hs) as Hact. destruct (ci_owned d Hd k x Hx Hact) as (r0 & Hr0 & Hop0 & _).
    by exists x, r0. }
  assert (cl_runs d2 !! root = Some r) as Hr.
  { specialize (Hr2 root). rewrite lookup_insert_eq in Hr2. destruct (cl_runs d2 !! root) as [r'|]; [|done].
    destruct Hr2 as (_ & E & _). by rewrite E. }
  set (d1 := mkCloses t1 (delete root (cl_runs d2)) (cl_children d2) (cl_joins d2)).
  assert (close_inv d1) as Hd1.
  { apply (inv_ended (λ k, k ∈ l) d d1 Hd); [intros k Hk; destruct (Hlive k Hk) as (x & _ & ? & ? & _); by exists x|]. split; [|split].
    - exists (is_active_scoped account), STATE_SUPERSEDED, now. split_and!; try done; [apply scoped_active|]. intros k x Hx. split.
      + intros Hs. split; [apply Hl; by exists x|by eapply scoped_active].
      + intros [(x' & Hx' & Hs)%Hl _]. by simplify_eq.
    - intros k. destruct (decide (root = k)) as [<-|Hk]; [by simpl; rewrite Hrun, lookup_delete_eq|].
      specialize (Hr2 k). rewrite lookup_insert_ne in Hr2 by done. simpl. rewrite lookup_delete_ne by done.
      destruct (cl_runs d !! k) as [r0|] eqn:Hr0, (cl_runs d2 !! k) as [r'|]; try done.
      destruct Hr2 as (Hs & Hsame & Hend). split; [done|]. split; [by intros ->%Hsame|]. intros Hk'.
      destruct (Hlive k Hk') as (x & r1 & _ & _ & E & Hop0). simplify_eq. destruct (Hend Hk') as (Ht & E & _).
      split; [done|]. left. by rewrite E.
    - intros k c' Hc'. destruct (Hc2 k c' Hc') as (c & Hc & Hev & Hopn & Hpl). exists c. split_and!; try done. intros Hp Hin.
      destruct (Hlive _ Hin) as (x & r0 & _ & _ & E & Hop0). apply (Hpl Hp Hin r0); [|done].
      rewrite lookup_insert_ne; [done|]. intros E'. by rewrite <-E' in Hin. }
  pose proof (inv_claimed d1 root o r Hd1) as H. simpl in H. rewrite lookup_delete_eq, insert_delete_id, Hsco, Hacc in H by done.
  replace (inherit account None root d2) with (mkCloses (<[root := o]> t1) (cl_runs d2)
    (update_where_child (inherited_by account None root (cl_runs d2)) (with_owner root) (cl_children d2)) (cl_joins d2))
    by (unfold inherit, set_children; by rewrite Ho2).
  apply H; try done; [split; [done|by rewrite Hsco]|]. intros i root' _ (x & Hx & Hown). unfold t1 in Hx. rewrite lookup_update in Hx.
  apply fmap_Some in Hx as (x0 & Hx0 & ->). specialize (Hno _ _ Hx0). destruct (is_active_scoped account x0) eqn:Es.
  - destruct Hown as [E|E]; [apply account_active in E|apply position_scoped, scoped_active in E]; done.
  - destruct Hown as [E|E%position_scoped]; congruence.
Qed.
Lemma scoped_claimed account root i q now r d j :
  close_inv d →
  let o := mkOwner root account (Some i) KIND_SCOPED (match q with Some _ => GOAL_PARTIAL | None => GOAL_ZERO end) q STATE_ACTIVE now in
  cl_owners d !! root = None → exclusive (<[root := o]> (cl_owners d)) →
  (∀ k x, cl_owners d !! k = Some x → owns_account account x = false ∧ owns_position account i x = false) →
  cl_runs d !! root = None → r_id r = root → r_account r = account → r_scope r = SCOPE_CONID i → open_run r →
  close_inv (inherit account (Some i) root (mkCloses (<[root := o]> (cl_owners d)) (<[root := r]> (cl_runs d)) (cl_children d) j)).
Proof.
  intros Hd o Hfresh Hex Hno Hrun Hid Hacc Hsco Hop.
  pose proof (inv_claimed d root o r Hd) as H. rewrite Hsco, Hacc in H. apply (inv_joins _ (λ _, j)) in H; try done.
  - split; [done|by rewrite Hsco].
  - intros i' root' <- (x & Hx & Hown). destruct (Hno _ _ Hx). destruct Hown; congruence.
Qed.

Lemma post_in_owners {A} (m : M (exit_owners float) A) w (Q : res A → world → Prop) :
  Q (outcome m (cl_owners (w_db w))) (set_db (set_owners (final m (cl_owners (w_db w))) (w_db w)) w) → post (stmt (in_owners m)) w Q.
Proof.
  intros H. apply post_stmt. unfold in_owners, outcome, final in *. rewrite zoom_unfold. by destruct (m _).
Qed.
Lemma post_join j w (Q : res unit → world → Prop) :
  Q (Ok tt) (set_db (set_joins <[j_command j := j]> (w_db w)) w) → (∀ e, Q (Raise e) w) → post (stmt (record_join_in_tx j)) w Q.
Proof.
  intros Hok Hno. apply post_stmt. unfold record_join_in_tx, outcome, final. run. destruct (bool_decide _); [exact Hok|]. simpl.
  rewrite set_db_id. apply Hno.
Qed.
Lemma post_insert_run r t w (Q : res unit → world → Prop) :
  (cl_runs (w_db w) !! r_id r = None → Q (Ok tt) (set_db (set_runs <[r_id r := stored_run r false t]> (w_db w)) w)) →
  (∀ e, Q (Raise e) w) → post (stmt (insert_run_in_tx r t)) w Q.
Proof.
  intros Hok Hno. apply post_stmt. unfold insert_run_in_tx, get_run_in_tx, outcome, final. run.
  destruct (bool_decide_reflect (cl_runs (w_db w) !! r_id r = None)); simpl; [by apply Hok|]. rewrite set_db_id. apply Hno.
Qed.
Lemma post_inherit account i root w (Q : res unit → world → Prop) :
  Q (Ok tt) (set_db (inherit account i root (w_db w)) w) → post (stmt (inherit_children_in_tx account i root)) w Q.
Proof. intros H. by apply post_stmt. Qed.
Lemma owners_id d : set_owners (cl_owners d) d = d.
Proof. by destruct d. Qed.
Lemma grows_joins d f : grows d (set_joins f d).
Proof. split; intros k x Hx; by exists x. Qed.
(** Before the first write of a transaction. *)
Lemma commits_after {A B} (m : M world A) (k : A → M world B) w Q : silent m → (∀ a w1, still w w1 → commits (k a) w1 Q) →
  commits (m ≫= k) w Q.
Proof.
  intros Hm Hk. apply (post_silent _ _ w); [done|done| |by intros e w1 [_ ?]]. intros a w1 Hs. by apply commits_asked, Hk.
Qed.

Lemma commits_claim_account account cause deadline routine w : close_inv (w_db w) →
  commits (claim_account_work P account cause deadline routine) w (λ _ _, True).
Proof.
  intros Hd0. unfold claim_account_work. apply commits_after; [asks|]. intros known w1 Hs1.
  assert (close_inv (w_db w1)) as Hd by (destruct Hs1 as [-> _]; done). clear w Hd0 Hs1.
  destruct known as [a|]; [by apply post_ret|]. apply commits_after; [asks|]. intros t w2 Hs2.
  assert (close_inv (w_db w2)) as Hd2 by (destruct Hs2 as [-> _]; done). clear w1 Hd Hs2. rename w2 into w, Hd2 into Hd.
  unfold commits. apply post_bind, post_in_owners. unfold outcome, final.
  destruct (claim_account_in_tx account cause t (cl_owners (w_db w))) as [[cl|e] o'] eqn:Hc; [|done]. cbn [fst snd].
  apply post_bind, post_join; [|done]. cbn [w_db set_db].
  destruct (claim_account_cases _ _ _ _ _ _ (ci_exclusive _ Hd) Hc) as [(-> & o & Ho & Hx & Hcl)|(-> & Hfresh & Hroot & Hres & Hno & Hl)].
  - rewrite owners_id. assert (post (mret (answer_joined JOINED_FLATTEN, claim_root cl))
      (set_db (set_joins <[cause := mkJoin cause (claim_root cl) account None (claim_result cl) ASKED_ACCOUNT None]> (w_db w)) w)
      (λ r w', w_sent w' = w_sent w ∧ ∀ a, r = Ok a → close_inv (w_db w') ∧ grows (w_db w) (w_db w') ∧ True)) as Hjoin.
    { apply post_ret. split; [done|]. intros a _. split; [by apply inv_joins|]. split; [apply grows_joins|done]. }
    destruct (ci_owned _ Hd _ o Ho Hx) as (r & Hr & _).
    destruct (claim_result cl) eqn:E; try (by apply Hjoin); rewrite Hcl in Hr by congruence;
      apply post_bind, post_insert_run; [|done| |done| |done]; simpl; by rewrite Hr.
  - rewrite Hres. apply post_bind, post_insert_run; [|done]. simpl. intros Hrun. apply post_bind.
    set (r := stored_run _ _ _). set (o := mkOwner _ _ _ _ _ _ _ _) in *.
    set (d1 := set_runs _ _). eapply post_weaken; [apply post_supersede|].
    + intros k x. simpl. intros [[<- <-]|[_ Hk]]%lookup_insert_Some; [done|by eapply (ci_run_key _ Hd)].
    + intros [[]|e] w2 [Hl2 Hs2]; [|by split]. specialize (Hs2 eq_refl). apply post_bind, post_inherit, post_ret. split; [done|].
      intros a [= <-]. cbn [w_db set_db]. split; [|split; [|done]].
      * refine (account_claimed account cause t _ r (superseded cl) (w_db w) _ Hd Hfresh _ Hno Hl Hrun
          eq_refl eq_refl eq_refl eq_refl Hs2).
        eapply (claim_exclusive _ _ cl); [apply work_account|apply Hd|exact Hc].
      * etrans; [|apply inherit_grows]. etrans; [|by eapply superseded_grows]. split.
        -- intros k x Hk. exists x. simpl. rewrite lookup_insert_ne; [done|congruence].
        -- intros k x Hk. by exists x.
Qed.
Lemma commits_claim_scoped account cause i req adm deadline stop target reprotect w : close_inv (w_db w) →
  commits (claim_scoped_work P account cause i req adm deadline stop target reprotect) w (λ _ _, True).
Proof.
  intros Hd0. unfold claim_scoped_work. cbv zeta. apply commits_after; [asks|]. intros known w1 Hs1.
  assert (close_inv (w_db w1)) as Hd by (destruct Hs1 as [-> _]; done). clear w Hd0 Hs1.
  destruct known as [a|]; [by apply post_ret|]. apply commits_after; [asks|]. intros t w2 Hs2.
  assert (close_inv (w_db w2)) as Hd2 by (destruct Hs2 as [-> _]; done). clear w1 Hd Hs2. rename w2 into w, Hd2 into Hd.
  unfold commits. apply post_bind, post_in_owners. unfold outcome, final.
  destruct (claim_scoped_in_tx account i cause adm t (cl_owners (w_db w))) as [[cl|e] o'] eqn:Hc; [|done]. cbn [fst snd].
  apply post_bind, post_join; [|done]. cbn [w_db set_db]. pose proof (claim_scoped_cases _ _ _ _ _ _ _ _ Hc) as Hcase.
  apply post_bind. destruct (claim_result cl) eqn:Hres.
  - destruct Hcase as (-> & Hfresh & Hroot & Hno). apply post_bind, post_insert_run; [|done]. simpl. intros Hrun.
    set (r := stored_run _ _ _). apply post_inherit, post_ret. split; [done|]. intros a _. cbn [w_db set_db]. split; [|split; [|done]].
    + refine (scoped_claimed account cause i adm t r (w_db w) _ Hd Hfresh _ Hno Hrun eq_refl eq_refl eq_refl eq_refl).
      eapply (claim_exclusive _ _ cl); [apply work_scoped|apply Hd|exact Hc].
    + etrans; [|apply inherit_grows]. split.
      * intros k x Hk. exists x. simpl. rewrite lookup_insert_ne; [done|congruence].
      * intros k x Hk. by exists x.
  - rewrite Hcase, owners_id. apply post_ret, post_ret. split; [done|]. intros a _. split; [by apply inv_joins|]. split; [apply grows_joins|done].
  - rewrite Hcase. eapply post_weaken; [apply commits_upgrade_run; apply inv_joins; by apply inv_upgrade_goal|].
    intros [u|e] w2 [Hl2 Hu]; [|by split]. apply post_ret. split; [done|]. intros a _. destruct (Hu u eq_refl) as (Hd2 & Hg2 & _).
    split; [done|]. split; [|done]. etrans; [|exact Hg2]. etrans; [apply grows_owners|apply grows_joins].
  - rewrite Hcase, owners_id. apply post_ret, post_ret. split; [done|]. intros a _. split; [by apply inv_joins|]. split; [apply grows_joins|done].
Qed.

Lemma keeps_claim_account account cause deadline routine : keeps (tx (claim_account_work P account cause deadline routine)).
Proof. apply keeps_tx. intros w Hd. by apply commits_claim_account. Qed.
Lemma keeps_claim_scoped account cause i req adm deadline stop target reprotect :
  keeps (tx (claim_scoped_work P account cause i req adm deadline stop target reprotect)).
Proof. apply keeps_tx. intros w Hd. by apply commits_claim_scoped. Qed.
Hint Resolve keeps_tick keeps_claim_account keeps_claim_scoped : close.
Lemma silent_partial_allowed account i : silent (stmt (in_owners (ensure_partial_allowed_in_tx account i))).
Proof.
  intros w. apply post_in_owners. assert (final (ensure_partial_allowed_in_tx account i) (cl_owners (w_db w)) = cl_owners (w_db w)) as ->.
  { unfold final, ensure_partial_allowed_in_tx, account_owner_in_tx, owner_for_in_tx. run.
    destruct (fetch (owns_account account) (cl_owners (w_db w))); run; [done|]. by destruct (fetch _ _). }
  rewrite owners_id. by destruct w.
Qed.
Hint Resolve silent_partial_allowed : close.
Lemma keeps_end_routine root : keeps (end_routine P root).
Proof.
  unfold end_routine. apply keeps_bind; [|intros o; keep]. apply keeps_tx. intros w Hd. unfold commits.
  apply post_bind, post_stmt. unfold get_run_in_tx, outcome, final. cbn. rewrite set_db_id.
  destruct (cl_runs (w_db w) !! root) as [r|] eqn:Hr; [|by apply post_ret]. destruct (r_routine r); [|by apply post_ret].
  pose proof (ci_run_key _ Hd _ _ Hr) as Hid. apply post_bind, post_ask. intros w1 [E1 L1].
  apply post_bind, post_update_run; [|by intros e w2 [_ ->]]. simpl. rewrite E1, Hid. intros c Hc _. apply post_ret.
  split; [done|]. intros o _. simplify_eq. 
  destruct (update_tame (w_db w) r (put_routine false r) (clock P (w_calls w)) Hd) as [H1 H2]; [done|by split|by left|done|]. simpl in *.
  by split_and!.
Qed.
Hint Resolve keeps_end_routine : close.
Lemma keeps_start account cause deadline r : keeps (start P account cause deadline r).
Proof. unfold start, exclusive_lock, claim_scoped_root, claim_reprotect_root. keep. Qed.
Hint Resolve keeps_start : close.
Lemma keeps_rescan : keeps (rescan P).
Proof. unfold rescan, exclusive_lock, start_late_close. keep. Qed.

Lemma keeps_worker_tick failures account : keeps (worker_tick P failures account).
Proof.
  unfold worker_tick. apply keeps_bind; [|intros _; apply keeps_rescan]. destruct failures as [f|]; [|keep].
  unfold flatten_failure, root_for. keep.
Qed.
Lemma keeps_upgrade root : keeps (upgrade_to_zero P root).
Proof.
  unfold upgrade_to_zero. apply keeps_bind; [|intros _; keep]. apply keeps_tx. intros w Hd. apply commits_after; [asks|]. intros t w1 [E1 _].
  apply commits_escalate; [by rewrite E1|]. intros w2 Hd2 _ _. eapply post_weaken; [by apply commits_upgrade_run|].
  intros r w3 [Hl Ha]. split; [done|]. intros u E. by destruct (Ha u E) as (? & ? & _).
Qed.

(** ** Reachable worlds *)
(** The worker runs one entry point at a time.  A port may answer that the process
    died: what is left is what a restart finds. *)
Inductive close_step : world → world → Prop :=
  | step_start account cause deadline r w : close_step w (final (start P account cause deadline r) w)
  | step_tick failures account w : close_step w (final (worker_tick P failures account) w)
  | step_upgrade root w : close_step w (final (upgrade_to_zero P root) w).
Definition no_close : world := mkWorld (mkCloses ∅ ∅ ∅ ∅) 0 [].

Lemma no_close_ok : world_ok no_close.
Proof. split; [apply close_inv_empty|]. by split; [intros e []%not_elem_of_nil..|intros []]. Qed.
Lemma step_moved w w' : world_ok w → close_step w w' → run_moved w w'.
Proof. intros Hw Hs. destruct Hs; [by apply keeps_start|by apply keeps_worker_tick|by apply keeps_upgrade]. Qed.
Lemma steps_moved w w' : world_ok w → rtc close_step w w' → run_moved w w'.
Proof.
  intros Hw Hs. induction Hs as [w|w w1 w2 H1 H2 IH]; [by apply moved_refl|]. pose proof (step_moved _ _ Hw H1) as Hm.
  eapply moved_trans; [exact Hm|]. by apply IH, Hm.
Qed.
Lemma reachable_ok w : rtc close_step no_close w → world_ok w.
Proof. intros H. by apply (steps_moved _ _ no_close_ok H). Qed.
End claims.
#[export] Hint Resolve keeps_on_deadline keeps_tick keeps_claim_account keeps_claim_scoped
   silent_partial_allowed keeps_end_routine keeps_start : close.
Arguments close_step : clear implicits.
