(* ===== verification/CloseSafety.v ===== *)
(** * The safety of the close machine ([trader/trading/liquidation_service.py])

    What holds of every world the worker leads to, whatever the broker and the other
    ports answer: at most one reduce of a position may be live, no order goes out
    twice, an order that may be live is watched, and a close ends on evidence. *)
From stdpp Require Import base tactics gmap list strings pretty.
From Stdlib Require Import ZArith Lia SpecFloat.
From S2P Require Import Prelude Py ExitOwner CloseStore Close CloseInv CloseRules CloseWrites CloseDispatch CloseStep CloseClaims.
Open Scope Z_scope.

(** ** The proof that the exposure is gone *)
Definition nothing_left (s : close_scope) (sn : Snapshot) : Prop :=
  match s with
  | SCOPE_ACCOUNT => (∀ p, p ∈ sn_positions sn → feq (po_quantity p) fzero = true) ∧ sn_working sn = []
  | SCOPE_CONID i => (∀ p, p ∈ sn_positions sn → po_conid p = i → feq (po_quantity p) fzero = true) ∧
                     ∀ o, o ∈ sn_working sn → bo_conid o ≠ i
  end.
Lemma exposure_none rc sn w : outcome (exposure_since_decision rc sn) w = Ok false → nothing_left (r_scope (rc_run rc)) sn.
Proof.
  unfold exposure_since_decision, outcome. intros [= H]. unfold nothing_left. destruct (r_scope (rc_run rc)) as [|i].
  - to_prop. split; [|done]. intros p Hp. apply not_false_iff_true. intros E. apply not_true_iff_false in H. apply H, existsb_exists. exists p.
    rewrite E. split; [by apply list_elem_of_In|done].
  - unfold find_position in H. destruct (filter _ (sn_positions sn)) as [|p l] eqn:Hf; [|done]. simpl in H. to_prop. split.
    + intros p Hp Hi. apply not_false_iff_true. intros E.
      assert (p ∈ filter (λ p, po_conid p = i ∧ feq (po_quantity p) fzero = false) (sn_positions sn)) as Hin by (by apply list_elem_of_filter).
      rewrite Hf in Hin. set_solver.
    + intros o Ho Hi. assert (o ∈ working_for sn i) as Hin by (by apply list_elem_of_filter). rewrite H in Hin. set_solver.
Qed.

Section evidence.
Context (P : Ports).
Lemma acting_trans d1 d2 d3 : keeps_acting d1 d2 → keeps_acting d2 d3 → keeps_acting d1 d3.
Proof. intros H1 H2 root H. by apply H2, H1. Qed.
Lemma post_ask_exact {A} (port : nat → res A) w (Q : res A → world → Prop) :
  Q (port (w_calls w)) (mkWorld (w_db w) (S (w_calls w)) (w_sent w)) → post (ask port) w Q.
Proof. done. Qed.

(** What the terminal write waited for. *)
Record proved (rc : Receipt) (g : Z) (changed : Snapshot → M world bool) (n : nat) (d : closes) : Prop := {
  pv_sn : ∃ sn w1, capture P n (r_account (rc_run rc)) = Ok sn ∧ sn_generation sn = g ∧ outcome (changed sn) w1 = Ok false;
  pv_mark m : fill_watermark (r_account (rc_run rc)) (scope_conid (r_scope (rc_run rc))) d = Some m → m < g;
}.
Lemma post_fresh rc g w : post (fresh P rc g) w (λ r w', still w w' ∧ (r = Ok true →
  ∀ m, fill_watermark (r_account (rc_run rc)) (scope_conid (r_scope (rc_run rc))) (w_db w) = Some m → m < g)).
Proof.
  apply post_both; [apply silent_fresh|]. unfold fresh. cbv zeta. apply post_bind, post_gets.
  destruct (fill_watermark _ _ _) as [m|]; [|by apply post_any]. destruct (g <=? m) eqn:E; [by apply post_ret|].
  apply post_any. intros r w' _ m' [= <-]. lia.
Qed.
Lemma post_changed_proof rc g changed w : world_ok w → in_step rc (w_db w) → (∀ sn, silent (changed sn)) →
  post (changed_under_hold P rc g changed) w (λ r w', keeps_acting (w_db w) (w_db w') ∧ (r = Ok false → proved rc g changed (w_calls w) (w_db w))).
Proof.
  intros Hw Hin Hch. unfold changed_under_hold. apply post_except.
  eapply post_weaken with (Q := λ r w', keeps_acting (w_db w) (w_db w') ∧ (r = Ok false → proved rc g changed (w_calls w) (w_db w))).
  2: { intros [b|e] w' Hb; [done|]. split; [by split; [apply Hb|]|apply post_ret; by split; [apply Hb|]]. }
  apply post_bind, post_ask_exact. set (w1 := mkWorld _ _ _). assert (still w w1) as Hs1 by done.
  destruct (capture P (w_calls w) _) as [sn|e] eqn:Hc; [|by split; [apply acting_still|]].
  destruct (Z.eqb_spec (sn_generation sn) g) as [Hg|]; [|by apply post_ret; split; [apply acting_still|]]. cbn [negb].
  apply post_bind, post_ask. intros w2 Hs2. assert (still w w2) as Hs by by eapply still_trans.
  destruct (newest_generation P _) as [n|e]; [|by split; [apply acting_still|]].
  apply post_bind. eapply post_weaken; [apply post_observe_children; [by eapply still_ok|by destruct Hs as [-> _]]|].
  intros [o|e] w3 ([Hm3 Ha3] & _ & Ho); [|split; [by eapply acting_trans; [by apply acting_still|]|done]]. specialize (Ho o eq_refl).
  apply post_bind. eapply post_weaken; [apply post_observe_late_fills, Hm3|].
  intros [l|e] w4 ([Hm4 Ha4] & _ & Hl); [|split; [|done];
    eapply acting_trans; [by apply acting_still|]; by eapply acting_trans].
  specialize (Hl l eq_refl). assert (keeps_acting (w_db w) (w_db w4)) as Ha by (eapply acting_trans; [by apply acting_still|]; by eapply acting_trans).
  destruct o as [rc'|], l as [rc''|]; try by apply post_ret.
  assert (still w w4) as Hs4 by by do 2 (eapply still_trans; [done|]).
  apply post_bind. eapply post_weaken; [apply post_fresh|]. intros [b|e] w5 [Hs5 Hf]; [|split; [apply acting_still; exact (still_trans _ _ _ Hs4 Hs5)|done]].
  assert (still w w5) as Hs' by by eapply still_trans. destruct b; cbn [negb]; [|by apply post_ret; split; [apply acting_still|]].
  specialize (Hf eq_refl).
  eapply post_weaken; [apply (post_both (changed sn) w5 (λ _ w', still w5 w') (λ r _, r = outcome (changed sn) w5)); [apply Hch|done]|].
  intros r w6 [Hs6 Hr]. split; [apply acting_still; exact (still_trans _ _ _ Hs' Hs6)|]. intros ->. split; [by exists sn, w5|].
  intros m. destruct Hs4 as [E _]. rewrite E in Hf. apply Hf.
Qed.
Lemma post_wait_acts rc g w : world_ok w → post (wait P rc g) w (λ _ w', acts (r_id (rc_run rc)) (w_db w) → acts (r_id (rc_run rc)) (w_db w')).
Proof.
  intros Hw. unfold wait. apply post_bind. eapply post_weaken; [apply silent_ask_if|]. intros [u|e] w1 Hs1; [|by destruct Hs1 as [-> _]].
  assert (world_ok w1) as Hw1 by by eapply still_ok. destruct Hs1 as [<- _]. unfold set_run. apply post_bind.
  eapply post_weaken; [apply post_commits, commits_change_run, tame_set; try done; apply Hw1|].
  intros [[]|e] w2 (Hm & _ & Hr); [|by rewrite Hr]. destruct Hr as (_ & _ & r & r' & Hr & Hru & Hst & _).
  apply (post_weaken _ _ (λ _ w3, still w2 w3)); [apply mute_bind; [apply silent_trip_when|intros _; apply silent_receipt_of]|].
  intros r0 w3 [-> _] _. exists r'. rewrite Hru, lookup_insert_eq. split; [done|]. unfold open_run. by rewrite Hst.
Qed.
Lemma post_after_acts rc g w w0 : keeps_acting (w_db w0) (w_db w) → world_ok w →
  post (wait P rc g) w (λ _ w', acts (r_id (rc_run rc)) (w_db w0) → acts (r_id (rc_run rc)) (w_db w')).
Proof. intros Ha Hw. eapply post_weaken; [by apply post_wait_acts|]. intros r w' H H0. by apply H, Ha. Qed.
Lemma post_finish_proof rc s g f changed w : world_ok w → current rc (w_db w) → (∀ sn, silent (changed sn)) →
  post (finish_held P rc s g f changed) w (λ _ w', acts (r_id (rc_run rc)) (w_db w) → ¬ acts (r_id (rc_run rc)) (w_db w') →
    hold_broker_changes P (w_calls w) = Ok tt ∧ proved rc g changed (S (w_calls w)) (w_db w)).
Proof.
  intros Hw Hcur Hch. set (root := r_id (rc_run rc)). unfold finish_held. apply post_bind.
  eapply post_weaken with (Q := λ r w', (hold_broker_changes P (w_calls w) = Ok tt ∧ proved rc g changed (S (w_calls w)) (w_db w)) ∨
    (world_ok w' ∧ keeps_acting (w_db w) (w_db w') ∧ r ≠ Ok (Some true))).
  - unfold held. apply post_try.
    eapply post_weaken with (Q := λ r w', (hold_broker_changes P (w_calls w) = Ok tt ∧ proved rc g changed (S (w_calls w)) (w_db w)) ∨
      (world_ok w' ∧ keeps_acting (w_db w) (w_db w') ∧ r ≠ Ok (Some true))).
    + apply post_bind, post_ask_exact. set (w1 := mkWorld _ _ _). assert (world_ok w1) as Hw1 by (destruct Hw; by split).
      destruct (hold_broker_changes P (w_calls w)) as [[]|e] eqn:Hh; [|right; split; [done|]; split; [by apply acting_still|done]]. apply post_bind, post_bind.
      eapply post_weaken; [apply post_both; [apply post_changed|apply post_changed_proof]|]; try done;
        try (by apply current_in_step; [apply Hw|]).
      intros [b|e] w2 [[[Hw2 _] Hs2] [Ha Hp]]; [|by right]. destruct b; [apply post_ret, post_ret; by right|].
      specialize (Hp eq_refl). apply post_bind, post_any. intros [u|e] w3; [apply post_ret, post_ret|]; by left.
    + intros [b|e] w1 H; [done|]. destruct e; try done. apply post_ret. destruct H as [H|(H1 & H2 & _)]; [by left|by right].
  - intros [b|e] w1 [H|(Hw1 & Ha & Hb)]; [by apply post_any| |done|intros Hact []; by apply Ha].
    destruct b as [[]|]; [done|..]; (eapply post_weaken; [by apply (post_after_acts rc g w1 w)|]); intros r w2 H Hact []; by apply H.
Qed.
End evidence.

(** ** An escalation never escalates again *)
Section escalation.
Context (P : Ports).

(** What an escalation leaves of its run. *)
Definition escalated (rc : Receipt) : Prop := r_goal (rc_run rc) = RUN_ZERO ∧ r_phase (rc_run rc) = PHASE_CANCEL.
Lemma post_escalate rc w : world_ok w → post (escalate P rc) w (λ r w', r = Ok tt →
  ∃ r', cl_runs (w_db w') !! r_id (rc_run rc) = Some r' ∧ r_goal r' = RUN_ZERO ∧ r_phase r' = PHASE_CANCEL).
Proof.
  intros Hw. unfold escalate. cbv zeta. apply post_bind. eapply post_weaken; [apply silent_ask_if|]. intros [u|e] w1 Hs1; [|done].
  assert (world_ok w1) as Hw1 by by eapply still_ok. clear w Hw Hs1. apply post_tx, post_bind, post_ask. intros w2 [E2 _].
  apply post_bind, post_goal_zero. apply post_bind, post_stmt. unfold get_run_in_tx, outcome, final. cbn. rewrite E2.
  apply post_bind. unfold need. destruct (cl_runs (w_db w1) !! r_id (rc_run rc)) as [r|] eqn:Hr; [|by apply post_raise].
  pose proof (ci_run_key _ (wo_db _ Hw1) _ _ Hr) as Hid.
  apply post_ret, post_bind, post_ask. intros w3 [E3 _]. apply post_bind, post_ask. intros w4 [E4 _]. simpl in *.
  apply post_bind, post_update_run; [|done]. simpl. rewrite E4, E3, Hid. simpl. intros c Hc _. apply post_stmt. unfold outcome, final. cbn.
  rewrite lookup_insert_eq. intros _. eexists. by split_and!.
Qed.

(** With the goal at zero, the step does not ask how to escalate. *)
Lemma zero_step (esc1 esc2 : Receipt → Snapshot → M world Receipt) rc sn i w :
  world_ok w → current rc (w_db w) → r_scope (rc_run rc) = SCOPE_CONID i → escalated rc →
  advance_conid_with P esc1 rc sn i w = advance_conid_with P esc2 rc sn i w.
Proof.
  intros Hw Hcur Hsc [Hz Hph]. unfold advance_conid_with. rewrite Hph. cbn [bool_decide decide]. rewrite bool_decide_eq_false_2 by done.
  pose proof (post_cancel_conid (P := P) rc (sn_generation sn) i (working_for sn i) w Hw Hcur Hsc (working_conid sn i)) as [Hm Hrc].
  unfold outcome, final in *. rewrite !bind_unfold.
  destruct (cancel_conid_orders P rc (sn_generation sn) i (working_for sn i) w) as [[rc1|e] w1]; [|done]. simpl in *.
  destruct (Hrc rc1 eq_refl) as [Hsame _]. rewrite !bind_unfold. destruct (blocking P rc1 (sn_generation sn) w1) as [[b|e] w2]; [|done].
  destruct (b || _); [done|]. destruct (find_position sn i); [|done]. by rewrite (sc_goal _ _ Hsame Hz).
Qed.
End escalation.

(** ** Theorems *)

(** C27. One reduce at a time: whatever the broker, the clock and the process did
    (any port answer, the death of the process at any call), a reduce order goes
    out only when the journal has its open row, with its contract, side and
    quantity, under a root that acts on that account, and every other reduce ever
    written for that account and contract, by whatever root, has settled. *)
Theorem one_reduce_at_a_time P w call d :
  (∀ n a sn, capture P n a = Ok sn → one_row_each sn) →
  rtc (close_step P) no_close w → (call, d) ∈ w_sent w → call_kind call = KIND_REDUCE →
  ∃ c r, cl_children d !! call_child call = Some c ∧ c_state c = UNKNOWN ∧ row_of_call c call ∧
    cl_runs d !! c_owner c = Some r ∧ open_run r ∧ r_account r = c_account c ∧
    ∀ k c', cl_children d !! k = Some c' → k ≠ call_child call → c_kind c' = KIND_REDUCE → c_conid c' = c_conid c →
      c_account c' = c_account c → CHILD_TERMINAL (c_state c') = true.
Proof.
  intros Hcap Hr Hin Hk. destruct (lo_sent _ _ (wo_log _ (reachable_ok Hcap w Hr)) _ Hin) as [Hd (c & r & Hc & Hst & Hrow & Hown & Hop & Ha)].
  simpl in *. exists c, r. split_and!; try done. intros k c' Hc' Hne Hk' Hi' Ha'. apply not_false_iff_true. intros Hu. apply Hne.
  assert (is_Some (c_conid c)) as [i Hi] by (destruct Hrow as [_ Hrow]; destruct call; try done; simpl in Hrow; destruct Hrow as [-> _]; by eexists).
  apply (ci_single d Hd k (call_child call) c' c i); try done; [unfold unsettled; by rewrite Hst| |congruence].
  destruct Hrow as [Hkc _]. congruence.
Qed.


(** C29. No order that may be live is forgotten: it belongs to a root that acts on its
    account and contract, or that root ended and handed it on, and then no root acts
    on the position, so that the next close of it takes the order over; and a
    position never has two reduces that may be live. *)
Theorem open_orders_are_watched P w k c i :
  (∀ n a sn, capture P n a = Ok sn → one_row_each sn) →
  rtc (close_step P) no_close w → cl_children (w_db w) !! k = Some c → CHILD_OPEN (c_state c) = true → c_conid c = Some i →
  (∃ r, cl_runs (w_db w) !! c_owner c = Some r ∧ r_account r = c_account c ∧ covers (r_scope r) i ∧
    (open_run r ∨
     inheritable (r_state r) = true ∧
     (∀ k' r', cl_runs (w_db w) !! k' = Some r' → r_account r' = c_account c → covers (r_scope r') i → ¬ open_run r') ∧
     ∀ root runs, runs !! c_owner c = Some r → root ≠ c_owner c → inherited_by (c_account c) (Some i) root runs c = true)) ∧
  ∀ k' c', cl_children (w_db w) !! k' = Some c' → CHILD_OPEN (c_state c') = true → c_kind c = KIND_REDUCE → c_kind c' = KIND_REDUCE →
    c_conid c' = Some i → c_account c' = c_account c → k' = k.
Proof.
  intros Hcap Hr Hc Ho Hi. pose proof (wo_db _ (reachable_ok Hcap w Hr)) as Hd. split.
  - destruct (ci_watched _ Hd k c i Hc (open_not_terminal _ Ho) Hi) as (r & Hrun & Ha & Hcov & Hw). exists r. split_and!; try done.
    destruct Hw as [Hop|(_ & Hin & Hno)]; [by left|right]. split; [done|]. split.
    + intros k' r' Hr' Ha' Hcov' Hop'. apply (Hno k'). rewrite <-Ha'. by eapply active_owner_of.
    + intros root runs Hru Hne. unfold inherited_by. rewrite String.eqb_refl, Ho, (proj2 (String.eqb_neq _ _)), Hru, Hin by congruence.
      by rewrite bool_decide_eq_true_2.
  - intros k' c' Hc' Ho' Hk Hk' Hi' Ha. by apply (ci_single _ Hd k' k c' c i); try apply open_not_terminal.
Qed.

(** C30. The roots are the exit registry: a root acts exactly when it owns its exit,
    the owner and the run name one account and one scope, and no two roots that act
    cover the same position. *)
Theorem roots_are_the_registry P w root :
  (∀ n a sn, capture P n a = Ok sn → one_row_each sn) → rtc (close_step P) no_close w →
  exclusive (cl_owners (w_db w)) ∧
  (acts root (w_db w) ↔ ∃ o, cl_owners (w_db w) !! root = Some o ∧ x_state o = STATE_ACTIVE) ∧
  (∀ o r, cl_owners (w_db w) !! root = Some o → x_state o = STATE_ACTIVE → cl_runs (w_db w) !! root = Some r → owner_of_run o r) ∧
  ∀ root' r r' i, cl_runs (w_db w) !! root = Some r → cl_runs (w_db w) !! root' = Some r' → open_run r → open_run r' →
    r_account r = r_account r' → covers (r_scope r) i → covers (r_scope r') i → root = root'.
Proof.
  intros Hcap Hr. pose proof (wo_db _ (reachable_ok Hcap w Hr)) as Hd. split_and!.
  - apply Hd.
  - split.
    + intros (r & Hrun & Hop). by apply (ci_open _ Hd root r).
    + intros (o & Ho & Hx). destruct (ci_owned _ Hd root o Ho Hx) as (r & ? & ? & _). by exists r.
  - intros o r Ho Hx Hrun. destruct (ci_owned _ Hd root o Ho Hx) as (r' & ? & _ & ?). by simplify_eq.
  - intros root' r r' i H1 H2 O1 O2 Ha C1 C2. pose proof (active_owner_of _ _ _ _ Hd H1 O1 C1). pose proof (active_owner_of _ _ _ _ Hd H2 O2 C2) as Hact.
    rewrite <-Ha in Hact. by eapply active_owner_unique; [apply Hd|..].
Qed.


(** C32. An escalation is the last: what a step goes on with after it escalated to a
    full close is the same at every depth, so the one level the step is given is
    enough, and the recursion of the code ends. *)
Theorem escalation_ends P rc sn w n m : world_ok w →
  (escalate P rc ;; r ← receipt_of (r_id (rc_run rc)); advance_conid P n r sn) w =
  (escalate P rc ;; r ← receipt_of (r_id (rc_run rc)); advance_conid P m r sn) w.
Proof.
  intros Hw. pose proof (post_escalate P rc w Hw) as He. pose proof (keeps_escalate (P := P) rc w Hw) as [Hw1 Hg].
  unfold post, outcome, final in *. rewrite !bind_unfold. destruct (escalate P rc w) as [[[]|e] w1]; [|done]. simpl in *.
  destruct (He eq_refl) as (r & Hr & Hz & Hph). unfold receipt_of, reads, read_receipt. rewrite !bind_assoc, !bind_gets, Hr. simpl.
  set (rc1 := mkReceipt r _). change ((advance_conid P n rc1 sn) w1 = (advance_conid P m rc1 sn) w1).
  pose proof (ci_run_key _ (wo_db _ Hw1) _ _ Hr) as Hid.
  assert (current rc1 (w_db w1)) as Hcur by (unfold current, read_receipt; simpl; by rewrite Hid, Hr).
  assert (∀ k, advance_conid P k rc1 sn w1 = match r_scope r with SCOPE_ACCOUNT => (Raise TypeError, w1)
    | SCOPE_CONID i => advance_conid_with P (λ _ _, raise TypeError) rc1 sn i w1 end) as Hk.
  { intros k. destruct k; simpl; (destruct (r_scope r) as [|i] eqn:Hsc; [done|]); by apply zero_step. }
  by rewrite !Hk.
Qed.


(** ** A flatten that runs *)
(** One position of 100 shares; its reduce fills from call 20 on; a generation is 16
    calls long. *)
Definition ex_generation (n : nat) : Z := Z.of_nat n / 16.
Definition ex_order (id : string) : BrokerOrder :=
  mkOrder "O1" 265598 (Some id) "Filled" (float_of_Z 100) (float_of_Z 100) None None "SELL" 1 false.
Definition ex_positions (n : nat) : list Position :=
  if (n <? 20)%nat then [mkPosition 265598 (float_of_Z 100) (Some (float_of_Z 50))] else [].
Definition ex_ports : Ports := {|
  clock n := Z.of_nat n; lock_free _ := true; deadline_seconds := 300;
  capture n a := Ok (mkSnapshot a (ex_generation n) (ex_positions n) []);
  send_order _ _ := Ok tt;
  find_orders n _ id := Ok (if (n <? 20)%nat then [] else [ex_order id]);
  find_orders_with_prefix _ _ _ := Ok []; get_order _ _ := Ok None; executed_quantities _ _ _ := Ok [];
  unbound_execution_since _ _ _ _ := Ok false; enumeration_complete _ := Ok true; newest_generation n := Ok (ex_generation n);
  hold_broker_changes _ := Ok tt;
  trip_liquidation := None; request_refresh := None; schedule_reconcile := None; outcome_unknown _ _ := Ok false;
  protection := false;
  handover _ _ _ _ _ _ := Ok (mkHandover None None); handover_account _ _ _ _ _ := Ok tt; expect_reprotect _ _ _ := Ok tt;
  release_after_partial _ _ _ _ _ _ _ := Ok tt; close_after_full _ _ := Ok tt |}.
Lemma ex_captures n a sn : capture ex_ports n a = Ok sn → one_row_each sn.
Proof. intros [= <-]. unfold one_row_each. simpl. unfold ex_positions. destruct (_ <? _)%nat; [apply NoDup_singleton|constructor]. Qed.

Definition ex_started : world := final (start ex_ports "DU1" "cmd-1" 1000 (flatten_account false)) no_close.
Fixpoint ex_ticks (k : nat) (w : world) : world :=
  match k with O => w | S k' => ex_ticks k' (final (worker_tick ex_ports None "DU1") w) end.
Lemma ex_ticks_reach k w : rtc (close_step ex_ports) w (ex_ticks k w).
Proof. revert w. induction k as [|k IH]; intros w; simpl; [done|]. eapply rtc_l; [apply step_tick|apply IH]. Qed.
Lemma ex_reachable_start : rtc (close_step ex_ports) no_close ex_started.
Proof. apply rtc_once, step_start. Qed.
Lemma ex_reachable k : rtc (close_step ex_ports) no_close (ex_ticks k ex_started).
Proof. eapply rtc_l; [apply step_start|apply ex_ticks_reach]. Qed.
Definition ex_reduce : string := "cmd-1-reduce-265598-1".
Definition ex_receipt (w : world) : Receipt :=
  default (mkReceipt (new_run "" "" 0 SCOPE_ACCOUNT RUN_ZERO None None None false) []) (read_receipt "cmd-1" (w_db w)).

(** The reduce goes out once, fills, and the flatten ends flat. *)
Example ex_flatten_ends :
  map fst (w_sent ex_started) = [call_reduce 265598 SELL (float_of_Z 100) ex_reduce] ∧
  map (λ k, r_state <$> cl_runs (w_db (ex_ticks k ex_started)) !! "cmd-1"%string) [0; 3; 4]%nat =
    [Some VERIFYING; Some VERIFYING; Some FLAT] ∧
  map fst (w_sent (ex_ticks 4 ex_started)) = map fst (w_sent ex_started) ∧
  c_state <$> cl_children (w_db (ex_ticks 4 ex_started)) !! ex_reduce = Some FILLED.
Proof. by vm_compute. Qed.

Lemma one_reduce_at_a_time_witness : ∃ call d c r, (call, d) ∈ w_sent ex_started ∧ call_kind call = KIND_REDUCE ∧
  cl_children d !! call_child call = Some c ∧ c_state c = UNKNOWN ∧ cl_runs d !! c_owner c = Some r ∧ open_run r.
Proof.
  destruct (w_sent ex_started) as [|[call d] l] eqn:E; [vm_compute in E; discriminate E|].
  assert ((call, d) ∈ w_sent ex_started) as Hin by (rewrite E; left).
  assert (call_kind call = KIND_REDUCE) as Hk.
  { assert (call = call_reduce 265598 SELL (float_of_Z 100) ex_reduce) as ->; [|reflexivity].
    apply (f_equal (map fst)) in E. vm_compute in E. injection E as <-. reflexivity. }
  destruct (one_reduce_at_a_time ex_ports ex_started call d ex_captures ex_reachable_start Hin Hk)
    as (c & r & Hc & Hs & _ & Hr & Ho & _).
  assert ((call, d) ∈ (call, d) :: l) as Hin' by left.
  exact (ex_intro _ call (ex_intro _ d (ex_intro _ c (ex_intro _ r (conj Hin' (conj Hk (conj Hc (conj Hs (conj Hr Ho))))))))).
Defined.
Lemma open_orders_are_watched_witness : ∃ c r, cl_children (w_db ex_started) !! ex_reduce = Some c ∧ CHILD_OPEN (c_state c) = true ∧
  cl_runs (w_db ex_started) !! c_owner c = Some r ∧ r_account r = c_account c.
Proof.
  destruct (cl_children (w_db ex_started) !! ex_reduce) as [c|] eqn:E; [|vm_compute in E; discriminate E].
  assert (CHILD_OPEN (c_state c) = true ∧ c_conid c = Some 265598) as [Ho Hi].
  { assert ((λ c, (CHILD_OPEN (c_state c), c_conid c)) <$> cl_children (w_db ex_started) !! ex_reduce = Some (true, Some 265598)) as H by (vm_compute; reflexivity).
    rewrite E in H. injection H as H1 H2. exact (conj H1 H2). }
  destruct (open_orders_are_watched ex_ports ex_started ex_reduce c 265598 ex_captures ex_reachable_start E Ho Hi) as [(r & Hr & Ha & _) _].
  exact (ex_intro _ c (ex_intro _ r (conj eq_refl (conj Ho (conj Hr Ha))))).
Defined.
Lemma roots_are_the_registry_witness : exclusive (cl_owners (w_db ex_started)) ∧ acts "cmd-1" (w_db ex_started).
Proof.
  destruct (roots_are_the_registry ex_ports ex_started "cmd-1" ex_captures ex_reachable_start) as (H1 & H2 & _).
  split; [exact H1|]. apply H2. destruct (cl_owners (w_db ex_started) !! "cmd-1"%string) as [o|] eqn:E; [|vm_compute in E; discriminate E].
  exists o. split; [reflexivity|]. vm_compute in E. injection E as <-. reflexivity.
Defined.
Definition ex_filled : world := ex_ticks 3 ex_started.
Lemma escalation_ends_witness : world_ok ex_started ∧
  (escalate ex_ports (ex_receipt ex_started) ;; r ← receipt_of "cmd-1"; advance_conid ex_ports 0 r (mkSnapshot "DU1" 1 [] [])) ex_started =
  (escalate ex_ports (ex_receipt ex_started) ;; r ← receipt_of "cmd-1"; advance_conid ex_ports 7 r (mkSnapshot "DU1" 1 [] [])) ex_started.
Proof.
  assert (world_ok ex_started) as Hw by exact (reachable_ok ex_captures ex_started ex_reachable_start). split; [exact Hw|].
  exact (escalation_ends ex_ports (ex_receipt ex_started) (mkSnapshot "DU1" 1 [] []) ex_started 0 7 Hw).
Defined.
Definition ex_child : Child := default (mkChild "" "" "" "" None KIND_REDUCE 0 UNKNOWN 0 None None None None None fzero fzero None None None None None)
  (cl_children (w_db ex_started) !! ex_reduce).
