(* ===== verification/Protection.v ===== *)
(** * The protective saga ([trader/automation/protective_order_saga.py])

    One row per automated entry: from the check before its bracket is sent, through
    the broker's events, to the close that takes it over.  Several threads write these
    rows (the entry command, the broker ingest, the close worker); every write is
    checked against the revision it was built on.  The operations are the methods of
    [ProtectiveOrderSaga]; what other threads do before each database call is an
    argument of the model ([others]). *)
From stdpp Require Import base tactics gmap list strings pretty.
From Stdlib Require Import ZArith Lia.
From S2P Require Import Prelude Py Correlation Journal Store Bracket.
Open Scope Z_scope.

(** ** Data *)
Inductive saga_state : Type :=
  | VALIDATED | SUBMITTING | ENTRY_WORKING | PARTIALLY_FILLED | PROTECTED | EXITING | CLOSED | OUTCOME_UNKNOWN
  | SAFETY_FAILED | CLOSE_OWNED | NOT_SENT.
Global Instance saga_state_eq_dec : EqDecision saga_state.
Proof. solve_decision. Defined.
Definition saga_text (s : saga_state) : string :=
  match s with
  | VALIDATED => "VALIDATED" | SUBMITTING => "SUBMITTING" | ENTRY_WORKING => "ENTRY_WORKING"
  | PARTIALLY_FILLED => "PARTIALLY_FILLED" | PROTECTED => "PROTECTED" | EXITING => "EXITING" | CLOSED => "CLOSED"
  | OUTCOME_UNKNOWN => "OUTCOME_UNKNOWN" | SAFETY_FAILED => "SAFETY_FAILED" | CLOSE_OWNED => "CLOSE_OWNED"
  | NOT_SENT => "NOT_SENT"
  end.
Definition terminal_saga (s : saga_state) : bool := bool_decide (s ∈ [CLOSED; SAFETY_FAILED; NOT_SENT]).
Definition unconfirmed_send (s : saga_state) : bool := bool_decide (s ∈ [SUBMITTING; OUTCOME_UNKNOWN]).
Definition may_work_entry (s : saga_state) : bool :=
  bool_decide (s ∈ [SUBMITTING; OUTCOME_UNKNOWN; ENTRY_WORKING; PARTIALLY_FILLED; SAFETY_FAILED; CLOSE_OWNED]).

Definition release_stop_status (s : string) : bool := bool_decide (s ∈ ["PreSubmitted"; "Submitted"; "Filled"]%string).
Definition working_status (s : string) : bool :=
  bool_decide (s ∈ ["PendingSubmit"; "PreSubmitted"; "Submitted"; "ApiPending"; "PendingCancel"]%string).
Definition filled_status (s : string) : bool := String.eqb s "Filled".
Definition cancelled_status (s : string) : bool := bool_decide (s ∈ ["Cancelled"; "ApiCancelled"]%string).
Definition rejected_status (s : string) : bool := bool_decide (s ∈ ["Inactive"; "Rejected"]%string).

(** [SagaState], its fields in groups. *)
Record Quantities : Type := mkQty {
  requested : Decimal;
  filled : Decimal;
  protection_quantity : Decimal;
  protection_adjusted : bool;
  filled_at : option Z;
}.
Record Legs : Type := mkLegs {
  protection_working : bool;
  entry_working : bool;
  stop_working : bool;
  target_working : bool;
  stop_filled : bool;
  target_filled : bool;
  entry_cancelled : bool;
  stop_rejected : bool;
  target_rejected : bool;
}.
Record Ownership : Type := mkOwnership {
  close_root : option string;
  expected_cancels : list string;
  handover_generation : option Z;
  protection_generation : Z;
  active_groups : list string;
  pending_groups : list string;
  pending_protection_lost : bool;
}.
(** Times are kept as instants, not as their ISO text. *)
Record SendMarks : Type := mkMarks {
  submitted_order_ids : list Z;
  baseline_position : option Decimal;
  send_generation : option Z;
  send_attempted_at : option Z;
  send_returned_at : option Z;
}.
Record SagaState : Type := mkSaga {
  ss_command : string;
  ss_group : string;
  ss_account : string;
  ss_conid : Z;
  ss_side : string;
  ss_plan : option BracketPlan;
  ss_state : saga_state;
  ss_qty : Quantities;
  ss_legs : Legs;
  ss_own : Ownership;
  ss_send : SendMarks;
  ss_seen : list string;
  ss_revision : Z;
  ss_error : option string;
  ss_flatten : bool;
}.

Definition no_legs : Legs := mkLegs false false false false false false false false false.
Definition unowned : Ownership := mkOwnership None [] None 0 [] [] false.
Definition not_sent_yet : SendMarks := mkMarks [] None None None None.

(** [replace] *)
Definition with_state (st : saga_state) (error : option string) (s : SagaState) : SagaState :=
  mkSaga (ss_command s) (ss_group s) (ss_account s) (ss_conid s) (ss_side s) (ss_plan s) st (ss_qty s) (ss_legs s)
    (ss_own s) (ss_send s) (ss_seen s) (ss_revision s) error (ss_flatten s).
Definition with_qty (q : Quantities) (s : SagaState) : SagaState :=
  mkSaga (ss_command s) (ss_group s) (ss_account s) (ss_conid s) (ss_side s) (ss_plan s) (ss_state s) q (ss_legs s)
    (ss_own s) (ss_send s) (ss_seen s) (ss_revision s) (ss_error s) (ss_flatten s).
Definition with_legs (l : Legs) (s : SagaState) : SagaState :=
  mkSaga (ss_command s) (ss_group s) (ss_account s) (ss_conid s) (ss_side s) (ss_plan s) (ss_state s) (ss_qty s) l
    (ss_own s) (ss_send s) (ss_seen s) (ss_revision s) (ss_error s) (ss_flatten s).
Definition with_own (o : Ownership) (s : SagaState) : SagaState :=
  mkSaga (ss_command s) (ss_group s) (ss_account s) (ss_conid s) (ss_side s) (ss_plan s) (ss_state s) (ss_qty s) (ss_legs s)
    o (ss_send s) (ss_seen s) (ss_revision s) (ss_error s) (ss_flatten s).
Definition with_send (m : SendMarks) (s : SagaState) : SagaState :=
  mkSaga (ss_command s) (ss_group s) (ss_account s) (ss_conid s) (ss_side s) (ss_plan s) (ss_state s) (ss_qty s) (ss_legs s)
    (ss_own s) m (ss_seen s) (ss_revision s) (ss_error s) (ss_flatten s).
Definition with_flatten (b : bool) (s : SagaState) : SagaState :=
  mkSaga (ss_command s) (ss_group s) (ss_account s) (ss_conid s) (ss_side s) (ss_plan s) (ss_state s) (ss_qty s) (ss_legs s)
    (ss_own s) (ss_send s) (ss_seen s) (ss_revision s) (ss_error s) b.
(** [replace(..., seen_event_ids=seen + new, revision=revision + 1)] of a change of [old] *)
Definition next_revision (old : SagaState) (new : list string) (s : SagaState) : SagaState :=
  mkSaga (ss_command s) (ss_group s) (ss_account s) (ss_conid s) (ss_side s) (ss_plan s) (ss_state s) (ss_qty s) (ss_legs s)
    (ss_own s) (ss_send s) (ss_seen old ++ new) (ss_revision old + 1) (ss_error s) (ss_flatten s).

(** [current_groups] *)
Definition current_groups (s : SagaState) : list string :=
  match active_groups (ss_own s) with [] => [ss_group s] | l => l end.
(** [_close_owned_once] *)
Definition close_owned_once (s : SagaState) : bool :=
  bool_decide (is_Some (handover_generation (ss_own s))) || (0 <? protection_generation (ss_own s)).

(** [BrokerOrderEvent]; [ev_filled] is [_dec] of its filled quantity. *)
Record BrokerOrderEvent : Type := mkOrderEvent {
  ev_group : string;
  ev_leg : string;
  ev_status : string;
  ev_filled : Decimal;
  ev_id : string;
  ev_timestamp : Z;
  ev_order_entity : option string;
}.

(** ** What one event does to a row *)

(** [_apply_entry_leg] *)
Definition entry_legs (status : string) (l : Legs) : Legs :=
  let ended := cancelled_status status || rejected_status status in
  mkLegs (protection_working l)
    (if filled_status status || ended then false else if working_status status then true else entry_working l)
    (stop_working l) (target_working l) (stop_filled l) (target_filled l)
    (if ended then true else entry_cancelled l) (stop_rejected l) (target_rejected l).
Definition entry_quantities (status : string) (fill : Decimal) (at' : Z) (q : Quantities) : Quantities :=
  let q1 := if dlt (filled q) fill then mkQty (requested q) fill fill (dlt fill (requested q)) (filled_at q) else q in
  let q2 := if filled_status status then
              let all := dmax (dmax fill (filled q1)) (requested q1) in
              mkQty (requested q1) all all (protection_adjusted q1) (filled_at q1)
            else q1 in
  mkQty (requested q2) (filled q2) (protection_quantity q2) (protection_adjusted q2)
    (if dlt (filled q) (filled q2) then Some at' else filled_at q2).
Definition apply_entry_leg (s : SagaState) (e : BrokerOrderEvent) : SagaState :=
  with_qty (entry_quantities (ev_status e) (ev_filled e) (ev_timestamp e) (ss_qty s))
    (with_legs (entry_legs (ev_status e) (ss_legs s)) s).

(** The [stop] and [take_profit] branches of [_apply_event] *)
Definition stop_legs (status : string) (l : Legs) : Legs :=
  let w1 := if working_status status then true else stop_working l in
  let r1 := if working_status status then false else stop_rejected l in
  let w2 := if rejected_status status || cancelled_status status then false else w1 in
  let r2 := if rejected_status status then true
            else if cancelled_status status then (if target_filled l then r1 else true) else r1 in
  mkLegs (protection_working l) (entry_working l) (if filled_status status then false else w2) (target_working l)
    (if filled_status status then true else stop_filled l) (target_filled l) (entry_cancelled l) r2 (target_rejected l).
Definition target_legs (status : string) (l : Legs) : Legs :=
  let w1 := if working_status status then true else target_working l in
  let r1 := if working_status status then false else target_rejected l in
  let w2 := if rejected_status status || cancelled_status status then false else w1 in
  let r2 := if rejected_status status then true else r1 in
  mkLegs (protection_working l) (entry_working l) (stop_working l) (if filled_status status then false else w2)
    (stop_filled l) (if filled_status status then true else target_filled l) (entry_cancelled l) (stop_rejected l) r2.

(** [_protection_confirmed], [_flat] *)
Definition protection_confirmed (l : Legs) : bool := stop_working l || stop_filled l.
Definition flat (l : Legs) : bool :=
  (stop_filled l && (target_filled l || negb (target_working l))) ||
  (target_filled l && (stop_filled l || negb (stop_working l))).

Definition confirm (l : Legs) : Legs :=
  mkLegs (protection_confirmed l) (entry_working l) (stop_working l) (target_working l) (stop_filled l) (target_filled l)
    (entry_cancelled l) (stop_rejected l) (target_rejected l).

(** The end of [_apply_event]: the state the fields call for. *)
Definition judge (e : BrokerOrderEvent) (s0 : SagaState) : SagaState :=
  let s := with_legs (confirm (ss_legs s0)) s0 in
  let l := ss_legs s in
  let q := ss_qty s in
  let some_fill := dlt dzero (filled q) in
  if entry_cancelled l && negb some_fill then with_state CLOSED None s else
  let fully := dle (requested q) (filled q) && dlt dzero (requested q) in
  if stop_filled l || target_filled l then with_state (if flat l then CLOSED else EXITING) (ss_error s) s else
  if some_fill && negb (protection_working l) &&
     (fully || stop_rejected l || (String.eqb (ev_leg e) "entry" && filled_status (ev_status e)))
  then with_state SAFETY_FAILED (Some "MISSING_PROTECTION"%string) s else
  if fully && protection_working l then with_state PROTECTED (ss_error s) s else
  if some_fill && dlt (filled q) (requested q) then with_state PARTIALLY_FILLED (ss_error s) s else
  if entry_working l || stop_working l || target_working l then with_state ENTRY_WORKING (ss_error s) s else s.

(** [_apply_event] *)
Definition apply_event (s : SagaState) (e : BrokerOrderEvent) : SagaState :=
  if String.eqb (ev_leg e) "entry" then
    let s1 := apply_entry_leg s e in
    if rejected_status (ev_status e) then with_state CLOSED (Some "PARENT_REJECTED"%string) s1 else judge e s1
  else if String.eqb (ev_leg e) "stop" then judge e (with_legs (stop_legs (ev_status e) (ss_legs s)) s)
  else if String.eqb (ev_leg e) "take_profit" then judge e (with_legs (target_legs (ev_status e) (ss_legs s)) s)
  else judge e s.

(** [_lost] *)
Definition lost (s : SagaState) (e : BrokerOrderEvent) : bool :=
  let expected := match ev_order_entity e with Some x => bool_decide (x ∈ expected_cancels (ss_own s)) | None => false end in
  rejected_status (ev_status e) || (cancelled_status (ev_status e) && negb expected).
(** [_owned_bookkeeping] *)
Definition owned_bookkeeping (s : SagaState) (e : BrokerOrderEvent) : SagaState :=
  let l := ss_legs s in
  if String.eqb (ev_leg e) "entry" then apply_entry_leg s e
  else if String.eqb (ev_leg e) "stop" then
    with_legs (mkLegs (protection_working l) (entry_working l) (working_status (ev_status e)) (target_working l)
      (stop_filled l || filled_status (ev_status e)) (target_filled l) (entry_cancelled l) (stop_rejected l) (target_rejected l)) s
  else if String.eqb (ev_leg e) "take_profit" then
    with_legs (mkLegs (protection_working l) (entry_working l) (stop_working l) (working_status (ev_status e))
      (stop_filled l) (target_filled l || filled_status (ev_status e)) (entry_cancelled l) (stop_rejected l) (target_rejected l)) s
  else s.

(** [_entry_fill_grows] *)
Definition entry_fill_grows (s : SagaState) (e : BrokerOrderEvent) : bool :=
  String.eqb (ev_leg e) "entry" &&
  (dlt (filled (ss_qty s)) (ev_filled e) || (filled_status (ev_status e) && dlt (filled (ss_qty s)) (requested (ss_qty s)))).

(** *** The new row of each branch of [_apply_broker_event] *)
Definition recorded_entry (s : SagaState) (e : BrokerOrderEvent) : SagaState :=
  next_revision s [ev_id e] (apply_entry_leg s e).
Definition recorded_only (s : SagaState) (e : BrokerOrderEvent) : SagaState := next_revision s [ev_id e] s.
Definition reopened_row (s : SagaState) (e : BrokerOrderEvent) : SagaState :=
  let s1 := apply_event (with_state OUTCOME_UNKNOWN (Some "ORPHAN_ORDER_FOUND"%string) s) e in
  let s2 := if dlt dzero (filled (ss_qty s1))
            then with_flatten true (with_state SAFETY_FAILED (Some "ORPHAN_ORDER_FILLED"%string) s1) else s1 in
  next_revision s [ev_id e] s2.
Definition pending_row (s : SagaState) (e : BrokerOrderEvent) : SagaState :=
  let o := ss_own s in
  let is_lost := bool_decide (ss_state s = CLOSE_OWNED) && lost s e in
  next_revision s [ev_id e] (with_own (mkOwnership (close_root o) (expected_cancels o) (handover_generation o)
    (protection_generation o) (active_groups o) (pending_groups o) (pending_protection_lost o || is_lost)) s).
Definition owned_row (s : SagaState) (e : BrokerOrderEvent) : SagaState :=
  if lost s e then next_revision s [ev_id e] (with_flatten true (with_state SAFETY_FAILED (Some "PROTECTION_LOST_DURING_CLOSE"%string) s))
  else next_revision s [ev_id e] (owned_bookkeeping s e).
Definition live_row (s : SagaState) (e : BrokerOrderEvent) : SagaState :=
  let u := apply_event s e in
  next_revision s [ev_id e] (if bool_decide (ss_state u = SAFETY_FAILED) && bool_decide (ss_state s ≠ SAFETY_FAILED)
                             then with_flatten true u else u).

(** *** The new row of the other operations *)
(** [_own] *)
Definition owned_by (root : string) (cancels : list (string * option string)) (generation : Z) (s : SagaState) : option SagaState :=
  let o := ss_own s in
  let groups := current_groups s ++ pending_groups o in
  let mine := omap (λ c : string * option string,
    match c.2 with Some g => if bool_decide (g ∈ groups) then Some c.1 else None | None => None end) cancels in
  let expected := map fst (sort_keys (map (λ x, (x, tt)) (remove_dups (expected_cancels o ++ mine)))) in
  if bool_decide (ss_state s = CLOSE_OWNED) && bool_decide (close_root o = Some root) && bool_decide (expected_cancels o = expected)
  then None
  else Some (next_revision s [] (with_state CLOSE_OWNED (ss_error s)
    (with_own (mkOwnership (Some root) expected (Some generation) (protection_generation o) (active_groups o)
                 (pending_groups o) (pending_protection_lost o)) s))).
(** [expect_reprotect] *)
Definition expecting (groups : list string) (s : SagaState) : option SagaState :=
  let o := ss_own s in
  if bool_decide (pending_groups o = groups) then None
  else Some (next_revision s [] (with_own (mkOwnership (close_root o) (expected_cancels o) (handover_generation o)
    (protection_generation o) (active_groups o) groups (pending_protection_lost o)) s)).

Record release : Type := mkRelease {
  rl_root : string;
  rl_remaining : Decimal;
  rl_stop_group : string;
  rl_stop_status : string;
  rl_target : option (string * string);
  rl_problem : bool;
}.
(** [release_after_partial]: the row that keeps the protection *)
Definition released_base (r : release) (s : SagaState) : SagaState :=
  let groups := rl_stop_group r :: match rl_target r with Some (g, _) => [g] | None => [] end in
  next_revision s [] (with_state PROTECTED None
    (with_own (mkOwnership None [] None (protection_generation (ss_own s) + 1) groups [] false)
      (with_legs no_legs
        (with_qty (mkQty (rl_remaining r) (rl_remaining r) (rl_remaining r) (protection_adjusted (ss_qty s)) (filled_at (ss_qty s))) s)))).
Definition released_row (r : release) (now : Z) (s : SagaState) : SagaState :=
  let zero := mkDec 0 (-1) in
  let s1 := apply_event (released_base r s)
    (mkOrderEvent (rl_stop_group r) "stop" (rl_stop_status r) zero ("release:" +:+ rl_root r +:+ ":stop") now None) in
  let s2 := match rl_target r with
    | Some (g, status) => apply_event s1 (mkOrderEvent g "take_profit" status zero ("release:" +:+ rl_root r +:+ ":target") now None)
    | None => s1
    end in
  if rl_problem r || pending_protection_lost (ss_own s) || negb (release_stop_status (rl_stop_status r)) ||
     negb (bool_decide (ss_state s2 ∈ [PROTECTED; EXITING; CLOSED]))
  then with_flatten true (with_state SAFETY_FAILED
         (Some (match ss_error s2 with Some e => e | None => "PROTECTION_LOST_DURING_CLOSE"%string end)) s2)
  else s2.
Definition without_root (o : Ownership) : Ownership :=
  mkOwnership None (expected_cancels o) (handover_generation o) (protection_generation o) (active_groups o)
    (pending_groups o) (pending_protection_lost o).
(** The other rows of the released root *)
Definition merged_row (s : SagaState) : SagaState :=
  next_revision s [] (with_state CLOSED (Some "PROTECTION_MERGED"%string) (with_own (without_root (ss_own s)) s)).
(** [close_after_full] *)
Definition closed_row (s : SagaState) : SagaState :=
  let l := ss_legs s in
  next_revision s [] (with_state CLOSED None (with_own (without_root (ss_own s))
    (with_legs (mkLegs (protection_working l) (entry_working l) false false (stop_filled l) (target_filled l)
                  (entry_cancelled l) (stop_rejected l) (target_rejected l)) s))).
(** [_retire_if_orphan] *)
Definition retired_row (s : SagaState) : SagaState := next_revision s [] (with_state NOT_SENT (Some "ORPHAN_NOT_SENT"%string) s).
(** [_guard_and_submit], [_after_dispatch] *)
Definition refused_row (code : string) (s : SagaState) : SagaState := next_revision s [] (with_state CLOSED (Some code) s).
Definition submitting_row (generation : option Z) (now : Z) (baseline : Decimal) (s : SagaState) : SagaState :=
  let m := ss_send s in
  next_revision s [] (with_state SUBMITTING (ss_error s)
    (with_send (mkMarks (submitted_order_ids m) (Some baseline) generation (Some now) (send_returned_at m)) s)).
Definition returned (ids : option (list Z)) (returned_at : Z) (s : SagaState) : SagaState :=
  let m := ss_send s in
  with_send (mkMarks (default (submitted_order_ids m) ids) (baseline_position m) (send_generation m)
    (send_attempted_at m) (Some returned_at)) s.

(** ** The store ([ProtectiveOrderSagaStore]) *)

(** A row with its [updated_at]; the groups of re-protect legs, and the broker events
    already recorded. *)
Record SagaRow : Type := mkSagaRow { sr_saga : SagaState; sr_updated : Z }.
Record sagas : Type := mkSagas {
  sg_rows : gmap string SagaRow;
  sg_groups : gmap string (string * Z);
  sg_events : gmap string string;
}.

Definition load (command : string) (t : sagas) : option SagaState := sr_saga <$> sg_rows t !! command.
Definition load_by_group (group : string) (t : sagas) : option (SagaState * Z) :=
  match sg_groups t !! group ≫= λ g, (λ s, (s, g.2)) <$> load g.1 t with
  | Some found => Some found
  | None => (λ r, (sr_saga r, 0)) <$> head (select (λ r, String.eqb (ss_group (sr_saga r)) group) (sg_rows t))
  end.
Definition load_many (p : SagaState → bool) (t : sagas) : list SagaState :=
  map sr_saga (select (λ r, p (sr_saga r)) (sg_rows t)).
Definition load_live (account : string) (conid : option Z) : sagas → list SagaState :=
  load_many (λ s, String.eqb (ss_account s) account && negb (terminal_saga (ss_state s)) &&
    match conid with Some i => ss_conid s =? i | None => true end).
Definition load_by_close_root (root : string) : sagas → list SagaState :=
  load_many (λ s, bool_decide (ss_state s = CLOSE_OWNED) && bool_decide (close_root (ss_own s) = Some root)).
Definition load_flatten_requested (account : string) : sagas → list SagaState :=
  load_many (λ s, String.eqb (ss_account s) account && bool_decide (ss_state s = SAFETY_FAILED) && ss_flatten s).
Definition unconfirmed_sends (account : string) : sagas → list SagaState :=
  load_many (λ s, unconfirmed_send (ss_state s) && String.eqb (ss_account s) account).
(** [terminal_entries] *)
Definition terminal_entries (account : string) : sagas → list SagaState :=
  load_many (λ s, bool_decide (ss_state s ∈ [NOT_SENT; CLOSED]) && String.eqb (ss_account s) account &&
    negb (stop_filled (ss_legs s) || target_filled (ss_legs s)) && negb (close_owned_once s)).

(** [in_flight_entries] *)
Record InFlightEntry : Type := mkInFlight {
  if_group : string;
  if_conid : Z;
  if_unfilled : float;
  if_filled : float;
  if_limit_price : float;
  if_filled_at : option Z;
  if_baseline : option float;
}.
Definition unfilled_part (s : SagaState) : Decimal :=
  if may_work_entry (ss_state s) && negb (entry_cancelled (ss_legs s))
  then dmax dzero (dsub (requested (ss_qty s)) (filled (ss_qty s))) else dzero.
Definition filled_part (s : SagaState) : Decimal :=
  if stop_filled (ss_legs s) || target_filled (ss_legs s) then dzero else filled (ss_qty s).
Definition entry_limit_price (s : SagaState) : res float :=
  match ss_plan s ≫= λ p, head (bp_legs p) ≫= lg_limit_price with
  | Some price => if flt fzero (float_of_dec price) then Ok (float_of_dec price) else Raise ValueError
  | None => Raise ValueError
  end.
Definition in_flight_entry (r : SagaRow) : res InFlightEntry :=
  let s := sr_saga r in
  match entry_limit_price s with
  | Raise e => Raise e
  | Ok price =>
      Ok (mkInFlight (ss_group s) (ss_conid s) (float_of_dec (unfilled_part s)) (float_of_dec (filled_part s)) price
            (match filled_at (ss_qty s) with
             | Some t => Some t
             | None => if dlt dzero (filled_part s) then Some (sr_updated r) else None
             end) (float_of_dec <$> baseline_position (ss_send s)))
  end.
Definition counted (account exclude : string) (r : SagaRow) : bool :=
  let s := sr_saga r in
  bool_decide (ss_state s ≠ VALIDATED) && String.eqb (ss_account s) account && negb (String.eqb (ss_command s) exclude) &&
  String.eqb (ss_side s) "BUY" && (dlt dzero (unfilled_part s) || dlt dzero (filled_part s)).
Fixpoint all_ok {A B} (f : A → res B) (l : list A) : res (list B) :=
  match l with
  | [] => Ok []
  | x :: l' => match f x with Ok y => cons y <$> all_ok f l' | Raise e => Raise e end
  end.
Definition in_flight_entries (account exclude : string) (t : sagas) : res (list InFlightEntry) :=
  all_ok in_flight_entry (select (counted account exclude) (sg_rows t)).

Definition require_revision_in_tx (command : string) (revision : Z) : M sagas unit :=
  current ← gets (load command);
  require (bool_decide ((ss_revision <$> current) = Some revision)) ValueError.
(** [save_in_tx] *)
Definition put_groups (s : SagaState) (g : gmap string (string * Z)) : gmap string (string * Z) :=
  let o := ss_own s in
  fold_left (λ g x, <[x := (ss_command s, protection_generation o + 1)]> g) (pending_groups o)
    (fold_left (λ g x, <[x := (ss_command s, protection_generation o)]> g) (active_groups o) g).
Definition save_in_tx (s : SagaState) (now : Z) : M sagas unit :=
  stored ← gets (load (ss_command s));
  (match stored with
   | None =>
       taken ← gets (λ t, select (λ r, String.eqb (ss_group (sr_saga r)) (ss_group s)) (sg_rows t));
       require (bool_decide (taken = [])) (ConstraintException "automated_order_sagas")
   | Some old => require (ss_revision old =? ss_revision s - 1) SagaRevisionConflict
   end) ;;
  modify (λ t, mkSagas (<[ss_command s := mkSagaRow s now]> (sg_rows t)) (put_groups s (sg_groups t)) (sg_events t)).
Definition record_event_in_tx (event command : string) : M sagas unit :=
  known ← gets (λ t, sg_events t !! event);
  require (bool_decide (known = None)) (ConstraintException "automated_order_saga_events") ;;
  modify (λ t, mkSagas (sg_rows t) (sg_groups t) (<[event := command]> (sg_events t))).

(** ** The service ([ProtectiveOrderSaga]) *)
(** A new row: what every [SagaState(...)] of [start] sets. *)
Definition order_group (command : string) : string := ("og-" +:+ command)%string.
Definition new_saga (account : string) (i : EntryOrder) (st : saga_state) (q : Decimal) (plan : option BracketPlan) (revision : Z) (error : option string)
    : SagaState :=
  mkSaga (en_command i) (order_group (en_command i)) account (en_conid i) (en_side i) plan st
    (mkQty q dzero dzero false None) no_legs unowned not_sent_yet [] revision error false.

(** What the saga asks [session_risk], and reads of the approval. *)
Record Decision : Type := mkDecision {
  dc_approved : bool;
  dc_reasons : list string;
  dc_quantity : option Decimal;
}.
Record Quote : Type := mkQuote { qt_ask : option Decimal; qt_bid : option Decimal; qt_price : Decimal }.
Record Approved : Type := mkApproved {
  ap_reducing : bool;
  ap_quote : option Quote;
  ap_reducible : res Decimal;
}.
Record BrokerEnumeration : Type := mkEnumeration { be_generation : Z; be_started_at : Z }.
(** [er_filled] is [_dec] of the row's quantity, and has its text. *)
Record BrokerEntryRow : Type := mkEntryRow {
  er_entity : string;
  er_status : string;
  er_filled : Decimal;
  er_timestamp : Z;
}.

Record world (T : Type) : Type := mkWorld {
  w_journal : DomainJournal T;
  w_calls : nat;
  (* the brackets handed to the broker, each with the rows it was sent under *)
  w_sent : list (BracketPlan * sagas);
}.
Arguments mkWorld {T}. Arguments w_journal {T}. Arguments w_calls {T}. Arguments w_sent {T}.

Record Ports (T : Type) : Type := mkPorts {
  clock : nat → Z;
  stamps : nat → stamp;
  (* what other threads do to the database before a call of it *)
  others : nat → DomainJournal T → DomainJournal T;
  entry_lock_free : nat → bool;
  account_id : string;
  orphan_settle : Z;
  liquidation_deadline : Z;
  (* session risk, dispatch guard, send gate, broker dispatch *)
  evaluate : nat → EntryOrder → res Decision;
  revalidate : nat → list InFlightEntry → res unit;
  send_gate : option (nat → res (option string));
  submit_bracket : nat → BracketPlan → res (list Z);
  (* OrphanEvidencePort, when it is there *)
  orphan_evidence : bool;
  latest_enumeration : nat → res BrokerEnumeration;
  entry_orders : nat → string → res (list BrokerEntryRow);
  has_trace : nat → SagaState → Z → res bool;
  (* the breaker and the liquidation worker *)
  record_signal : nat → string → string → res unit;
  start_flatten : nat → string → string → Z → res unit;
}.
Arguments clock {T}. Arguments stamps {T}. Arguments others {T}. Arguments entry_lock_free {T}. Arguments account_id {T}.
Arguments orphan_settle {T}. Arguments liquidation_deadline {T}. Arguments evaluate {T}. Arguments revalidate {T}.
Arguments send_gate {T}. Arguments submit_bracket {T}. Arguments orphan_evidence {T}. Arguments latest_enumeration {T}.
Arguments entry_orders {T}. Arguments has_trace {T}. Arguments record_signal {T}. Arguments start_flatten {T}.

Section service.
Context {T : Type} `{HasTable T sagas} (P : Ports T).

Definition sagas_of (j : DomainJournal T) : sagas := table_of (jdb j).
Definition rows_now (w : world T) : sagas := sagas_of (w_journal w).
Definition in_sagas {A} (m : M sagas A) : M (pconn T) A :=
  zoom (λ p, tget (tables p)) (λ x p, mkPconn (seqs p) (tset x (tables p))) m.

(** ** Calls *)
Definition ask {A} (port : nat → res A) : M (world T) A := λ w,
  (port (w_calls w), mkWorld (w_journal w) (S (w_calls w)) (w_sent w)).
Definition now : M (world T) Z := ask (λ n, Ok (clock P n)).
(** Other threads run before every call of the database. *)
Definition pause : M (world T) unit := λ w,
  (Ok tt, mkWorld (others P (w_calls w) (w_journal w)) (S (w_calls w)) (w_sent w)).
Definition reads {A} (f : sagas → A) : M (world T) A := pause ;; gets (λ w, f (rows_now w)).
Definition in_journal {A} (m : M (DomainJournal T) A) : M (world T) A :=
  zoom w_journal (λ j w, mkWorld j (w_calls w) (w_sent w)) m.

(** [_mutation]: the event of one saved row *)
Definition saga_mutation (s : SagaState) (from_state : option saga_state) (now : Z) : DomainMutation :=
  mkMutation "automated_order_saga.updated" "automated_order_saga" (ss_command s) op_upsert (Some (ss_account s))
    "trader_service" (Aware now 0) (Some (ss_command s))
    (Some [("state"%string, JStr (saga_text (ss_state s)));
           ("from_state"%string, jopt (λ x, JStr (saga_text x)) from_state);
           ("order_group_id"%string, JStr (ss_group s));
           ("order_ref"%string, JStr (encode_order_ref (ss_group s)));
           ("error_code"%string, jopt JStr (ss_error s));
           ("filled_quantity"%string, JStr (decimal_str (filled (ss_qty s))));
           ("protection_working"%string, JBool (protection_working (ss_legs s)));
           ("close_root_id"%string, jopt JStr (close_root (ss_own s)));
           ("revision"%string, JInt (ss_revision s))]).
Definition saga_key (command : string) (s : saga_state) (revision : Z) : string :=
  ("saga:" +:+ command +:+ ":" +:+ saga_text s +:+ ":" +:+ pretty revision)%string.
(** [write] and [event_key] of [_mutation] *)
Definition saga_write (s : SagaState) (now : Z) (event : option string) (expected : option Z) (check : res unit)
    : WriteMaterialized T := λ _,
  in_sagas (
    (match expected with Some r => require_revision_in_tx (ss_command s) r | None => mret tt end) ;;
    (match check with Ok _ => mret tt | Raise e => raise e end) ;;
    save_in_tx s now ;;
    match event with Some e => record_event_in_tx e (ss_command s) | None => mret tt end).
Definition event_key (s : SagaState) (event : option string) : string :=
  match event with Some e => e | None => saga_key (ss_command s) (ss_state s) (ss_revision s) end.

(** [_persist] *)
Definition persist_checked (s : SagaState) (at' : Z) (from_state : option saga_state) (event : option string)
    (expected : option Z) (check : nat → res unit) : M (world T) unit :=
  pause ;;
  st ← ask (λ n, Ok (stamps P n));
  checked ← ask (λ n, Ok (check n));
  in_journal (mutate st (saga_mutation s from_state at') (saga_write s at' event expected checked) (Some (event_key s event))) ;;
  mret tt.
Definition persist (s : SagaState) (at' : Z) (from_state : option saga_state) (event : option string) : M (world T) unit :=
  persist_checked s at' from_state event None (λ _, Ok tt).
(** [_persist_all] *)
Definition persist_all (items : list (SagaState * option saga_state)) (at' : Z) : M (world T) unit :=
  match items with
  | [] => mret tt
  | _ =>
      pause ;;
      prepared ← map_each items (λ i, st ← ask (λ n, Ok (stamps P n)); mret (st, i));
      in_journal (mutate_batch_work (map_each prepared (λ p : stamp * (SagaState * option saga_state),
        append p.1 (saga_mutation p.2.1 p.2.2 at') (saga_write p.2.1 at' None None (Ok tt)) (Some (event_key p.2.1 None))))) ;;
      mret tt
  end.

(** [_retrying] *)
Fixpoint retrying {A} (n : nat) (attempt : M (world T) A) : M (world T) A :=
  match n with
  | O => attempt
  | S n' => try_except attempt (λ e, match e with SagaRevisionConflict => Some (retrying n' attempt) | _ => None end)
  end.
Definition save_attempts : nat := 5.
Definition with_retries {A} (attempt : M (world T) A) : M (world T) A := retrying (save_attempts - 1) attempt.

(** [_trip_and_liquidate] *)
Definition trip_and_liquidate (s : SagaState) (at' : Z) : M (world T) unit :=
  ask (λ n, record_signal P n "PROTECTIVE_ORDER_FAILURE" (ss_command s)) ;;
  ask (λ n, start_flatten P n (ss_account s) (ss_command s) (at' + liquidation_deadline P)).

(** ** Broker events *)
(** [_reopen_terminal_row] *)
Definition reopen_terminal_row (s : SagaState) (e : BrokerOrderEvent) : M (world T) SagaState :=
  t ← now;
  ask (λ n, record_signal P n "RECONCILIATION_DIVERGENCE" (ss_command s)) ;;
  let r := reopened_row s e in
  persist r t (Some (ss_state s)) (Some (ev_id e)) ;;
  (if bool_decide (ss_state r = SAFETY_FAILED) then trip_and_liquidate r t else mret tt) ;;
  mret r.
(** One write of a row the event changed. *)
Definition save_event (s u : SagaState) (e : BrokerOrderEvent) (t : Z) : M (world T) SagaState :=
  persist u t (Some (ss_state s)) (Some (ev_id e)) ;; mret u.
(** [_apply_broker_event] *)
Definition apply_broker_event (e : BrokerOrderEvent) : M (world T) SagaState :=
  found ← reads (load_by_group (ev_group e));
  match found with
  | None => raise KeyError
  | Some (s, generation) =>
      if bool_decide (ev_id e ∈ ss_seen s) then mret s else
      if bool_decide (ss_state s = SAFETY_FAILED) && String.eqb (ev_leg e) "entry" then
        t ← now; save_event s (recorded_entry s e) e t
      else if bool_decide (ss_state s = NOT_SENT) then reopen_terminal_row s e
      else if bool_decide (ss_state s = CLOSED) && negb (close_owned_once s) && entry_fill_grows s e then reopen_terminal_row s e
      else if terminal_saga (ss_state s) then mret s
      else
        t ← now;
        if protection_generation (ss_own s) <? generation then save_event s (pending_row s e) e t
        else if generation <? protection_generation (ss_own s) then save_event s (recorded_only s e) e t
        else
          let u := if bool_decide (ss_state s = CLOSE_OWNED) then owned_row s e else live_row s e in
          persist u t (Some (ss_state s)) (Some (ev_id e)) ;;
          (if bool_decide (ss_state u = SAFETY_FAILED) then trip_and_liquidate u t else mret tt) ;;
          mret u
  end.
(** [on_broker_event] *)
Definition on_broker_event (e : BrokerOrderEvent) : M (world T) SagaState := with_retries (apply_broker_event e).

(** ** The start of an entry *)
Definition dec_or_zero (q : option Decimal) : Decimal := match q with Some d => if bool_decide (d_coef d = 0) then dzero else d | None => dzero end.
(** [decision.approved_quantity or intent.requested_quantity or 0] *)
Definition decided_quantity (d : Decision) (i : EntryOrder) : Decimal :=
  match dc_quantity d with Some q => if bool_decide (d_coef q = 0) then dec_or_zero (en_requested i) else q | None => dec_or_zero (en_requested i) end.
(** [getattr(ex, "code", None)] *)
Definition exc_code (e : exc) : option string :=
  match e with
  | EpochRefused c | RpcRefused c | RpcNotSent c | RpcOutcomeUnknown c | NotLeader c | ProposalCreationRefused c
  | ApprovalClaimFailed c | CommandValidationError c _ | OperatorSettleRefused c | DispatchGuardError c _
  | BrokerRiskSnapshotError c | TypedRpcRemoteError c | DispatchRefused c | LiquidationRefused c => Some c
  | _ => None
  end.
(** A refusal, persisted before anything was sent. *)
Definition refuse_entry (i : EntryOrder) (t : Z) (q : Decimal) (code : string) : M (world T) SagaState :=
  let s := new_saga (account_id P) i CLOSED q None 0 (Some code) in
  persist s t None None ;; mret s.
Definition refuse_validated (s : SagaState) (t : Z) (code : string) : M (world T) SagaState :=
  persist (refused_row code s) t (Some VALIDATED) None ;; mret (refused_row code s).

(** [_after_dispatch] *)
Definition after_dispatch (command : string) (t : Z) (change : SagaState → SagaState) (always : bool) : M (world T) SagaState :=
  with_retries (
    current ← reads (load command);
    match current with
    | None => raise (OtherException "AttributeError")
    | Some s =>
        if bool_decide (ss_state s ≠ SUBMITTING) && negb always then mret s else
        let u := next_revision s [] (change s) in
        persist u t (Some (ss_state s)) None ;; mret u
    end).
(** [_run_send_gate_in_tx] *)
Definition run_send_gate (n : nat) : res unit :=
  match send_gate P with
  | None => Ok tt
  | Some gate =>
      match gate n with
      | Raise ProcessDied => Raise ProcessDied
      | Raise _ => Raise (DispatchGuardError "AI_ENTRY_GATE_UNAVAILABLE" false)
      | Ok (Some code) => if String.eqb code "" then Ok tt else Raise (DispatchGuardError code false)
      | Ok None => Ok tt
      end
  end.
(** The broker call itself. *)
Definition transmit (p : BracketPlan) : M (world T) (list Z) := λ w,
  ask (λ n, submit_bracket P n p) (mkWorld (w_journal w) (w_calls w) (w_sent w ++ [(p, rows_now w)])).

(** The irreversible part of [_guard_and_submit]. *)
Definition send_bracket (i : EntryOrder) (plan : BracketPlan) (t : Z) : M (world T) SagaState :=
  let command := en_command i in
  answered ← try_except (ids ← transmit plan; mret (inl ids))
    (λ e, match e with
      | ProcessDied => None
      | BrokerRejectedError _ => Some (mret (inr (CLOSED, "BROKER_REJECTED"%string)))
      | _ => Some (mret (inr (OUTCOME_UNKNOWN, "DISPATCH_AMBIGUOUS"%string)))
      end);
  back ← now;
  match (answered : list Z + saga_state * string) with
  | inl ids => after_dispatch command t (returned (Some ids) back) true
  | inr (st, code) => after_dispatch command t (λ s, returned None back (with_state st (Some code) s)) false
  end.
(** [_guard_and_submit] *)
Definition guard_and_submit (i : EntryOrder) (a : Approved) (validated : SagaState) (plan : BracketPlan) (t : Z)
    : M (world T) SagaState :=
  in_flight ←
    (if ap_reducing a then mret (Some [])
     else r ← reads (in_flight_entries (account_id P) (en_command i));
          mret (match r with Ok l => Some l | Raise _ => None end));
  match (in_flight : option (list InFlightEntry)) with
  | None => refuse_validated validated t "IN_FLIGHT_STATE_UNAVAILABLE"
  | Some l =>
      guarded ← try_except (ask (λ n, revalidate P n l) ;; mret None)
        (λ e, match e with DispatchGuardError code _ => Some (mret (Some code)) | _ => None end);
      match (guarded : option string) with
      | Some code => refuse_validated validated t code
      | None =>
          generation ←
            (if orphan_evidence P
             then except (e ← ask (latest_enumeration P); mret (Some (Some (be_generation e)))) (λ _, mret None)
             else mret (Some None));
          match (generation : option (option Z)) with
          | None => refuse_validated validated t "BROKER_GENERATION_UNAVAILABLE"
          | Some g =>
              baseline ← match ap_reducible a with Ok d => mret d | Raise e => raise e end;
              gated ← try_except
                (persist_checked (submitting_row g t baseline validated) t (Some VALIDATED) None None run_send_gate ;; mret None)
                (λ e, match e with DispatchGuardError code _ => Some (mret (Some code)) | _ => None end);
              match (gated : option string) with
              | Some code => refuse_validated validated t code
              | None => send_bracket i plan t
              end
          end
      end
  end.
(** [start] *)
Definition start (i : EntryOrder) (a : Approved) : M (world T) SagaState :=
  existing ← reads (load (en_command i));
  match existing with
  | Some s => mret s
  | None =>
      t ← now;
      decided ← try_except (d ← ask (λ n, evaluate P n i); mret (inl d))
        (λ e, match e with
          | ProcessDied => None
          | _ => Some (mret (inr (match exc_code e with
              | Some c => if String.eqb c "" then "AUTOMATION_RISK_UNAVAILABLE"%string else c
              | None => "AUTOMATION_RISK_UNAVAILABLE"%string end)))
          end);
      match (decided : Decision + string) with
      | inr code => refuse_entry i t (dec_or_zero (en_requested i)) code
      | inl d =>
          if negb (dc_approved d) then refuse_entry i t (dec_or_zero (en_requested i)) (default "RISK_REJECTED"%string (head (dc_reasons d))) else
          let q := decided_quantity d i in
          if dle q dzero then refuse_entry i t dzero "QUANTITY_INVALID" else
          match ap_quote a with
          | None => refuse_entry i t q "EXECUTABLE_QUOTE_MISSING"
          | Some quote =>
              let limit := compute_entry_limit i (default (qt_price quote) (qt_ask quote)) (default (qt_price quote) (qt_bid quote)) in
              match build_bracket_plan i q (Some limit) (order_group (en_command i)) false with
              | Raise e => raise e
              | Ok plan =>
                  let validated := new_saga (account_id P) i VALIDATED q (Some plan) 1 None in
                  persist validated t None None ;;
                  guard_and_submit i a validated plan t
              end
          end
      end
  end.

(** [resume] *)
Definition resume (command : string) : M (world T) (option SagaState) := reads (load command).

(** ** Close ownership ([ProtectionOwnershipPort]) *)
(** [_prices_from_plan] *)
Definition prices_from_plan (s : SagaState) : option float * option float :=
  match ss_plan s with
  | None => (None, None)
  | Some p =>
      (leg_of_role "stop" p ≫= λ l, float_of_dec <$> lg_stop_price l,
       leg_of_role "take_profit" p ≫= λ l, float_of_dec <$> lg_limit_price l)
  end.
Definition save_changed (l : list SagaState) (from : option saga_state) (t : Z) : M (world T) unit :=
  persist_all (map (λ s, (s, from)) l) t.
(** [handover], [handover_account] *)
Definition handover (account : string) (conid : Z) (root : string) (cancels : list (string * option string)) (generation t : Z)
    : M (world T) (option float * option float) :=
  with_retries (
    l ← reads (load_live account (Some conid));
    save_changed (omap (owned_by root cancels generation) l) None t ;;
    mret (match l with s :: _ => prices_from_plan s | [] => (None, None) end)).
Definition handover_account (account root : string) (cancels : list (string * option string)) (generation t : Z) : M (world T) unit :=
  with_retries (
    l ← reads (load_live account None);
    save_changed (omap (owned_by root cancels generation) l) None t).
(** [expect_reprotect] *)
Definition expect_reprotect (root : string) (groups : list string) (t : Z) : M (world T) unit :=
  with_retries (
    l ← reads (load_by_close_root root);
    save_changed (omap (expecting groups) (take 1 l)) None t).
(** [release_after_partial] *)
Definition release_after_partial (r : release) (t : Z) : M (world T) unit :=
  outcome ← with_retries (
    l ← reads (load_by_close_root (rl_root r));
    match l with
    | [] => mret None
    | keeper :: merged =>
        let u := released_row r t keeper in
        save_changed (u :: map merged_row merged) (Some CLOSE_OWNED) t ;;
        mret (Some u)
    end);
  match (outcome : option SagaState) with
  | Some u => if bool_decide (ss_state u = SAFETY_FAILED) then trip_and_liquidate u t else mret tt
  | None => mret tt
  end.
(** [close_after_full] *)
Definition close_after_full (root : string) (t : Z) : M (world T) unit :=
  with_retries (
    l ← reads (load_by_close_root root);
    save_changed (map closed_row l) (Some CLOSE_OWNED) t).
(** [unhandled_failures] *)
Definition unhandled_failures (account : string) : M (world T) (list string) :=
  l ← reads (load_flatten_requested account); mret (map ss_command l).

(** ** Orphan reservations *)
(** [_enumeration_postdates_send] *)
Definition postdates_send (s : SagaState) (e : BrokerEnumeration) (t : Z) : bool :=
  match send_generation (ss_send s), send_attempted_at (ss_send s), send_returned_at (ss_send s) with
  | Some g, Some _, Some back => (g <? be_generation e) && (back <? be_started_at e) && (orphan_settle P <=? t - back)
  | _, _, _ => false
  end.
(** [_retire_if_orphan] *)
Definition retire_if_orphan (s : SagaState) (e : BrokerEnumeration) (t : Z) : M (world T) bool :=
  if negb (postdates_send s e t) then mret false else
  let since := default 0 (send_attempted_at (ss_send s)) in
  except
    (persist_checked (retired_row s) t (Some (ss_state s)) None (Some (ss_revision s))
       (λ n, match has_trace P n s since with
             | Ok true => Raise BrokerTraceFound | Ok false => Ok tt | Raise e => Raise e end) ;;
     mret true)
    (λ _, mret false).
(** [_retire_orphans] *)
Definition retire_orphans : M (world T) (list string) :=
  l ← reads (unconfirmed_sends (account_id P));
  match l with
  | [] => mret []
  | _ =>
      t ← now;
      found ← except (e ← ask (latest_enumeration P); mret (Some e)) (λ _, mret None);
      match (found : option BrokerEnumeration) with
      | None => mret []
      | Some e =>
          gone ← map_each l (λ s, b ← retire_if_orphan s e t; mret (if (b : bool) then Some (ss_command s) else None));
          mret (omap id gone)
      end
  end.
(** [retire_orphan_reservations] *)
Definition retire_orphan_reservations : M (world T) (list string) :=
  if negb (orphan_evidence P) then mret [] else
  free ← ask (λ n, Ok (entry_lock_free P n));
  if (free : bool) then retire_orphans else mret [].

(** [_unseen_entry_fill_event] *)
Definition larger_fill (best : option BrokerEntryRow) (r : BrokerEntryRow) : option BrokerEntryRow :=
  match best with Some b => if dlt (er_filled b) (er_filled r) then Some r else best | None => Some r end.
Definition unseen_entry_fill (s : SagaState) (orders : list BrokerEntryRow) : option BrokerOrderEvent :=
  (λ o, mkOrderEvent (ss_group s) "entry" (er_status o) (er_filled o)
     ("promotion:" +:+ er_entity o +:+ ":" +:+ er_status o +:+ ":" +:+ decimal_str (er_filled o))%string (er_timestamp o) None) <$>
  fold_left larger_fill (filter (λ o, dlt (filled (ss_qty s)) (er_filled o) = true) orders) None.
(** [reconcile_terminal_entries] *)
Definition reconcile_row (s : SagaState) : M (world T) (option string) :=
  orders ← ask (λ n, entry_orders P n (ss_group s));
  match unseen_entry_fill s orders with
  | Some e => if bool_decide (ev_id e ∈ ss_seen s) then mret None else reopen_terminal_row s e ;; mret (Some (ss_command s))
  | None => mret None
  end.
Definition reconcile_terminal_entries : M (world T) (list string) :=
  if negb (orphan_evidence P) then mret [] else
  l ← reads (terminal_entries (account_id P));
  reopened ← map_each l reconcile_row;
  mret (omap id reopened).
End service.
