(* ===== verification/ProtectionRows.v ===== *)
(** * The life of a saga row

    [row_step]: what one write may make of a row, whichever operation makes it.  The
    lemmas: a row keeps its identity and counts its writes, a safety failure is final
    and asks for its flatten, a fill is never taken back within one generation of the
    protection, and a row that was filled has protection, an exit, an owner or an
    incident. *)
From stdpp Require Import base tactics gmap list sets strings pretty.
From Stdlib Require Import ZArith Lia QArith Lqa.
From S2P Require Import Prelude Py Journal Store Bracket Protection.
Open Scope Z_scope.

(** ** The rows an entry begins with *)
Inductive born : SagaState → Prop :=
  | born_refused account i q code : born (new_saga account i CLOSED q None 0 (Some code))
  | born_validated account i q plan : dle q dzero = false → born (new_saga account i VALIDATED q (Some plan) 1 None).

Definition checked (s : SagaState) : Prop := born s ∧ ss_state s = VALIDATED.
Lemma checked_revision s : checked s → ss_revision s = 1.
Proof. intros [[] E]; done. Qed.

(** ** One write *)
Inductive row_step : SagaState → SagaState → Prop :=
  (* a race of two starts of one command: the refusal of one, the check of the other *)
  | rs_restarted s u : born s → born u → ss_command u = ss_command s → ss_revision u = ss_revision s + 1 → row_step s u
  | rs_entry s e : ss_state s = SAFETY_FAILED → row_step s (recorded_entry s e)
  | rs_reopened s e :
      ss_state s = NOT_SENT ∨ ss_state s = CLOSED ∧ close_owned_once s = false ∧ entry_fill_grows s e = true →
      row_step s (reopened_row s e)
  | rs_pending s e : terminal_saga (ss_state s) = false → row_step s (pending_row s e)
  | rs_recorded s e : terminal_saga (ss_state s) = false → row_step s (recorded_only s e)
  | rs_owned s e : ss_state s = CLOSE_OWNED → row_step s (owned_row s e)
  | rs_live s e : terminal_saga (ss_state s) = false → ss_state s ≠ CLOSE_OWNED → row_step s (live_row s e)
  (* built on the row the start itself made; a replayed write may have left another *)
  | rs_refused s v code : checked s → checked v → ss_command v = ss_command s → row_step s (refused_row code v)
  | rs_submitting s v g t b : checked s → checked v → ss_command v = ss_command s → row_step s (submitting_row g t b v)
  | rs_returned s ids t : row_step s (next_revision s [] (returned ids t s))
  | rs_answered s st code t : ss_state s = SUBMITTING → st = CLOSED ∨ st = OUTCOME_UNKNOWN →
      row_step s (next_revision s [] (returned None t (with_state st (Some code) s)))
  | rs_handover s u root cancels g : terminal_saga (ss_state s) = false → owned_by root cancels g s = Some u → row_step s u
  | rs_expecting s u groups : ss_state s = CLOSE_OWNED → expecting groups s = Some u → row_step s u
  | rs_released s r t : ss_state s = CLOSE_OWNED → row_step s (released_row r t s)
  | rs_merged s : ss_state s = CLOSE_OWNED → row_step s (merged_row s)
  | rs_closed s : ss_state s = CLOSE_OWNED → row_step s (closed_row s)
  | rs_retired s : unconfirmed_send (ss_state s) = true → row_step s (retired_row s).

(** The row was in the table, and what is there now came of it. *)
Notation lives := (rtc row_step).

(** ** What the event functions leave alone *)
(** The columns that name a row. *)
Definition identity (s : SagaState) : string * string := (ss_command s, ss_group s).
(** All that an event of a broker leg leaves as it was. *)
Definition kept_by_event (s s' : SagaState) : Prop :=
  identity s' = identity s ∧ ss_own s' = ss_own s ∧ ss_send s' = ss_send s ∧ ss_flatten s' = ss_flatten s ∧
  ss_revision s' = ss_revision s ∧ ss_seen s' = ss_seen s.

Lemma kept_trans s1 s2 s3 : kept_by_event s1 s2 → kept_by_event s2 s3 → kept_by_event s1 s3.
Proof. unfold kept_by_event. intros (?&?&?&?&?&?) (?&?&?&?&?&?). split_and!; congruence. Qed.
Lemma judge_keeps e s : kept_by_event s (judge e s) ∧ ss_qty (judge e s) = ss_qty s ∧ ss_legs (judge e s) = confirm (ss_legs s).
Proof. unfold judge. cbv zeta. repeat (case_match; [done|]); done. Qed.
Lemma apply_event_keeps s e : kept_by_event s (apply_event s e).
Proof.
  unfold apply_event. cbv zeta. repeat case_match; try done; (eapply kept_trans; [|apply judge_keeps]); done.
Qed.
Lemma apply_event_fill s e : ss_qty (apply_event s e) =
  if String.eqb (ev_leg e) "entry" then entry_quantities (ev_status e) (ev_filled e) (ev_timestamp e) (ss_qty s) else ss_qty s.
Proof.
  unfold apply_event. cbv zeta. repeat case_match; try done;
    (match goal with |- context [judge ?e ?s] => by rewrite (proj1 (proj2 (judge_keeps e s))) end).
Qed.

(** ** The judgement *)
Definition fully (q : Quantities) : bool := dle (requested q) (filled q) && dlt dzero (requested q).
Definition exited (l : Legs) : bool := stop_filled l || target_filled l.

Inductive judged (e : BrokerOrderEvent) (s0 : SagaState) : saga_state → Prop :=
  | judged_cancelled : entry_cancelled (ss_legs s0) = true → dlt dzero (filled (ss_qty s0)) = false → judged e s0 CLOSED
  | judged_exit st : exited (ss_legs s0) = true → st = (if flat (confirm (ss_legs s0)) then CLOSED else EXITING) → judged e s0 st
  | judged_failed : dlt dzero (filled (ss_qty s0)) = true → exited (ss_legs s0) = false → stop_working (ss_legs s0) = false →
      judged e s0 SAFETY_FAILED
  | judged_protected : fully (ss_qty s0) = true → exited (ss_legs s0) = false → stop_working (ss_legs s0) = true → judged e s0 PROTECTED
  | judged_partial : fully (ss_qty s0) = false → dlt dzero (filled (ss_qty s0)) = true → dlt (filled (ss_qty s0)) (requested (ss_qty s0)) = true →
      judged e s0 PARTIALLY_FILLED
  | judged_working : fully (ss_qty s0) = false → judged e s0 ENTRY_WORKING
  | judged_same : fully (ss_qty s0) = false → stop_working (ss_legs s0) = false → exited (ss_legs s0) = false → judged e s0 (ss_state s0).

Lemma fully_filled q : fully q = true → dlt dzero (filled q) = true.
Proof. unfold fully. intros [H1 H2]%andb_true_iff. apply dle_spec in H1. apply dlt_spec in H2. apply dlt_spec. lra. Qed.

Lemma judge_cases e s0 : judged e s0 (ss_state (judge e s0)).
Proof.
  unfold judge. cbv zeta. cbn [ss_legs ss_qty with_legs confirm entry_cancelled stop_filled target_filled protection_working
    stop_rejected entry_working stop_working target_working]. unfold protection_confirmed. fold (exited (ss_legs s0)). fold (fully (ss_qty s0)).
  destruct (entry_cancelled (ss_legs s0) && negb (dlt dzero (filled (ss_qty s0)))) eqn:H1; [simpl; to_prop; by apply judged_cancelled|].
  destruct (exited (ss_legs s0)) eqn:H2; [simpl; by apply judged_exit|].
  assert (stop_filled (ss_legs s0) = false) as Hsf by (unfold exited in H2; by to_prop). rewrite Hsf, orb_false_r.
  destruct (dlt dzero (filled (ss_qty s0)) && negb (stop_working (ss_legs s0)) && _) eqn:H3; [simpl; to_prop; by apply judged_failed|].
  destruct (fully (ss_qty s0)) eqn:H4; simpl.
  - destruct (stop_working (ss_legs s0)) eqn:H5; simpl; [by apply judged_protected|].
    rewrite (fully_filled _ H4) in H3. done.
  - destruct (dlt dzero (filled (ss_qty s0)) && dlt (filled (ss_qty s0)) (requested (ss_qty s0))) eqn:H5; simpl; [to_prop; by apply judged_partial|].
    destruct (entry_working (ss_legs s0) || stop_working (ss_legs s0) || target_working (ss_legs s0)) eqn:H6; simpl; [by apply judged_working|].
    to_prop. by apply judged_same.
Qed.

(** ** A row keeps its name and counts its writes *)
Lemma event_revision s e : ss_revision (apply_event s e) = ss_revision s.
Proof. apply apply_event_keeps. Qed.
Lemma event_identity s e : identity (apply_event s e) = identity s.
Proof. apply apply_event_keeps. Qed.
Lemma born_identity s : born s → ss_group s = order_group (ss_command s) ∧ 0 ≤ ss_revision s.
Proof. by intros []. Qed.

Lemma released_keeps r t s : kept_by_event (released_base r s) (released_row r t s) ∨
  kept_by_event (with_flatten true (released_base r s)) (released_row r t s).
Proof.
  unfold released_row. cbv zeta.
  set (s1 := apply_event (released_base r s) _).
  assert (kept_by_event (released_base r s) s1) as K1 by apply apply_event_keeps.
  set (s2 := match rl_target r with Some _ => _ | None => _ end).
  assert (kept_by_event (released_base r s) s2) as K2.
  { unfold s2. destruct (rl_target r) as [[g st]|]; [|done]. eapply kept_trans; [exact K1|apply apply_event_keeps]. }
  clearbody s1 s2. destruct (_ || _); [right|by left]. revert K2. unfold kept_by_event. clear. intros (?&?&?&?&?&?). by split_and!.
Qed.

Lemma checked_pair s v : checked s → checked v → ss_command v = ss_command s → identity v = identity s ∧ ss_revision v = ss_revision s.
Proof.
  intros Hs Hv Hc. destruct (born_identity _ (proj1 Hs)) as [G _]. destruct (born_identity _ (proj1 Hv)) as [G' _].
  unfold identity. by rewrite G, G', Hc, (checked_revision _ Hs), (checked_revision _ Hv).
Qed.
Lemma row_step_names s u : row_step s u → identity u = identity s ∧ ss_revision u = ss_revision s + 1.
Proof.
  destruct 1; try done.
  - split; [|done]. destruct (born_identity _ H) as [G _]. destruct (born_identity _ H0) as [G' _]. unfold identity. by rewrite G, G', H1.
  - unfold reopened_row. cbv zeta. destruct (dlt _ _); (split; [|done]); exact (event_identity _ _).
  - unfold owned_row, owned_bookkeeping. cbv zeta. by repeat case_match.
  - unfold live_row. cbv zeta. destruct (_ && _); (split; [|done]); exact (event_identity _ _).
  - destruct (checked_pair _ _ H H0 H1) as [Hi Hr]. split; [exact Hi|]. cbn. by rewrite Hr.
  - destruct (checked_pair _ _ H H0 H1) as [Hi Hr]. split; [exact Hi|]. cbn. by rewrite Hr.
  - unfold owned_by in *. cbv zeta in *. by case_match; simplify_eq.
  - unfold expecting in *. cbv zeta in *. by case_match; simplify_eq.
  - destruct (released_keeps r t s) as [(K1&_&_&_&K2&_)|(K1&_&_&_&K2&_)]; by rewrite K1, K2.
Qed.
Lemma lives_names s u : lives s u → identity u = identity s ∧ ss_revision s ≤ ss_revision u ∧ (ss_revision u = ss_revision s → u = s).
Proof.
  induction 1 as [s|s v u Hs _ (IH1 & IH2 & _)]; [done|]. destruct (row_step_names _ _ Hs) as [Hi Hr].
  split_and!; [congruence|lia|]. intros. lia.
Qed.

(** ** A safety failure is final *)
Lemma step_failed s u : row_step s u → ss_state s = SAFETY_FAILED → ss_state u = SAFETY_FAILED ∧ ss_flatten u = ss_flatten s.
Proof.
  intros Hs E. destruct Hs; try (rewrite E in *; done); try done.
  - by destruct H.
  - rewrite E in H. destruct H as [H|[H _]]; done.
  - destruct H as [_ H]. by rewrite E in H.
  - destruct H as [_ H]. by rewrite E in H.
Qed.

(** ** Fills only grow *)
Lemma entry_quantities_grow st f t q :
  requested (entry_quantities st f t q) = requested q ∧ (dval (filled q) <= dval (filled (entry_quantities st f t q)))%Q ∧
  (dval f <= dval (filled (entry_quantities st f t q)))%Q.
Proof.
  unfold entry_quantities. cbv zeta. cbn [requested filled].
  set (q1 := if dlt (filled q) f then _ else q).
  assert (requested q1 = requested q ∧ (dval (filled q) <= dval (filled q1))%Q ∧ (dval f <= dval (filled q1))%Q) as (R & G & F).
  { unfold q1. destruct (dlt (filled q) f) eqn:E; [apply dlt_spec in E; simpl; split_and!; [done|lra|lra]|].
    apply dlt_false in E. split_and!; [done|lra|done]. }
  clearbody q1. destruct (filled_status st); simpl; [|done].
  pose proof (dmax_ge f (filled q1)) as [? ?]. pose proof (dmax_ge (dmax f (filled q1)) (requested q1)) as [? ?].
  split_and!; [done|lra|lra].
Qed.
Lemma event_quantities s e : requested (ss_qty (apply_event s e)) = requested (ss_qty s) ∧
  (dval (filled (ss_qty s)) <= dval (filled (ss_qty (apply_event s e))))%Q.
Proof.
  rewrite apply_event_fill. destruct (String.eqb _ _); [|split; [done|lra]].
  destruct (entry_quantities_grow (ev_status e) (ev_filled e) (ev_timestamp e) (ss_qty s)) as (? & ? & _). done.
Qed.

Definition generation_of (s : SagaState) : Z := protection_generation (ss_own s).
Lemma step_fills s u : row_step s u → generation_of s ≤ generation_of u ∧
  (generation_of u = generation_of s → (dval (filled (ss_qty s)) <= dval (filled (ss_qty u)))%Q).
Proof.
  unfold generation_of.
  assert (∀ a, (a <= a)%Q) as Hrefl by (intros; lra).
  assert (∀ s e, (dval (filled (ss_qty s)) <= dval (filled (ss_qty (apply_entry_leg s e))))%Q) as Hentry.
  { intros s' e. exact (proj1 (proj2 (entry_quantities_grow (ev_status e) (ev_filled e) (ev_timestamp e) (ss_qty s')))). }
  destruct 1; try (split; [simpl; lia|intros _; first [apply Hrefl|apply Hentry]]).
  - destruct H, H0; (split; [simpl; lia|intros _; apply Hrefl]).
  - destruct (apply_event_keeps (with_state OUTCOME_UNKNOWN (Some "ORPHAN_ORDER_FOUND"%string) s) e) as (_ & Ho & _).
    pose proof (event_quantities (with_state OUTCOME_UNKNOWN (Some "ORPHAN_ORDER_FOUND"%string) s) e) as [_ Hq].
    unfold reopened_row. cbv zeta. destruct (dlt _ _); simpl; rewrite Ho; (split; [simpl; lia|intros _; exact Hq]).
  - unfold owned_row, owned_bookkeeping. cbv zeta. repeat case_match; (split; [simpl; lia|intros _; first [apply Hrefl|apply Hentry]]).
  - destruct (apply_event_keeps s e) as (_ & Ho & _). pose proof (event_quantities s e) as [_ Hq].
    unfold live_row. cbv zeta. destruct (_ && _); simpl; rewrite Ho; (split; [simpl; lia|intros _; exact Hq]).
  - destruct H as [[] _], H0 as [[] _]; (split; [simpl; lia|intros _; apply Hrefl]).
  - destruct H as [[] _], H0 as [[] _]; (split; [simpl; lia|intros _; apply Hrefl]).
  - unfold owned_by in *. cbv zeta in *. case_match; simplify_eq. split; [simpl; lia|intros _; apply Hrefl].
  - unfold expecting in *. cbv zeta in *. case_match; simplify_eq. split; [simpl; lia|intros _; apply Hrefl].
  - destruct (released_keeps r t s) as [(_&K&_)|(_&K&_)]; rewrite K; simpl; split; lia.
Qed.

(** ** A filled entry has protection, an exit, an owner or an incident *)
(** The states in which the saga itself watches the entry. *)
Definition open_saga (st : saga_state) : bool :=
  bool_decide (st ∈ [VALIDATED; SUBMITTING; ENTRY_WORKING; PARTIALLY_FILLED; PROTECTED; OUTCOME_UNKNOWN]).
Record row_ok (s : SagaState) : Prop := {
  ro_failed : ss_state s = SAFETY_FAILED → ss_flatten s = true;
  ro_exiting : ss_state s = EXITING → exited (ss_legs s) = true;
  ro_protected : ss_state s = PROTECTED → fully (ss_qty s) = true;
  ro_open : open_saga (ss_state s) = true → fully (ss_qty s) = true → stop_working (ss_legs s) = true;
  ro_not_sent : ss_state s = NOT_SENT → fully (ss_qty s) = true → stop_working (ss_legs s) = true;
  ro_owned : ss_state s = CLOSE_OWNED → is_Some (handover_generation (ss_own s));
  ro_closed : ss_state s = CLOSED → fully (ss_qty s) = true → stop_working (ss_legs s) = true ∨ exited (ss_legs s) = true ∨
    close_owned_once s = true ∨ ss_error s = Some "PARENT_REJECTED"%string;
  ro_generation : 0 ≤ generation_of s;
}.

Lemma fully_grows q q' : requested q' = requested q → (dval (filled q) <= dval (filled q'))%Q → fully q = true → fully q' = true.
Proof.
  unfold fully. intros -> Hq [H1 H2]%andb_true_iff. rewrite H2, andb_true_r. apply dle_spec in H1. apply dle_spec. lra.
Qed.
Lemma not_filled_not_fully q : dlt dzero (filled q) = false → fully q = false.
Proof. intros H. destruct (fully q) eqn:E; [|done]. by rewrite (fully_filled _ E) in H. Qed.

Lemma born_unfilled s : born s → fully (ss_qty s) = false.
Proof. intros []; by apply not_filled_not_fully. Qed.
Lemma born_ok s : born s → row_ok s.
Proof.
  intros []; (assert (fully (mkQty q dzero dzero false None) = false) as F by (by apply not_filled_not_fully));
    (split; cbn; rewrite ?F; done).
Qed.

(** Neither the count of the writes nor the flag of a flatten matters to it, but for a failure. *)
Lemma row_ok_next o new s : row_ok s → row_ok (next_revision o new s).
Proof. intros []. by split. Qed.
Lemma row_ok_flag s : row_ok s → row_ok (with_flatten true s).
Proof. intros []. by split. Qed.
Lemma row_ok_failed s : ss_state s = SAFETY_FAILED → 0 ≤ generation_of s → row_ok (with_flatten true s).
Proof. intros E G. split; simpl; try done; rewrite E; done. Qed.

(** A row an event may be judged on. *)
Record judgeable (s : SagaState) : Prop := {
  jd_protected : ss_state s = PROTECTED → fully (ss_qty s) = true;
  jd_exiting : ss_state s = EXITING → exited (ss_legs s) = true;
  jd_state : terminal_saga (ss_state s) = false;
  jd_unowned : ss_state s ≠ CLOSE_OWNED;
  jd_generation : 0 ≤ generation_of s;
}.
Lemma judge_ok e s0 : judgeable s0 → ss_state (judge e s0) ≠ SAFETY_FAILED → row_ok (judge e s0).
Proof.
  intros [Hp Hx Ht Ho Hg] Hf. destruct (judge_keeps e s0) as [(_&Hown&_) [Hq Hl]].
  assert (ss_state s0 ≠ CLOSED) as Hc by (intros E; by rewrite E in Ht).
  pose proof (judge_cases e s0) as J. remember (ss_state (judge e s0)) as st eqn:Est.
  split; rewrite <-?Est, ?Hq, ?Hl; unfold generation_of; rewrite ?Hown; try done;
    destruct J as [Hc1 Hc2|st Hx1 ->|Hf1 Hf2 Hf3|Hp1 Hp2 Hp3|Hq1 Hq2 Hq3|Hw1|Hs1 Hs2 Hs3];
    try done; try (destruct (flat _); done); try congruence.
  all: try (rewrite (not_filled_not_fully _ Hc2); done).
  destruct (flat _); intros _ _; by right; left.
Qed.

Lemma entry_leg_exited s e : exited (ss_legs (apply_entry_leg s e)) = exited (ss_legs s).
Proof. done. Qed.
Lemma stop_legs_exited st l : exited l = true → exited (stop_legs st l) = true.
Proof. unfold exited, stop_legs. simpl. destruct (stop_filled l), (target_filled l); simpl; try done; by destruct (filled_status st). Qed.
Lemma target_legs_exited st l : exited l = true → exited (target_legs st l) = true.
Proof. unfold exited, target_legs. simpl. destruct (stop_filled l), (target_filled l); simpl; try done; by destruct (filled_status st). Qed.

Lemma apply_event_ok s e : judgeable s → ss_state (apply_event s e) ≠ SAFETY_FAILED → row_ok (apply_event s e).
Proof.
  intros [Hp Hx Ht Ho Hg]. unfold apply_event. cbv zeta. destruct (String.eqb (ev_leg e) "entry").
  - destruct (entry_quantities_grow (ev_status e) (ev_filled e) (ev_timestamp e) (ss_qty s)) as (R & G & _).
    destruct (rejected_status (ev_status e)).
    + intros _. split; try done. intros _ _. by right; right; right.
    + apply judge_ok. split; [|done..]. intros E. simpl. eapply fully_grows; [exact R|exact G|by apply Hp].
  - destruct (String.eqb (ev_leg e) "stop"); [|destruct (String.eqb (ev_leg e) "take_profit")]; apply judge_ok; split; try done; intros E.
    + apply stop_legs_exited, Hx, E.
    + apply target_legs_exited, Hx, E.
Qed.

Lemma judge_released_ok e s0 : (exited (ss_legs s0) = false → stop_working (ss_legs s0) = true) →
  ss_state (judge e s0) ∈ [PROTECTED; EXITING; CLOSED] → 0 ≤ generation_of (judge e s0) → close_owned_once (judge e s0) = true →
  row_ok (judge e s0).
Proof.
  intros Hs Hst Hg Hc. destruct (judge_keeps e s0) as [_ [Hq Hl]]. pose proof (judge_cases e s0) as J.
  remember (ss_state (judge e s0)) as st eqn:Est.
  split; rewrite <-?Est, ?Hq, ?Hl; try done;
    destruct J as [Hc1 Hc2|st Hx1 ->|Hf1 Hf2 Hf3|Hp1 Hp2 Hp3|Hq1 Hq2 Hq3|Hw1|Hs1 Hs2 Hs3]; try done; try (destruct (flat _); done);
    try (rewrite Hs in Hs2; done); try (by set_unfold in Hst; naive_solver); auto.
Qed.

Lemma apply_stop s e : ev_leg e = "stop"%string → apply_event s e = judge e (with_legs (stop_legs (ev_status e) (ss_legs s)) s).
Proof. intros E. unfold apply_event. by rewrite E. Qed.
Lemma apply_target s e : ev_leg e = "take_profit"%string → apply_event s e = judge e (with_legs (target_legs (ev_status e) (ss_legs s)) s).
Proof. intros E. unfold apply_event. by rewrite E. Qed.

(** The row of a release, before the release judges it. *)
Lemma released_judged r t s : ∃ e s0, (exited (stop_legs (rl_stop_status r) no_legs) = false →
    stop_working (stop_legs (rl_stop_status r) no_legs) = true) →
  (exited (ss_legs s0) = false → stop_working (ss_legs s0) = true) ∧
  let w := judge e s0 in
  released_row r t s = (if rl_problem r || pending_protection_lost (ss_own s) || negb (release_stop_status (rl_stop_status r)) ||
     negb (bool_decide (ss_state w ∈ [PROTECTED; EXITING; CLOSED]))
  then with_flatten true (with_state SAFETY_FAILED
         (Some (match ss_error w with Some e => e | None => "PROTECTION_LOST_DURING_CLOSE"%string end)) w)
  else w).
Proof.
  unfold released_row. cbv zeta. rewrite apply_stop by done. cbn [ev_status].
  change (ss_legs (released_base r s)) with no_legs. generalize (released_base r s). intros base.
  generalize ("release:" +:+ rl_root r +:+ ":stop")%string ("release:" +:+ rl_root r +:+ ":target")%string. intros n1 n2.
  destruct (rl_target r) as [[g st]|].
  - rewrite apply_target by done. cbn [ev_status]. eexists _, _. intros Hk. split; [|reflexivity]. cbn [ss_legs with_legs].
    rewrite (proj2 (proj2 (judge_keeps _ _))). cbn [ss_legs with_legs]. intros Hx. apply Hk. revert Hx. unfold exited. simpl.
    destruct (filled_status st); [by rewrite orb_true_r|done].
  - eexists _, _. intros Hk. split; [|reflexivity]. exact Hk.
Qed.

Lemma released_ok r t s : 0 ≤ generation_of s → row_ok (released_row r t s).
Proof.
  intros Hg. assert (0 ≤ generation_of (released_row r t s) ∧ close_owned_once (released_row r t s) = true) as [Hg' Hc].
  { unfold close_owned_once, generation_of in *. destruct (released_keeps r t s) as [(_&K&_)|(_&K&_)]; rewrite K; simpl; (split; [lia|]);
      apply Z.ltb_lt; lia. }
  destruct (released_judged r t s) as (e & s0 & Hrel).
  destruct (release_stop_status (rl_stop_status r)) eqn:Hstop.
  - destruct Hrel as [Hs0 Hrow].
    { unfold release_stop_status in Hstop. to_prop. set_unfold in Hstop. destruct Hstop as [-> | [-> | [-> | []]]]; done. }
    cbv zeta in Hrow. rewrite Hrow in Hg', Hc |- *. destruct (_ || _) eqn:E in *; [by apply row_ok_failed|].
    to_prop. by apply judge_released_ok.
  - unfold released_row. cbv zeta. rewrite Hstop. cbn [negb]. rewrite !orb_true_r. apply row_ok_failed; [done|].
    revert Hg'. unfold released_row. cbv zeta. rewrite Hstop. cbn [negb]. by rewrite !orb_true_r.
Qed.

Lemma reopened_ok s e : 0 ≤ generation_of s → row_ok (reopened_row s e).
Proof.
  intros Hg. unfold reopened_row. cbv zeta. apply row_ok_next.
  set (s0 := with_state OUTCOME_UNKNOWN _ s). assert (judgeable s0) as Hj by (by split).
  destruct (apply_event_keeps s0 e) as (_ & Hown & _).
  destruct (dlt dzero (filled (ss_qty (apply_event s0 e)))) eqn:Hf.
  - apply row_ok_failed; [done|]. unfold generation_of in *. simpl. by rewrite Hown.
  - apply apply_event_ok; [done|]. intros E. revert Hf E. clear. unfold apply_event. cbv zeta.
    destruct (String.eqb (ev_leg e) "entry"); [destruct (rejected_status _); [done|]|destruct (String.eqb (ev_leg e) "stop"); [|destruct (String.eqb (ev_leg e) "take_profit")]].
    all: rewrite (proj1 (proj2 (judge_keeps _ _))); intros Hf E;
      match type of E with ss_state (judge ?e ?s) = _ => pose proof (judge_cases e s) as J; rewrite E in J; inversion J; subst end; try congruence.
    all: match goal with H : (if flat ?l then _ else _) = _ |- _ => destruct (flat l); discriminate | H : _ = if flat ?l then _ else _ |- _ => destruct (flat l); discriminate | _ => idtac end.
Qed.

Lemma live_ok s e : row_ok s → terminal_saga (ss_state s) = false → ss_state s ≠ CLOSE_OWNED → row_ok (live_row s e).
Proof.
  intros [] Ht Ho. assert (judgeable s) as Hj by (by split). unfold live_row. cbv zeta. apply row_ok_next.
  destruct (apply_event_keeps s e) as (_ & Hown & _).
  destruct (decide (ss_state (apply_event s e) = SAFETY_FAILED)) as [E|E].
  - rewrite !bool_decide_eq_true_2; [|by intros Es; rewrite Es in Ht|done]. apply row_ok_failed; [done|].
    unfold generation_of in *. by rewrite Hown.
  - rewrite (bool_decide_eq_false_2 _ E). by apply apply_event_ok.
Qed.

Lemma step_ok s u : row_ok s → row_step s u → row_ok u.
Proof.
  intros Hok Hs. pose proof Hok as []. destruct Hs.
  - by apply born_ok.
  - apply row_ok_next. split; try (simpl; rewrite H; done); [|done]. simpl. intros _. by apply ro_failed0.
  - by apply reopened_ok.
  - unfold pending_row. cbv zeta. apply row_ok_next. by split.
  - by apply row_ok_next.
  - unfold owned_row. destruct (lost s e); apply row_ok_next; [by apply row_ok_failed|].
    unfold owned_bookkeeping. cbv zeta. repeat case_match; split; try (simpl; rewrite H; done); done.
  - by apply live_ok.
  - apply row_ok_next. destruct H0 as [Hb _]. pose proof (born_unfilled _ Hb) as F. split; simpl; rewrite ?F; try done. by destruct Hb.
  - apply row_ok_next. destruct H0 as [Hb _]. pose proof (born_unfilled _ Hb) as F. split; simpl; rewrite ?F; try done. by destruct Hb.
  - apply row_ok_next. by split.
  - apply row_ok_next. assert (fully (ss_qty s) = true → stop_working (ss_legs s) = true) as Hw by (intros; apply ro_open0; [by rewrite H|done]).
    destruct H0 as [-> | ->]; split; try done; simpl; auto.
  - unfold owned_by in *. cbv zeta in *. case_match; simplify_eq. apply row_ok_next. by split.
  - unfold expecting in *. cbv zeta in *. case_match; simplify_eq. apply row_ok_next. split; try (simpl; rewrite H; done); try done.
  - by apply released_ok.
  - apply row_ok_next. split; try done. intros _ _. right; right; left. unfold close_owned_once. simpl.
    by rewrite (bool_decide_eq_true_2 _ (ro_owned0 H)).
  - apply row_ok_next. split; try done. intros _ _. right; right; left. unfold close_owned_once. simpl.
    by rewrite (bool_decide_eq_true_2 _ (ro_owned0 H)).
  - apply row_ok_next. split; try done. simpl. intros _ Hf. apply ro_open0; [|done].
    unfold unconfirmed_send in H. to_prop. set_unfold in H. by destruct H as [-> |[-> |[]]].
Qed.

(** ** Rows with a history *)
Definition lived (s : SagaState) : Prop := ∃ s0, born s0 ∧ lives s0 s.
Lemma lived_ok s : lived s → row_ok s.
Proof. intros (s0 & Hb & Hl). apply born_ok in Hb. induction Hl; [done|]. by eauto using step_ok. Qed.
Lemma lived_names s : lived s → ss_group s = order_group (ss_command s) ∧ 0 ≤ ss_revision s.
Proof.
  intros (s0 & Hb & Hl). destruct (born_identity _ Hb) as [G R]. destruct (lives_names _ _ Hl) as ([= -> ->] & ? & _). split; [done|lia].
Qed.
(** A row nobody wrote again is the refusal it began as. *)
Lemma lived_first s : lived s → ss_revision s = 0 → born s.
Proof.
  intros (s0 & Hb & Hl) Hr. destruct (lives_names _ _ Hl) as (_ & Hle & Heq). destruct (born_identity _ Hb) as [_ H0].
  rewrite Heq; [done|lia].
Qed.
Lemma event_not_validated s e : ss_state s ≠ VALIDATED → ss_state (apply_event s e) ≠ VALIDATED.
Proof.
  assert (∀ e s, ss_state s ≠ VALIDATED → ss_state (judge e s) ≠ VALIDATED) as Hj.
  { intros e' s' Hs E. pose proof (judge_cases e' s') as J. rewrite E in J. inversion J; subst; try done. by destruct (flat _). }
  intros Hs. unfold apply_event. cbv zeta. repeat case_match; try done; by apply Hj.
Qed.
(** A row before its send is the one the start made. *)
Lemma lived_checked s : lived s → ss_state s = VALIDATED → ss_revision s = 1 → checked s.
Proof.
  intros (s0 & Hb & Hl) Hv Hr. split; [|done]. apply rtc_inv_r in Hl as [->|(s1 & Hl & Hst)]; [done|].
  destruct (row_step_names _ _ Hst) as [_ Hr1].
  assert (born s1) as Hb1 by (apply lived_first; [by exists s0|lia]).
  assert (ss_state s1 = CLOSED) as Hc by (destruct Hb1; simpl in *; [done|lia]).
  destruct Hst; try (by rewrite Hc in *); try done; try (by destruct H as [_ H]; rewrite Hc in H).
  - exfalso. revert Hv. unfold reopened_row. cbv zeta. destruct (dlt _ _); [done|]. by apply event_not_validated.
  - cbn in Hv. by rewrite Hc in Hv.
Qed.
