(* ===== verification/ProtectionRun.v ===== *)
(** * Every write of the saga is built on the row it replaces

    The table over time ([table_ok], [moves]), what a thread may write after a read
    ([past], [writable]), and the effect of one write: the check of the revision makes a
    race harmless ([save_ok]).  The journal remembers the rows it was told of
    ([noted_row]), so that a write which turns out to be the replay of an earlier event
    finds its row ([append_ok]). *)
From stdpp Require Import base tactics gmap list sets strings pretty.
From Stdlib Require Import ZArith Lia.
From S2P Require Import Prelude Py Journal Store Bracket Protection ProtectionRows.
Open Scope Z_scope.

(** ** The table over time *)
Definition table_ok (t : sagas) : Prop := ∀ k s, load k t = Some s → ss_command s = k ∧ lived s.
(** No row goes away, and each became what it is write by write. *)
Definition moves (t t' : sagas) : Prop := ∀ k s, load k t = Some s → ∃ s', load k t' = Some s' ∧ lives s s'.
Global Instance moves_preorder : PreOrder moves.
Proof.
  split; [intros t k s Hs; by exists s|]. intros t1 t2 t3 H12 H23 k s Hs.
  destruct (H12 k s Hs) as (s2 & Hs2 & L2). destruct (H23 k s2 Hs2) as (s3 & Hs3 & L3). exists s3. split; [done|by transitivity s2].
Qed.

(** A thread holds a row it read at some time. *)
Definition past (s : SagaState) (t : sagas) : Prop := lived s ∧ ∃ r, load (ss_command s) t = Some r ∧ lives s r.
Lemma past_moves s t t' : moves t t' → past s t → past s t'.
Proof. intros Hm (Hv & r & Hr & Hl). split; [done|]. destruct (Hm _ _ Hr) as (r' & Hr' & Hl'). exists r'. split; [done|by transitivity r]. Qed.
Lemma past_load k s t : table_ok t → load k t = Some s → past s t ∧ ss_command s = k.
Proof. intros Ht Hs. destruct (Ht _ _ Hs) as [<- Hl]. split; [|done]. split; [done|by exists s]. Qed.
(** What a thread may write: a step of a row it read, or the first row of an entry. *)
Definition writable (u : SagaState) (t : sagas) : Prop := (∃ s, past s t ∧ row_step s u) ∨ born u.
Lemma writable_moves u t t' : moves t t' → writable u t → writable u t'.
Proof. intros Hm [(s & Hs & Hr)|Hb]; [left; exists s; eauto using past_moves|by right]. Qed.

Lemma load_put k u ev g t : load k (mkSagas (<[ss_command u := mkSagaRow u ev]> (sg_rows t)) g (sg_events t)) =
  if decide (k = ss_command u) then Some u else load k t.
Proof. unfold load. simpl. case_decide as E; [subst; by rewrite lookup_insert_eq|by rewrite lookup_insert_ne]. Qed.

(** The check of the revision: the row under the write is the one it was built on. *)
Lemma writable_current u old t : table_ok t → writable u t → load (ss_command u) t = Some old →
  ss_revision old = ss_revision u - 1 → row_step old u.
Proof.
  intros Ht Hw Ho Hr. destruct (Ht _ _ Ho) as [Hk Hl]. destruct Hw as [(s & (_ & r & Hs & Hlv) & Hst)|Hb].
  - destruct (row_step_names _ _ Hst) as [[= Hc _] Hrev]. rewrite <-Hc, Ho in Hs. injection Hs as <-.
    destruct (lives_names _ _ Hlv) as (_ & _ & Heq). rewrite Heq; [done|lia].
  - destruct (lived_names _ Hl) as [_ H0]. apply rs_restarted; [|done|congruence|lia].
    apply lived_first; [done|]. destruct Hb; simpl in *; lia.
Qed.
(** A write that went through: the table is sound, and the row is in it. *)
Definition wrote (u : SagaState) (t t' : sagas) : Prop := table_ok t' ∧ moves t t' ∧ load (ss_command u) t' = Some u.
Lemma save_ok u now t : table_ok t → writable u t → post (save_in_tx u now) t (λ r t',
  match r with Ok _ => wrote u t t' | Raise _ => True end).
Proof.
  intros Ht Hw. unfold save_in_tx. apply post_bind, post_gets, post_bind.
  destruct (load (ss_command u) t) as [old|] eqn:Ho.
  - apply post_require. destruct (ss_revision old =? ss_revision u - 1) eqn:Hr; [|done]. to_prop.
    pose proof (writable_current u old t Ht Hw Ho Hr) as Hst. unfold post, outcome, final, modify, wrote. simpl.
    split_and!; [| |rewrite load_put; by rewrite decide_True].
    + intros k s. rewrite load_put. case_decide as E; [|apply Ht]. intros [= <-]. split; [done|].
      destruct (Ht _ _ Ho) as [_ (s0 & Hb & Hl)]. exists s0. split; [done|by eapply rtc_r].
    + intros k s Hs. rewrite load_put. case_decide as E; [|by exists s]. subst. simplify_eq. exists u. split; [done|by apply rtc_once].
  - apply post_bind, post_gets, post_require. destruct (bool_decide _); [|done]. unfold post, outcome, final, modify, wrote. simpl.
    split_and!; [| |rewrite load_put; by rewrite decide_True].
    + intros k s. rewrite load_put. case_decide as E; [|apply Ht]. intros [= <-]. split; [done|].
      destruct Hw as [(s & (_ & r & Hs & _) & Hst)|Hb]; [|by exists u].
      destruct (row_step_names _ _ Hst) as [[= Hc _] _]. congruence.
    + intros k s Hs. rewrite load_put. case_decide as E; [congruence|by exists s].
Qed.
(** The events only remember what was applied. *)
Lemma same_rows_ok t t' : sg_rows t' = sg_rows t → table_ok t → table_ok t' ∧ moves t t'.
Proof.
  intros E Ht. assert (∀ k, load k t' = load k t) as El by (intros k; unfold load; by rewrite E).
  split; [intros k s; rewrite El; apply Ht|intros k s Hs; exists s; by rewrite El].
Qed.
Lemma saga_statements_ok u now ev ex (ck : res unit) t : table_ok t → writable u t →
  post ((match ex with Some r => require_revision_in_tx (ss_command u) r | None => mret tt end) ;;
    (match ck with Ok _ => mret tt | Raise e => raise e end) ;;
    save_in_tx u now ;;
    match ev with Some e => record_event_in_tx e (ss_command u) | None => mret tt end) t
    (λ r t', match r with Ok _ => wrote u t t' | Raise _ => True end).
Proof.
  intros Ht Hw. apply post_bind.
  apply post_weaken with (Q := λ (r : res unit) t', t' = t).
  { destruct ex as [r|]; [|by apply post_ret]. unfold require_revision_in_tx. apply post_bind, post_gets, post_require. by destruct (bool_decide _). }
  intros [[]|e] t1; [intros ->|done]. apply post_bind. destruct ck as [[]|e]; [apply post_ret|by apply post_raise].
  apply post_bind. eapply post_weaken; [by apply save_ok|]. intros [[]|e] t2; [|done]. intros (H1 & H2 & H3).
  destruct ev as [e|]; [|by apply post_ret]. unfold record_event_in_tx.
  apply post_bind, post_gets, post_bind, post_require. destruct (bool_decide _); [|done].
  unfold post, outcome, final, modify. simpl.
  destruct (same_rows_ok t2 (mkSagas (sg_rows t2) (sg_groups t2) (<[e:=ss_command u]> (sg_events t2)))) as [H4 H5]; [done|done|].
  split_and!; [done|by transitivity t2|exact H3].
Qed.

(** ** The journal remembers the rows *)
Definition saga_key_of (s : SagaState) : string := saga_key (ss_command s) (ss_state s) (ss_revision s).
Lemma saga_key_inj c st n st' n' : saga_key c st n = saga_key c st' n' → st = st' ∧ n = n'.
Proof.
  unfold saga_key. intros H. repeat apply (inj (String.append _)) in H.
  destruct st, st'; try discriminate H; split; try done; repeat apply (inj (String.append _)) in H; by apply (inj pretty) in H.
Qed.
(** An event id of the broker's side is none of a row's. *)
Definition foreign (eid : string) : Prop := ∀ c st n, eid ≠ saga_key c st n.

Section run.
Context {T : Type} `{HasTable T sagas}.

Definition noted_row (r : journal_row) (t : sagas) : Prop :=
  entity_type r = "automated_order_saga"%string →
  ∃ s, past s t ∧ ss_command s = entity_id r ∧ (event_id r = saga_key_of s ∨ foreign (event_id r)).
Record db_ok (d : db T) : Prop := {
  dk_wf : wf (db_core d);
  dk_table : table_ok (table_of d);
  dk_rows r : r ∈ journal (db_core d) → noted_row r (table_of d);
}.
Lemma noted_moves r t t' : moves t t' → noted_row r t → noted_row r t'.
Proof. intros Hm Hn Ht. destruct (Hn Ht) as (s & Hs & Hr). exists s. split; [by eapply past_moves|done]. Qed.

(** The row the event of a write stands for. *)
Definition noted (u : SagaState) (ev : option string) (d : db T) : Prop :=
  ev = None → ∃ s, past s (table_of d) ∧ ss_command s = ss_command u ∧ ss_state s = ss_state u ∧ ss_revision s = ss_revision u.
Lemma noted_in u ev (d : db T) r : db_ok d → r ∈ journal (db_core d) → entity_type r = "automated_order_saga"%string →
  entity_id r = ss_command u → event_id r = event_key u ev → noted u ev d.
Proof.
  intros Hd Hr Ht Hc He ->. destruct (dk_rows _ Hd r Hr Ht) as (s & Hs & Hsc & Hk). exists s. simpl in He.
  destruct Hk as [Hk|Hf]; [|by destruct (Hf _ _ _ He)]. rewrite Hk in He. unfold saga_key_of in He. rewrite Hsc, Hc in He.
  destruct (saga_key_inj _ _ _ _ _ He). split_and!; congruence.
Qed.

Lemma in_sagas_post {A} (m : M sagas A) p Q : post m (tget (tables p)) Q →
  post (in_sagas (T := T) m) p (λ r p', Q r (tget (tables p'))).
Proof. unfold post, in_sagas, outcome, final. rewrite zoom_unfold. destruct (m _) as [r t]. simpl. by rewrite tget_tset. Qed.

Lemma append_ok st u from at' ev ex ck t : db_ok (tx_db t) → writable u (table_of (tx_db t)) → (∀ e, ev = Some e → foreign e) →
  post (append st (saga_mutation u from at') (saga_write u at' ev ex ck) (Some (event_key u ev))) t (λ r t',
    match r with Ok _ => db_ok (tx_db t') ∧ moves (table_of (tx_db t)) (table_of (tx_db t')) ∧ noted u ev (tx_db t') | Raise _ => True end).
Proof.
  intros Hd Hw Hf. unfold post, outcome, final. rewrite append_spec by apply Hd. cbn [default].
  change (tx_core t) with (db_core (tx_db t)).
  destruct (select_journal_row _ _) as [r|] eqn:Hsel.
  - destruct (matches r _) eqn:Hm; [|done]. simpl. split; [done|]. split; [done|].
    apply select_Some in Hsel as [Hr He]. unfold matches in Hm. to_prop. by apply (noted_in u ev _ r).
  - pose proof (in_sagas_post _ (db_producer (tx_db t)) _ (saga_statements_ok u at' ev ex ck _ (dk_table _ Hd) Hw)) as Hp.
    unfold saga_write. unfold post, outcome, final in Hp. destruct (in_sagas _ _) as [[[]|e] p]; [|done]. simpl in *.
    destruct Hp as (Ht & Hm & Hl). set (d' := mkDb _ p). fold (table_of d') in Ht, Hm, Hl.
    assert (past u (table_of d')) as Hu by (by eapply past_load).
    assert (db_ok d') as Hd'.
    { split; [apply wf_append; [apply Hd|done]|done|]. intros r Hr. simpl in Hr. apply elem_of_app in Hr as [Hr| ->%list_elem_of_singleton].
      - by eapply noted_moves, dk_rows.
      - intros _. exists u. split; [done|]. split; [done|]. simpl. destruct ev as [e|]; [right; by apply Hf|by left]. }
    split; [done|]. split; [done|]. intros ->. by exists u.
Qed.
End run.
