(* ===== verification/ProtectionSteps.v ===== *)
(** * What the operations of the saga do to its rows

    Between two calls of the database the other threads may do whatever keeps the
    database sound and its rows moving along [row_step] ([lawful_others]).  [goes] is
    the calculus: an operation keeps the world sound, and its rows only move.  The
    lemmas follow [Protection] operation by operation up to [saga_step], the service as
    a step relation. *)
From stdpp Require Import base tactics gmap list sets strings pretty.
From Stdlib Require Import ZArith Lia.
From S2P Require Import Prelude Py Journal Store Bracket Protection ProtectionRows ProtectionRun.
Open Scope Z_scope.
Set Default Proof Using "Type".

Lemma plan_group i q limit group force p : build_bracket_plan i q limit group force = Ok p → bp_order_group_id p = group.
Proof.
  unfold build_bracket_plan. destruct limit; [|done]. destruct force; [done|]. destruct (negb _); [done|]. destruct (dle _ _); [done|].
  by intros [= <-].
Qed.

Section steps.
Context {T : Type} `{HasTable T sagas} (P : Ports T).

(** What the saga sends it built, for the group of one entry. *)
Definition planned (p : BracketPlan) (group : string) : Prop :=
  ∃ i q limit, build_bracket_plan i q (Some limit) group false = Ok p.
(** A bracket goes out under a row that is committed, submitting, and of its group. *)
Definition sent_ok (e : BracketPlan * sagas) : Prop :=
  ∃ s, past s e.2 ∧ ss_state s = SUBMITTING ∧ planned e.1 (ss_group s).
Definition sent_group (e : BracketPlan * sagas) : string := bp_order_group_id e.1.
(** The entry it was for has its row ever since. *)
Definition kept (t : sagas) (e : BracketPlan * sagas) : Prop :=
  ∃ c, sent_group e = order_group c ∧ is_Some (load c t).
Record world_ok (w : world T) : Prop := {
  wk_db : db_ok (jdb (w_journal w));
  wk_sent : Forall sent_ok (w_sent w);
  wk_kept : Forall (kept (rows_now w)) (w_sent w);
  wk_once : NoDup (map sent_group (w_sent w));
}.
(** Only some operations may send. *)
Definition after (loud : bool) (w w' : world T) : Prop :=
  moves (rows_now w) (rows_now w') ∧ if loud then w_sent w `prefix_of` w_sent w' else w_sent w' = w_sent w.
Global Instance after_preorder loud : PreOrder (after loud).
Proof.
  split; [intros w; split; [done|by destruct loud]|].
  intros w1 w2 w3 [M1 S1] [M2 S2]. split; [by etrans|]. destruct loud; [by etrans|congruence].
Qed.
Lemma after_quiet loud w w' : after false w w' → after loud w w'.
Proof. intros [Hm Hs]. split; [done|]. destruct loud; [by rewrite Hs|done]. Qed.
Lemma kept_moves t t' e : moves t t' → kept t e → kept t' e.
Proof. intros Hm (c & Hc & s & Hs). destruct (Hm _ _ Hs) as (s' & Hs' & _). exists c. split; [done|by exists s']. Qed.
(** A part that sends nothing. *)
Lemma quiet_ok w w' : world_ok w → db_ok (jdb (w_journal w')) → after false w w' → world_ok w'.
Proof.
  intros [Hd Hs Hk Ho] Hd' [Hm E]. split; rewrite ?E; try done. eapply Forall_impl; [exact Hk|]. intros e. by apply kept_moves.
Qed.
(** The other threads, to each of which the same theorems apply. *)
Definition lawful_others : Prop := ∀ n j, db_ok (jdb j) →
  db_ok (jdb (others P n j)) ∧ moves (sagas_of j) (sagas_of (others P n j)).

Definition runs (loud : bool) {A} (m : M (world T) A) (w : world T) (Q : A → world T → Prop) : Prop :=
  world_ok w → post m w (λ r w', world_ok w' ∧ after loud w w' ∧ match r with Ok a => Q a w' | Raise _ => True end).
Notation goes := (runs false).
Notation sends := (runs true).

(** ** Rules *)
Section rules.
Context {loud : bool} {A B : Type}.
Implicit Types (m : M (world T) A) (k : A → M (world T) B).

Lemma goes_weaken m w (Q Q' : A → world T → Prop) :
  runs loud m w Q → (∀ a w', world_ok w' → after loud w w' → Q a w' → Q' a w') → runs loud m w Q'.
Proof.
  intros Hm HQ Hw. eapply post_weaken; [by apply Hm|]. intros [a|e] w' (H1 & H2 & H3); (split; [done|split; [done|]]); [by apply HQ|done].
Qed.
Lemma goes_ret a w (Q : A → world T → Prop) : Q a w → runs loud (mret a) w Q.
Proof. intros HQ Hw. by apply post_ret. Qed.
Lemma goes_raise e w (Q : A → world T → Prop) : runs loud (raise e) w Q.
Proof. intros Hw. by apply post_raise. Qed.
Lemma goes_bind m k w Q : runs loud m w (λ a w', runs loud (k a) w' Q) → runs loud (m ≫= k) w Q.
Proof.
  intros Hm Hw. apply post_bind. eapply post_weaken; [by apply Hm|]. intros [a|e] w1 (H1 & H2 & H3); [|done].
  eapply post_weaken; [by apply H3|]. intros r w2 (H4 & H5 & H6). split; [done|split; [by etrans|done]].
Qed.
Lemma goes_gets (f : world T → A) w (Q : A → world T → Prop) : Q (f w) w → runs loud (gets f) w Q.
Proof. intros HQ Hw. by apply post_gets. Qed.
Lemma goes_ask (port : nat → res A) w (Q : A → world T → Prop) :
  (∀ a w', rows_now w' = rows_now w → port (w_calls w) = Ok a → Q a w') → runs loud (ask port) w Q.
Proof.
  intros HQ Hw. unfold post, ask, outcome, final. simpl.
  assert (after false w (mkWorld (w_journal w) (S (w_calls w)) (w_sent w))) as Ha by done.
  split; [eapply quiet_ok; [done|apply Hw|done]|]. split; [by apply after_quiet|].
  destruct (port _) eqn:E; [by apply HQ|done].
Qed.
Lemma goes_try m (h : exc → option (M (world T) A)) w Q : runs loud m w Q →
  (∀ e m' w1, h e = Some m' → after loud w w1 → runs loud m' w1 Q) → runs loud (try_except m h) w Q.
Proof.
  intros Hm Hh Hw. apply post_try. eapply post_weaken; [by apply Hm|]. intros [a|e] w1 (H1 & H2 & H3); [done|].
  destruct (h e) as [m'|] eqn:E; [|done]. eapply post_weaken; [by apply (Hh e m' w1)|].
  intros r w2 (H4 & H5 & H6). split; [done|split; [by etrans|done]].
Qed.
Lemma goes_except m (h : exc → M (world T) A) w Q : runs loud m w Q →
  (∀ e w1, after loud w w1 → runs loud (h e) w1 Q) → runs loud (except m h) w Q.
Proof. intros Hm Hh. apply goes_try; [done|]. intros e k w1 Hk Hl. destruct e; simplify_eq; by apply Hh. Qed.
Lemma goes_retries m w Q : (∀ w1, after loud w w1 → runs loud m w1 Q) → runs loud (with_retries m) w Q.
Proof.
  unfold with_retries. generalize (save_attempts - 1)%nat. intros n. revert w. induction n as [|n IH]; intros w Hm; simpl; [by apply Hm|].
  apply goes_try; [by apply Hm|]. intros e k w1 Hk Hl. destruct e; simplify_eq. apply IH. intros w2 Hl2. apply Hm. by etrans.
Qed.
End rules.

Lemma sends_bind {A B} (m : M (world T) A) (k : A → M (world T) B) w Q :
  goes m w (λ a w', w_sent w' = w_sent w → sends (k a) w' Q) → sends (m ≫= k) w Q.
Proof.
  intros Hm Hw. apply post_bind. eapply post_weaken; [by apply Hm|]. intros [a|e] w1 (H1 & [H2 E2] & H3).
  - eapply post_weaken; [by apply H3|]. intros r w2 (H4 & H5 & H6). split; [done|split; [|done]].
    transitivity w1; [by apply after_quiet|done].
  - split; [done|]. split; [by apply after_quiet|done].
Qed.
Lemma goes_sends {A} (m : M (world T) A) w Q : goes m w Q → sends m w Q.
Proof.
  intros Hm Hw. eapply post_weaken; [by apply Hm|]. intros r w1 (H1 & H2 & H3). split; [done|]. split; [by apply after_quiet|done].
Qed.
Lemma goes_pause w (Q : unit → world T → Prop) : lawful_others →
  (∀ w', world_ok w' → after false w w' → Q tt w') → goes (pause P) w Q.
Proof.
  intros Ho HQ Hw. destruct (Ho (w_calls w) _ (wk_db _ Hw)) as [Hd' Hm]. unfold post, pause, outcome, final. simpl.
  match goal with |- world_ok ?w1 ∧ _ => assert (after false w w1) as Ha by (by split); assert (world_ok w1) as Hw1 by (by eapply quiet_ok) end.
  split; [done|]. split; [done|]. by apply HQ.
Qed.
Lemma goes_reads {A} (f : sagas → A) w (Q : A → world T → Prop) : lawful_others →
  (∀ w', world_ok w' → after false w w' → Q (f (rows_now w')) w') → goes (reads P f) w Q.
Proof. intros Ho HQ. apply goes_bind, goes_pause; [done|]. intros w' Hw' Hl. apply goes_gets. by apply HQ. Qed.
Lemma goes_map_each {A B} (xs : list A) (f : A → M (world T) B) w :
  (∀ x w1, x ∈ xs → after false w w1 → goes (f x) w1 (λ _ _, True)) → goes (map_each xs f) w (λ _ _, True).
Proof.
  revert w. induction xs as [|x xs IH]; intros w Hf; simpl; [by apply goes_ret|].
  apply goes_bind. intros Hw. eapply post_weaken; [apply Hf; [left|done|done]|].
  intros [y|e] w1 (H1 & H2 & _); (split; [done|]; split; [done|]); [|done].
  apply goes_bind. eapply goes_weaken; [apply IH|].
  - intros x' w2 Hx Hl. apply Hf; [by right|by etrans].
  - intros ys w2 _ _ _. by apply goes_ret.
Qed.

(** ** The database *)
Lemma rollback_ok {A} (work : M (tx T) A) (d : db T) e t : lawful work → db_ok d → work (mkTx d []) = (Raise e, t) →
  db_ok (rollback d (tx_db t)) ∧ table_of (rollback d (tx_db t)) = table_of d.
Proof.
  intros Hl [W Ht Hr] E. split; [|done]. split; [by eapply rollback_wf|done|done].
Qed.
Lemma batch_ok {A} (work : M (tx T) A) j (Q : A → db T → Prop) : lawful work → db_ok (jdb j) →
  post work (mkTx (jdb j) []) (λ r t,
    match r with Ok a => db_ok (tx_db t) ∧ moves (sagas_of j) (table_of (tx_db t)) ∧ Q a (tx_db t) | Raise _ => True end) →
  post (mutate_batch_work work) j (λ r j',
    db_ok (jdb j') ∧ moves (sagas_of j) (sagas_of j') ∧ match r with Ok a => Q a (jdb j') | Raise _ => True end).
Proof.
  intros Hl Hd Hp. unfold post, outcome, final in Hp. destruct (work (mkTx (jdb j) [])) as [r t] eqn:E.
  unfold post, outcome, final. rewrite (mutate_batch_work_run _ _ _ _ E). destruct r as [a|e]; simpl in *; [done|].
  destruct (rollback_ok _ _ _ _ Hl Hd E) as [H1 H2]. split; [done|]. split; [|done]. unfold sagas_of. simpl. by rewrite H2.
Qed.
Lemma mutate_ok st m write eid j (Q : DomainEvent → db T → Prop) :
  post (mutate_batch_work (append st m write eid)) j (λ r j',
    db_ok (jdb j') ∧ moves (sagas_of j) (sagas_of j') ∧ match r with Ok a => Q a (jdb j') | Raise _ => True end) →
  post (mutate st m write eid) j (λ r j',
    db_ok (jdb j') ∧ moves (sagas_of j) (sagas_of j') ∧ match r with Ok a => Q a (jdb j') | Raise _ => True end).
Proof.
  unfold post at 2. rewrite final_mutate. unfold outcome. rewrite mutate_unfold.
  unfold post, outcome, final, mutate_batch_work. destruct (append _ _ _ _ _) as [[e|e] t]; simpl; [|done].
  unfold signal_commit, modify. destruct (max_of _ _); done.
Qed.
Lemma goes_journal {A} (m : M (DomainJournal T) A) w (Q : A → db T → Prop) :
  (db_ok (jdb (w_journal w)) → post m (w_journal w) (λ r j',
     db_ok (jdb j') ∧ moves (sagas_of (w_journal w)) (sagas_of j') ∧ match r with Ok a => Q a (jdb j') | Raise _ => True end)) →
  goes (in_journal m) w (λ a w', Q a (jdb (w_journal w'))).
Proof.
  intros Hm Hw. specialize (Hm (wk_db _ Hw)). unfold post, in_journal, outcome, final in *. rewrite zoom_unfold.
  destruct (m (w_journal w)) as [r j]. destruct Hm as (H1 & H2 & H3). simpl.
  assert (after false w (mkWorld j (w_calls w) (w_sent w))) as Ha by done.
  split; [by eapply quiet_ok|]. split; [done|]. done.
Qed.

Lemma goes_persist_checked u at' from ev ex ck w : lawful_others → writable u (rows_now w) → (∀ e, ev = Some e → foreign e) →
  goes (persist_checked P u at' from ev ex ck) w (λ _ w', noted u ev (jdb (w_journal w'))).
Proof.
  intros Ho Hw Hf. apply goes_bind, goes_pause; [done|]. intros w1 _ [Hm _].
  apply goes_bind, goes_ask. intros st w2 E2 _. apply goes_bind, goes_ask. intros c w3 E3 _. apply goes_bind.
  eapply goes_weaken; [apply (goes_journal _ _ (λ _ d, noted u ev d))|].
  - intros Hd. apply (mutate_ok _ _ _ _ _ (λ _ d, noted u ev d)), (batch_ok _ _ (λ _ d, noted u ev d)); [apply lawful_append|done|]. apply append_ok; [done| |done].
    apply (writable_moves _ (rows_now w)); [|done]. change (table_of _) with (rows_now w3). by rewrite E3, E2.
  - intros a w4 _ _ Hn. by apply goes_ret.
Qed.
Lemma goes_persist u at' from ev w : lawful_others → writable u (rows_now w) → (∀ e, ev = Some e → foreign e) →
  goes (persist P u at' from ev) w (λ _ w', noted u ev (jdb (w_journal w'))).
Proof. apply goes_persist_checked. Qed.

Lemma goes_stamps (items : list (SagaState * option saga_state)) w :
  goes (map_each items (λ i, st ← ask (λ n, Ok (stamps P n)); mret (st, i))) w
    (λ l w', rows_now w' = rows_now w ∧ map snd l = items).
Proof.
  revert w. induction items as [|i items IH]; intros w; simpl; [by apply goes_ret|].
  apply goes_bind, goes_bind, goes_ask. intros st w1 E1 _. apply goes_ret, goes_bind.
  eapply goes_weaken; [apply IH|]. intros l w2 _ _ [E2 <-]. apply goes_ret. by rewrite E2, E1.
Qed.
Lemma appends_ok (l : list (stamp * (SagaState * option saga_state))) at' t : db_ok (tx_db t) →
  (∀ p, p ∈ l → writable p.2.1 (table_of (tx_db t))) →
  post (map_each l (λ p : stamp * (SagaState * option saga_state),
    append p.1 (saga_mutation p.2.1 p.2.2 at') (saga_write p.2.1 at' None None (Ok tt)) (Some (event_key p.2.1 None)))) t
  (λ r t', match r with Ok _ => db_ok (tx_db t') ∧ moves (table_of (tx_db t)) (table_of (tx_db t')) | Raise _ => True end).
Proof.
  revert t. induction l as [|p l IH]; intros t Hd Hw; simpl; [by apply post_ret|].
  apply post_bind. eapply post_weaken; [apply append_ok; [done|apply Hw; left|done]|]. intros [ev|e] t1; [|done]. intros (Hd1 & Hm1 & _).
  apply post_bind. eapply post_weaken; [apply IH; [done|]|].
  { intros q Hq. eapply writable_moves; [exact Hm1|]. apply Hw. by right. }
  intros [evs|e] t2; [|done]. intros [Hd2 Hm2]. apply post_ret. split; [done|by etrans].
Qed.
Lemma goes_persist_all items at' w : lawful_others → (∀ i, i ∈ items → writable i.1 (rows_now w)) →
  goes (persist_all P items at') w (λ _ _, True).
Proof.
  intros Ho Hi. unfold persist_all. destruct items as [|i0 items0] eqn:E; [by apply goes_ret|]. rewrite <-E in *. clear E.
  apply goes_bind, goes_pause; [done|]. intros w1 _ [Hm _]. apply goes_bind.
  eapply goes_weaken; [apply goes_stamps|]. intros l w2 _ _ [E2 El]. apply goes_bind.
  eapply goes_weaken; [apply (goes_journal _ _ (λ _ _, True))|intros; by apply goes_ret].
  intros Hd. apply (batch_ok _ _ (λ _ _, True)); [auto with mmr|done|].
  eapply post_weaken; [apply appends_ok; [done|]|intros [l'|e] t' Hp; [by destruct Hp|done]].
  intros q Hq. change (table_of _) with (rows_now w2). rewrite E2. eapply writable_moves; [exact Hm|].
  apply Hi. rewrite <-El. by apply list_elem_of_fmap_2.
Qed.

(** ** What a thread reads *)
Lemma head_elem {A} (l : list A) x : head l = Some x → x ∈ l.
Proof. destruct l; [done|]. intros [= ->]. left. Qed.
Lemma load_many_past p s t : table_ok t → s ∈ load_many p t → past s t ∧ p s = true.
Proof.
  intros Ht (r & -> & Hr)%list_elem_of_fmap. apply elem_of_select in Hr as (Hp & k & Hk). split; [|done].
  apply (past_load k); [done|]. unfold load. by rewrite Hk.
Qed.
Lemma load_by_group_past g s n t : table_ok t → load_by_group g t = Some (s, n) → past s t.
Proof.
  intros Ht. unfold load_by_group. destruct (_ ≫= _) as [[s' n']|] eqn:E.
  - intros [= -> ->]. destruct (sg_groups t !! g) as [[c m]|]; [|done]. simpl in E. destruct (load c t) eqn:El; [|done].
    simplify_eq/=. by apply (past_load c).
  - destruct (head _) as [r|] eqn:Hh; [|done]. intros [= <- _]. apply head_elem, elem_of_select in Hh as (_ & k & Hk).
    apply (past_load k); [done|]. unfold load. by rewrite Hk.
Qed.

(** ** Broker events *)
Definition foreign_event (e : BrokerOrderEvent) : Prop := foreign (ev_id e).
Lemma goes_trip s at' w : goes (trip_and_liquidate P s at') w (λ _ _, True).
Proof. apply goes_bind, goes_ask. intros. by apply goes_ask. Qed.
Lemma goes_save s u from e at' w : lawful_others → foreign_event e → past s (rows_now w) → row_step s u →
  goes (persist P u at' from (Some (ev_id e))) w (λ _ _, True).
Proof.
  intros Ho Hf Hs Hst. eapply goes_weaken; [apply goes_persist; [done|left; eauto|by intros ? [= <-]]|done].
Qed.
Lemma goes_reopen s e w : lawful_others → foreign_event e → past s (rows_now w) →
  ss_state s = NOT_SENT ∨ ss_state s = CLOSED ∧ close_owned_once s = false ∧ entry_fill_grows s e = true →
  goes (reopen_terminal_row P s e) w (λ _ _, True).
Proof.
  intros Ho Hf Hs Hst. apply goes_bind, goes_ask. intros t w1 E1 _. apply goes_bind, goes_ask. intros [] w2 E2 _. cbv zeta.
  apply goes_bind. eapply goes_weaken; [apply (goes_save s); [done|done|by rewrite E2, E1|by apply rs_reopened]|].
  intros _ w3 _ _ _. apply goes_bind. eapply goes_weaken; [|intros; by apply goes_ret].
  case_bool_decide; [apply goes_trip|by apply goes_ret].
Qed.
Lemma goes_apply_event e w : lawful_others → foreign_event e → goes (apply_broker_event P e) w (λ _ _, True).
Proof.
  intros Ho Hf. apply goes_bind, goes_reads; [done|]. intros w1 Hw1 _.
  destruct (load_by_group _ _) as [[s n]|] eqn:Hl; [|apply goes_raise].
  assert (past s (rows_now w1)) as Hs by (eapply load_by_group_past; [apply Hw1|done]).
  case_bool_decide; [by apply goes_ret|].
  assert (∀ u t w2, row_step s u → rows_now w2 = rows_now w1 → goes (save_event P s u e t) w2 (λ _ _, True)) as Hsave.
  { intros u t w2 Hst E. apply goes_bind. eapply goes_weaken; [apply (goes_save s); [done|done|by rewrite E|done]|].
    intros. by apply goes_ret. }
  destruct (bool_decide (ss_state s = SAFETY_FAILED) && _) eqn:H1.
  { to_prop. apply goes_bind, goes_ask. intros t w2 E _. apply Hsave; [by apply rs_entry|done]. }
  destruct (bool_decide (ss_state s = NOT_SENT)) eqn:H3; [to_prop; apply goes_reopen; auto|].
  destruct (bool_decide (ss_state s = CLOSED) && _ && _) eqn:H2; [to_prop; apply goes_reopen; auto|].
  destruct (terminal_saga _) eqn:Ht; [by apply goes_ret|].
  apply goes_bind, goes_ask. intros t w2 E _.
  destruct (_ <? _); [apply Hsave; [by apply rs_pending|done]|].
  destruct (_ <? _); [apply Hsave; [by apply rs_recorded|done]|]. cbv zeta.
  apply goes_bind. eapply goes_weaken; [apply (goes_save s); [done|done|by rewrite E|]|].
  - clear H1 H2 H3. case_bool_decide; [by apply rs_owned|by apply rs_live].
  - intros _ w3 _ _ _. apply goes_bind. eapply goes_weaken; [|intros; by apply goes_ret].
    match goal with |- goes (if ?b then _ else _) _ _ => destruct b end; [apply goes_trip|by apply goes_ret].
Qed.
Lemma goes_event e w : lawful_others → foreign_event e → goes (on_broker_event P e) w (λ _ _, True).
Proof. intros Ho Hf. apply goes_retries. intros. by apply goes_apply_event. Qed.

(** ** The start of an entry *)
Lemma goes_refuse i at' q code w : lawful_others → goes (refuse_entry P i at' q code) w (λ _ _, True).
Proof.
  intros Ho. apply goes_bind. eapply goes_weaken; [apply goes_persist; [done|right; constructor|done]|]. intros. by apply goes_ret.
Qed.
(** The row a start goes on with: it, or one like it, was committed. *)
Definition begun (v : SagaState) (t : sagas) : Prop :=
  checked v ∧ ∃ s, past s t ∧ checked s ∧ ss_command v = ss_command s.
Lemma begun_moves v t t' : moves t t' → begun v t → begun v t'.
Proof. intros Hm (Hv & s & Hs & Hc). split; [done|]. exists s. split; [by eapply past_moves|done]. Qed.
Lemma begun_later v w w' : after false w w' → begun v (rows_now w) → begun v (rows_now w').
Proof. intros [Hm _]. by apply begun_moves. Qed.

Lemma goes_refuse_validated v at' code w : lawful_others → begun v (rows_now w) →
  goes (refuse_validated P v at' code) w (λ _ _, True).
Proof.
  intros Ho (Hv & s & Hs & Hc & E). apply goes_bind.
  eapply goes_weaken; [apply goes_persist; [done|left; exists s; split; [done|by apply rs_refused]|done]|]. intros. by apply goes_ret.
Qed.
Lemma goes_after command at' change always w : lawful_others →
  (∀ s, always = true ∨ ss_state s = SUBMITTING → row_step s (next_revision s [] (change s))) →
  goes (after_dispatch P command at' change always) w (λ _ _, True).
Proof.
  intros Ho Hst. apply goes_retries. intros w1 _. apply goes_bind, goes_reads; [done|]. intros w2 Hw2 _.
  destruct (load command _) as [s|] eqn:Hl; [|apply goes_raise].
  destruct (past_load _ _ _ (dk_table _ (wk_db _ Hw2)) Hl) as [Hs _].
  destruct (bool_decide _ && _) eqn:E; [by apply goes_ret|]. apply goes_bind.
  eapply goes_weaken; [apply goes_persist; [done|left; exists s; split; [done|apply Hst]|done]|intros; by apply goes_ret].
  destruct always; [by left|right]. rewrite andb_true_r in E. to_prop. by apply dec_stable.
Qed.
Lemma sent_ok_kept e : sent_ok e → kept e.2 e ∧ ∃ s, past s e.2 ∧ ss_state s = SUBMITTING ∧ sent_group e = ss_group s.
Proof.
  intros (s & Hs & Hst & i & q & limit & Hp). apply plan_group in Hp. destruct Hs as [Hv (r & Hr & Hlv)].
  destruct (lived_names _ Hv) as [G _]. split.
  - exists (ss_command s). split; [unfold sent_group; congruence|by exists r].
  - exists s. split; [split; [done|by exists r]|done].
Qed.
Lemma goes_transmit p w (Q : list Z → world T → Prop) : sent_ok (p, rows_now w) → bp_order_group_id p ∉ map sent_group (w_sent w) →
  (∀ ids w', Q ids w') → sends (transmit P p) w Q.
Proof.
  intros Hsent Hnew HQ [Hd Hs Hk Ho]. unfold post, transmit, ask, outcome, final. simpl.
  match goal with |- world_ok ?w1 ∧ _ => assert (after true w w1) as Hl by (split; [done|by apply prefix_app_r]) end.
  split; [|split; [done|]; by destruct (submit_bracket _ _ _)]. split; simpl; [done|apply Forall_app; split; [done|by constructor]| |].
  - apply Forall_app. split; [done|]. constructor; [|done]. by apply sent_ok_kept in Hsent as [? _].
  - rewrite map_app. apply NoDup_app. split; [done|]. split; [|apply NoDup_singleton]. intros x Hx ->%list_elem_of_singleton. done.
Qed.

Lemma goes_send i plan at' w : lawful_others → sent_ok (plan, rows_now w) → bp_order_group_id plan ∉ map sent_group (w_sent w) →
  sends (send_bracket P i plan at') w (λ _ _, True).
Proof.
  intros Ho Hsent Hnew. apply goes_bind. apply goes_weaken with (Q := λ (r : list Z + saga_state * string) _,
    match r with inl _ => True | inr (st, _) => st = CLOSED ∨ st = OUTCOME_UNKNOWN end).
  - apply goes_try.
    + apply goes_bind, goes_transmit; [done|done|]. intros. by apply goes_ret.
    + intros e m w1 Hm _. destruct e; simplify_eq; apply goes_ret; auto.
  - intros r w1 _ _ Hr. apply goes_sends, goes_bind, goes_ask. intros back w2 _ _.
    destruct r as [ids|[st code]]; apply goes_after; [done| |done|].
    + intros s _. apply rs_returned.
    + intros s [?|Hst]; [done|]. by apply rs_answered.
Qed.

Lemma goes_guarded {A B} (m : M (world T) A) (h : exc → option (M (world T) (option B))) (k : A → option B) w (Q : option B → world T → Prop) :
  goes m w (λ a w', Q (k a) w') → (∀ e m' w', h e = Some m' → after false w w' → goes m' w' Q) →
  goes (try_except (a ← m; mret (k a)) h) w Q.
Proof.
  intros Hm Hh. apply goes_try; [|done]. apply goes_bind. eapply goes_weaken; [exact Hm|]. intros. by apply goes_ret.
Qed.

(** What the refusals before the send need of the row. *)
Lemma begun_refused v code at' w w' : lawful_others → after false w w' → begun v (rows_now w) →
  sends (refuse_validated P v at' code) w' (λ _ _, True).
Proof. intros Ho Hl Hb. apply goes_sends, goes_refuse_validated; [done|]. by eapply begun_later. Qed.
Lemma goes_guard_and_submit i a v plan at' w : lawful_others → begun v (rows_now w) → planned plan (order_group (ss_command v)) →
  order_group (ss_command v) ∉ map sent_group (w_sent w) → sends (guard_and_submit P i a v plan at') w (λ _ _, True).
Proof.
  intros Ho Hb Hp Hnew. apply sends_bind. apply goes_weaken with (Q := λ _ w', after false w w').
  { destruct (ap_reducing a); [by apply goes_ret|]. apply goes_bind, goes_reads; [done|]. intros. by apply goes_ret. }
  intros [l|] w1 _ _ Hl1 _; [|by eapply begun_refused].
  apply sends_bind. apply goes_weaken with (Q := λ _ _, True).
  { apply goes_guarded; [by apply goes_ask|]. intros e m w2 Hm _. destruct e; simplify_eq. by apply goes_ret. }
  intros o w2 _ Hl2 _ _. assert (after false w w2) as Hl by (by etrans). clear Hl1 Hl2. destruct o as [code|]; [by eapply begun_refused|].
  apply sends_bind. apply goes_weaken with (Q := λ _ _, True).
  { destruct (orphan_evidence P); [|by apply goes_ret]. apply goes_except; [apply goes_bind, goes_ask|]; intros; by apply goes_ret. }
  intros o w3 _ Hl3 _ _. assert (after false w w3) as Hl' by (by etrans). clear Hl Hl3. destruct o as [g|]; [|by eapply begun_refused].
  apply goes_bind. destruct (ap_reducible a) as [baseline|e]; [apply goes_ret|apply goes_raise].
  destruct (begun_later _ _ _ Hl' Hb) as (Hv & s & Hs & Hc & Ec).
  apply sends_bind. apply goes_weaken with (Q := λ (r : option string) w', r = None →
    ∃ s', past s' (rows_now w') ∧ ss_command s' = ss_command v ∧ ss_state s' = SUBMITTING).
  { apply goes_guarded.
    - eapply goes_weaken; [apply goes_persist_checked; [done|left; exists s; split; [exact Hs|by apply rs_submitting]|done]|].
      intros [] w4 _ _ Hn _. destruct (Hn eq_refl) as (s' & Hs' & Hc' & Hst & _). by exists s'.
    - intros e m w4 Hm _. destruct e; simplify_eq. by apply goes_ret. }
  intros o w4 _ Hl4 Hsub E4. assert (after false w w4) as Hl by (by etrans). destruct o as [code|]; [by eapply begun_refused|].
  apply goes_send; [done| |].
  - destruct (Hsub eq_refl) as (s' & Hs' & Hc' & Hst). exists s'. split; [done|]. split; [done|].
    destruct (lived_names _ (proj1 Hs')) as [-> _]. by rewrite Hc'.
  - destruct Hl as [_ ->]. destruct Hp as (? & ? & ? & Hp). by rewrite (plan_group _ _ _ _ _ _ Hp).
Qed.
Lemma unsent_group c w : world_ok w → load c (rows_now w) = None → order_group c ∉ map sent_group (w_sent w).
Proof.
  intros Hw Hl (e & Hg & He)%list_elem_of_fmap. pose proof (wk_kept _ Hw) as Hk. rewrite Forall_forall in Hk.
  destruct (Hk _ He) as (c' & Hc & s & Hs). rewrite Hc in Hg. apply (inj (String.append _)) in Hg. congruence.
Qed.
Lemma goes_start i a w : lawful_others → sends (start P i a) w (λ _ _, True).
Proof.
  intros Ho. apply sends_bind, goes_reads; [done|]. intros w1 Hw1 _ _. destruct (load _ _) as [s|] eqn:Hnone; [by apply goes_ret|].
  pose proof (unsent_group _ _ Hw1 Hnone) as Hnew.
  apply sends_bind, goes_ask. intros at' w2 _ _ E2. rewrite <-E2 in Hnew. apply sends_bind. apply goes_weaken with (Q := λ _ _, True).
  { apply goes_try; [apply goes_bind, goes_ask; intros; by apply goes_ret|]. intros e m w3 Hm _. destruct e; simplify_eq; by apply goes_ret. }
  intros [d|code] w3 _ _ _ E3; rewrite <-E3 in Hnew; [|by apply goes_sends, goes_refuse].
  destruct (negb _); [by apply goes_sends, goes_refuse|]. cbv zeta. destruct (dle _ _) eqn:Hq; [by apply goes_sends, goes_refuse|].
  destruct (ap_quote a) as [quote|]; [|by apply goes_sends, goes_refuse].
  destruct (build_bracket_plan _ _ _ _ _) as [plan|e] eqn:Hplan; [|apply goes_raise].
  set (v := new_saga _ _ VALIDATED _ _ _ _). assert (checked v) as Hv by (by split; [constructor|]).
  apply sends_bind. eapply goes_weaken; [apply goes_persist; [done|right; apply Hv|done]|].
  intros [] w4 _ _ Hn E4. apply goes_guard_and_submit; [done| | |by rewrite E4].
  - split; [done|]. destruct (Hn eq_refl) as (s & Hs & Hc & Hst & Hr). exists s. split; [done|]. split; [|done].
    apply lived_checked; [apply Hs|done|done].
  - by eexists _, _, _.
Qed.

(** ** Ownership *)
Lemma goes_owned root cancels g at' l w : lawful_others →
  (∀ s, s ∈ l → past s (rows_now w) ∧ terminal_saga (ss_state s) = false) →
  goes (save_changed P (omap (owned_by root cancels g) l) None at') w (λ _ _, True).
Proof.
  intros Ho Hl. apply goes_persist_all; [done|]. intros x (u & -> & Hu)%list_elem_of_fmap.
  apply list_elem_of_omap in Hu as (s & Hs & Hu). destruct (Hl s Hs) as [Hp Ht]. left. exists s. split; [done|]. by eapply rs_handover.
Qed.

Lemma owned_rows account conid t s : table_ok t → s ∈ load_live account conid t → past s t ∧ terminal_saga (ss_state s) = false.
Proof. intros Ht Hs. apply load_many_past in Hs as [Hp Hc]; [|done]. to_prop. by destruct (terminal_saga _). Qed.
Lemma goes_handover account conid root cancels g at' w : lawful_others → goes (handover P account conid root cancels g at') w (λ _ _, True).
Proof.
  intros Ho. apply goes_retries. intros w1 _. apply goes_bind, goes_reads; [done|]. intros w2 Hw2 _. apply goes_bind.
  eapply goes_weaken; [apply goes_owned; [done|]|intros; by apply goes_ret].
  intros s. apply owned_rows, Hw2.
Qed.
Lemma goes_handover_account account root cancels g at' w : lawful_others → goes (handover_account P account root cancels g at') w (λ _ _, True).
Proof.
  intros Ho. apply goes_retries. intros w1 _. apply goes_bind, goes_reads; [done|]. intros w2 Hw2 _.
  apply goes_owned; [done|]. intros s. apply owned_rows, Hw2.
Qed.
Lemma root_rows root t s : table_ok t → s ∈ load_by_close_root root t → past s t ∧ ss_state s = CLOSE_OWNED.
Proof. intros Ht Hs. apply load_many_past in Hs as [Hp Hc]; [|done]. by to_prop. Qed.
Lemma goes_expect root groups at' w : lawful_others → goes (expect_reprotect P root groups at') w (λ _ _, True).
Proof.
  intros Ho. apply goes_retries. intros w1 _. apply goes_bind, goes_reads; [done|]. intros w2 Hw2 _.
  apply goes_persist_all; [done|]. intros x (u & -> & Hu)%list_elem_of_fmap. apply list_elem_of_omap in Hu as (s & Hs & Hu).
  destruct (root_rows _ _ _ (dk_table _ (wk_db _ Hw2)) (take_elem _ _ _ Hs)) as [Hp Ht]. left. exists s. split; [done|]. by eapply rs_expecting.
Qed.
Lemma goes_release r at' w : lawful_others → goes (release_after_partial P r at') w (λ _ _, True).
Proof.
  intros Ho. apply goes_bind. apply goes_weaken with (Q := λ _ _, True).
  - apply goes_retries. intros w1 _. apply goes_bind, goes_reads; [done|]. intros w2 Hw2 _.
    destruct (load_by_close_root _ _) as [|s l] eqn:Hl; [by apply goes_ret|]. cbv zeta. apply goes_bind.
    eapply goes_weaken; [|intros; by apply goes_ret].
    apply goes_persist_all; [done|]. intros x (u & -> & Hu)%list_elem_of_fmap. left.
    assert (∀ s', s' ∈ s :: l → past s' (rows_now w2) ∧ ss_state s' = CLOSE_OWNED) as Hpast.
    { intros s'. rewrite <-Hl. apply root_rows, Hw2. }
    apply elem_of_cons in Hu as [->|(s' & -> & Hs')%list_elem_of_fmap].
    + exists s. destruct (Hpast s) as [? ?]; [left|]. split; [done|by apply rs_released].
    + exists s'. destruct (Hpast s') as [? ?]; [by right|]. split; [done|by apply rs_merged].
  - intros [u|] w1 _ _ _; [|by apply goes_ret]. case_bool_decide; [apply goes_trip|by apply goes_ret].
Qed.
Lemma goes_close root at' w : lawful_others → goes (close_after_full P root at') w (λ _ _, True).
Proof.
  intros Ho. apply goes_retries. intros w1 _. apply goes_bind, goes_reads; [done|]. intros w2 Hw2 _.
  apply goes_persist_all; [done|]. intros x (u & -> & Hu)%list_elem_of_fmap. apply list_elem_of_fmap in Hu as (s & -> & Hs).
  destruct (root_rows _ _ _ (dk_table _ (wk_db _ Hw2)) Hs) as [Hp Ht]. left. exists s. split; [done|]. by apply rs_closed.
Qed.

(** ** Orphan reservations *)
Lemma goes_retire s e at' w : lawful_others → past s (rows_now w) → unconfirmed_send (ss_state s) = true →
  goes (retire_if_orphan P s e at') w (λ _ _, True).
Proof.
  intros Ho Hs Hst. unfold retire_if_orphan. destruct (negb _); [by apply goes_ret|]. cbv zeta. apply goes_except; [|intros; by apply goes_ret].
  apply goes_bind. eapply goes_weaken; [apply goes_persist_checked; [done|left; exists s; split; [done|by apply rs_retired]|done]|intros; by apply goes_ret].
Qed.
Lemma goes_retire_all w : lawful_others → goes (retire_orphan_reservations P) w (λ _ _, True).
Proof.
  intros Ho. unfold retire_orphan_reservations. destruct (negb _); [by apply goes_ret|]. apply goes_bind, goes_ask.
  intros [] w1 _ _; [|by apply goes_ret]. apply goes_bind, goes_reads; [done|]. intros w2 Hw2 _.
  destruct (unconfirmed_sends _ _) as [|s0 l0] eqn:El; [by apply goes_ret|]. rewrite <-El. clear El. apply goes_bind, goes_ask.
  intros t w3 E3 _. apply goes_bind. apply goes_weaken with (Q := λ _ _, True).
  { apply goes_except; [apply goes_bind, goes_ask|]; intros; by apply goes_ret. }
  intros [e|] w4 _ Hl4 _; [|by apply goes_ret]. apply goes_bind. eapply goes_weaken; [apply goes_map_each|intros; by apply goes_ret].
  intros s w5 Hs Hl5. apply load_many_past in Hs as [Hp Hc]; [|apply Hw2]. apply goes_bind.
  eapply goes_weaken; [apply goes_retire; [done| |]|intros; by apply goes_ret].
  - eapply past_moves; [|exact Hp]. transitivity (rows_now w4); [rewrite <-E3; apply Hl4|apply Hl5].
  - by to_prop.
Qed.

Lemma promotion_foreign s l e : unseen_entry_fill s l = Some e → foreign_event e ∧ ev_leg e = "entry"%string ∧ dlt (filled (ss_qty s)) (ev_filled e) = true.
Proof.
  unfold unseen_entry_fill. set (l' := filter _ _).
  assert (∀ o, o ∈ l' → dlt (filled (ss_qty s)) (er_filled o) = true) as Hl by (intros o [Ho Hin]%list_elem_of_filter; exact Ho).
  clearbody l'. assert (∀ b, (∀ o, b = Some o → dlt (filled (ss_qty s)) (er_filled o) = true) →
    ∀ o, fold_left larger_fill l' b = Some o → dlt (filled (ss_qty s)) (er_filled o) = true) as Hfold.
  { induction l' as [|x l' IH]; simpl; intros b Hb o; [by apply Hb|]. apply IH; [intros; apply Hl; by right|].
    intros o'. unfold larger_fill. destruct b as [b|]; [destruct (dlt _ _)|]; intros [= <-]; try (apply Hl; left); by apply Hb. }
  destruct (fold_left _ _ _) as [o|] eqn:E; [|done]. intros [= <-]. split; [by intros c st n|]. split; [done|]. simpl. by apply (Hfold None).
Qed.
Lemma goes_reconcile_row s w : lawful_others → past s (rows_now w) → ss_state s ∈ [NOT_SENT; CLOSED] → close_owned_once s = false →
  goes (reconcile_row P s) w (λ _ _, True).
Proof.
  intros Ho Hp Hst Hc. apply goes_bind, goes_ask. intros l w1 E1 _. destruct (unseen_entry_fill s l) as [e|] eqn:He; [|by apply goes_ret].
  case_bool_decide; [by apply goes_ret|]. destruct (promotion_foreign _ _ _ He) as (Hf & Hleg & Hlt). apply goes_bind.
  eapply goes_weaken; [apply goes_reopen; [done|done|by rewrite E1|]|intros; by apply goes_ret].
  set_unfold in Hst. destruct Hst as [-> |[-> |[]]]; [by left|right]. split_and!; [done|done|].
  unfold entry_fill_grows. by rewrite Hleg, Hlt.
Qed.
Lemma goes_reconcile w : lawful_others → goes (reconcile_terminal_entries P) w (λ _ _, True).
Proof.
  intros Ho. unfold reconcile_terminal_entries. destruct (negb _); [by apply goes_ret|].
  apply goes_bind, goes_reads; [done|]. intros w2 Hw2 _. apply goes_bind.
  eapply goes_weaken; [apply goes_map_each|intros; by apply goes_ret].
  intros s w5 Hs Hl5. apply load_many_past in Hs as [Hp Hc]; [|apply Hw2]. to_prop.
  apply goes_reconcile_row; [done| |done|done]. eapply past_moves; [apply Hl5|done].
Qed.

(** ** The service as a step relation *)
Inductive saga_step : world T → world T → Prop :=
  | sg_start i a w : saga_step w (final (start P i a) w)
  | sg_event e w : foreign_event e → saga_step w (final (on_broker_event P e) w)
  | sg_handover account conid root cancels g t w : saga_step w (final (handover P account conid root cancels g t) w)
  | sg_handover_account account root cancels g t w : saga_step w (final (handover_account P account root cancels g t) w)
  | sg_expect root groups t w : saga_step w (final (expect_reprotect P root groups t) w)
  | sg_release r t w : saga_step w (final (release_after_partial P r t) w)
  | sg_close root t w : saga_step w (final (close_after_full P root t) w)
  | sg_retire w : saga_step w (final (retire_orphan_reservations P) w)
  | sg_reconcile w : saga_step w (final (reconcile_terminal_entries P) w)
  (* a query, or another thread *)
  | sg_failures account w : saga_step w (final (unhandled_failures P account) w)
  | sg_resume c w : saga_step w (final (resume P c) w).

Lemma goes_step loud {A} (m : M (world T) A) w Q : runs loud m w Q → world_ok w → world_ok (final m w) ∧ after true w (final m w).
Proof. intros Hm Hw. destruct (Hm Hw) as (H1 & H2 & _). split; [done|]. destruct loud; [done|by apply after_quiet]. Qed.
Lemma step_goes w w' : lawful_others → saga_step w w' → world_ok w → world_ok w' ∧ after true w w'.
Proof.
  intros Ho Hs. destruct Hs; eapply goes_step.
  - by apply goes_start.
  - by apply goes_event.
  - by apply goes_handover.
  - by apply goes_handover_account.
  - by apply goes_expect.
  - by apply goes_release.
  - by apply goes_close.
  - by apply goes_retire_all.
  - by apply goes_reconcile.
  - apply (goes_bind (loud := false) _ _ _ (λ _ _, True)), goes_reads; [done|]. intros. by apply goes_ret.
  - by apply (goes_reads _ _ (λ _ _, True)).
Qed.
Lemma steps_go w w' : lawful_others → rtc saga_step w w' → world_ok w → world_ok w' ∧ after true w w'.
Proof.
  intros Ho. induction 1 as [w|w w1 w2 Hs _ IH]; [done|]. intros Hw. destruct (step_goes _ _ Ho Hs Hw) as [Hw1 Hl1].
  destruct (IH Hw1) as [Hw2 Hl2]. split; [done|by etrans].
Qed.

End steps.
