(* ===== verification/ProtectionSafety.v ===== *)
(** * What the protective saga promises

    For every interleaving of the service's operations with lawful other threads: no
    write is lost and no fill taken back, a filled entry is watched, a failure stays
    listed, a bracket goes out once and under its committed row, an event counts once,
    and an unconfirmed send is only written off on evidence.  The last section runs one
    entry. *)
From stdpp Require Import base tactics gmap list sets strings pretty.
From Stdlib Require Import ZArith Lia QArith Lqa.
From S2P Require Import Prelude Py Journal Store Bracket Protection ProtectionRows ProtectionRun ProtectionSteps.
Open Scope Z_scope.

(** ** Lives *)
Lemma lives_failed s u : lives s u → ss_state s = SAFETY_FAILED → ss_state u = SAFETY_FAILED ∧ ss_flatten u = ss_flatten s.
Proof.
  induction 1 as [s|s v u Hs _ IH]; [done|]. intros E. destruct (step_failed _ _ Hs E) as [Ev <-]. by apply IH.
Qed.
Lemma step_failed_account s u : row_step s u → ss_state s = SAFETY_FAILED → ss_account u = ss_account s.
Proof.
  intros Hs E. destruct Hs; try (rewrite E in *; done); try done.
  - by destruct H.
  - rewrite E in H. destruct H as [H|[H _]]; done.
  - destruct H as [_ H]. by rewrite E in H.
  - destruct H as [_ H]. by rewrite E in H.
Qed.
Lemma lives_failed_account s u : lives s u → ss_state s = SAFETY_FAILED → ss_account u = ss_account s.
Proof.
  induction 1 as [s|s v u Hs _ IH]; [done|]. intros E. destruct (step_failed _ _ Hs E) as [Ev _].
  rewrite <-(step_failed_account _ _ Hs E). by apply IH.
Qed.
Lemma lives_fills s u : lives s u → generation_of s ≤ generation_of u ∧
  (generation_of u = generation_of s → (dval (filled (ss_qty s)) <= dval (filled (ss_qty u)))%Q).
Proof.
  induction 1 as [s|s v u Hs _ [IH1 IH2]]; [split; [lia|intros; apply Qle_refl]|].
  destruct (step_fills _ _ Hs) as [H1 H2]. split; [lia|]. intros E. eapply Qle_trans; [apply H2; lia|apply IH2; lia].
Qed.
Lemma born_unseen s : born s → ss_seen s = [].
Proof. by intros []. Qed.
Lemma step_seen s u x : row_step s u → x ∈ ss_seen s → x ∈ ss_seen u.
Proof.
  intros Hs Hx. destruct Hs; try (apply elem_of_app; by left).
  - rewrite (born_unseen _ H) in Hx. set_solver.
  - unfold owned_row. destruct (lost s e); apply elem_of_app; by left.
  - rewrite (born_unseen _ (proj1 H)) in Hx. set_solver.
  - rewrite (born_unseen _ (proj1 H)) in Hx. set_solver.
  - unfold owned_by in *. cbv zeta in *. case_match; simplify_eq. apply elem_of_app; by left.
  - unfold expecting in *. cbv zeta in *. case_match; simplify_eq. apply elem_of_app; by left.
  - destruct (released_keeps r t s) as [(_&_&_&_&_&K)|(_&_&_&_&_&K)]; rewrite K; apply elem_of_app; by left.
Qed.
Lemma lives_seen s u x : lives s u → x ∈ ss_seen s → x ∈ ss_seen u.
Proof. induction 1; [done|]. eauto using step_seen. Qed.

Section safety.
Context {T : Type} `{HasTable T sagas} (P : Ports T).

Definition no_sagas : sagas := mkSagas ∅ ∅ ∅.
(** What the service and the other threads made of a database without sagas. *)
Definition begins (w : world T) : Prop :=
  ∃ p, w_journal w = empty_journal p ∧ tget (tables p) = no_sagas ∧ w_sent w = [].
Definition reachable (w : world T) : Prop := ∃ w0, begins w0 ∧ rtc (saga_step P) w0 w.

Lemma begins_ok w : begins w → world_ok w.
Proof.
  intros (p & Hj & Ht & Hs). split; rewrite ?Hs; [|done|done|constructor]. rewrite Hj. split; [apply wf_empty| |].
  - intros k s. unfold table_of, load. simpl. by rewrite Ht.
  - intros r Hr. simpl in Hr. set_solver.
Qed.
Lemma reachable_sound w : lawful_others P → reachable w → world_ok w.
Proof. intros Ho (w0 & Hb & Hs). apply (steps_go P _ _ Ho Hs), begins_ok, Hb. Qed.
Lemma reachable_lived w c s : lawful_others P → reachable w → load c (rows_now w) = Some s → ss_command s = c ∧ lived s.
Proof. intros Ho Hr Hl. by apply (dk_table _ (wk_db _ (reachable_sound _ Ho Hr))). Qed.

(** Threads of this very service are lawful company. *)
Lemma service_is_lawful (P' : Ports T) : lawful_others P' →
  (∀ n j, ∃ w, w_journal w = j ∧ w_sent w = [] ∧ ∃ w', rtc (saga_step P') w w' ∧ others P n j = w_journal w') → lawful_others P.
Proof.
  intros Ho Hn n j Hd. destruct (Hn n j) as (w & Hj & Hs & w' & Hw & ->).
  assert (world_ok w) as Hok by (split; rewrite ?Hs; [by rewrite Hj|done|done|constructor]).
  destruct (steps_go P' _ _ Ho Hw Hok) as [[Hd' _] [Hm _]]. split; [done|]. by rewrite <-Hj.
Qed.

(** C35. No write is lost.  Whatever the threads do between the reads and the writes of
    an operation, in any order and any number of operations, the row of an entry never
    goes away and only changes by steps of [row_step], each made from the very row it
    replaces: its name stays, each write counts up its revision by one, and as long as
    the revision is the same so is the row.  In particular no late or repeated event
    takes a fill away: the generation of the protection never goes back, and within one
    generation the filled quantity never gets smaller. *)
Theorem no_write_is_lost w w' c s : lawful_others P → reachable w → rtc (saga_step P) w w' → load c (rows_now w) = Some s →
  ∃ s', load c (rows_now w') = Some s' ∧ lives s s' ∧ identity s' = identity s ∧
    ss_revision s ≤ ss_revision s' ∧ (ss_revision s' = ss_revision s → s' = s) ∧
    generation_of s ≤ generation_of s' ∧
    (generation_of s' = generation_of s → (dval (filled (ss_qty s)) <= dval (filled (ss_qty s')))%Q).
Proof.
  intros Ho Hr Hs Hl. destruct (steps_go P _ _ Ho Hs (reachable_sound _ Ho Hr)) as [_ [Hm _]].
  destruct (Hm _ _ Hl) as (s' & Hl' & Hlv). destruct (lives_names _ _ Hlv) as (? & ? & ?), (lives_fills _ _ Hlv). eauto 10.
Qed.

(** C36. A filled entry is watched.  In every reachable database, an entry whose
    whole quantity has been filled has a stop that works, has been exited by its stop
    or its target, belongs or belonged to a close, or is a safety failure whose flatten
    was requested; the one exception is an entry the broker rejected.  A safety failure
    always has its flatten requested, a protected entry is filled, and an owned one has
    the generation of its owner. *)
Theorem filled_entry_is_watched w c s : lawful_others P → reachable w → load c (rows_now w) = Some s →
  let q := ss_qty s in
  ((0 < dval (requested q))%Q → (dval (requested q) <= dval (filled q))%Q →
   stop_working (ss_legs s) = true ∨ stop_filled (ss_legs s) = true ∨ target_filled (ss_legs s) = true ∨
   close_owned_once s = true ∨ (ss_state s = SAFETY_FAILED ∧ ss_flatten s = true) ∨
   (ss_state s = CLOSED ∧ ss_error s = Some "PARENT_REJECTED"%string)) ∧
  (ss_state s = SAFETY_FAILED → ss_flatten s = true) ∧
  (ss_state s = PROTECTED → (dval (requested q) <= dval (filled q))%Q) ∧
  (ss_state s = CLOSE_OWNED → is_Some (handover_generation (ss_own s))).
Proof.
  intros Ho Hr Hl q. destruct (reachable_lived _ _ _ Ho Hr Hl) as [_ [Hfail Hexit Hprot Hopen Hns Hown Hclosed _]%lived_ok].
  split_and!; [|done| |done].
  - intros H0 Hf. assert (fully q = true) as Hq.
    { unfold fully. apply andb_true_iff. split; [by apply dle_spec|apply dlt_spec; by rewrite dval_zero]. }
    assert (exited (ss_legs s) = true → stop_filled (ss_legs s) = true ∨ target_filled (ss_legs s) = true) as Hex
      by (unfold exited; intros Hx; by apply orb_true_iff in Hx).
    destruct (ss_state s) eqn:E; try (left; by apply Hopen).
    + destruct (Hex (Hexit eq_refl)); auto.
    + destruct (Hclosed eq_refl Hq) as [|[Hx|[|]]]; [auto| |auto 10..]. destruct (Hex Hx); auto.
    + auto 10.
    + right; right; right; left. unfold close_owned_once. by rewrite (bool_decide_eq_true_2 _ (Hown eq_refl)).
    + left. by apply Hns.
  - intros E. specialize (Hprot E). unfold fully in Hprot. apply andb_true_iff in Hprot as [Hp _]. by apply dle_spec in Hp.
Qed.

(** C37. A safety failure is not forgotten: from the write that marks it on, whatever
    the broker reports and whoever writes, the row stays failed, and each time the close
    worker asks for the unhandled failures of its account the entry is among them. *)
Theorem failure_stays_listed w w' c s : lawful_others P → reachable w → rtc (saga_step P) w w' →
  load c (rows_now w) = Some s → ss_state s = SAFETY_FAILED →
  ∃ l, outcome (unhandled_failures P (ss_account s)) w' = Ok l ∧ c ∈ l.
Proof.
  intros Ho Hr Hs Hl E. assert (reachable w') as Hr'.
  { destruct Hr as (w0 & Hb & Hs0). exists w0. split; [done|by etrans]. }
  destruct (steps_go P _ _ Ho Hs (reachable_sound _ Ho Hr)) as [_ [Hm _]].
  destruct (Ho (w_calls w') _ (wk_db _ (reachable_sound _ Ho Hr'))) as [_ Hm'].
  destruct (Hm _ _ Hl) as (s1 & Hl1 & Hlv1). destruct (Hm' _ _ Hl1) as (s2 & Hl2 & Hlv2).
  assert (lives s s2) as Hlv by (by etrans). destruct (reachable_lived _ _ _ Ho Hr Hl) as [Hc Hlived].
  eexists. split; [reflexivity|]. apply list_elem_of_fmap. exists s2. split.
  - destruct (lives_names _ _ Hlv) as ([= -> _] & _). by rewrite Hc.
  - apply list_elem_of_fmap. unfold load in Hl2. destruct (_ !! c) as [r|] eqn:Hrow; [|done]. simplify_eq/=. exists r. split; [done|].
    apply elem_of_select. split; [|by eexists]. destruct (lives_failed _ _ Hlv E) as [E2 F2].
    rewrite (lives_failed_account _ _ Hlv E), String.eqb_refl, E2, F2. simpl.
    apply (ro_failed _ (lived_ok _ Hlived)), E.
Qed.

(** C38. A bracket goes out once, under its row.  Each time one was handed to the
    broker, the database already held the row of its order group, committed as a send in
    progress (and moved on only along [row_step] since), and the bracket was one that
    [build_bracket_plan] had built for that group.  However often an entry is started
    one time after the other, whatever became of its row and whatever other threads did
    in between, its group is sent at most once. *)
Theorem brackets_go_out_once w : lawful_others P → reachable w →
  (∀ plan rows, (plan, rows) ∈ w_sent w →
    ∃ s r, ss_state s = SUBMITTING ∧ load (ss_command s) rows = Some r ∧ lives s r ∧
      ∃ i q limit, build_bracket_plan i q (Some limit) (ss_group r) false = Ok plan) ∧
  (∀ i j e1 e2, w_sent w !! i = Some e1 → w_sent w !! j = Some e2 →
    bp_order_group_id e1.1 = bp_order_group_id e2.1 → i = j).
Proof.
  intros Ho Hr. pose proof (reachable_sound _ Ho Hr) as [_ Hs _ Hn]. split.
  - intros plan rows Hin. rewrite Forall_forall in Hs.
    destruct (Hs _ Hin) as (s & (_ & r & Hl & Hlv) & Hst & Hp). exists s, r. split_and!; [done..|].
    destruct (lives_names _ _ Hlv) as ([= _ ->] & _). exact Hp.
  - intros i j e1 e2 H1 H2 E.
    apply (NoDup_lookup _ i j (sent_group e1) Hn); rewrite list_lookup_fmap; [by rewrite H1|rewrite H2; simpl; unfold sent_group; by rewrite E].
Qed.

(** C39. An event counts once: when a row has recorded an event of the broker, then at
    every later time the same event, should it find the row, changes nothing and the
    row is returned as it is. *)
Theorem event_counts_once w w' c s e s' g : lawful_others P → reachable w → rtc (saga_step P) w w' →
  load c (rows_now w) = Some s → ev_id e ∈ ss_seen s →
  let j := others P (w_calls w') (w_journal w') in
  load_by_group (ev_group e) (sagas_of j) = Some (s', g) → ss_command s' = c →
  on_broker_event P e w' = (Ok s', mkWorld j (S (w_calls w')) (w_sent w')).
Proof.
  intros Ho Hr Hs Hl Hseen j Hg Hc. assert (reachable w') as Hr'.
  { destruct Hr as (w0 & Hb & Hs0). exists w0. split; [done|by etrans]. }
  destruct (steps_go P _ _ Ho Hs (reachable_sound _ Ho Hr)) as [_ [Hm _]].
  destruct (Ho (w_calls w') _ (wk_db _ (reachable_sound _ Ho Hr'))) as [Hd Hm']. fold j in Hd, Hm'.
  destruct (Hm _ _ Hl) as (s1 & Hl1 & Hlv1). destruct (Hm' _ _ Hl1) as (s2 & Hl2 & Hlv2).
  assert (load c (sagas_of j) = Some s') as Hl'.
  { revert Hg. unfold load_by_group. destruct (_ ≫= _) as [[s3 n]|] eqn:E.
    - intros [= -> ->]. destruct (sg_groups _ !! _) as [[c' m]|]; [|done]. simpl in E. destruct (load c' _) eqn:El; [|done].
      simplify_eq/=. destruct (dk_table _ Hd _ _ El) as [-> _]. done.
    - destruct (head _) as [row|] eqn:Hh; [|done]. intros [= <- _]. apply head_elem, elem_of_select in Hh as (_ & k & Hk).
      assert (load k (sagas_of j) = Some (sr_saga row)) as El by (unfold load; by rewrite Hk).
      destruct (dk_table _ Hd _ _ El) as [Hk' _]. by rewrite <-Hc, Hk'. }
  assert (s2 = s') as -> by congruence. assert (ev_id e ∈ ss_seen s') as Hseen' by (apply (lives_seen s); [by etrans|done]).
  unfold on_broker_event, with_retries. generalize (save_attempts - 1)%nat. intros n.
  assert (apply_broker_event P e w' = (Ok s', mkWorld j (S (w_calls w')) (w_sent w'))) as E.
  { unfold apply_broker_event, reads, pause, gets. rewrite !bind_unfold. fold j. unfold rows_now. simpl. fold j. rewrite Hg.
    by rewrite bool_decide_eq_true_2. }
  destruct n; simpl; [done|]. unfold try_except. by rewrite E.
Qed.

(** *** Orphans *)
Lemma mutate_table st m write eid (j : DomainJournal T) : wf (jcore j) →
  sagas_of (final (mutate st m write eid) j) = sagas_of j ∨
  ∃ rev p, write rev (db_producer (jdb j)) = (Ok tt, p) ∧ sagas_of (final (mutate st m write eid) j) = tget (tables p).
Proof.
  intros W. rewrite final_mutate. unfold final. rewrite mutate_batch_work_spec. unfold outcome, final. rewrite append_spec by done.
  destruct (select_journal_row _ _) as [r|]; [destruct (matches _ _)|]; [by left..|].
  destruct (write _ _) as [[[]|e] p] eqn:E; simpl; [|by left]. right. by eexists _, p.
Qed.
Lemma persist_checked_rows u at' from ev ex ck (w : world T) :
  rows_now (final (persist_checked P u at' from ev ex ck) w) =
  sagas_of (final (mutate (stamps P (S (w_calls w))) (saga_mutation u from at') (saga_write u at' ev ex (ck (S (S (w_calls w)))))
                     (Some (event_key u ev))) (others P (w_calls w) (w_journal w))).
Proof.
  unfold persist_checked, in_journal, pause, ask, final. rewrite !bind_unfold. rewrite zoom_unfold. simpl.
  by destruct (mutate _ _ _ _ _) as [[x|x] j'].
Qed.
Lemma except_flag_rows (m : M (world T) unit) (a b : bool) w :
  rows_now (final (except (m ;; mret a) (λ _, mret b)) w) = rows_now (final m w).
Proof. unfold except, try_except, final. rewrite bind_unfold. destruct (m w) as [[x|x] w']; [done|]. by destruct x. Qed.
(** What a checked write leaves, when it leaves anything: the row at its revision was
    replaced by the new one, and the check had passed. *)
Lemma saga_write_inv u at' r (ck : res unit) rev (p p' : pconn T) : saga_write u at' None (Some r) ck rev p = (Ok tt, p') →
  ck = Ok tt ∧ (ss_revision <$> load (ss_command u) (tget (tables p))) = Some r ∧ load (ss_command u) (tget (tables p')) = Some u.
Proof.
  unfold saga_write, in_sagas. rewrite zoom_unfold. match goal with |- context [let (_, _) := ?m in _] => destruct m as [out t] eqn:E end. intros [= -> <-]. simpl. rewrite tget_tset.
  unfold require_revision_in_tx in E. run_inv. to_prop. destruct ck as [[]|e]; [|done]. run_inv. split; [done|]. split; [done|].
  unfold save_in_tx in *. run_inv. match goal with E : mret tt _ = _ |- _ => injection E as <- end. rewrite load_put. by rewrite decide_True.
Qed.
(** C40. A send of unknown outcome is written off on evidence, never because time
    passed: unless the table stays as the other threads left it, the broker was
    enumerated completely in a later generation than that of the send, by an
    enumeration that began after the call had returned, the settle time was over, no
    trace of the send was found, and the row was still the one that had been read; and
    then exactly the row is replaced, by one that says not sent. *)
Theorem orphan_needs_evidence w s e t : lawful_others P → reachable w →
  let t0 := sagas_of (others P (w_calls w) (w_journal w)) in
  let t1 := rows_now (final (retire_if_orphan P s e t) w) in
  t1 = rows_now w ∨ t1 = t0 ∨
  ∃ g at' back n, send_generation (ss_send s) = Some g ∧ send_attempted_at (ss_send s) = Some at' ∧
    send_returned_at (ss_send s) = Some back ∧ g < be_generation e ∧ back < be_started_at e ∧ orphan_settle P ≤ t - back ∧
    has_trace P n s at' = Ok false ∧ (ss_revision <$> load (ss_command s) t0) = Some (ss_revision s) ∧
    load (ss_command s) t1 = Some (retired_row s).
Proof.
  intros Ho Hr t0 t1. subst t1. unfold retire_if_orphan. destruct (postdates_send P s e t) eqn:Hp; [|by left]. right. simpl.
  unfold postdates_send in Hp. destruct (send_generation _) as [g|]; [|done]. destruct (send_attempted_at _) as [at'|]; [|done].
  destruct (send_returned_at _) as [back|]; [|done]. to_prop. simpl.
  destruct (Ho (w_calls w) _ (wk_db _ (reachable_sound _ Ho Hr))) as [Hd _].
  set (j := others P (w_calls w) (w_journal w)) in *.
  set (st := stamps P (S (w_calls w))). set (n := S (S (w_calls w))).
  set (ck := match has_trace P n s at' with Ok true => Raise BrokerTraceFound | Ok false => Ok tt | Raise e => Raise e end).
  rewrite except_flag_rows, persist_checked_rows. fold j st n ck.
  destruct (mutate_table st (saga_mutation (retired_row s) (Some (ss_state s)) t)
    (saga_write (retired_row s) t None (Some (ss_revision s)) ck) (Some (event_key (retired_row s) None)) j (dk_wf _ Hd)) as [E|(rev & p & Hwr & E)].
  - left. exact E.
  - right. apply saga_write_inv in Hwr as (Hck & Hrev & Hload). exists g, at', back, n. rewrite E. split_and!; try done.
    unfold ck in Hck. by destruct (has_trace P n s at') as [[]|].
Qed.
End safety.

(** ** One entry, with an event of another thread between a read and its write *)
Section example.

Definition ex_entry : EntryOrder :=
  mkEntry "cmd-1" 265598 "BUY" (Some (mkDec 100 0)) "LIMIT" (mkDec 10 0) (Some (mkDec 120 0)) "STP" (mkDec 95 0).
Definition ex_approved : Approved := mkApproved false (Some (mkQuote (Some (mkDec 1005 (-1))) (Some (mkDec 1004 (-1))) (mkDec 100 0))) (Ok dzero).
Definition ex_quiet : Ports sagas := {|
  clock := λ n, seconds (Z.of_nat n);
  stamps := λ n, mkStamp ("u" +:+ pretty n) (seconds (Z.of_nat n));
  others := λ _ j, j;
  entry_lock_free := λ _, true;
  account_id := "DU1";
  orphan_settle := seconds 60;
  liquidation_deadline := minutes 5;
  evaluate := λ _ _, Ok (mkDecision true [] None);
  revalidate := λ _ _, Ok tt;
  send_gate := None;
  submit_bracket := λ _ _, Ok [1; 2; 3];
  orphan_evidence := true;
  latest_enumeration := λ _, Ok (mkEnumeration 3 (seconds 40));
  entry_orders := λ _ _, Ok [];
  has_trace := λ _ _ _, Ok false;
  record_signal := λ _ _ _, Ok tt;
  start_flatten := λ _ _ _ _, Ok tt;
|}.
Definition ex_group : string := "og-cmd-1".
Definition ex_stop : BrokerOrderEvent := mkOrderEvent ex_group "stop" "PreSubmitted" dzero "ev-stop" (seconds 20) None.
Definition ex_fill (n : Z) (status id : string) : BrokerOrderEvent := mkOrderEvent ex_group "entry" status (mkDec n 0) id (seconds 21) None.
(** Before call 20, the write of a fill, the other thread records the stop. *)
Definition ex_ports : Ports sagas := {|
  clock := clock ex_quiet; stamps := stamps ex_quiet;
  others := λ n j, if decide (n = 20%nat) then w_journal (final (on_broker_event ex_quiet ex_stop) (mkWorld j 0 [])) else j;
  entry_lock_free := entry_lock_free ex_quiet; account_id := account_id ex_quiet; orphan_settle := orphan_settle ex_quiet;
  liquidation_deadline := liquidation_deadline ex_quiet; evaluate := evaluate ex_quiet; revalidate := revalidate ex_quiet;
  send_gate := send_gate ex_quiet; submit_bracket := submit_bracket ex_quiet; orphan_evidence := orphan_evidence ex_quiet;
  latest_enumeration := latest_enumeration ex_quiet; entry_orders := entry_orders ex_quiet; has_trace := has_trace ex_quiet;
  record_signal := record_signal ex_quiet; start_flatten := start_flatten ex_quiet;
|}.
Definition ex_begin : world sagas := mkWorld (empty_journal (mkPconn ∅ no_sagas)) 0 [].
Definition ex_sent : world sagas := final (start ex_ports ex_entry ex_approved) ex_begin.
Definition ex_filled : world sagas := final (on_broker_event ex_ports (ex_fill 100 "Filled" "ev-fill")) ex_sent.
Definition ex_again : world sagas := final (start ex_ports ex_entry ex_approved) ex_filled.
(** Without the stop the fill is a failure, and the stop comes too late. *)
Definition ex_failed : world sagas := final (on_broker_event ex_quiet (ex_fill 100 "Filled" "ev-fill")) (final (start ex_quiet ex_entry ex_approved) ex_begin).
Definition ex_late : world sagas := final (on_broker_event ex_quiet ex_stop) ex_failed.
(** The next generation of the broker's orders shows nothing of the send. *)
Definition ex_unsent : world sagas := final (start ex_quiet ex_entry ex_approved) ex_begin.
Definition ex_enumeration : BrokerEnumeration := mkEnumeration 4 (seconds 50).

Definition ex_brief (w : world sagas) := (λ s, (ss_state s, ss_revision s, ss_flatten s, ss_error s)) <$> load "cmd-1" (rows_now w).
Example ex_runs :
  map ex_brief [ex_sent; ex_filled; ex_failed; ex_late] =
    [Some (SUBMITTING, 3, false, None); Some (PROTECTED, 5, false, None);
     Some (SAFETY_FAILED, 4, true, Some "MISSING_PROTECTION"%string); Some (SAFETY_FAILED, 4, true, Some "MISSING_PROTECTION"%string)].
Proof. vm_compute. reflexivity. Qed.

(** The entry is filled in part, and then ends: rejected, the row is closed although
    shares are held and no stop works; cancelled, it stays open without an incident. *)
Definition ex_partly (status : string) : world sagas :=
  final (on_broker_event ex_quiet (ex_fill 40 status "ev-end")) (final (on_broker_event ex_quiet (ex_fill 40 "Submitted" "ev-part")) ex_unsent).
Example rejected_after_a_fill :
  ex_brief (ex_partly "Inactive") = Some (CLOSED, 5, false, Some "PARENT_REJECTED"%string) ∧
  (filled_part <$> load "cmd-1" (rows_now (ex_partly "Inactive"))) = Some (mkDec 40 0) ∧
  ex_brief (final (on_broker_event ex_quiet (mkOrderEvent ex_group "stop" "Inactive" dzero "ev-lost" 0 None)) (ex_partly "Inactive"))
    = ex_brief (ex_partly "Inactive").
Proof. vm_compute. done. Qed.
Example cancelled_after_a_fill : ex_brief (ex_partly "Cancelled") = Some (PARTIALLY_FILLED, 5, false, None).
Proof. vm_compute. reflexivity. Qed.

Definition row_in (w : world sagas) : SagaState :=
  default (new_saga "" ex_entry CLOSED dzero None 0 None) (load "cmd-1" (rows_now w)).
Lemma row_in_load w : is_Some (load "cmd-1" (rows_now w)) → load "cmd-1" (rows_now w) = Some (row_in w).
Proof. unfold row_in. by intros [s ->]. Qed.
Lemma found w : bool_decide (is_Some (load "cmd-1" (rows_now w))) = true → load "cmd-1" (rows_now w) = Some (row_in w).
Proof. intros E. apply row_in_load. by apply bool_decide_eq_true_1 in E. Qed.

Lemma ex_quiet_lawful : lawful_others ex_quiet.
Proof. intros n j Hd. split; [exact Hd|reflexivity]. Qed.
Lemma ex_foreign e : String.prefix "ev-" (ev_id e) = true → foreign_event e.
Proof. intros Hp c st n E. by rewrite E in Hp. Qed.
Lemma ex_ports_lawful : lawful_others ex_ports.
Proof.
  apply (service_is_lawful ex_ports ex_quiet ex_quiet_lawful). intros n j. exists (mkWorld j 0 []). split; [done|]. split; [done|].
  simpl. case_decide; [|by eexists]. eexists. split; [|reflexivity]. by apply rtc_once, sg_event, ex_foreign.
Qed.
Lemma ex_begins : begins ex_begin.
Proof. by eexists. Qed.
Lemma ex_sent_reachable : reachable ex_ports ex_sent.
Proof. exists ex_begin. split; [apply ex_begins|]. apply rtc_once, sg_start. Qed.
Lemma ex_filling : rtc (saga_step ex_ports) ex_sent ex_filled.
Proof. by apply rtc_once, sg_event, ex_foreign. Qed.
Lemma reachable_steps P (w w' : world sagas) : reachable P w → rtc (saga_step P) w w' → reachable P w'.
Proof. intros (w0 & Hb & Hs) Hs'. exists w0. split; [done|by etrans]. Qed.
Lemma ex_filled_reachable : reachable ex_ports ex_filled.
Proof. apply (reachable_steps _ _ _ ex_sent_reachable ex_filling). Qed.
Lemma ex_unsent_reachable : reachable ex_quiet ex_unsent.
Proof. exists ex_begin. split; [apply ex_begins|]. apply rtc_once, sg_start. Qed.
Lemma ex_failed_reachable : reachable ex_quiet ex_failed.
Proof. apply (reachable_steps _ ex_unsent); [apply ex_unsent_reachable|]. by apply rtc_once, sg_event, ex_foreign. Qed.

Lemma no_write_is_lost_witness :
  let s := row_in ex_sent in
  ∃ s', load "cmd-1" (rows_now ex_filled) = Some s' ∧ lives s s' ∧ identity s' = identity s ∧
    ss_revision s ≤ ss_revision s' ∧ (ss_revision s' = ss_revision s → s' = s) ∧
    generation_of s ≤ generation_of s' ∧
    (generation_of s' = generation_of s → (dval (filled (ss_qty s)) <= dval (filled (ss_qty s')))%Q).
Proof.
  apply (no_write_is_lost ex_ports ex_sent ex_filled "cmd-1" (row_in ex_sent) ex_ports_lawful ex_sent_reachable ex_filling).
  apply found. vm_compute. reflexivity.
Defined.
Lemma filled_entry_is_watched_witness :
  let s := row_in ex_filled in
  stop_working (ss_legs s) = true ∨ stop_filled (ss_legs s) = true ∨ target_filled (ss_legs s) = true ∨
   close_owned_once s = true ∨ (ss_state s = SAFETY_FAILED ∧ ss_flatten s = true) ∨
   (ss_state s = CLOSED ∧ ss_error s = Some "PARENT_REJECTED"%string).
Proof.
  refine (proj1 (filled_entry_is_watched ex_ports ex_filled "cmd-1" (row_in ex_filled) ex_ports_lawful ex_filled_reachable _) _ _).
  - apply found. vm_compute. reflexivity.
  - vm_compute. reflexivity.
  - vm_compute. discriminate.
Defined.
Lemma failure_stays_listed_witness :
  ∃ l, outcome (unhandled_failures ex_quiet (ss_account (row_in ex_failed))) ex_late = Ok l ∧ "cmd-1"%string ∈ l.
Proof.
  apply (failure_stays_listed ex_quiet ex_failed ex_late "cmd-1" (row_in ex_failed) ex_quiet_lawful ex_failed_reachable).
  - by apply rtc_once, sg_event, ex_foreign.
  - apply found. vm_compute. reflexivity.
  - vm_compute. reflexivity.
Defined.
Lemma ex_logged (w : world sagas) : bool_decide (length (w_sent w) = 1)%nat = true → ∃ e : BracketPlan * sagas, w_sent w = [e].
Proof. intros E. apply bool_decide_eq_true_1 in E. destruct (w_sent w) as [|e [|]]; [done|by exists e|done]. Qed.
(** Started twice, sent once. *)
Lemma brackets_go_out_once_witness :
  ∃ plan rows, w_sent ex_again = [(plan, rows)] ∧
    (∃ s r, ss_state s = SUBMITTING ∧ load (ss_command s) rows = Some r ∧ lives s r ∧
      ∃ i q limit, build_bracket_plan i q (Some limit) (ss_group r) false = Ok plan).
Proof.
  assert (∃ e, w_sent ex_again = [e]) as [[plan rows] E] by (apply ex_logged; vm_compute; reflexivity).
  assert (reachable ex_ports ex_again) as Hr.
  { apply (reachable_steps _ ex_filled); [apply ex_filled_reachable|]. apply rtc_once, sg_start. }
  exists plan, rows. split; [exact E|].
  apply (proj1 (brackets_go_out_once ex_ports ex_again ex_ports_lawful Hr)). rewrite E. left.
Defined.
Lemma event_counts_once_witness :
  on_broker_event ex_ports (ex_fill 100 "Filled" "ev-fill") ex_filled =
    (Ok (row_in ex_filled), mkWorld (w_journal ex_filled) (S (w_calls ex_filled)) (w_sent ex_filled)).
Proof.
  assert (others ex_ports (w_calls ex_filled) (w_journal ex_filled) = w_journal ex_filled) as Ej by (vm_compute; reflexivity).
  rewrite <-Ej at 1.
  apply (event_counts_once ex_ports ex_filled ex_filled "cmd-1" (row_in ex_filled) (ex_fill 100 "Filled" "ev-fill") (row_in ex_filled) 0
    ex_ports_lawful ex_filled_reachable (rtc_refl _ _)).
  - apply found. vm_compute. reflexivity.
  - apply (bool_decide_eq_true_1 _). vm_compute. reflexivity.
  - rewrite Ej. vm_compute. reflexivity.
  - vm_compute. reflexivity.
Defined.
Lemma orphan_needs_evidence_witness :
  let s := row_in ex_unsent in
  let t0 := sagas_of (others ex_quiet (w_calls ex_unsent) (w_journal ex_unsent)) in
  let t1 := rows_now (final (retire_if_orphan ex_quiet s ex_enumeration (seconds 90)) ex_unsent) in
  load "cmd-1" t1 = Some (retired_row s) ∧
  (t1 = rows_now ex_unsent ∨ t1 = t0 ∨
  ∃ g at' back n, send_generation (ss_send s) = Some g ∧ send_attempted_at (ss_send s) = Some at' ∧
    send_returned_at (ss_send s) = Some back ∧ g < 4 ∧ back < seconds 50 ∧ seconds 60 ≤ seconds 90 - back ∧
    has_trace ex_quiet n s at' = Ok false ∧ (ss_revision <$> load (ss_command s) t0) = Some (ss_revision s) ∧
    load (ss_command s) t1 = Some (retired_row s)).
Proof.
  cbv zeta. split; [vm_compute; reflexivity|].
  exact (orphan_needs_evidence ex_quiet ex_unsent (row_in ex_unsent) ex_enumeration (seconds 90) ex_quiet_lawful ex_unsent_reachable).
Defined.
End example.
